(* ===== verification/_CoqProject ===== *)
-Q . S2P
Prelude.v
AlGraph.v
TopoSort.v
RWSet.v
GoText.v
JohnsonCE.v
BreakCycles.v
ConflictGraph.v
KeyDerive.v
ContractManager.v
WitnessExport.v
Execution.v
Vegeta.v
ReplayAdapter.v
ConflictQueue.v
QueueOrder.v
QueueGraph.v
ClassicalScheme.v
Depurge.v
DepurgeInv.v
DepurgeRuns.v
DepurgeSchedule.v
ReplayDepurge.v
StateDB.v
StateSpec.v
SharedTrie.v
HexKeys.v
Levm.v
SpecFallback.v
Overlay.v
Metering.v
FallbackPool.v
WitnessTrie.v
SerialReplay.v
BlockCommit.v
SharedReplay.v
Merkle.v
SpecArgs.v
SpecExecutor.v
SpecSets.v
LocalContracts.v
DeployOrder.v
LocalState.v
LocalRun.v
Tracker.v
Replayd.v
ReplayInject.v
