(* ===== verification/Prelude.v ===== *)
(** * Nezha: schedulers for concurrent execution of Ethereum blocks

    The repository under [src/] takes a block of transactions, predicts which
    state cells each one touches, and commits the block in parallel.  Its parts:

    - graph schemes ([core/classical_graph.go], [graph/]): a conflict graph of
      the block, abort of transactions until it has no cycle, topological sort;
    - the Nezha queues ([core/conflict_queue.go], [core/nezha_variable.go]): one
      queue per state cell, sequence numbers instead of a graph;
    - the Depurge scheduler ([core/Depurge.go]): key queues with conservative
      predictions, narrowed at run time;
    - predictions: key sets derived from analysed contracts
      ([utils/mainnet_contract_mgr.go], [utils/mainnet_keyderive.go]) or from a
      speculative execution on the block's witness
      ([utils/levm_spec_fallback.go]), turned into scheduler input by
      [utils/replay_adapter.go]; [utils/mainnet_spec_executor.go] decides
      between the two for every transaction of a block;
    - benchmark contracts ([utils/config.go], [utils/contract_manager.go],
      [utils/data.go]): a configuration of contracts, their deployment and
      the storage keys of their variables;
    - replay drivers ([test_replay.go], [test.go]): run a block through Depurge
      or Vegeta and merge the written values;
    - the executor underneath: [evm/levm] on the go-ethereum copy under
      [ethereum/go-ethereum] (state database with journal, tries, EVM calls);
    - the exporter of block witnesses ([cmd/eth-dataset-exporter/exporter]);
    - the replay daemon ([cmd/eth-replayd]): execution of single transactions
      and blocks on a witness, with the read and write keys recorded, on
      another version of go-ethereum;
    - Merkle trees with proofs ([evm/splashmerkle]).

    ** Files

    Foundations.  [Prelude.v]: the result type [outcome] ([Ret], [Panics] for a
    Go run-time panic, [Diverges] for exhausted fuel), loops over it, list and
    sorting lemmas, the hint databases.  [GoText.v]: byte strings, hex and
    64-bit words of the Go library, and the state keys [AcctKey], [SlotKey],
    [ParseKey].  [RWSet.v]: [core/rwset_builder.go].

    Graph schemes.  [AlGraph.v], [TopoSort.v]: adjacency lists and the two
    topological sorts.  [JohnsonCE.v], [BreakCycles.v]: [graph/*.go].
    [ConflictGraph.v]: both builders and the older cycle removals.
    [ClassicalScheme.v]: their composition.

    Queues.  [ConflictQueue.v] holds the operations over a heap of shared
    nodes, [QueueOrder.v] the order one queue gives, [QueueGraph.v] the
    theorems on a whole block.

    Depurge.  [Depurge.v] (operations), [DepurgeInv.v] (representation
    invariant), [DepurgeRuns.v] (histories), [DepurgeSchedule.v] (levels,
    loading), [ReplayDepurge.v] (the concurrent validation loop as a step
    relation).

    Predictions and witnesses.  [KeyDerive.v], [ContractManager.v],
    [ReplayAdapter.v], [WitnessExport.v].  [SpecArgs.v] decodes the arguments of
    a call and adds account keys, [SpecExecutor.v] predicts a block with
    concurrent lookups and executions, [SpecSets.v] sequentially, and says what
    the predicted sets cover.

    Benchmark contracts.  [LocalContracts.v] (configuration, storage keys),
    [DeployOrder.v] (order of deployment), [LocalState.v] (committed values and
    re-execution on pooled instances), [LocalRun.v] ([TestDepurge] as a step
    relation over the Depurge scheduler).

    Replay daemon.  [Tracker.v] (the state that records keys, [rw_tracker.go]),
    [Replayd.v] (execution of a transaction and of a block, [preexec.go] and
    [tx_executor.go]), [ReplayInject.v] (committed values injected and collected,
    [execute_with_state.go], and the sparse state of [sparse_statedb.go]).

    [Merkle.v]: [evm/splashmerkle].

    Executor.  [StateDB.v] (objects, journal, snapshots), [StateSpec.v] (the
    specification without journal and caches, and the refinement),
    [SharedTrie.v] (finalising, committing and sharing tries), [HexKeys.v]
    (hex numbers, canonical slot keys), [Levm.v] (one transaction),
    [Metering.v] (refund counter), [SpecFallback.v] (the speculative executor),
    [Overlay.v] (its reports and overlays), [FallbackPool.v] (worker pool),
    [WitnessTrie.v] (the trie built from a witness).

    Replay.  [Execution.v] is the interface between schedulers and executor:
    class [ReExecutor], under which [Vegeta.v] and [ReplayDepurge.v] are proved.
    [SerialReplay.v] is the serial last phase of both modes, [BlockCommit.v] the
    commit at the end of a block, [SharedReplay.v] the mode in which workers
    flush into one trie.

    ** What the theorems show

    Scheduling: one queue orders its cell serially, ranks are complete, every
    surviving transaction commits once; the topological sorts respect arcs and
    end on cyclic graphs; the cycle breaker leaves no recorded cycle; both graph
    builders agree.  The Depurge queues are the pending claims in order of
    arrival, conflicting transactions never run together, some transaction can
    always run, and levels respect conflicts.  Both replay modes commit what a
    serial execution would commit, Depurge under the condition that no worker
    copies the committed writes between another's release and merge.

    Execution: the journalled database answers every program as a database that
    saves and restores whole states, panics included; a flush into the shared
    trie shows every account to the next worker; speculative calls leave no
    trace and batches end with the answer of every job; reports and overlays
    round trip; metered stores keep the refund counter non-negative.  A witness
    trie holds what injecting the witness gives; serial replay is the execution
    of one transaction after the other; what the block commit writes is what a
    database opened on it shows; workers that take turns on a shared trie
    execute their batch serially.

    Predictions: conservative key sets are complete, state keys and ABI data
    round trip, witnesses hold first-touched values.  The prediction of a block
    ends under every interleaving with a set for every transaction and correct
    statistics, and the sets cover what the analysis names.

    Benchmark contracts: deployment gives every contract of an acyclic
    configuration its address; the recalculated keys cover the accesses of a
    transaction; a run of [TestDepurge] whose handlers publish before another
    one re-executes ends, and commits what a serial execution would.  For this
    a transaction works on one contract, loads a slot only before writing it,
    and constructors leave the storage empty.

    Replay daemon: an execution is determined by the keys recorded as read, and
    what it changes is recorded as written; a failing transaction leaves the
    state alone and a successful one uses between its intrinsic gas and its
    limit; values collected from one state and injected into another come back
    unchanged, in every order of the map.

    Merkle trees: proofs verify for every input of a full tree, and a proof
    that verifies is about a node of the tree unless the hash collides.

    Counterexamples, each a closed computation on a small input, show where the
    code departs from its intention: queue numbers that are no serial order,
    aborted transactions that are committed, updates lost in the validation
    loops, in one transaction and between two flushes of one account, writes of
    aborted transactions that later ones read, a commit that stores nothing,
    trees without proofs, a refund that creates money, account creations that are
    not recorded, code of an earlier witness, deployed code and inner writes
    that are not published, reverted writes
    that are reported, an overlay that makes a store panic, calldata that makes
    a deriver panic.

    ** Conventions and bounds

    A Go [string] and [[]byte] is a [string] of bytes, a [*big.Int] a [Z], a
    [uint64] a [Z] with its wrap-around written out ([wrap_uint64]), a map a
    [gmap]; where a result could depend on the order in which Go ranges over a
    map, that order is the argument [rng] and the theorems hold for every order
    ([range_ok]).  Fuel is used in depth-first searches (one more than the
    number of vertices or contracts), the topological sorts and level loops (one round per
    vertex or pending transaction), the Vegeta loop (one batch per transaction),
    the layers of a Merkle tree (one more than the inputs) and integer printing (the
    number of digits); each termination theorem shows
    the fuel is enough.  Keccak-256, signature recovery, roots of tries, gonum's
    cycle enumeration, the disk cache of analyses and the byte code interpreter
    are arguments; so are, for the benchmark contracts, the storage
    instructions of a call.  The interpreter is a program over the operations of the
    state database whose call frames are balanced ([framed]).  The state database
    of the replay daemon is outside the repository and enters as the classes
    [StateLaws] and [ValueLaws], with a small database as their instance.

    ** Not modelled

    Flags, files, sockets, RPC and LLM clients, timing, logging, charts; the
    encoding and hashing of trie nodes; the interpreter loop and its other
    opcodes; peer-to-peer and consensus code of the vendored client; the
    signature schemes ([evm/splashecdsa]); the branch of the block prediction
    for an executor that is not a pool, which is never built.  They are I/O or third-party code the modelled parts only
    call, and enter as arguments where a result depends on them. *)
From stdpp Require Import base gmap sets list strings sorting list_numbers relations.
From Stdlib Require Import ZArith Lia.

Set Default Goal Selector "!".

(** ** Faults

    A Go function can return, panic (nil dereference, index out of range) or
    loop forever.  The model returns an [outcome]: [Diverges] is produced only
    by the fuel of a loop running out, so a theorem that a function [Ret]urns
    is a theorem that the loop ends and that no index is out of range. *)
Inductive outcome (A : Type) : Type :=
| Ret (a : A)
| Panics
| Diverges.
Arguments Ret {A} a.
Arguments Panics {A}.
Arguments Diverges {A}.

#[export] Instance outcome_ret : MRet outcome := fun A a => Ret a.
#[export] Instance outcome_bind : MBind outcome := fun A B f m =>
  match m with Ret a => f a | Panics => Panics | Diverges => Diverges end.

(** A Go index expression: [None] is the out-of-range panic. *)
Definition or_panic {A} (o : option A) : outcome A :=
  match o with Some a => Ret a | None => Panics end.

Definition is_Ret {A} (m : outcome A) : Prop := exists a, m = Ret a.

(** [for _, x := range l { s = f(s, x) }] where the body can panic. *)
Fixpoint foldM {S A} (f : S -> A -> outcome S) (s : S) (l : list A) : outcome S :=
  match l with
  | [] => Ret s
  | x :: l => f s x ≫= fun s => foldM f s l
  end.

Lemma bind_ret {A B} (a : A) (f : A -> outcome B) : (Ret a ≫= f) = f a.
Proof. done. Qed.

Lemma foldM_app {S A} (f : S -> A -> outcome S) s l1 l2 :
  foldM f s (l1 ++ l2) = foldM f s l1 ≫= fun s => foldM f s l2.
Proof.
  revert s; induction l1 as [|x l1 IH]; intros s; [done|].
  cbn [app foldM]. destruct (f s x); [apply IH|done..].
Qed.

(** Invariant rule for a loop over a slice: the body keeps [I] of the part of
    the slice already visited. *)
Lemma foldM_inv {S A} (f : S -> A -> outcome S) (I : list A -> S -> Prop) l s0 :
  I [] s0 ->
  (forall pre x post s, l = pre ++ x :: post -> I pre s ->
     exists s', f s x = Ret s' /\ I (pre ++ [x]) s') ->
  exists s', foldM f s0 l = Ret s' /\ I l s'.
Proof.
  intros H0 Hstep.
  enough (forall post pre s, l = pre ++ post -> I pre s ->
    exists s', foldM f s post = Ret s' /\ I l s') as Hgen by (by apply (Hgen l [])).
  induction post as [|x post IH]; intros pre s Hl HI.
  { exists s. rewrite app_nil_r in Hl. by subst. }
  destruct (Hstep pre x post s Hl HI) as (s' & Hf & HI').
  cbn [foldM]. rewrite Hf. cbn [mbind outcome_bind].
  apply (IH (pre ++ [x])); [by rewrite <- app_assoc|done].
Qed.

(** Partial correctness: what every iteration that returns preserves. *)
Lemma foldM_preserves {S A} (f : S -> A -> outcome S) (I : S -> Prop) l : forall s s',
  (forall s x s', I s -> f s x = Ret s' -> I s') -> I s -> foldM f s l = Ret s' -> I s'.
Proof.
  induction l as [|x l IH]; intros s s' Hf HI; cbn [foldM]; [by intros [= <-]|].
  destruct (f s x) as [s1| |] eqn:E; [|done|done]. rewrite bind_ret. apply IH; [done|by eapply Hf].
Qed.

(** The same for a loop [for i := 0; i < n; i++]. *)
Lemma foldM_seq_inv {S} (f : S -> nat -> outcome S) (I : nat -> S -> Prop) n s0 :
  I 0 s0 -> (forall i s, i < n -> I i s -> exists s', f s i = Ret s' /\ I (1 + i) s') ->
  exists s', foldM f s0 (seq 0 n) = Ret s' /\ I n s'.
Proof.
  intros H0 Hstep.
  destruct (foldM_inv f (fun pre s => I (length pre) s) (seq 0 n) s0) as (s' & Hf & HI); [done| |].
  - intros pre i post s Hl HI.
    assert (seq 0 n !! length pre = Some i) as Hi by (rewrite Hl; by apply list_lookup_middle).
    apply lookup_seq in Hi as [-> Hi]. destruct (Hstep (length pre) s Hi HI) as (s' & Hf & HI').
    exists s'. split; [done|]. rewrite length_app. cbn. by rewrite Nat.add_comm.
  - exists s'. split; [done|]. by rewrite length_seq in HI.
Qed.

(** ** Machine integers *)
Definition MaxInt32 : Z := 2147483647.
Definition MaxInt64 : Z := 9223372036854775807.
Definition wrap_int32 (z : Z) : Z := ((z + 2^31) `mod` 2^32 - 2^31)%Z.
Definition wrap_uint64 (z : Z) : Z := (z `mod` 2^64)%Z.

Lemma wrap_int32_id z : (- 2^31 <= z <= MaxInt32)%Z -> wrap_int32 z = z.
Proof.
  unfold wrap_int32, MaxInt32. intros H. rewrite Z.mod_small by lia. lia.
Qed.

Lemma wrap_uint64_id z : (0 <= z < 2^64)%Z -> wrap_uint64 z = z.
Proof. unfold wrap_uint64. intros H. by apply Z.mod_small. Qed.

Lemma wrap_uint64_range z : (0 <= wrap_uint64 z < 2^64)%Z.
Proof. unfold wrap_uint64. apply Z.mod_pos_bound. lia. Qed.

(** ** Big integers

    [*big.Int] is [Z]; [SetBytes] reads a big-endian byte slice and
    [FillBytes] writes one of a fixed length. *)
Definition two256 : Z := 2^256.
Definition two255 : Z := 2^255.

Definition byte_val (a : Ascii.ascii) : Z := Z.of_N (Ascii.N_of_ascii a).

Fixpoint SetBytes_acc (acc : Z) (s : string) : Z :=
  match s with
  | EmptyString => acc
  | String a s => SetBytes_acc (acc * 256 + byte_val a)%Z s
  end.
Definition SetBytes (s : string) : Z := SetBytes_acc 0 s.

Definition byte_of (z : Z) : Ascii.ascii := Ascii.ascii_of_N (Z.to_N (z `mod` 256)).

Fixpoint FillBytes_acc (n : nat) (z : Z) (s : string) : string :=
  match n with
  | 0 => s
  | S n => FillBytes_acc n (z / 256)%Z (String (byte_of z) s)
  end.
Definition FillBytes (n : nat) (z : Z) : string := FillBytes_acc n z EmptyString.

Lemma byte_val_range a : (0 <= byte_val a < 256)%Z.
Proof.
  unfold byte_val. pose proof (Ascii.N_ascii_bounded a) as H. split; [lia|]. lia.
Qed.

Lemma byte_val_of z : byte_val (byte_of z) = (z `mod` 256)%Z.
Proof.
  unfold byte_val, byte_of. pose proof (Z.mod_pos_bound z 256 ltac:(lia)) as H.
  rewrite Ascii.N_ascii_embedding by lia. lia.
Qed.

Lemma SetBytes_acc_eq acc s :
  SetBytes_acc acc s = (acc * 256 ^ Z.of_nat (String.length s) + SetBytes s)%Z.
Proof.
  unfold SetBytes. revert acc; induction s as [|a s IH]; intros acc; cbn [SetBytes_acc String.length]; [lia|].
  rewrite IH, (IH (0 * 256 + byte_val a)%Z). rewrite Nat2Z.inj_succ, Z.pow_succ_r by lia. lia.
Qed.

Lemma SetBytes_nonneg s : (0 <= SetBytes s)%Z.
Proof.
  induction s as [|a s IH]; [done|]. unfold SetBytes. cbn [SetBytes_acc].
  rewrite SetBytes_acc_eq. pose proof (byte_val_range a). pose proof (Z.pow_nonneg 256 (Z.of_nat (String.length s))). nia.
Qed.

Lemma SetBytes_bound s : (SetBytes s < 256 ^ Z.of_nat (String.length s))%Z.
Proof.
  induction s as [|a s IH]; [done|]. unfold SetBytes. cbn [SetBytes_acc String.length].
  rewrite SetBytes_acc_eq, Nat2Z.inj_succ, Z.pow_succ_r by lia. pose proof (byte_val_range a).
  pose proof (Z.pow_pos_nonneg 256 (Z.of_nat (String.length s))). nia.
Qed.

Lemma SetBytes_FillBytes_acc n z acc :
  SetBytes (FillBytes_acc n z acc)
  = ((z `mod` 256 ^ Z.of_nat n) * 256 ^ Z.of_nat (String.length acc) + SetBytes acc)%Z.
Proof.
  revert z acc; induction n as [|n IH]; intros z acc; cbn [FillBytes_acc].
  { rewrite Z.mod_1_r. lia. }
  rewrite IH. unfold SetBytes at 1. cbn [SetBytes_acc String.length].
  rewrite SetBytes_acc_eq, byte_val_of, !Nat2Z.inj_succ, !Z.pow_succ_r by lia.
  pose proof (Z.pow_pos_nonneg 256 (Z.of_nat n)).
  rewrite (Z.rem_mul_r z 256 (256 ^ Z.of_nat n)) by lia. ring.
Qed.

(** Writing and reading back is the identity modulo the width. *)
Lemma SetBytes_FillBytes n z : SetBytes (FillBytes n z) = (z `mod` 256 ^ Z.of_nat n)%Z.
Proof. unfold FillBytes. rewrite SetBytes_FillBytes_acc. cbn. lia. Qed.

(** ** Sums of integers *)
Definition zsum (l : list Z) : Z := foldr Z.add 0%Z l.

Lemma zsum_app l1 l2 : zsum (l1 ++ l2) = (zsum l1 + zsum l2)%Z.
Proof. induction l1 as [|x l1 IH]; cbn; [done|]. unfold zsum in *. lia. Qed.

Lemma zsum_insert l j x y : l !! j = Some x -> zsum (<[j := y]> l) = (zsum l - x + y)%Z.
Proof.
  unfold zsum. revert j; induction l as [|z l IH]; intros [|j] Hj; cbn in *; try done.
  - injection Hj as ->. lia.
  - rewrite IH by done. lia.
Qed.

Lemma zsum_nonneg l : Forall (fun x => 0 <= x)%Z l -> (0 <= zsum l)%Z.
Proof. induction 1; cbn; [done|]. unfold zsum in *. lia. Qed.

Lemma zsum_zero l : Forall (fun x => 0 <= x)%Z l -> zsum l = 0%Z -> Forall (fun x => x = 0%Z) l.
Proof.
  induction 1 as [|x l Hx Hl IH]; intros Hz; [constructor|]. cbn in Hz.
  pose proof (zsum_nonneg l Hl). unfold zsum in *. constructor; [lia|]. apply IH. lia.
Qed.

Lemma zsum_replicate_0 n : zsum (replicate n 0%Z) = 0%Z.
Proof. induction n as [|n IH]; [done|]. unfold zsum in *. cbn. by rewrite IH. Qed.

(** ** Sorting: [sort.Strings] and [sort.Ints] *)
Definition sort_strings : list string -> list string := merge_sort String.le.
Definition sort_ints : list Z -> list Z := merge_sort Z.le.

Lemma sort_strings_perm l : sort_strings l ≡ₚ l.
Proof. apply merge_sort_Permutation. Qed.

Lemma sort_strings_sorted l : Sorted String.le (sort_strings l).
Proof. apply Sorted_merge_sort; apply _. Qed.

(** The result of a sort does not depend on the order of its input: this is
    what makes the ranges over Go maps that feed a sort deterministic. *)
Lemma sort_strings_proper l1 l2 : l1 ≡ₚ l2 -> sort_strings l1 = sort_strings l2.
Proof.
  intros Hp. apply (Sorted_unique String.le); [apply sort_strings_sorted..|].
  by rewrite !sort_strings_perm.
Qed.

Lemma sort_ints_perm l : sort_ints l ≡ₚ l.
Proof. apply merge_sort_Permutation. Qed.

Lemma sort_ints_sorted l : Sorted Z.le (sort_ints l).
Proof. apply Sorted_merge_sort; apply _. Qed.

Lemma sort_ints_proper l1 l2 : l1 ≡ₚ l2 -> sort_ints l1 = sort_ints l2.
Proof.
  intros Hp. apply (Sorted_unique Z.le); [apply sort_ints_sorted..|].
  by rewrite !sort_ints_perm.
Qed.

(** ** Iteration over Go maps

    [for k := range m] visits the keys in an unspecified order.  A definition
    that ranges over a map takes the order as an argument: a function from the
    set of keys to a list.  [range_ok] is all the language promises. *)
Definition range_ok {K} `{Countable K} (rng : gset K -> list K) : Prop :=
  forall X, rng X ≡ₚ elements X.

Lemma range_ok_elements {K} `{Countable K} : range_ok (elements (C := gset K)).
Proof. by intros X. Qed.

Lemma range_ok_elem {K} `{Countable K} rng (X : gset K) x :
  range_ok rng -> x ∈ rng X <-> x ∈ X.
Proof. intros Hr. by rewrite (Hr X), elem_of_elements. Qed.

Lemma range_ok_nodup {K} `{Countable K} rng (X : gset K) :
  range_ok rng -> NoDup (rng X).
Proof. intros Hr. rewrite (Hr X). apply NoDup_elements. Qed.

(** ** Order-preserving deduplication with a [seen] map *)
Fixpoint dedup_go {A} `{Countable A} (seen : gset A) (l : list A) : list A :=
  match l with
  | [] => []
  | x :: l => if decide (x ∈ seen) then dedup_go seen l
              else x :: dedup_go ({[x]} ∪ seen) l
  end.

Lemma elem_of_dedup_go {A} `{Countable A} (seen : gset A) l x :
  x ∈ dedup_go seen l <-> x ∈ l /\ x ∉ seen.
Proof.
  revert seen; induction l as [|y l IH]; intros seen; cbn [dedup_go].
  { set_solver. }
  case_decide as Hy; [rewrite IH; set_solver|].
  rewrite !elem_of_cons, IH. destruct (decide (x = y)); set_solver.
Qed.

Lemma NoDup_dedup_go {A} `{Countable A} (seen : gset A) l : NoDup (dedup_go seen l).
Proof.
  revert seen; induction l as [|y l IH]; intros seen; cbn [dedup_go].
  { constructor. }
  case_decide; [apply IH|]. constructor; [|apply IH].
  rewrite elem_of_dedup_go. set_solver.
Qed.

(** ** Counting on lists *)
Definition countb {A} (f : A -> bool) (l : list A) : nat := length (filter (fun x => f x = true) l).

Lemma countb_app {A} (f : A -> bool) l1 l2 : countb f (l1 ++ l2) = countb f l1 + countb f l2.
Proof. unfold countb. by rewrite filter_app, length_app. Qed.

Lemma countb_nil {A} (f : A -> bool) : countb f [] = 0.
Proof. done. Qed.

Lemma countb_cons {A} (f : A -> bool) x l : countb f (x :: l) = (if f x then 1 else 0) + countb f l.
Proof. unfold countb. rewrite filter_cons. by destruct (f x). Qed.

Lemma countb_ext {A} (f g : A -> bool) l : (forall x, x ∈ l -> f x = g x) -> countb f l = countb g l.
Proof.
  induction l as [|x l IH]; intros Hfg; [done|]. rewrite !countb_cons, Hfg, IH; [done| |left].
  intros y Hy. apply Hfg. by right.
Qed.

Lemma countb_le_length {A} (f : A -> bool) l : countb f l <= length l.
Proof. apply length_filter. Qed.

Lemma filter_all_True {A} (P : A -> Prop) `{!forall x, Decision (P x)} (l : list A) :
  (forall x, x ∈ l -> P x) -> filter P l = l.
Proof.
  induction l as [|x l IH]; intros HP; [done|].
  rewrite filter_cons_True by (apply HP; left). f_equal. apply IH. intros y Hy. apply HP. by right.
Qed.

Lemma NoDup_fmap_elem {A B} (f : A -> B) (l : list A) x y :
  NoDup (f <$> l) -> x ∈ l -> y ∈ l -> f x = f y -> x = y.
Proof.
  induction l as [|z l IH]; intros Hnd Hx Hy Heq; [by apply elem_of_nil in Hx|].
  cbn [fmap list_fmap] in Hnd. apply NoDup_cons in Hnd as [Hz Hnd].
  apply elem_of_cons in Hx as [->|Hx]; apply elem_of_cons in Hy as [->|Hy]; [done| | |by apply IH].
  - destruct Hz. rewrite Heq. by apply list_elem_of_fmap_2.
  - destruct Hz. rewrite <- Heq. by apply list_elem_of_fmap_2.
Qed.

Lemma sum_list_with_ext {A} (f g : A -> nat) l :
  (forall x, x ∈ l -> f x = g x) -> sum_list_with f l = sum_list_with g l.
Proof.
  induction l as [|x l IH]; intros Hfg; [done|]. cbn.
  rewrite Hfg, IH; [done| |left]. intros y Hy. apply Hfg. by right.
Qed.

Lemma sum_list_with_zero {A} (f : A -> nat) l :
  sum_list_with f l = 0 <-> forall x, x ∈ l -> f x = 0.
Proof.
  induction l as [|x l IH]; cbn; [set_solver|].
  rewrite Nat.eq_add_0, IH. set_solver.
Qed.

(** A sum over a list splits along a decidable predicate. *)
Lemma sum_list_with_split {A} (P : A -> Prop) `{!forall x, Decision (P x)} (f : A -> nat) l :
  sum_list_with f l = sum_list_with f (filter P l) + sum_list_with f (filter (fun x => ~ P x) l).
Proof.
  induction l as [|x l IH]; [done|]. rewrite !filter_cons. cbn [sum_list_with].
  rewrite IH. destruct (decide (P x)); [rewrite decide_False by tauto|rewrite decide_True by done];
    cbn [sum_list_with]; lia.
Qed.

(** ** Automation *)
Create HintDb nezha.
#[export] Hint Resolve sort_strings_perm sort_strings_sorted NoDup_dedup_go range_ok_elements : nezha.
#[export] Hint Rewrite @countb_app @countb_cons : nezha.

(** Case analysis on every [bind] of an [outcome] in a hypothesis. *)
Ltac inv_outcome :=
  repeat match goal with
  | H : (?m ≫= _) = Ret _ |- _ =>
      let E := fresh "E" in destruct m eqn:E; cbn [mbind outcome_bind] in H; try discriminate H
  | H : or_panic ?o = Ret _ |- _ =>
      let E := fresh "E" in destruct o eqn:E; cbn [or_panic] in H; try discriminate H
  | H : Ret _ = Ret _ |- _ => injection H as H; subst
  end.
