(* ===== verification/AlGraph.v ===== *)
(** * Adjacency-list graphs and their topological sorts

    Models [AlGraph] of [core/classical_graph.go]: the adjacency list and the
    degree arrays ([Init]), the removal of aborted transactions
    ([RebuildGraph]), Kahn's sort used by the conflict-graph scheme
    ([BasicTopologicalSort]) and the total sort used to rank address queues
    ([AdvancedTopologicalSort], [findMaxNode]), which breaks cycles.

    A vertex is a [nat]; a slice index that Go would reject is [Panics].  The
    linked list of [ArcNode]s hanging off a vertex is a Rocq list. *)
From stdpp Require Import base list list_numbers gmap relations sets sorting.
From Stdlib Require Import ZArith Lia.
From S2P Require Import Prelude.

Set Default Goal Selector "!".

(** ** Data *)
Record ArcNode := mkArc { adj : nat; arc_isAborted : bool }.

Record VNode := mkVNode { data : nat; first : list ArcNode; isSorted : bool }.

Record AlGraph := mkAlGraph {
  vertices : list VNode;
  vexNum : nat;
  arcNum : nat;
  outDegree : list Z;
  inDegree : list Z }.

(** [var al AlGraph] *)
Definition empty_AlGraph : AlGraph := mkAlGraph [] 0 0 [] [].

Definition set_inDegree (ind : list Z) (al : AlGraph) : AlGraph :=
  mkAlGraph (vertices al) (vexNum al) (arcNum al) (outDegree al) ind.
Definition set_vertices (vs : list VNode) (al : AlGraph) : AlGraph :=
  mkAlGraph vs (vexNum al) (arcNum al) (outDegree al) (inDegree al).

(** ** Init *)
Definition init_vnode (i : nat) (v : list nat) : VNode :=
  mkVNode i ((fun a => mkArc a false) <$> v) false.

(** [inDegree[tmpVer.adj]++] over every arc of every vertex, in a Go map. *)
Definition count_inDegree (vs : list VNode) : gmap nat Z :=
  foldl (fun m ver => foldl (fun m a => <[adj a := (default 0 (m !! adj a) + 1)%Z]> m) m (first ver))
        ∅ vs.

Definition Init (al : AlGraph) (gSlice : list (list nat)) : AlGraph :=
  let nodes := imap init_vnode gSlice in
  let vs := vertices al ++ nodes in
  let vex := vexNum al + length gSlice in
  let ind := count_inDegree vs in
  mkAlGraph vs vex
    (arcNum al + sum_list_with length gSlice)
    (outDegree al ++ ((fun v => Z.of_nat (length v)) <$> gSlice))
    (inDegree al ++ ((fun i => default 0%Z (ind !! i)) <$> seq 0 vex)).

(** ** RebuildGraph *)
Definition isExistForInt (slice : list nat) (n : nat) : bool := existsb (Nat.eqb n) slice.

(** [al.inDegree[a]--] *)
Definition dec_inDegree (ind : list Z) (a : nat) : outcome (list Z) :=
  or_panic (ind !! a) ≫= fun x => Ret (<[a := (x - 1)%Z]> ind).

Definition rebuild_vertex (abortedTx : list nat) (st : list VNode * list Z) (v : VNode) :
    outcome (list VNode * list Z) :=
  let '(done, ind) := st in
  if isExistForInt abortedTx (data v) then
    foldM (fun ind a => dec_inDegree ind (adj a)) ind (first v) ≫= fun ind =>
    Ret (done ++ [v], ind)
  else
    let arcs := (fun a => if isExistForInt abortedTx (adj a) then mkArc (adj a) true else a) <$> first v in
    Ret (done ++ [mkVNode (data v) arcs (isSorted v)], ind).

Definition RebuildGraph (al : AlGraph) (abortedTx : list nat) : outcome AlGraph :=
  foldM (rebuild_vertex abortedTx) ([], inDegree al) (vertices al) ≫= fun '(vs, ind) =>
  Ret (set_vertices vs (set_inDegree ind al)).

(** ** BasicTopologicalSort *)

(** One arc of the vertex being removed. *)
Definition basic_relax (st : list Z * list nat) (a : ArcNode) : outcome (list Z * list nat) :=
  let '(ind, queue) := st in
  if arc_isAborted a then Ret st else
  dec_inDegree ind (adj a) ≫= fun ind =>
  or_panic (ind !! adj a) ≫= fun x =>
  Ret (ind, if decide (x = 0%Z) then queue ++ [adj a] else queue).

Fixpoint basic_loop (fuel : nat) (vs : list VNode) (ind : list Z) (queue order : list nat) :
    outcome (list Z * list nat) :=
  match fuel with
  | 0 => Diverges
  | S fuel =>
    match queue with
    | [] => Ret (ind, order)
    | top :: rest =>
      or_panic (vs !! top) ≫= fun v =>
      foldM basic_relax (ind, queue) (first v) ≫= fun '(ind, queue) =>
      basic_loop fuel vs ind (drop 1 queue) (order ++ [top])
    end
  end.

Definition zero_vertices (ind : list Z) : list nat :=
  fst <$> filter (fun p : nat * Z => p.2 = 0%Z) (imap pair ind).

Definition BasicTopologicalSort (al : AlGraph) : outcome (AlGraph * list nat) :=
  basic_loop (S (length (vertices al))) (vertices al) (inDegree al) (zero_vertices (inDegree al)) []
  ≫= fun '(ind, order) => Ret (set_inDegree ind al, order).

(** ** AdvancedTopologicalSort *)
Definition vertex_sorted (vs : list VNode) (i : nat) : outcome bool :=
  or_panic (vs !! i) ≫= fun v => Ret (isSorted v).

(** The in-degrees of the vertices not yet sorted, with their indices. *)
Definition unsorted_inDegree (vs : list VNode) (ind : list Z) : outcome (list (nat * Z)) :=
  foldM (fun acc p => vertex_sorted vs p.1 ≫= fun s => Ret (if s : bool then acc else acc ++ [p]))
        [] (imap pair ind).

Definition findMaxNode (al : AlGraph) (min : Z) : outcome nat :=
  unsorted_inDegree (vertices al) (inDegree al) ≫= fun uns =>
  let inDegreeVex := fst <$> filter (fun p : nat * Z => p.2 = min) uns in
  foldM (fun mx v => or_panic (outDegree al !! v) ≫= fun d =>
                     Ret (if decide (mx < d)%Z then d else mx)) 0%Z inDegreeVex ≫= fun max =>
  Ret (default 0 (head (filter (fun v => outDegree al !! v = Some max) inDegreeVex))).

(** [if v < min { min = v }] over the in-degrees, from [math.MaxInt64]. *)
Definition min_Z (l : list Z) : Z := foldl (fun mn v => if decide (v < mn)%Z then v else mn) MaxInt64 l.

Definition mark_sorted (i : nat) (vs : list VNode) : list VNode :=
  alter (fun v => mkVNode (data v) (first v) true) i vs.

Definition adv_relax (vs : list VNode) (st : list Z * list nat) (a : ArcNode) :
    outcome (list Z * list nat) :=
  let '(ind, queue) := st in
  vertex_sorted vs (adj a) ≫= fun s =>
  if s : bool then Ret st else
  dec_inDegree ind (adj a) ≫= fun ind =>
  or_panic (ind !! adj a) ≫= fun x =>
  Ret (ind, if decide (x = 0%Z) then queue ++ [adj a] else queue).

Fixpoint adv_loop (fuel : nat) (al : AlGraph) (min : Z) (queue order : list nat) :
    outcome (AlGraph * list nat) :=
  match fuel with
  | 0 => Diverges
  | S fuel =>
    match queue with
    | [] => Ret (al, order)
    | top :: _ =>
      or_panic (vertices al !! top) ≫= fun v =>
      let order := order ++ [top] in
      let vs := mark_sorted top (vertices al) in
      foldM (adv_relax vs) (inDegree al, queue) (first v) ≫= fun '(ind, queue) =>
      let queue := drop 1 queue in
      let al := set_vertices vs (set_inDegree ind al) in
      (if decide (length order < length vs)
       then unsorted_inDegree vs ind ≫= fun uns => Ret (min_Z (snd <$> uns))
       else Ret min) ≫= fun min =>
      (if decide (0 < min)%Z
       then findMaxNode al min ≫= fun top => Ret (queue ++ [top])
       else Ret queue) ≫= fun queue =>
      adv_loop fuel al min queue order
    end
  end.

Definition AdvancedTopologicalSort (fuel : nat) (al : AlGraph) : outcome (AlGraph * list nat) :=
  let zero := zero_vertices (inDegree al) in
  let min := min_Z (inDegree al) in
  (match zero with
   | [] => findMaxNode al min ≫= fun top => Ret [top]
   | _ => Ret zero
   end) ≫= fun zero =>
  adv_loop fuel al min zero [].

(** ** Examples: the code on small graphs *)
Definition topo (g : list (list nat)) : outcome (list nat) :=
  AdvancedTopologicalSort (S (length g)) (Init empty_AlGraph g) ≫= fun r => Ret (r.2).

Example topo_dag : topo [[1; 2]; [3]; [3]; []] = Ret [0; 1; 2; 3].
Proof. reflexivity. Qed.
Example topo_cycle : topo [[1]; [2; 3]; [0]; []] = Ret [1; 2; 3; 0].
Proof. reflexivity. Qed.
Example topo_empty : topo [] = Panics.
Proof. reflexivity. Qed.

(** ** Degrees as counts *)

(** How often [v] occurs in an adjacency row, and the arcs from [u] to [v]. *)
Definition occ (v : nat) (row : list nat) : nat := countb (Nat.eqb v) row.
Definition row_of (g : list (list nat)) (u : nat) : list nat := default [] (g !! u).
Definition mult (g : list (list nat)) (u v : nat) : nat := occ v (row_of g u).
Definition edge (g : list (list nat)) (u v : nat) : Prop := v ∈ row_of g u.
Definition deg (ind : list Z) (v : nat) : Z := default 0%Z (ind !! v).

(** Arcs into [v] from the vertices of a list. *)
Definition arcs_from (g : list (list nat)) (us : list nat) (v : nat) : nat :=
  sum_list_with (fun u => mult g u v) us.

Definition wf_graph (g : list (list nat)) : Prop :=
  Forall (fun row => Forall (fun a => a < length g) row) g.
Definition no_self_loop (g : list (list nat)) : Prop := forall u, ~ edge g u u.
Definition acyclic (g : list (list nat)) : Prop := forall u, ~ tc (edge g) u u.

(** [order] lists the source of every arc before its target. *)
Definition respects_rel (R : relation nat) (order : list nat) : Prop :=
  forall o1 v o2 u, order = o1 ++ v :: o2 -> R u v -> u ∈ o1.
Definition respects (g : list (list nat)) : list nat -> Prop := respects_rel (edge g).

Lemma occ_cons v a row : occ v (a :: row) = (if decide (v = a) then 1 else 0) + occ v row.
Proof.
  unfold occ. rewrite countb_cons. case_decide as E.
  - subst. by rewrite Nat.eqb_refl.
  - by apply Nat.eqb_neq in E as ->.
Qed.

Lemma occ_pos v row : 0 < occ v row <-> v ∈ row.
Proof.
  induction row as [|a row IH]; [unfold occ, countb; cbn; set_solver by lia|].
  rewrite occ_cons, elem_of_cons. case_decide; naive_solver lia.
Qed.

Lemma occ_zero v row : occ v row = 0 <-> v ∉ row.
Proof. rewrite <- occ_pos. lia. Qed.

Lemma occ_filter v (P : nat -> Prop) `{!forall x, Decision (P x)} row :
  occ v (filter P row) = if decide (P v) then occ v row else 0.
Proof.
  induction row as [|a row IH]; [by case_decide|].
  rewrite filter_cons, occ_cons.
  destruct (decide (P a)); rewrite ?occ_cons, IH; repeat case_decide; subst; first [done|lia].
Qed.

Lemma edge_mult g u v : edge g u v <-> 0 < mult g u v.
Proof. unfold edge, mult. by rewrite occ_pos. Qed.

Lemma edge_bound g u v : wf_graph g -> edge g u v -> u < length g /\ v < length g.
Proof.
  unfold wf_graph, edge, row_of. intros Hg Hv.
  destruct (g !! u) as [row|] eqn:E; cbn in Hv; [|set_solver].
  split; [by eapply lookup_lt_Some|].
  rewrite Forall_lookup in Hg. specialize (Hg _ _ E). rewrite Forall_forall in Hg. by apply Hg.
Qed.

Lemma arcs_from_app g us us' v : arcs_from g (us ++ us') v = arcs_from g us v + arcs_from g us' v.
Proof. apply sum_list_with_app. Qed.

Lemma arcs_from_pos g us v : 0 < arcs_from g us v <-> exists u, u ∈ us /\ edge g u v.
Proof.
  setoid_rewrite edge_mult. unfold arcs_from.
  induction us as [|u us IH]; cbn; [split; [lia|set_solver]|].
  setoid_rewrite elem_of_cons. split.
  - intros H. destruct (decide (0 < mult g u v)) as [Hu|Hu]; [eauto|].
    destruct IH as [IH _]. destruct IH as (u' & ? & ?); [lia|eauto].
  - intros (u' & [->|Hin] & Hu'); [lia|]. assert (0 < sum_list_with (fun u => mult g u v) us); [|lia].
    apply IH. eauto.
Qed.

#[global] Instance arcs_from_proper g : Proper ((≡ₚ) ==> eq ==> eq) (arcs_from g).
Proof. intros l1 l2 Hl v ? <-. unfold arcs_from. by rewrite Hl. Qed.

(** ** What [Init] computes *)
Lemma count_row_spec (arcs : list ArcNode) (m : gmap nat Z) v :
  default 0%Z (foldl (fun m a => <[adj a := (default 0 (m !! adj a) + 1)%Z]> m) m arcs !! v)
  = (default 0 (m !! v) + Z.of_nat (occ v (adj <$> arcs)))%Z.
Proof.
  revert m; induction arcs as [|a arcs IH]; intros m; cbn [foldl fmap list_fmap].
  { unfold occ, countb. cbn. lia. }
  rewrite IH, occ_cons. destruct (decide (v = adj a)) as [->|Hne].
  - rewrite lookup_insert_eq. cbn. lia.
  - rewrite lookup_insert_ne by done. lia.
Qed.

Lemma count_inDegree_spec (vs : list VNode) v :
  default 0%Z (count_inDegree vs !! v)
  = Z.of_nat (sum_list_with (fun ver => occ v (adj <$> first ver)) vs).
Proof.
  unfold count_inDegree.
  enough (forall m, default 0%Z (foldl (fun m ver => foldl (fun m a =>
      <[adj a := (default 0 (m !! adj a) + 1)%Z]> m) m (first ver)) m vs !! v)
    = (default 0 (m !! v) + Z.of_nat (sum_list_with (fun ver => occ v (adj <$> first ver)) vs))%Z)
    as H by (rewrite H, lookup_empty; cbn; lia).
  induction vs as [|ver vs IH]; intros m; cbn [foldl sum_list_with]; [lia|].
  rewrite IH, count_row_spec. lia.
Qed.

Lemma sum_rows_arcs_from (rows : list (list nat)) g k v :
  (forall i, rows !! i = g !! (k + i)) ->
  sum_list_with (fun row => occ v row) rows = arcs_from g (seq k (length rows)) v.
Proof.
  revert k; induction rows as [|row rows IH]; intros k Hk; [done|]. cbn.
  unfold arcs_from. cbn. f_equal.
  - unfold mult, row_of. specialize (Hk 0). rewrite Nat.add_0_r in Hk. by rewrite <- Hk.
  - apply IH. intros i. etransitivity; [exact (Hk (S i))|]. f_equal. lia.
Qed.

Lemma arcs_of_init_vnode i row : adj <$> first (init_vnode i row) = row.
Proof. cbn. rewrite <- list_fmap_compose. by apply list_fmap_id. Qed.

Lemma sum_imap_rows (f : nat -> list nat -> VNode) g v :
  (forall i row, adj <$> first (f i row) = row) ->
  sum_list_with (fun ver => occ v (adj <$> first ver)) (imap f g) = sum_list_with (occ v) g.
Proof.
  revert f; induction g as [|row g IH]; intros f Hf; [done|]. cbn.
  rewrite Hf. f_equal. apply IH. intros i r. apply Hf.
Qed.

Lemma Init_length_inDegree g : length (inDegree (Init empty_AlGraph g)) = length g.
Proof. cbn. by rewrite length_fmap, length_seq. Qed.

(** [Init] stores at [inDegree[v]] the number of arcs into [v]. *)
Lemma Init_inDegree g v :
  v < length g ->
  deg (inDegree (Init empty_AlGraph g)) v = Z.of_nat (arcs_from g (seq 0 (length g)) v).
Proof.
  intros Hv. unfold deg. cbn. rewrite list_lookup_fmap, lookup_seq_lt by done. cbn.
  rewrite count_inDegree_spec. f_equal.
  rewrite sum_imap_rows by apply arcs_of_init_vnode. by apply sum_rows_arcs_from.
Qed.

(** ** Relaxing arcs *)

(** [basic_relax] and [adv_relax] both reduce to this step on the targets of
    the arcs they do not skip. *)
Definition relax (st : list Z * list nat) (a : nat) : outcome (list Z * list nat) :=
  let '(ind, queue) := st in
  dec_inDegree ind a ≫= fun ind =>
  or_panic (ind !! a) ≫= fun x =>
  Ret (ind, if decide (x = 0%Z) then queue ++ [a] else queue).

Lemma foldM_basic_relax st arcs :
  foldM basic_relax st arcs
  = foldM relax st (adj <$> filter (fun a => arc_isAborted a = false) arcs).
Proof.
  revert st; induction arcs as [|a arcs IH]; intros [ind q]; [done|].
  rewrite filter_cons. cbn [foldM basic_relax]. destruct (arc_isAborted a) eqn:E.
  - rewrite decide_False by done. apply IH.
  - rewrite decide_True by done. cbn [fmap list_fmap foldM relax].
    destruct (dec_inDegree ind (adj a)) as [ind'| |]; cbn; [|done..].
    destruct (or_panic (ind' !! adj a)); cbn; [apply IH|done..].
Qed.

Definition sorted_at (vs : list VNode) (i : nat) : bool := default false (isSorted <$> vs !! i).

Lemma vertex_sorted_at vs i : i < length vs -> vertex_sorted vs i = Ret (sorted_at vs i).
Proof.
  intros Hi. unfold vertex_sorted, sorted_at.
  destruct (lookup_lt_is_Some_2 vs i Hi) as [v ->]. done.
Qed.

Lemma foldM_adv_relax vs st arcs :
  Forall (fun a => adj a < length vs) arcs ->
  foldM (adv_relax vs) st arcs
  = foldM relax st (filter (fun a => sorted_at vs a = false) (adj <$> arcs)).
Proof.
  revert st; induction arcs as [|a arcs IH]; intros [ind q] Hf; [done|].
  apply Forall_cons in Hf as [Ha Hf]. cbn [fmap list_fmap]. rewrite filter_cons.
  cbn [foldM adv_relax]. rewrite vertex_sorted_at by done. cbn [mbind outcome_bind].
  destruct (sorted_at vs (adj a)) eqn:E.
  - rewrite decide_False by done. by apply IH.
  - rewrite decide_True by done. cbn [foldM relax].
    destruct (dec_inDegree ind (adj a)) as [ind'| |]; cbn; [|done..].
    destruct (or_panic (ind' !! adj a)); cbn; [by apply IH|done..].
Qed.

Lemma deg_insert ind a x v :
  a < length ind -> deg (<[a := x]> ind) v = if decide (v = a) then x else deg ind v.
Proof.
  intros Ha. unfold deg. case_decide as E.
  - subst. by rewrite list_lookup_insert_eq.
  - by rewrite list_lookup_insert_ne.
Qed.

Lemma relax_step ind q a :
  a < length ind ->
  relax (ind, q) a = Ret (<[a := (deg ind a - 1)%Z]> ind,
                          if decide (deg ind a = 1)%Z then q ++ [a] else q).
Proof.
  intros Ha. unfold relax, dec_inDegree, deg.
  destruct (lookup_lt_is_Some_2 ind a Ha) as [x Hx]. rewrite Hx. cbn.
  rewrite list_lookup_insert_eq by done. cbn.
  repeat case_decide; first [done|lia].
Qed.

(** The whole adjacency row: every occurrence lowers the in-degree by one, and
    exactly the vertices whose in-degree reaches zero are queued, once each. *)
Lemma relax_spec ts ind q :
  Forall (fun a => a < length ind) ts ->
  exists ind' N, foldM relax (ind, q) ts = Ret (ind', q ++ N) /\
    length ind' = length ind /\
    (forall v, v < length ind -> deg ind' v = (deg ind v - Z.of_nat (occ v ts))%Z) /\
    NoDup N /\
    (forall v, v ∈ N <-> v < length ind /\ (0 < deg ind v <= Z.of_nat (occ v ts))%Z).
Proof.
  revert ind q; induction ts as [|a ts IH]; intros ind q Hts.
  { exists ind, []. rewrite app_nil_r. unfold occ, countb. cbn.
    split_and!; [done..|lia|constructor|]. intros v. split; [set_solver|lia]. }
  apply Forall_cons in Hts as [Ha Hts]. cbn [foldM]. rewrite relax_step by done. cbn [mbind outcome_bind].
  set (ind1 := <[a := (deg ind a - 1)%Z]> ind).
  assert (length ind1 = length ind) as Hlen by apply length_insert.
  destruct (IH ind1 (if decide (deg ind a = 1)%Z then q ++ [a] else q)) as (ind' & N & Hf & Hl & Hd & Hn & Hm).
  { by rewrite Hlen. }
  exists ind', ((if decide (deg ind a = 1)%Z then [a] else []) ++ N).
  rewrite Hf, Hl, Hlen. rewrite Hlen in Hd, Hm.
  assert (forall v, deg ind1 v = if decide (v = a) then (deg ind a - 1)%Z else deg ind v) as H1.
  { intros v. by apply deg_insert. }
  split_and!; [| done | | |].
  - case_decide; [by rewrite <- app_assoc|done].
  - intros v Hv. rewrite Hd, H1, occ_cons by done. destruct (decide (v = a)) as [->|]; lia.
  - case_decide as E; [|done]. cbn. constructor; [|done]. rewrite Hm, H1, decide_True by done. lia.
  - intros v. rewrite elem_of_app, Hm, H1, occ_cons. destruct (decide (v = a)) as [->|Hne].
    + case_decide; set_solver by lia.
    + case_decide; set_solver by lia.
Qed.

(** ** Selecting vertices by in-degree *)
Lemma elem_of_imap_pair (ind : list Z) p :
  p ∈ imap pair ind <-> p.1 < length ind /\ p.2 = deg ind p.1.
Proof.
  destruct p as [v x]. cbn. rewrite elem_of_lookup_imap. unfold deg. split.
  - intros (i & y & [= -> ->] & Hy). rewrite Hy. split; [by eapply lookup_lt_Some|done].
  - intros [Hv ->]. destruct (lookup_lt_is_Some_2 ind v Hv) as [x Hx].
    exists v, x. by rewrite Hx.
Qed.

Lemma elem_of_fst_filter (P : nat * Z -> Prop) `{!forall p, Decision (P p)} (ind : list Z) v :
  v ∈ fst <$> filter P (imap pair ind) <-> v < length ind /\ P (v, deg ind v).
Proof.
  rewrite list_elem_of_fmap. split.
  - intros ([v' x] & -> & [HP Hx]%list_elem_of_filter).
    apply elem_of_imap_pair in Hx as [Hv Hx]. cbn in *. by subst.
  - intros [Hv HP]. exists (v, deg ind v). split; [done|].
    rewrite list_elem_of_filter, elem_of_imap_pair. done.
Qed.

Lemma fst_imap_pair (ind : list Z) : fst <$> imap pair ind = seq 0 (length ind).
Proof.
  apply list_eq. intros i. rewrite list_lookup_fmap, list_lookup_imap.
  destruct (ind !! i) as [x|] eqn:E; cbn.
  - symmetry. apply lookup_seq. apply lookup_lt_Some in E. lia.
  - symmetry. apply lookup_seq_ge. by apply lookup_ge_None in E.
Qed.

Lemma NoDup_fst_filter (P : nat * Z -> Prop) `{!forall p, Decision (P p)} (ind : list Z) :
  NoDup (fst <$> filter P (imap pair ind)).
Proof.
  apply NoDup_fmap_2_strong.
  - intros [v x] [v' x'] [_ Hx]%list_elem_of_filter [_ Hx']%list_elem_of_filter.
    apply elem_of_imap_pair in Hx as [_ Hx], Hx' as [_ Hx']. cbn in *. by intros; subst.
  - apply NoDup_filter, (NoDup_fmap_1 fst). rewrite fst_imap_pair. apply NoDup_seq.
Qed.

Lemma elem_of_zero_vertices ind v : v ∈ zero_vertices ind <-> v < length ind /\ deg ind v = 0%Z.
Proof. unfold zero_vertices. by rewrite elem_of_fst_filter. Qed.

Lemma NoDup_zero_vertices ind : NoDup (zero_vertices ind).
Proof. apply NoDup_fst_filter. Qed.

(** [min_Z] is the least element when the list is not empty. *)
Lemma min_Z_spec l :
  l <> [] -> Forall (fun x => x < MaxInt64)%Z l ->
  min_Z l ∈ l /\ forall x, x ∈ l -> (min_Z l <= x)%Z.
Proof.
  intros Hne Hlt. unfold min_Z.
  enough (forall l mn, let r := foldl (fun mn v => if decide (v < mn)%Z then v else mn) mn l in
    (r = mn \/ r ∈ l) /\ (r <= mn)%Z /\ forall x, x ∈ l -> (r <= x)%Z) as H.
  { destruct (H l MaxInt64) as ([Hr|Hr] & Hle & Hall); [|done].
    destruct l as [|x l]; [done|]. exfalso. rewrite Forall_forall in Hlt.
    specialize (Hall x ltac:(left)). specialize (Hlt x ltac:(left)). rewrite Hr in Hall. lia. }
  clear. induction l as [|y l IH]; intros mn; cbn; [set_solver by lia|].
  destruct (IH (if decide (y < mn)%Z then y else mn)) as (H1 & H2 & H3).
  set (r := foldl _ _ l) in *. split_and!.
  - case_decide; set_solver.
  - case_decide; lia.
  - intros x [->|Hx]%elem_of_cons; [case_decide; lia|by apply H3].
Qed.

(** ** The state of the sort after some vertices have been emitted *)
Definition state_vertices (g : list (list nat)) (order : list nat) : list VNode :=
  imap (fun i row => mkVNode i ((fun a => mkArc a false) <$> row) (bool_decide (i ∈ order))) g.

Definition unsorted (order : list nat) (n : nat) : list nat := filter (fun v => v ∉ order) (seq 0 n).

Lemma elem_of_unsorted order n v : v ∈ unsorted order n <-> v < n /\ v ∉ order.
Proof. unfold unsorted. rewrite list_elem_of_filter, elem_of_seq. intuition lia. Qed.

Lemma NoDup_unsorted order n : NoDup (unsorted order n).
Proof. apply NoDup_filter, NoDup_seq. Qed.

Lemma unsorted_snoc order n top :
  top ∈ unsorted order n -> unsorted order n ≡ₚ top :: unsorted (order ++ [top]) n.
Proof.
  intros Htop. apply NoDup_Permutation.
  - apply NoDup_unsorted.
  - constructor; [|apply NoDup_unsorted]. rewrite elem_of_unsorted. set_solver.
  - intros v. rewrite elem_of_cons, !elem_of_unsorted, elem_of_app, list_elem_of_singleton.
    apply elem_of_unsorted in Htop. destruct (decide (v = top)); naive_solver.
Qed.

Lemma length_state_vertices g order : length (state_vertices g order) = length g.
Proof. apply length_imap. Qed.

Lemma lookup_state_vertices g order i :
  i < length g ->
  state_vertices g order !! i
  = Some (mkVNode i ((fun a => mkArc a false) <$> row_of g i) (bool_decide (i ∈ order))).
Proof.
  intros Hi. unfold state_vertices, row_of. rewrite list_lookup_imap.
  destruct (lookup_lt_is_Some_2 g i Hi) as [row ->]. done.
Qed.

Lemma mark_sorted_state g order top :
  mark_sorted top (state_vertices g order) = state_vertices g (order ++ [top]).
Proof.
  apply list_eq. intros i. unfold mark_sorted.
  destruct (decide (i < length g)) as [Hi|Hi].
  - destruct (decide (i = top)) as [->|Hne].
    + rewrite list_lookup_alter_eq, !lookup_state_vertices by done. cbn. repeat f_equal.
      symmetry. apply bool_decide_eq_true_2. set_solver.
    + rewrite list_lookup_alter_ne, !lookup_state_vertices by done. repeat f_equal.
      apply bool_decide_ext. set_solver.
  - assert (forall o, state_vertices g o !! i = None) as HN.
    { intros o. apply lookup_ge_None_2. rewrite length_state_vertices. lia. }
    rewrite HN. apply lookup_ge_None_2. rewrite length_alter, length_state_vertices. lia.
Qed.

Lemma sorted_at_state g order i :
  i < length g -> sorted_at (state_vertices g order) i = bool_decide (i ∈ order).
Proof. intros Hi. unfold sorted_at. by rewrite lookup_state_vertices. Qed.

Lemma unsorted_inDegree_state g order ind :
  length ind = length g ->
  unsorted_inDegree (state_vertices g order) ind
  = Ret (filter (fun p : nat * Z => p.1 ∉ order) (imap pair ind)).
Proof.
  intros Hlen. unfold unsorted_inDegree.
  assert (Forall (fun p : nat * Z => p.1 < length g) (imap pair ind)) as Hall.
  { apply Forall_forall. intros p [Hp _]%elem_of_imap_pair. lia. }
  revert Hall. generalize (imap pair ind). intros ps Hall.
  enough (forall acc, foldM (fun acc p => vertex_sorted (state_vertices g order) p.1 ≫=
      fun s => Ret (if s : bool then acc else acc ++ [p])) acc ps
    = Ret (acc ++ filter (fun p : nat * Z => p.1 ∉ order) ps)) as H by apply (H []).
  induction ps as [|p ps IH]; intros acc; cbn [foldM].
  { by rewrite app_nil_r. }
  apply Forall_cons in Hall as [Hp Hall].
  rewrite vertex_sorted_at, sorted_at_state by (rewrite ?length_state_vertices; done).
  cbn [mbind outcome_bind]. rewrite IH by done. rewrite filter_cons.
  repeat case_bool_decide; repeat case_decide; try done. by rewrite <- app_assoc.
Qed.

(** A graph in the middle of [AdvancedTopologicalSort]. *)
Record adv_graph (g : list (list nat)) (order : list nat) (al : AlGraph) : Prop := {
  ag_vertices : vertices al = state_vertices g order;
  ag_outDegree : outDegree al = (fun v => Z.of_nat (length v)) <$> g;
  ag_inDegree_length : length (inDegree al) = length g }.

Lemma lookup_outDegree g v :
  v < length g -> ((fun r : list nat => Z.of_nat (length r)) <$> g) !! v = Some (Z.of_nat (length (row_of g v))).
Proof.
  intros Hv. unfold row_of. rewrite list_lookup_fmap.
  destruct (lookup_lt_is_Some_2 g v Hv) as [row ->]. done.
Qed.

Lemma max_outDegree_spec g vex :
  Forall (fun v => v < length g) vex ->
  exists max, foldM (fun mx v => or_panic (((fun r : list nat => Z.of_nat (length r)) <$> g) !! v) ≫= fun d =>
                     Ret (if decide (mx < d)%Z then d else mx)) 0%Z vex = Ret max /\
    (forall v, v ∈ vex -> Z.of_nat (length (row_of g v)) <= max)%Z /\
    (vex <> [] -> exists v, v ∈ vex /\ Z.of_nat (length (row_of g v)) = max).
Proof.
  intros Hvex. rewrite Forall_forall in Hvex.
  destruct (foldM_inv (fun mx v => or_panic (((fun r : list nat => Z.of_nat (length r)) <$> g) !! v) ≫= fun d =>
                     Ret (if decide (mx < d)%Z then d else mx))
    (fun pre mx => (0 <= mx)%Z /\ (pre = [] -> mx = 0%Z) /\
      (forall v, v ∈ pre -> Z.of_nat (length (row_of g v)) <= mx)%Z /\
      (pre <> [] -> exists v, v ∈ pre /\ Z.of_nat (length (row_of g v)) = mx)) vex 0%Z)
    as (max & Hm & H0 & _ & H1 & H2); [set_solver by lia| |by exists max].
  intros pre v post mx -> (H0 & Hnil & H1 & H2).
  rewrite lookup_outDegree by (apply Hvex; set_solver). cbn [or_panic mbind outcome_bind].
  eexists; split; [done|]. set (d := Z.of_nat (length (row_of g v))).
  split_and!; [case_decide; lia|by intros []%app_nil| |].
  - intros v' [Hv'| ->%list_elem_of_singleton]%elem_of_app; [specialize (H1 v' Hv')|]; case_decide; lia.
  - intros _. case_decide as Hd; [exists v; set_solver|].
    destruct pre as [|p pre].
    + exists v. specialize (Hnil eq_refl). split; [set_solver|]. lia.
    + destruct H2 as (v' & Hv' & Hl); [done|]. exists v'. set_solver.
Qed.

(** The cycle breaker returns an unsorted vertex of the given in-degree, with
    the largest out-degree among those. *)
Lemma findMaxNode_adv g order al mn :
  adv_graph g order al ->
  (exists v, v ∈ unsorted order (length g) /\ deg (inDegree al) v = mn) ->
  exists t, findMaxNode al mn = Ret t /\ t ∈ unsorted order (length g) /\
    deg (inDegree al) t = mn /\
    (forall v, v ∈ unsorted order (length g) -> deg (inDegree al) v = mn ->
       length (row_of g v) <= length (row_of g t)).
Proof.
  intros [Hvs Hout Hlen] (v0 & Hv0 & Hd0). unfold findMaxNode.
  rewrite Hvs, Hout, unsorted_inDegree_state by done. cbn [mbind outcome_bind].
  rewrite list_filter_filter.
  set (vex := fst <$> _).
  assert (forall v, v ∈ vex <-> v ∈ unsorted order (length g) /\ deg (inDegree al) v = mn) as Hvex.
  { intros v. unfold vex. rewrite elem_of_fst_filter, elem_of_unsorted, Hlen. cbn. tauto. }
  destruct (max_outDegree_spec g vex) as (max & -> & Hle & Hex).
  { apply Forall_forall. by intros v [[Hv _]%elem_of_unsorted _]%Hvex. }
  cbn [mbind outcome_bind].
  destruct Hex as (vm & Hvm & Hmax).
  { intros E. assert (v0 ∈ vex) as Hc by (by apply Hvex). rewrite E in Hc. set_solver. }
  set (cand := filter _ vex).
  assert (vm ∈ cand) as Hin.
  { unfold cand. rewrite list_elem_of_filter. split; [|done].
    apply Hvex in Hvm as [Hu _]. apply elem_of_unsorted in Hu as [Hu _].
    by rewrite lookup_outDegree, Hmax. }
  destruct cand as [|t cand'] eqn:E; [set_solver|].
  assert (t ∈ cand) as Ht by (rewrite E; left).
  unfold cand in Ht. apply list_elem_of_filter in Ht as [Hto Ht]. apply Hvex in Ht as [Htu Htd].
  exists t. split_and!; [done..|]. intros v Hv Hd.
  assert (v ∈ vex) as Hvv by (by apply Hvex). specialize (Hle v Hvv).
  pose proof Htu as Htl. apply elem_of_unsorted in Htl as [Htl _].
  rewrite lookup_outDegree in Hto by done. injection Hto as Hto. lia.
Qed.
