(* ===== verification/TopoSort.v ===== *)
(** * The topological sorts of [core/classical_graph.go] are correct

    [AdvancedTopologicalSort] visits every vertex exactly once, also when the
    graph has cycles, and lists the source of every arc before its target when
    it has none.  [RebuildGraph] followed by [BasicTopologicalSort] sorts the
    transactions that were not aborted, provided every aborted one keeps an
    arc from a transaction that was not. *)
From stdpp Require Import base list list_numbers gmap relations sets sorting.
From Stdlib Require Import ZArith Lia.
From S2P Require Import Prelude AlGraph.

Set Default Goal Selector "!".

Lemma tc_flip_intro (R : relation nat) u v : tc (flip R) u v -> tc R v u.
Proof.
  induction 1 as [u v Huv|u v w Huv _ IH]; [by apply tc_once|].
  by eapply tc_r.
Qed.

(** A relation without cycles on finitely many vertices leaves, in every
    non-empty set, a vertex that nothing of the set points to. *)
Lemma acyclic_source (R : relation nat) n (us : list nat) :
  (forall u v, R u v -> u < n) -> (forall u, ~ tc R u u) -> us <> [] ->
  (forall v, v ∈ us -> exists u, u ∈ us /\ R u v) -> False.
Proof.
  intros Hb Hac Hne Hpred.
  assert (forall v, sn (flip R) v) as Hsn.
  { intros v. apply tc_finite_sn.
    - intros x Hx. apply (Hac x). by apply tc_flip_intro in Hx.
    - exists (seq 0 n). intros y Hy%tc_flip_intro. apply elem_of_seq.
      assert (y < n); [|lia]. induction Hy; by eapply Hb. }
  assert (forall v, v ∉ us) as Hnone.
  { intros v. induction (Hsn v) as [v _ IH]. intros Hv.
    destruct (Hpred v Hv) as (u & Hu & Huv). by apply (IH u). }
  destruct us as [|v us]; [done|]. apply (Hnone v). left.
Qed.

Lemma respects_snoc R order top :
  respects_rel R order -> (forall u, R u top -> u ∈ order) -> respects_rel R (order ++ [top]).
Proof.
  intros Hr Htop o1 v o2 u Heq Huv.
  destruct o2 as [|w o2 _] using rev_ind.
  - apply app_inj_tail in Heq as [-> ->]. by apply Htop.
  - rewrite app_comm_cons, app_assoc in Heq. apply app_inj_tail in Heq as [-> _]. by eapply Hr.
Qed.

Section advanced.
Context (g : list (list nat)).
Local Abbreviation n := (length g).
Hypothesis Hwf : wf_graph g.
Hypothesis Hns : no_self_loop g.
Hypothesis Hsize : forall v, (Z.of_nat (arcs_from g (seq 0 n) v) < MaxInt64)%Z.

(** The in-degrees of the vertices still to sort count the arcs between them. *)
Definition exact_degrees (order : list nat) (ind : list Z) : Prop :=
  length ind = n /\
  forall v, v ∈ unsorted order n -> deg ind v = Z.of_nat (arcs_from g (unsorted order n) v).

Record adv_inv (al : AlGraph) (min : Z) (queue order : list nat) : Prop := {
  ai_graph : adv_graph g order al;
  ai_nodup : NoDup order;
  ai_bound : forall v, v ∈ order -> v < n;
  ai_deg : exact_degrees order (inDegree al);
  ai_queue_nodup : NoDup queue;
  ai_queue : forall v, v ∈ queue -> v ∈ unsorted order n;
  ai_zero : forall v, v ∈ unsorted order n -> deg (inDegree al) v = 0%Z -> v ∈ queue;
  ai_src : (forall v, v ∈ queue -> deg (inDegree al) v = 0%Z) \/
           (exists t, queue = [t] /\ forall v, v ∈ unsorted order n -> (0 < deg (inDegree al) v)%Z);
  ai_min : unsorted order n <> [] ->
           (exists v, v ∈ unsorted order n /\ deg (inDegree al) v = min) /\
           (forall v, v ∈ unsorted order n -> (min <= deg (inDegree al) v)%Z);
  ai_progress : queue = [] -> unsorted order n = [];
  ai_respects : acyclic g -> respects g order }.

Lemma row_bound u : Forall (fun a => a < n) (row_of g u).
Proof.
  apply Forall_forall. intros v Hv.
  destruct (edge_bound g u v Hwf Hv) as [_ ?]. done.
Qed.

(** Removing [top]: the arcs out of it leave the count, and exactly the
    vertices whose in-degree drops to zero are queued. *)
Lemma adv_relax_state order ind top q :
  exact_degrees order ind -> top ∈ unsorted order n ->
  exists ind' N,
    foldM (adv_relax (state_vertices g (order ++ [top]))) (ind, q)
          ((fun a => mkArc a false) <$> row_of g top) = Ret (ind', q ++ N) /\
    exact_degrees (order ++ [top]) ind' /\
    NoDup N /\
    (forall v, v ∈ N <-> v ∈ unsorted (order ++ [top]) n /\ (0 < deg ind v)%Z /\ deg ind' v = 0%Z) /\
    (forall v, v ∈ unsorted (order ++ [top]) n -> deg ind v = 0%Z -> deg ind' v = 0%Z).
Proof.
  intros [Hlen Hdeg] Htop.
  set (order' := order ++ [top]).
  rewrite foldM_adv_relax.
  2: { apply Forall_fmap. rewrite length_state_vertices. apply row_bound. }
  rewrite <- list_fmap_compose, (list_fmap_id).
  set (ts := filter _ (row_of g top)).
  destruct (relax_spec ts ind q) as (ind' & N & Hf & Hl & Hd & Hnd & HN).
  { rewrite Hlen. apply Forall_forall. intros a [_ Ha]%list_elem_of_filter.
    pose proof (row_bound top) as Hrow. rewrite Forall_forall in Hrow. by apply Hrow. }
  assert (forall v, v ∈ unsorted order' n -> occ v ts = mult g top v) as Hocc.
  { intros v [Hv Hvo]%elem_of_unsorted. unfold ts. rewrite occ_filter, decide_True; [done|].
    rewrite sorted_at_state by done. by apply bool_decide_eq_false_2. }
  assert (forall v, v ∈ unsorted order' n ->
    deg ind' v = Z.of_nat (arcs_from g (unsorted order' n) v)) as Hdeg'.
  { intros v Hv. pose proof Hv as [Hvn Hvo]%elem_of_unsorted. rewrite Hd by lia.
    rewrite Hocc, Hdeg by (rewrite ?elem_of_unsorted; set_solver).
    rewrite (unsorted_snoc order n top) by done. unfold arcs_from. cbn. fold order'. lia. }
  exists ind', N. split_and!; [done|split; [lia|done]|done| |].
  - intros v. rewrite HN, Hlen. split.
    + intros (Hv & Hpos & Hle).
      assert (v ∈ unsorted order' n) as Hu.
      { assert (v ∈ ts) as Hts by (apply occ_pos; lia).
        apply list_elem_of_filter in Hts as [Hs _]. rewrite sorted_at_state in Hs by done.
        apply bool_decide_eq_false in Hs. by apply elem_of_unsorted. }
      split_and!; [done..|]. rewrite Hdeg' by done. rewrite <- Hdeg', Hd by (done || lia). 
      pose proof (Hdeg' v Hu) as E. rewrite Hd in E by lia. lia.
    + intros (Hu & Hpos & Hz). pose proof Hu as [Hvn _]%elem_of_unsorted.
      rewrite Hd in Hz by lia. lia.
  - intros v Hu Hz. pose proof (Hdeg' v Hu) as E. pose proof Hu as [Hvn _]%elem_of_unsorted.
    rewrite Hd in E |- * by lia. lia.
Qed.

Lemma order_unsorted_perm order :
  NoDup order -> (forall v, v ∈ order -> v < n) -> seq 0 n ≡ₚ order ++ unsorted order n.
Proof.
  intros Hnd Hb. apply NoDup_Permutation; [apply NoDup_seq| |].
  - apply NoDup_app. split_and!; [done| |apply NoDup_unsorted].
    intros v Hv [_ ?]%elem_of_unsorted. done.
  - intros v. rewrite elem_of_app, elem_of_unsorted, elem_of_seq.
    destruct (decide (v ∈ order)) as [Hv|Hv]; [apply Hb in Hv as ?|]; naive_solver lia.
Qed.

Lemma unsorted_nil order :
  NoDup order -> (forall v, v ∈ order -> v < n) -> unsorted order n = [] <-> n <= length order.
Proof.
  intros Hnd Hb. pose proof (order_unsorted_perm order Hnd Hb) as Hp%Permutation_length.
  rewrite length_seq, length_app in Hp. rewrite <- length_zero_iff_nil. lia.
Qed.

Lemma unsorted_seq order v : arcs_from g (unsorted order n) v <= arcs_from g (seq 0 n) v.
Proof.
  clear Hsize. unfold unsorted. induction (seq 0 n) as [|u us IH]; [done|].
  unfold arcs_from in *. rewrite filter_cons. destruct (decide (u ∉ order)); cbn [sum_list_with]; lia.
Qed.

Lemma min_unsorted order ind :
  exact_degrees order ind -> unsorted order n <> [] ->
  exists mn, (unsorted_inDegree (state_vertices g order) ind ≫= fun uns => Ret (min_Z (snd <$> uns))) = Ret mn /\
    (exists v, v ∈ unsorted order n /\ deg ind v = mn) /\
    (forall v, v ∈ unsorted order n -> (mn <= deg ind v)%Z).
Proof.
  intros [Hlen Hdeg] Hne. rewrite unsorted_inDegree_state by done. cbn [mbind outcome_bind].
  set (ds := snd <$> _).
  assert (forall x, x ∈ ds <-> exists v, v ∈ unsorted order n /\ deg ind v = x) as Hds.
  { intros x. unfold ds. rewrite list_elem_of_fmap. split.
    - intros ([i y] & -> & [Hi Hp]%list_elem_of_filter). apply elem_of_imap_pair in Hp as [? ?].
      exists i. rewrite elem_of_unsorted. cbn in *. rewrite <- Hlen. done.
    - intros (v & Hv & <-). exists (v, deg ind v). split; [done|].
      apply elem_of_unsorted in Hv as [Hv Hvo].
      apply list_elem_of_filter. split; [done|]. apply elem_of_imap_pair. cbn. by rewrite Hlen. }
  destruct (min_Z_spec ds) as [Hin Hle].
  - destruct (unsorted order n) as [|v us] eqn:E; [done|]. intros Hnil.
    assert (deg ind v ∈ ds) as Hv by (apply Hds; exists v; split; [left|done]).
    rewrite Hnil in Hv. set_solver.
  - apply Forall_forall. intros x (v & Hv & <-)%Hds. rewrite Hdeg by done.
    pose proof (unsorted_seq order v). specialize (Hsize v). lia.
  - exists (min_Z ds). split; [done|]. split; [by apply Hds|].
    intros v Hv. apply Hle, Hds. eauto.
Qed.

(** In an acyclic graph the vertex taken next has no arc from the rest. *)
Lemma adv_inv_source al min top rest order :
  adv_inv al min (top :: rest) order -> acyclic g -> forall u, edge g u top -> u ∈ order.
Proof.
  intros I Hac u Hu. destruct (decide (u ∈ order)) as [|Hn]; [done|exfalso].
  destruct (ai_deg _ _ _ _ I) as [_ Hdeg].
  assert (forall v, v ∈ unsorted order n -> (0 < deg (inDegree al) v)%Z <->
    exists u, u ∈ unsorted order n /\ edge g u v) as Hpos.
  { intros v Hv. rewrite Hdeg, <- arcs_from_pos by done. lia. }
  assert (top ∈ unsorted order n) as Ht by (apply (ai_queue _ _ _ _ I); left).
  destruct (edge_bound g u top Hwf Hu) as [Hun _].
  destruct (ai_src _ _ _ _ I) as [Hz|(t & _ & Hall)].
  - specialize (Hz top ltac:(left)). assert (0 < deg (inDegree al) top)%Z; [|lia].
    apply Hpos; [done|]. exists u. by rewrite elem_of_unsorted.
  - apply (acyclic_source (edge g) n (unsorted order n)); [by intros ? ? [? _]%edge_bound|done|by destruct (unsorted order n); [set_solver|]|].
    intros v Hv. apply Hpos; auto.
Qed.

(** The minimum of the next round: recomputed while vertices remain; after
    the last vertex the old value is kept, and it is zero. *)
Lemma next_min al min top rest order ind' :
  adv_inv al min (top :: rest) order -> exact_degrees (order ++ [top]) ind' ->
  exists mn,
    (if decide (length (order ++ [top]) < length (state_vertices g (order ++ [top])))
     then unsorted_inDegree (state_vertices g (order ++ [top])) ind' ≫= fun uns => Ret (min_Z (snd <$> uns))
     else Ret min) = Ret mn /\
    (unsorted (order ++ [top]) n <> [] ->
       (exists v, v ∈ unsorted (order ++ [top]) n /\ deg ind' v = mn) /\
       (forall v, v ∈ unsorted (order ++ [top]) n -> (mn <= deg ind' v)%Z)) /\
    (unsorted (order ++ [top]) n = [] -> mn = 0%Z).
Proof.
  intros I Hex. assert (top ∈ unsorted order n) as Ht by (apply (ai_queue _ _ _ _ I); left).
  pose proof Ht as [Htn Hto]%elem_of_unsorted.
  assert (unsorted (order ++ [top]) n = [] <-> n <= length (order ++ [top])) as Hnil.
  { apply unsorted_nil.
    - apply NoDup_app. split_and!; [apply I|set_solver|apply NoDup_singleton].
    - intros v [Hv|Hv%list_elem_of_singleton]%elem_of_app; [by apply I|by subst]. }
  rewrite length_state_vertices. case_decide as Hlt.
  - destruct (min_unsorted (order ++ [top]) ind' Hex) as (mn & Hmn & H1 & H2); [rewrite Hnil; lia|].
    exists mn. split; [done|]. split; [done|]. rewrite Hnil. lia.
  - exists min. split; [done|]. split; [rewrite Hnil; lia|]. intros Hn.
    pose proof (unsorted_snoc order n top Ht) as Hp. rewrite Hn in Hp.
    destruct (ai_min _ _ _ _ I) as [(v & Hv & <-) _]; [intros E; rewrite E in Ht; set_solver|].
    rewrite Hp in Hv. apply list_elem_of_singleton in Hv as ->.
    destruct (ai_deg _ _ _ _ I) as [_ ->]; [|done]. rewrite Hp.
    unfold arcs_from. cbn. pose proof (Hns top) as Hs. rewrite edge_mult in Hs. lia.
Qed.

(** The queue after [top] was removed and the freed vertices [N] appended. *)
Lemma next_queue al min top rest order ind' N :
  adv_inv al min (top :: rest) order -> exact_degrees (order ++ [top]) ind' -> NoDup N ->
  (forall v, v ∈ N <-> v ∈ unsorted (order ++ [top]) n /\ (0 < deg (inDegree al) v)%Z /\ deg ind' v = 0%Z) ->
  (forall v, v ∈ unsorted (order ++ [top]) n -> deg (inDegree al) v = 0%Z -> deg ind' v = 0%Z) ->
  NoDup (rest ++ N) /\
  (forall v, v ∈ rest ++ N <-> v ∈ unsorted (order ++ [top]) n /\ deg ind' v = 0%Z).
Proof.
  intros I [_ Hex] HndN HN Hkeep.
  pose proof (ai_queue_nodup _ _ _ _ I) as [Htop Hnd]%NoDup_cons.
  assert (forall v, v ∈ rest -> v ∈ unsorted (order ++ [top]) n /\ deg (inDegree al) v = 0%Z) as Hrest.
  { intros v Hv. assert (v ∈ unsorted order n) as [Hvn Hvo]%elem_of_unsorted
      by (apply (ai_queue _ _ _ _ I); by right).
    split; [rewrite elem_of_unsorted; split; [done|set_solver]|].
    destruct (ai_src _ _ _ _ I) as [Hz|(t & [= <- ->] & _)]; [apply Hz; by right|set_solver]. }
  split.
  - apply NoDup_app. split_and!; [done| |done]. intros v [_ Hz]%Hrest (_ & Hp & _)%HN. lia.
  - intros v. rewrite elem_of_app. split.
    + intros [[Hu Hz]%Hrest|(Hu & _ & Hz)%HN]; auto.
    + intros [Hu Hz]. pose proof Hu as [Hvn Hvo]%elem_of_unsorted.
      assert (v ∈ unsorted order n) as Hu' by (apply elem_of_unsorted; set_solver).
      destruct (decide (deg (inDegree al) v = 0%Z)) as [E|E].
      * left. apply (ai_zero _ _ _ _ I) in E; [|done]. set_solver.
      * right. apply HN. split_and!; [done| |done].
        destruct (ai_deg _ _ _ _ I) as [_ Hd]. rewrite Hd in E |- * by done. lia.
Qed.

Local Abbreviation minimum_of order ind mn :=
  (unsorted order n <> [] ->
     (exists v, v ∈ unsorted order n /\ deg ind v = mn) /\
     (forall v, v ∈ unsorted order n -> (mn <= deg ind v)%Z)).

(** When no vertex is free, [findMaxNode] supplies the next one. *)
Lemma select_queue al order mn q :
  adv_graph g order al -> minimum_of order (inDegree al) mn ->
  (unsorted order n = [] -> mn = 0%Z) ->
  (forall v, v ∈ q <-> v ∈ unsorted order n /\ deg (inDegree al) v = 0%Z) ->
  exists q', (if decide (0 < mn)%Z then findMaxNode al mn ≫= fun t => Ret (q ++ [t]) else Ret q) = Ret q' /\
    ((0 < mn)%Z /\ (exists t, q' = [t] /\ t ∈ unsorted order n) \/ (mn <= 0)%Z /\ q' = q).
Proof.
  intros HG Hmin Hlast Hq. destruct (decide (0 < mn)%Z) as [Hp|Hp].
  2: { exists q. split; [done|right]. split; [lia|done]. }
  destruct Hmin as [Hatt Hle]; [intros Hn; apply Hlast in Hn; lia|].
  destruct (findMaxNode_adv g order al mn HG Hatt) as (t & Ht' & Htu & _ & _).
  assert (q = []) as ->.
  { destruct q as [|v q]; [done|]. destruct (proj1 (Hq v) ltac:(left)) as [Hu Hz].
    apply Hle in Hu. lia. }
  exists [t]. rewrite Ht'. split; [done|]. left. split; [done|]. by exists t.
Qed.

(** The invariant holds of any state built from such a minimum and queue. *)
Lemma adv_inv_next al order mn q q' :
  adv_graph g order al -> NoDup order -> (forall v, v ∈ order -> v < n) ->
  exact_degrees order (inDegree al) -> minimum_of order (inDegree al) mn -> NoDup q ->
  (forall v, v ∈ q <-> v ∈ unsorted order n /\ deg (inDegree al) v = 0%Z) ->
  ((0 < mn)%Z /\ (exists t, q' = [t] /\ t ∈ unsorted order n) \/ (mn <= 0)%Z /\ q' = q) ->
  (acyclic g -> respects g order) -> adv_inv al mn q' order.
Proof.
  intros HG Hnd Hb Hex Hmin Hqn Hq Hqueue Hr.
  assert (forall v, v ∈ unsorted order n -> (0 <= deg (inDegree al) v)%Z) as Hnn.
  { intros v Hv. destruct Hex as [_ ->]; [lia|done]. }
  assert (forall v, v ∈ unsorted order n -> (mn <= deg (inDegree al) v)%Z) as Hle.
  { intros v Hv. apply Hmin; [intros E; rewrite E in Hv; set_solver|done]. }
  split; try done.
  - destruct Hqueue as [(_ & t & -> & _)|[_ ->]]; [apply NoDup_singleton|done].
  - destruct Hqueue as [(_ & t & -> & Htu)|[_ ->]]; [set_solver|]. by intros v [? _]%Hq.
  - intros v Hv Hz. destruct Hqueue as [(Hp & t & -> & Htu)|[_ ->]]; [|by apply Hq].
    apply Hle in Hv. lia.
  - destruct Hqueue as [(Hp & t & -> & Htu)|[_ ->]]; [right|left; by intros v [_ ?]%Hq].
    exists t. split; [done|]. intros v Hv%Hle. lia.
  - intros Hnil. destruct Hqueue as [(_ & t & -> & _)|[Hp ->]]; [done|].
    destruct (decide (unsorted order n = [])) as [|Hne]; [done|exfalso].
    destruct (Hmin Hne) as [(v & Hv & Hd) _]. specialize (Hnn v Hv).
    assert (v ∈ q) as Hin by (apply Hq; split; [done|lia]). rewrite Hnil in Hin. set_solver.
Qed.

Lemma adv_step al min top rest order :
  adv_inv al min (top :: rest) order ->
  exists al' min' queue',
    (forall fuel, adv_loop (S fuel) al min (top :: rest) order = adv_loop fuel al' min' queue' (order ++ [top])) /\
    adv_inv al' min' queue' (order ++ [top]).
Proof.
  intros I. assert (top ∈ unsorted order n) as Ht by (apply (ai_queue _ _ _ _ I); left).
  pose proof Ht as [Htn Hto]%elem_of_unsorted. pose proof (ai_graph _ _ _ _ I) as [Hvs Hout Hlen].
  destruct (adv_relax_state order (inDegree al) top (top :: rest)) as (ind' & N & Hf & Hex & HndN & HN & Hkeep);
    [apply I|done|].
  destruct (next_min al min top rest order ind' I Hex) as (mn & Hmn & Hmin & Hlast).
  destruct (next_queue al min top rest order ind' N I Hex HndN HN Hkeep) as [Hqn Hq].
  set (al' := set_vertices (state_vertices g (order ++ [top])) (set_inDegree ind' al)).
  assert (adv_graph g (order ++ [top]) al') as HG by (split; [done|done|apply Hex]).
  destruct (select_queue al' (order ++ [top]) mn (rest ++ N) HG Hmin Hlast Hq) as (queue' & Hsel & Hqueue).
  exists al', mn, queue'. split.
  - intros fuel. cbn [adv_loop]. rewrite Hvs, lookup_state_vertices, mark_sorted_state by done.
    cbn [or_panic mbind outcome_bind first]. rewrite Hf. cbn [mbind outcome_bind].
    rewrite Hmn. cbn [mbind outcome_bind]. cbn [app drop]. rewrite drop_0. fold al'. by rewrite Hsel.
  - apply (adv_inv_next al' (order ++ [top]) mn (rest ++ N) queue'); try done.
    + apply NoDup_app. split_and!; [apply I|set_solver|apply NoDup_singleton].
    + intros v [Hv|Hv%list_elem_of_singleton]%elem_of_app; [by apply I|by subst].
    + intros Hac. apply respects_snoc; [by apply I|]. by eapply adv_inv_source.
Qed.

Lemma adv_loop_spec fuel al min queue order :
  adv_inv al min queue order -> n - length order < fuel ->
  exists al' order', adv_loop fuel al min queue order = Ret (al', order') /\
    order' ≡ₚ seq 0 n /\ (acyclic g -> respects g order').
Proof.
  revert al min queue order; induction fuel as [|fuel IH]; intros al min queue order I Hfuel; [lia|].
  destruct queue as [|top rest].
  - exists al, order. split; [done|]. split; [|apply I].
    rewrite (order_unsorted_perm order) by apply I.
    rewrite (ai_progress _ _ _ _ I) by done. by rewrite app_nil_r.
  - destruct (adv_step _ _ _ _ _ I) as (al' & min' & queue' & -> & I').
    apply IH; [done|]. assert (top ∈ unsorted order n) as Ht by (apply (ai_queue _ _ _ _ I); left).
    assert (~ n <= length order).
    { rewrite <- unsorted_nil by apply I. intros E. rewrite E in Ht. set_solver. }
    rewrite length_app. cbn. lia.
Qed.

Lemma unsorted_empty : unsorted [] n = seq 0 n.
Proof. unfold unsorted. apply filter_all_True. set_solver. Qed.

Lemma snd_imap_pair (ind : list Z) : snd <$> imap pair ind = ind.
Proof.
  apply list_eq. intros i. rewrite list_lookup_fmap, list_lookup_imap. by destruct (ind !! i).
Qed.

Lemma adv_graph_Init : adv_graph g [] (Init empty_AlGraph g).
Proof.
  split; [|done|apply Init_length_inDegree]. cbn. apply imap_ext. intros i row _.
  unfold init_vnode. f_equal.
Qed.

Lemma exact_degrees_Init : exact_degrees [] (inDegree (Init empty_AlGraph g)).
Proof.
  split; [apply Init_length_inDegree|]. intros v Hv. rewrite unsorted_empty in *.
  apply Init_inDegree. apply elem_of_seq in Hv. lia.
Qed.

Lemma minimum_Init : let ind := inDegree (Init empty_AlGraph g) in minimum_of [] ind (min_Z ind).
Proof.
  intros ind Hu. destruct (min_unsorted [] ind exact_degrees_Init Hu) as (mn & Hmn & H).
  rewrite unsorted_inDegree_state in Hmn by apply exact_degrees_Init. cbn [mbind outcome_bind] in Hmn.
  rewrite filter_all_True, snd_imap_pair in Hmn by set_solver. by injection Hmn as ->.
Qed.

Lemma AdvancedTopologicalSort_spec :
  g <> [] ->
  exists al' order, AdvancedTopologicalSort (S n) (Init empty_AlGraph g) = Ret (al', order) /\
    order ≡ₚ seq 0 n /\ (acyclic g -> respects g order).
Proof.
  intros Hne. set (al := Init empty_AlGraph g). unfold AdvancedTopologicalSort.
  pose proof exact_degrees_Init as Hex. pose proof minimum_Init as Hmin. fold al in Hex, Hmin.
  cbn zeta in Hmin. set (zero := zero_vertices (inDegree al)). set (mn := min_Z (inDegree al)) in *.
  assert (forall v, v ∈ zero <-> v ∈ unsorted [] n /\ deg (inDegree al) v = 0%Z) as Hz.
  { intros v. destruct Hex as [Hl _]. unfold zero.
    rewrite elem_of_zero_vertices, elem_of_unsorted, Hl. set_solver. }
  assert (unsorted [] n <> []) as Hun.
  { rewrite unsorted_empty. intros E%(f_equal length). rewrite length_seq in E. by destruct g. }
  destruct (select_queue al [] mn zero adv_graph_Init Hmin) as (q & Hsel & Hq); [done|done|].
  assert (adv_inv al mn q []) as I.
  { apply (adv_inv_next al [] mn zero q); try done; [apply adv_graph_Init|constructor|set_solver| |].
    - apply NoDup_zero_vertices.
    - intros _ [|] ? ? ? [=]. }
  assert (match zero with [] => findMaxNode al mn ≫= fun top => Ret [top] | _ => Ret zero end = Ret q) as ->.
  { destruct (Hmin Hun) as [(v & Hv & Hd) Hle]. destruct Hex as [_ Hex]. pose proof (Hex v Hv) as Hdv.
    destruct zero as [|z zs].
    - rewrite decide_True in Hsel; [done|]. destruct (decide (mn = 0%Z)) as [E|E]; [|lia].
      assert (v ∈ @nil nat) as Hin by (apply Hz; split; [done|lia]). set_solver.
    - destruct (proj1 (Hz z)) as [Hzu Hzd]; [left|]. apply Hle in Hzu.
      rewrite decide_False in Hsel; [done|lia]. }
  cbn [mbind outcome_bind]. apply adv_loop_spec; [done|]. cbn. lia.
Qed.
End advanced.

(** ** RebuildGraph and BasicTopologicalSort *)
Section basic.
Context (g : list (list nat)) (abortedTx : list nat).
Local Abbreviation n := (length g).
Hypothesis Hwf : wf_graph g.

Lemma isExistForInt_spec l v : isExistForInt l v = bool_decide (v ∈ l).
Proof.
  unfold isExistForInt. induction l as [|a l IH]; [done|]. cbn. rewrite IH.
  destruct (decide (v = a)) as [->|Hne].
  - rewrite Nat.eqb_refl. symmetry. apply bool_decide_eq_true_2. left.
  - pose proof Hne as Hneb%Nat.eqb_neq. rewrite Hneb. cbn. apply bool_decide_ext.
    rewrite elem_of_cons. naive_solver.
Qed.

(** A vertex after [RebuildGraph]. *)
Definition rebuilt (v : VNode) : VNode :=
  if isExistForInt abortedTx (data v) then v else
  mkVNode (data v)
    ((fun a => if isExistForInt abortedTx (adj a) then mkArc (adj a) true else a) <$> first v) (isSorted v).

Lemma dec_inDegree_eq ind a :
  a < length ind -> dec_inDegree ind a = Ret (<[a := (deg ind a - 1)%Z]> ind).
Proof.
  intros Ha. unfold dec_inDegree, deg. destruct (lookup_lt_is_Some_2 ind a Ha) as [x Hx]. by rewrite Hx.
Qed.

Lemma foldM_dec (arcs : list ArcNode) ind :
  Forall (fun a => adj a < length ind) arcs ->
  exists ind', foldM (fun ind a => dec_inDegree ind (adj a)) ind arcs = Ret ind' /\
    length ind' = length ind /\
    forall v, v < length ind -> deg ind' v = (deg ind v - Z.of_nat (occ v (adj <$> arcs)))%Z.
Proof.
  revert ind; induction arcs as [|a arcs IH]; intros ind Hf.
  { exists ind. split_and!; [done..|]. intros v _. unfold occ, countb. cbn. lia. }
  apply Forall_cons in Hf as [Ha Hf]. cbn [foldM]. rewrite dec_inDegree_eq by done.
  cbn [mbind outcome_bind].
  destruct (IH (<[adj a := (deg ind (adj a) - 1)%Z]> ind)) as (ind' & -> & Hl & Hd); [by rewrite length_insert|].
  rewrite length_insert in Hl, Hd. exists ind'. split_and!; [done..|].
  intros v Hv. rewrite Hd, deg_insert by done. cbn [fmap list_fmap]. rewrite occ_cons.
  destruct (decide (v = adj a)) as [->|]; lia.
Qed.

Lemma rebuild_vertex_eq dn ind ver :
  rebuild_vertex abortedTx (dn, ind) ver
  = (if isExistForInt abortedTx (data ver)
     then foldM (fun ind a => dec_inDegree ind (adj a)) ind (first ver) else Ret ind) ≫= fun ind =>
    Ret (dn ++ [rebuilt ver], ind).
Proof. unfold rebuild_vertex, rebuilt. by destruct (isExistForInt abortedTx (data ver)). Qed.

Lemma foldM_rebuild vs done ind :
  Forall (fun ver => Forall (fun a => adj a < length ind) (first ver)) vs ->
  exists ind', foldM (rebuild_vertex abortedTx) (done, ind) vs = Ret (done ++ (rebuilt <$> vs), ind') /\
    length ind' = length ind /\
    forall v, v < length ind -> deg ind' v = (deg ind v -
      Z.of_nat (sum_list_with (fun ver => if isExistForInt abortedTx (data ver)
                                           then occ v (adj <$> first ver) else 0%nat) vs))%Z.
Proof.
  revert done ind; induction vs as [|ver vs IH]; intros dn ind Hf.
  { exists ind. rewrite app_nil_r. split_and!; [done..|]. intros v _. cbn. lia. }
  apply Forall_cons in Hf as [Ha Hf]. cbn [foldM fmap list_fmap sum_list_with].
  rewrite rebuild_vertex_eq. destruct (isExistForInt abortedTx (data ver)).
  - destruct (foldM_dec (first ver) ind Ha) as (ind1 & -> & Hl1 & Hd1). cbn [mbind outcome_bind].
    destruct (IH (dn ++ [rebuilt ver]) ind1) as (ind' & -> & Hl & Hd); [by rewrite Hl1|].
    exists ind'. rewrite <- app_assoc. split_and!; [done|lia|].
    intros v Hv. rewrite Hd, Hd1 by lia. lia.
  - cbn [mbind outcome_bind]. destruct (IH (dn ++ [rebuilt ver]) ind) as (ind' & -> & Hl & Hd); [done|].
    exists ind'. rewrite <- app_assoc. split_and!; [done|lia|]. intros v Hv. by apply Hd.
Qed.

Lemma imap_seq {B} (f : nat -> list nat -> B) : imap f g = (fun i => f i (row_of g i)) <$> seq 0 n.
Proof.
  apply list_eq. intros i. rewrite list_lookup_imap, list_lookup_fmap. unfold row_of.
  destruct (g !! i) eqn:E; cbn.
  - apply lookup_lt_Some in E as Hi. rewrite lookup_seq_lt by done. cbn. by rewrite E.
  - apply lookup_ge_None_1 in E. by rewrite lookup_seq_ge.
Qed.

(** The arcs out of the aborted transactions are what [RebuildGraph] subtracts. *)
Lemma rebuild_arcs v :
  sum_list_with (fun ver => if isExistForInt abortedTx (data ver) then occ v (adj <$> first ver) else 0)
    (imap init_vnode g) + arcs_from g (unsorted abortedTx n) v = arcs_from g (seq 0 n) v.
Proof.
  rewrite imap_seq. unfold arcs_from, unsorted. induction (seq 0 n) as [|u us IH]; [done|].
  cbn [fmap list_fmap sum_list_with]. rewrite arcs_of_init_vnode, filter_cons, isExistForInt_spec.
  cbn [data init_vnode]. fold (mult g u v). destruct (decide (u ∈ abortedTx)) as [Hu|Hu].
  - rewrite bool_decide_eq_true_2, decide_False by tauto. lia.
  - rewrite bool_decide_eq_false_2, decide_True by done. cbn [sum_list_with]. lia.
Qed.

Lemma RebuildGraph_spec :
  exists al, RebuildGraph (Init empty_AlGraph g) abortedTx = Ret al /\
    vertices al = rebuilt <$> imap init_vnode g /\ length (inDegree al) = n /\
    forall v, v < n -> deg (inDegree al) v = Z.of_nat (arcs_from g (unsorted abortedTx n) v).
Proof.
  unfold RebuildGraph. pose proof (Init_length_inDegree g) as Hl.
  destruct (foldM_rebuild (vertices (Init empty_AlGraph g)) [] (inDegree (Init empty_AlGraph g)))
    as (ind' & -> & Hl' & Hd).
  { rewrite Hl. cbn [vertices Init empty_AlGraph app]. rewrite imap_seq. apply Forall_fmap, Forall_forall.
    intros u _. cbn. apply Forall_fmap. by apply row_bound. }
  eexists. split; [done|]. cbn [vertices inDegree set_vertices set_inDegree app].
  split; [done|]. split; [lia|]. intros v Hv. rewrite Hd, Init_inDegree by lia.
  cbn [vertices Init empty_AlGraph app]. pose proof (rebuild_arcs v). lia.
Qed.

(** The targets [BasicTopologicalSort] still follows from a kept vertex. *)
Lemma rebuilt_arcs top :
  top ∉ abortedTx ->
  adj <$> filter (fun a => arc_isAborted a = false) (first (rebuilt (init_vnode top (row_of g top))))
  = filter (fun v => v ∉ abortedTx) (row_of g top).
Proof.
  intros Ht. unfold rebuilt. rewrite isExistForInt_spec. cbn [data init_vnode first isSorted].
  rewrite bool_decide_eq_false_2 by done. cbn [first].
  induction (row_of g top) as [|a row IH]; [done|].
  cbn [fmap list_fmap adj]. rewrite !filter_cons, isExistForInt_spec.
  destruct (decide (a ∈ abortedTx)) as [Ha|Ha].
  - rewrite bool_decide_eq_true_2, (decide_False (P := a ∉ abortedTx)) by tauto. cbn [arc_isAborted].
    rewrite decide_False by done. apply IH.
  - rewrite bool_decide_eq_false_2, (decide_True (P := a ∉ abortedTx)) by done. cbn [arc_isAborted].
    rewrite decide_True by done. cbn [fmap list_fmap adj]. f_equal. apply IH.
Qed.

(** Arcs between transactions that were not aborted. *)
Definition kept_edge (u v : nat) : Prop := edge g u v /\ u ∉ abortedTx /\ v ∉ abortedTx.

Record basic_inv (ind : list Z) (queue order : list nat) : Prop := {
  bi_length : length ind = n;
  bi_nodup : NoDup (order ++ queue);
  bi_kept : forall v, v ∈ order ++ queue -> v < n /\ v ∉ abortedTx;
  bi_aborted : forall v, v < n -> v ∈ abortedTx -> (0 < deg ind v)%Z;
  bi_deg : forall v, v < n -> v ∉ abortedTx ->
    deg ind v = Z.of_nat (arcs_from g (unsorted (abortedTx ++ order) n) v);
  bi_zero : forall v, v < n -> v ∉ abortedTx -> (v ∈ order ++ queue <-> deg ind v = 0%Z);
  bi_respects : respects_rel kept_edge order }.

Lemma basic_step ind top rest order :
  basic_inv ind (top :: rest) order ->
  exists ind' queue',
    foldM basic_relax (ind, top :: rest) (first (rebuilt (init_vnode top (row_of g top))))
    = Ret (ind', top :: queue') /\
    basic_inv ind' queue' (order ++ [top]).
Proof.
  intros I. destruct (bi_kept _ _ _ I top) as [Htn HtA]; [set_solver|].
  pose proof (bi_nodup _ _ _ I) as Hnd.
  assert (top ∉ order) as Hto by (apply NoDup_app in Hnd as (_ & Hd & _); intros Ht; apply (Hd top Ht); left).
  rewrite foldM_basic_relax, rebuilt_arcs by done. set (ts := filter _ _).
  destruct (relax_spec ts ind (top :: rest)) as (ind' & N & -> & Hl & Hd & HNd & HN).
  { rewrite (bi_length _ _ _ I). apply Forall_forall. intros a [_ Ha]%list_elem_of_filter.
    pose proof (row_bound g Hwf top) as Hrow. rewrite Forall_forall in Hrow. by apply Hrow. }
  rewrite (bi_length _ _ _ I) in *.
  assert (forall v, v ∉ abortedTx -> occ v ts = mult g top v) as Hocc.
  { intros v Hv. unfold ts. rewrite occ_filter, decide_True; done. }
  assert (forall v, v ∈ abortedTx -> occ v ts = 0) as HoccA.
  { intros v Hv. unfold ts. rewrite occ_filter, decide_False; [done|tauto]. }
  assert (forall v, v < n -> v ∉ abortedTx ->
    deg ind' v = Z.of_nat (arcs_from g (unsorted (abortedTx ++ order ++ [top]) n) v)) as Hdeg.
  { intros v Hv HvA. rewrite Hd, Hocc, (bi_deg _ _ _ I) by done.
    rewrite (unsorted_snoc (abortedTx ++ order) n top) by (rewrite elem_of_unsorted; set_solver).
    rewrite <- app_assoc. unfold arcs_from. cbn. lia. }
  exists ind', (rest ++ N). split; [done|]. split; [done|..].
  - rewrite <- app_assoc. cbn. rewrite app_comm_cons, app_assoc. apply NoDup_app.
    split_and!; [done| |done]. intros v Hv (Hvn & Hp & _)%HN.
    destruct (bi_kept _ _ _ I v Hv) as [_ HvA]. apply (bi_zero _ _ _ I) in Hv; [lia|done..].
  - intros v. rewrite <- app_assoc, !elem_of_app. intros [Hv|[Hv|[Hv|Hv]]].
    1-3: apply (bi_kept _ _ _ I); set_solver.
    apply HN in Hv as [Hvn Hp]. split; [done|]. intros HvA%HoccA. lia.
  - intros v Hvn HvA. rewrite Hd, HoccA by done. pose proof (bi_aborted _ _ _ I v Hvn HvA). lia.
  - done.
  - intros v Hvn HvA. pose proof (bi_zero _ _ _ I v Hvn HvA) as Hz. pose proof (Hdeg v Hvn HvA) as E.
    rewrite <- app_assoc. cbn. rewrite app_comm_cons, app_assoc, elem_of_app, Hz, HN.
    rewrite Hd in E |- * by done. rewrite (bi_deg _ _ _ I) in * by done. lia.
  - apply respects_snoc; [apply I|]. intros u (Hu & HuA & _).
    destruct (decide (u ∈ order)) as [|Huo]; [done|exfalso].
    assert (deg ind top = 0%Z) as Hz by (apply (bi_zero _ _ _ I); [done..|set_solver]).
    rewrite (bi_deg _ _ _ I) in Hz by done.
    assert (0 < arcs_from g (unsorted (abortedTx ++ order) n) top); [|lia].
    apply arcs_from_pos. exists u. split; [|done]. apply edge_bound in Hu as [? _]; [|done].
    rewrite elem_of_unsorted. set_solver.
Qed.

Lemma basic_loop_spec fuel ind queue order :
  basic_inv ind queue order -> n - length order < fuel ->
  exists ind' order', basic_loop fuel (rebuilt <$> imap init_vnode g) ind queue order = Ret (ind', order') /\
    basic_inv ind' [] order'.
Proof.
  revert ind queue order; induction fuel as [|fuel IH]; intros ind queue order I Hfuel; [lia|].
  destruct queue as [|top rest]; [by exists ind, order|].
  destruct (basic_step _ _ _ _ I) as (ind' & queue' & Hf & I').
  destruct (bi_kept _ _ _ I top) as [Htn _]; [set_solver|].
  cbn [basic_loop]. rewrite imap_seq, <- list_fmap_compose, list_lookup_fmap, lookup_seq_lt by done.
  cbn [or_panic fmap option_fmap option_map mbind outcome_bind Nat.add compose].
  rewrite Hf. cbn [mbind outcome_bind]. replace (drop 1 (top :: queue')) with queue' by done.
  rewrite list_fmap_compose, <- imap_seq.
  apply IH; [done|]. rewrite length_app. cbn.
  enough (length (order ++ top :: rest) <= n) as Hle by (rewrite length_app in Hle; cbn in Hle; lia).
  rewrite <- (length_seq n 0). apply submseteq_length, NoDup_submseteq; [apply I|].
  intros v [? _]%(bi_kept _ _ _ I). apply elem_of_seq. lia.
Qed.

Definition keeps_predecessor : Prop :=
  forall v, v < n -> v ∈ abortedTx -> exists u, u ∉ abortedTx /\ edge g u v.

Lemma basic_inv_init al :
  keeps_predecessor ->
  length (inDegree al) = n ->
  (forall v, v < n -> deg (inDegree al) v = Z.of_nat (arcs_from g (unsorted abortedTx n) v)) ->
  basic_inv (inDegree al) (zero_vertices (inDegree al)) [].
Proof.
  intros Hpred Hl Hd.
  assert (forall v, v < n -> v ∈ abortedTx -> (0 < deg (inDegree al) v)%Z) as HA.
  { intros v Hv HvA. rewrite Hd by done. destruct (Hpred v Hv HvA) as (u & Hu & Huv).
    assert (0 < arcs_from g (unsorted abortedTx n) v); [|lia].
    apply arcs_from_pos. exists u. split; [|done]. apply edge_bound in Huv as [? _]; [|done].
    by rewrite elem_of_unsorted. }
  split; [done|apply NoDup_zero_vertices| |done| |..].
  - intros v [Hv Hz]%elem_of_zero_vertices. rewrite Hl in Hv. split; [done|].
    intros HvA%HA; [lia|done].
  - intros v Hv _. rewrite app_nil_r. by apply Hd.
  - intros v Hv HvA. cbn. rewrite elem_of_zero_vertices, Hl. naive_solver.
  - intros [|] ? ? ? [=].
Qed.

Lemma rebuild_sort_spec :
  keeps_predecessor ->
  exists al order, (RebuildGraph (Init empty_AlGraph g) abortedTx ≫= BasicTopologicalSort) = Ret (al, order) /\
    NoDup order /\ (forall v, v ∈ order -> v < n /\ v ∉ abortedTx) /\
    respects_rel kept_edge order /\
    ((forall u, ~ tc kept_edge u u) -> forall v, v < n -> v ∉ abortedTx -> v ∈ order).
Proof.
  intros Hpred. destruct RebuildGraph_spec as (al & -> & Hvs & Hl & Hd). cbn [mbind outcome_bind].
  unfold BasicTopologicalSort. rewrite Hvs.
  destruct (basic_loop_spec (S (length (rebuilt <$> imap init_vnode g))) _ _ _ (basic_inv_init al Hpred Hl Hd))
    as (ind' & order & -> & I).
  { rewrite length_fmap, length_imap. cbn. lia. }
  pose proof (bi_nodup _ _ _ I) as Hnd. pose proof (bi_kept _ _ _ I) as Hk.
  pose proof (bi_zero _ _ _ I) as Hz. rewrite app_nil_r in Hnd, Hk, Hz.
  eexists _, order. cbn [mbind outcome_bind]. split_and!; [done..|apply I|].
  intros Hac v Hv HvA. destruct (decide (v ∈ order)) as [|Hvo]; [done|exfalso].
  apply (acyclic_source kept_edge n (unsorted (abortedTx ++ order) n)).
  - by intros a b [[? _]%edge_bound _].
  - done.
  - assert (v ∈ unsorted (abortedTx ++ order) n) as Hin by (rewrite elem_of_unsorted; set_solver).
    intros E. rewrite E in Hin. set_solver.
  - intros w [Hw Hwo]%elem_of_unsorted. apply not_elem_of_app in Hwo as [HwA Hwo].
    rewrite Hz, (bi_deg _ _ _ I) in Hwo by done.
    assert (0 < arcs_from g (unsorted (abortedTx ++ order) n) w) as (u & Hu & Huw)%arcs_from_pos by lia.
    exists u. split; [done|]. apply elem_of_unsorted in Hu as [_ Hu]. split; [done|]. set_solver.
Qed.
End basic.

(** ** Properties *)

(** C29: on every non-empty graph without self loops
    [AdvancedTopologicalSort] returns after one round per vertex and lists
    every vertex exactly once, whether or not the graph has cycles; when it
    has none, the source of every arc comes before its target. *)
Theorem AdvancedTopologicalSort_correct g :
  wf_graph g -> no_self_loop g -> g <> [] ->
  (forall v, (Z.of_nat (arcs_from g (seq 0 (length g)) v) < MaxInt64)%Z) ->
  exists al' order, AdvancedTopologicalSort (S (length g)) (Init empty_AlGraph g) = Ret (al', order) /\
    order ≡ₚ seq 0 (length g) /\ (acyclic g -> respects g order).
Proof. intros. by apply AdvancedTopologicalSort_spec. Qed.

Lemma AdvancedTopologicalSort_correct_witness :
  exists al' order, AdvancedTopologicalSort 4 (Init empty_AlGraph [[1]; [2]; [1]]) = Ret (al', order) /\
    order ≡ₚ [0; 1; 2].
Proof.
  destruct (AdvancedTopologicalSort_correct [[1]; [2]; [1]]) as (al' & order & Hr & Hp & _).
  - repeat constructor; cbn; lia.
  - intros [|[|[|u]]]; unfold edge, row_of; cbn; set_solver by lia.
  - done.
  - intros [|[|[|v]]]; vm_compute; reflexivity.
  - exists al', order. split; [exact Hr|exact Hp].
Defined.

(** When every aborted transaction keeps an arc from one that is not
    aborted, [RebuildGraph] and [BasicTopologicalSort] return an order without
    duplicates of transactions that are not aborted, in which every arc
    between them is respected; it contains all of them when the arcs between
    them form no cycle. *)
Theorem RebuildGraph_BasicTopologicalSort_correct g abortedTx :
  wf_graph g -> keeps_predecessor g abortedTx ->
  exists al order, (RebuildGraph (Init empty_AlGraph g) abortedTx ≫= BasicTopologicalSort) = Ret (al, order) /\
    NoDup order /\ (forall v, v ∈ order -> v < length g /\ v ∉ abortedTx) /\
    respects_rel (kept_edge g abortedTx) order /\
    ((forall u, ~ tc (kept_edge g abortedTx) u u) -> forall v, v < length g -> v ∉ abortedTx -> v ∈ order).
Proof. intros. by apply rebuild_sort_spec. Qed.

Lemma RebuildGraph_BasicTopologicalSort_correct_witness :
  exists al order, (RebuildGraph (Init empty_AlGraph [[1]; [0; 2]; []]) [1] ≫= BasicTopologicalSort) = Ret (al, order) /\
    NoDup order /\ forall v, v ∈ order -> v < 3 /\ v ∉ [1].
Proof.
  destruct (RebuildGraph_BasicTopologicalSort_correct [[1]; [0; 2]; []] [1]) as (al & order & Hr & Hn & Hb & _).
  - repeat constructor; cbn; lia.
  - intros v _ ->%list_elem_of_singleton. exists 0. split; [set_solver|]. unfold edge, row_of. cbn. set_solver.
  - exists al, order. split; [exact Hr|]. split; [exact Hn|exact Hb].
Defined.
