(* ===== verification/RWSet.v ===== *)
(** * Read/write nodes: [core/rwset_builder.go]

    A transaction's read and write set is a slice of [RWNode]s.  This file
    models how the slice is built ([CreateRWNode]), how a node names the state
    cell it touches ([CompositeKey]) and how the slice becomes the read set,
    write set and write deltas used when the transaction is validated
    ([RWNodesToContext]).  A Go [[]byte] is a [string] of bytes; a [*big.Int]
    is a [Z]. *)
From stdpp Require Import base list gmap strings.
From Stdlib Require Import ZArith Ascii Lia.
From S2P Require Import Prelude.

Set Default Goal Selector "!".
Local Open Scope string_scope.
Local Open Scope list_scope.

(** ** Data *)
Record RWPair := mkRWPair { Key : string; Value : string }.

Record TransInfo := mkTransInfo { ID : string; Timestamp : Z }.

Record RWNode := mkRWNode {
  RWSet : RWPair;
  Trans : TransInfo;
  Label : string;
  Sequence : Z;
  isAssigned : bool;
  ContractName : string }.

(** The indexing loop [for i := 0; i < len(addr); i++ { ... value[i] ... }]. *)
Fixpoint label_nodes (label : string) (info : TransInfo) (contractName : string)
    (addr value : list string) : outcome (list RWNode) :=
  match addr with
  | [] => Ret []
  | a :: addr =>
    or_panic (head value) ≫= fun v =>
    label_nodes label info contractName addr (tail value) ≫= fun rest =>
    Ret (mkRWNode (mkRWPair a v) info label 0 false contractName :: rest)
  end.

Definition CreateRWNode (id : string) (time : Z) (contractName : string)
    (rAddr rValue wAddr wValue : list string) : outcome (list RWNode) :=
  let transInfo := mkTransInfo id time in
  label_nodes "r" transInfo contractName rAddr rValue ≫= fun rs =>
  label_nodes "w" transInfo contractName wAddr wValue ≫= fun ws =>
  Ret (rs ++ ws).

Definition ConvertByte2String (bytes : string) : string := bytes.

Definition CompositeKey (rw : RWNode) : string :=
  ContractName rw +:+ ":" +:+ ConvertByte2String (Key (RWSet rw)).

Definition isRead (rw : RWNode) : bool := String.eqb (Label rw) "r".
Definition isWrite (rw : RWNode) : bool := String.eqb (Label rw) "w".

(** ** RWNodesToContext *)
Record LLMAccess := mkLLMAccess { Account : string; Field : string }.

Record TransactionContext := mkTransactionContext {
  TxID : string;
  ctx_ContractName : string;
  ctx_Function : string;
  Addr1 : Z;
  Addr2 : Z;
  PreReadSet : gmap string string;
  PreWriteSet : gmap string string;
  PreWriteDelta : gmap string Z;
  FromAddr : string;
  ContractAddr : string;
  LLMReads : list LLMAccess;
  LLMWrites : list LLMAccess }.

(** The difference of a write and a read as a signed 256-bit number. *)
Definition write_delta (readBig writeBig : Z) : Z :=
  let delta := (writeBig - readBig)%Z in
  let delta := if decide (delta < 0)%Z then (delta + two256)%Z else delta in
  if decide (two255 <= delta)%Z then (delta - two256)%Z else delta.

Definition context_sets := (gmap string string * gmap string string * gmap string Z)%type.

Definition context_node (st : context_sets) (rw : RWNode) : context_sets :=
  let '(readSet, writeSet, writeDelta) := st in
  let key := ConvertByte2String (Key (RWSet rw)) in
  if isRead rw then (<[key := Value (RWSet rw)]> readSet, writeSet, writeDelta)
  else if isWrite rw then
    let delta := match readSet !! key with
                 | Some readVal => write_delta (SetBytes readVal) (SetBytes (Value (RWSet rw)))
                 | None => SetBytes (Value (RWSet rw))
                 end in
    (readSet, <[key := Value (RWSet rw)]> writeSet, <[key := delta]> writeDelta)
  else st.

Definition RWNodesToContext (txID contractName function : string) (addr1 addr2 : Z)
    (rwNodes : list RWNode) (fromAddr contractAddr : string) : TransactionContext :=
  let '(readSet, writeSet, writeDelta) := foldl context_node (∅, ∅, ∅) rwNodes in
  mkTransactionContext txID contractName function addr1 addr2 readSet writeSet writeDelta
    fromAddr contractAddr [] [].

(** ** CreateRWNode *)
Definition node_of (label : string) (info : TransInfo) (contractName : string) (p : string * string) : RWNode :=
  mkRWNode (mkRWPair p.1 p.2) info label 0 false contractName.

Lemma label_nodes_spec label info c addr value :
  label_nodes label info c addr value
  = if decide (length addr <= length value) then Ret (node_of label info c <$> zip addr value) else Panics.
Proof.
  revert value; induction addr as [|a addr IH]; intros value; [by rewrite decide_True by (cbn; lia)|].
  destruct value as [|v value]; [done|]. cbn [label_nodes head or_panic mbind outcome_bind tail].
  rewrite IH. cbn [length zip zip_with fmap list_fmap].
  destruct (decide (length addr <= length value)); [rewrite decide_True by lia|rewrite decide_False by lia]; done.
Qed.

Lemma CreateRWNode_spec id time c rAddr rValue wAddr wValue :
  length rAddr <= length rValue -> length wAddr <= length wValue ->
  CreateRWNode id time c rAddr rValue wAddr wValue
  = Ret ((node_of "r" (mkTransInfo id time) c <$> zip rAddr rValue) ++
         (node_of "w" (mkTransInfo id time) c <$> zip wAddr wValue)).
Proof. intros Hr Hw. unfold CreateRWNode. by rewrite !label_nodes_spec, !decide_True. Qed.

(** ** The sets of a context *)

(** The value a slice of pairs leaves at a key: the last one wins. *)
Definition last_value (k : string) (ps : list (string * string)) : option string :=
  foldl (fun o p => if decide (p.1 = k) then Some p.2 else o) None ps.

Lemma foldl_last_value k ps o :
  foldl (fun o p => if decide (p.1 = k) then Some p.2 else o) o ps
  = match last_value k ps with Some v => Some v | None => o end.
Proof.
  unfold last_value. revert o; induction ps as [|p ps IH]; intros o; [done|]. cbn [foldl].
  rewrite IH, (IH (if decide (p.1 = k) then Some p.2 else None)).
  destruct (foldl _ None ps); [done|]. by destruct (decide (p.1 = k)).
Qed.

Lemma last_value_Forall (P : string -> Prop) k ks vs v :
  Forall P vs -> last_value k (zip ks vs) = Some v -> P v.
Proof.
  revert vs; induction ks as [|a ks IH]; intros [|x vs] Hf; try done.
  apply Forall_cons in Hf as [Hx Hf]. unfold last_value. cbn [zip zip_with foldl].
  rewrite foldl_last_value. destruct (last_value k (zip ks vs)) eqn:E.
  - intros [= ->]. by eapply IH.
  - cbn. destruct (decide (a = k)); [intros [= ->]|]; done.
Qed.

Lemma context_reads info c ps R W D :
  exists R', foldl context_node (R, W, D) (node_of "r" info c <$> ps) = (R', W, D) /\
    forall k, R' !! k = match last_value k ps with Some v => Some v | None => R !! k end.
Proof.
  revert R; induction ps as [|p ps IH]; intros R; [by exists R|].
  cbn [fmap list_fmap foldl]. unfold context_node at 2. cbn [isRead Label node_of String.eqb Ascii.eqb eqb].
  destruct (IH (<[ConvertByte2String p.1 := p.2]> R)) as (R' & HR' & Hk).
  exists R'. split; [exact HR'|]. intros k. rewrite Hk. unfold last_value at 2. cbn [foldl].
  rewrite foldl_last_value. destruct (last_value k ps); [done|]. unfold ConvertByte2String.
  destruct (decide (p.1 = k)) as [->|Hne]; [by rewrite lookup_insert_eq|by rewrite lookup_insert_ne].
Qed.

Definition delta_of (o : option string) (v : string) : Z :=
  match o with Some r => write_delta (SetBytes r) (SetBytes v) | None => SetBytes v end.

Lemma context_writes info c ps R W D :
  exists W' D', foldl context_node (R, W, D) (node_of "w" info c <$> ps) = (R, W', D') /\
    forall k, W' !! k = match last_value k ps with Some v => Some v | None => W !! k end /\
              D' !! k = match last_value k ps with Some v => Some (delta_of (R !! k) v) | None => D !! k end.
Proof.
  revert W D; induction ps as [|p ps IH]; intros W D; [by exists W, D|].
  cbn [fmap list_fmap foldl]. unfold context_node at 2. cbn [isRead isWrite Label node_of String.eqb Ascii.eqb eqb].
  destruct (IH (<[ConvertByte2String p.1 := p.2]> W)
              (<[ConvertByte2String p.1 := delta_of (R !! p.1) p.2]> D)) as (W' & D' & HW' & Hk).
  exists W', D'. split; [exact HW'|]. intros k. destruct (Hk k) as [-> ->].
  unfold last_value at 2 4. cbn [foldl].
  rewrite foldl_last_value. destruct (last_value k ps); [done|]. unfold ConvertByte2String.
  destruct (decide (p.1 = k)) as [->|Hne]; [by rewrite !lookup_insert_eq|by rewrite !lookup_insert_ne].
Qed.

(** A delta fits a signed 256-bit word and takes the value read to the value
    written, modulo [2^256]. *)
Lemma write_delta_spec r w :
  (0 <= r < two256)%Z -> (0 <= w < two256)%Z ->
  (- two255 <= write_delta r w < two255)%Z /\ ((r + write_delta r w) `mod` two256 = w)%Z.
Proof.
  unfold write_delta. intros Hr Hw. assert (two256 = 2 * two255)%Z as E by reflexivity.
  assert (0 < two255)%Z by reflexivity.
  destruct (decide (w - r < 0)%Z) as [H1|H1];
    (destruct (decide (two255 <= _)%Z) as [H2|H2]; (split; [lia|])).
  - replace (r + _)%Z with w by lia. by apply Z.mod_small.
  - replace (r + _)%Z with (w + 1 * two256)%Z by lia. rewrite Z_mod_plus_full. by apply Z.mod_small.
  - replace (r + _)%Z with (w + (-1) * two256)%Z by lia. rewrite Z_mod_plus_full. by apply Z.mod_small.
  - replace (r + _)%Z with w by lia. by apply Z.mod_small.
Qed.

Lemma SetBytes_word s : String.length s <= 32 -> (0 <= SetBytes s < two256)%Z.
Proof.
  intros Hs. split; [apply SetBytes_nonneg|]. eapply Z.lt_le_trans; [apply SetBytes_bound|].
  replace two256 with (256 ^ 32)%Z by reflexivity. apply Z.pow_le_mono_r; lia.
Qed.

Lemma context_of_created id time c rAddr rValue wAddr wValue :
  length rAddr <= length rValue -> length wAddr <= length wValue ->
  exists nodes, CreateRWNode id time c rAddr rValue wAddr wValue = Ret nodes /\
    forall tid fn a1 a2 from to k, let ctx := RWNodesToContext tid c fn a1 a2 nodes from to in
      PreReadSet ctx !! k = last_value k (zip rAddr rValue) /\
      PreWriteSet ctx !! k = last_value k (zip wAddr wValue) /\
      PreWriteDelta ctx !! k = (delta_of (PreReadSet ctx !! k)) <$> PreWriteSet ctx !! k.
Proof.
  intros Hr Hw. eexists. split; [by apply CreateRWNode_spec|]. intros tid fn a1 a2 from to k.
  unfold RWNodesToContext. rewrite foldl_app.
  destruct (context_reads (mkTransInfo id time) c (zip rAddr rValue) ∅ ∅ ∅) as (R & -> & HR).
  destruct (context_writes (mkTransInfo id time) c (zip wAddr wValue) R ∅ ∅) as (W & D & -> & HWD).
  cbn [PreReadSet PreWriteSet PreWriteDelta]. destruct (HWD k) as [-> ->]. rewrite HR, !lookup_empty.
  split; [by destruct (last_value k (zip rAddr rValue))|].
  split; [by destruct (last_value k (zip wAddr wValue))|].
  by destruct (last_value k (zip wAddr wValue)).
Qed.

(** ** Composite keys *)
Definition no_colon (s : string) : Prop := ":"%char ∉ String.list_ascii_of_string s.

Lemma append_colon_inj s1 s2 k1 k2 :
  no_colon s1 -> no_colon s2 -> s1 +:+ ":" +:+ k1 = s2 +:+ ":" +:+ k2 -> s1 = s2 /\ k1 = k2.
Proof.
  unfold no_colon. revert s2; induction s1 as [|a s1 IH]; intros [|b s2] H1 H2 Heq; cbn in *.
  - by injection Heq.
  - injection Heq as <- _. set_solver.
  - injection Heq as -> _. set_solver.
  - injection Heq as -> Heq. destruct (IH s2) as [-> ->]; [set_solver..|done].
Qed.

(** ** Properties *)

(** A context built from the nodes of a transaction records, for every
    key, the last value read and the last value written; the delta of a key
    that was both read and written (values of at most 32 bytes) is a signed
    256-bit number that takes the one to the other modulo [2^256]. *)
Theorem RWNodesToContext_correct id time c rAddr rValue wAddr wValue :
  length rAddr <= length rValue -> length wAddr <= length wValue ->
  Forall (fun v => String.length v <= 32) (rValue ++ wValue) ->
  exists nodes, CreateRWNode id time c rAddr rValue wAddr wValue = Ret nodes /\
    forall tid fn a1 a2 from to k, let ctx := RWNodesToContext tid c fn a1 a2 nodes from to in
      PreReadSet ctx !! k = last_value k (zip rAddr rValue) /\
      PreWriteSet ctx !! k = last_value k (zip wAddr wValue) /\
      dom (PreWriteDelta ctx) = dom (PreWriteSet ctx) /\
      (forall r w, PreReadSet ctx !! k = Some r -> PreWriteSet ctx !! k = Some w ->
         exists d, PreWriteDelta ctx !! k = Some d /\ (- two255 <= d < two255)%Z /\
                   ((SetBytes r + d) `mod` two256 = SetBytes w)%Z) /\
      (forall w, PreReadSet ctx !! k = None -> PreWriteSet ctx !! k = Some w ->
         PreWriteDelta ctx !! k = Some (SetBytes w)).
Proof.
  intros Hr Hw Hlen.
  destruct (context_of_created id time c rAddr rValue wAddr wValue Hr Hw) as (nodes & Hn & H).
  exists nodes. split; [done|]. intros tid fn a1 a2 from to k ctx.
  destruct (H tid fn a1 a2 from to k) as (HR & HW & HD). fold ctx in HR, HW, HD.
  split_and!; [done|done| | |].
  - apply set_eq. intros k'. rewrite !elem_of_dom.
    destruct (H tid fn a1 a2 from to k') as (_ & _ & HD'). fold ctx in HD'. rewrite HD'.
    apply fmap_is_Some.
  - intros r w Hrk Hwk. rewrite HD, Hrk, Hwk. eexists. split; [done|]. cbn [delta_of].
    rewrite Forall_app in Hlen. destruct Hlen as [Hlr Hlw].
    apply write_delta_spec; apply SetBytes_word.
    + rewrite HR in Hrk. by apply (last_value_Forall _ k rAddr rValue r Hlr).
    + rewrite HW in Hwk. by apply (last_value_Forall _ k wAddr wValue w Hlw).
  - intros w Hrk Hwk. by rewrite HD, Hrk, Hwk.
Qed.

Lemma RWNodesToContext_correct_witness :
  exists nodes, CreateRWNode "t" 0 "c" ["k"] [FillBytes 32 7] ["k"] [FillBytes 32 5] = Ret nodes /\
    PreWriteDelta (RWNodesToContext "t" "c" "f" 0 0 nodes "a" "b") !! "k" = Some (-2)%Z.
Proof.
  destruct (RWNodesToContext_correct "t" 0 "c" ["k"] [FillBytes 32 7] ["k"] [FillBytes 32 5])
    as (nodes & Hn & _); [cbn; lia|cbn; lia|by repeat constructor|].
  exists nodes. split; [exact Hn|]. injection Hn as <-. vm_compute. reflexivity.
Defined.

(** Two nodes have the same composite key exactly when they name the same
    key of the same contract, provided contract names hold no colon. *)
Theorem CompositeKey_injective rw1 rw2 :
  no_colon (ContractName rw1) -> no_colon (ContractName rw2) ->
  CompositeKey rw1 = CompositeKey rw2 <->
  ContractName rw1 = ContractName rw2 /\ Key (RWSet rw1) = Key (RWSet rw2).
Proof.
  intros H1 H2. unfold CompositeKey, ConvertByte2String. split; [by apply append_colon_inj|].
  by intros [-> ->].
Qed.

Lemma CompositeKey_injective_witness :
  let rw := node_of "r" (mkTransInfo "t" 0) in
  CompositeKey (rw "a" ("slot:1", EmptyString)) <> CompositeKey (rw "b" ("slot:1", EmptyString)).
Proof.
  intros rw H. apply CompositeKey_injective in H; [by destruct H|..]; unfold no_colon; cbn; set_solver.
Defined.
