(* ===== verification/GoText.v ===== *)
(** * Byte strings: the parts of Go's [strings], [encoding/hex] and
      [encoding/binary] the program uses, and the state keys built from them

    A Go string and a [[]byte] are both a [string] of bytes.  [ToLower] is
    [strings.ToLower] on ASCII text, which is all the program feeds it. *)
From stdpp Require Import base list gmap strings.
From Stdlib Require Import ZArith Ascii Lia.
From S2P Require Import Prelude RWSet.

Set Default Goal Selector "!".
Local Open Scope string_scope.
Local Open Scope list_scope.

Local Notation len := String.length.

(** ** strings *)
Definition lower_char (c : ascii) : ascii :=
  let n := N_of_ascii c in
  if ((65 <=? n) && (n <=? 90))%N then ascii_of_N (n + 32) else c.

Fixpoint ToLower (s : string) : string :=
  match s with EmptyString => EmptyString | String c s => String (lower_char c) (ToLower s) end.

Definition HasPrefix (s p : string) : bool := String.prefix p s.

(** [s[n:]] and [s[:n]] for an [n] within the string. *)
Fixpoint drop_bytes (n : nat) (s : string) : string :=
  match n, s with S n, String _ s => drop_bytes n s | _, _ => s end.
Fixpoint take_bytes (n : nat) (s : string) : string :=
  match n, s with S n, String c s => String c (take_bytes n s) | _, _ => EmptyString end.

(** [s[lo:hi]]; Go panics unless [lo <= hi <= len(s)]. *)
Definition slice_bytes (s : string) (lo hi : Z) : outcome string :=
  if bool_decide (0 <= lo <= hi /\ hi <= Z.of_nat (len s))%Z
  then Ret (take_bytes (Z.to_nat (hi - lo)) (drop_bytes (Z.to_nat lo) s))
  else Panics.

(** The text before the first [c] and the text after it. *)
Fixpoint cut (c : ascii) (s : string) : option (string * string) :=
  match s with
  | EmptyString => None
  | String a s =>
    if Ascii.eqb a c then Some (EmptyString, s)
    else match cut c s with Some (x, y) => Some (String a x, y) | None => None end
  end.

(** [strings.SplitN(s, sep, n)] for a one-byte separator. *)
Fixpoint SplitN (c : ascii) (n : nat) (s : string) : list string :=
  match n with
  | 0 => []
  | S m => match m, cut c s with
           | S _, Some (x, y) => x :: SplitN c m y
           | _, _ => [s]
           end
  end.

(** ** hex *)
Definition hex_digit (n : Z) : ascii :=
  ascii_of_N (Z.to_N (if (n <? 10)%Z then 48 + n else 87 + n)).

Definition hex_val (c : ascii) : option Z :=
  let n := Z.of_N (N_of_ascii c) in
  if ((48 <=? n) && (n <=? 57))%Z then Some (n - 48)%Z
  else if ((97 <=? n) && (n <=? 102))%Z then Some (n - 87)%Z
  else if ((65 <=? n) && (n <=? 70))%Z then Some (n - 55)%Z
  else None.

Fixpoint EncodeToString (b : string) : string :=
  match b with
  | EmptyString => EmptyString
  | String c b => String (hex_digit (byte_val c / 16)) (String (hex_digit (byte_val c `mod` 16)) (EncodeToString b))
  end.

(** The bytes [hex.DecodeString] returns, which on malformed input are those
    decoded before the error. *)
Fixpoint DecodeString (s : string) : string :=
  match s with
  | String h (String l s) =>
    match hex_val h, hex_val l with
    | Some x, Some y => String (byte_of (16 * x + y)) (DecodeString s)
    | _, _ => EmptyString
    end
  | _ => EmptyString
  end.

Fixpoint zeros (n : nat) : string := match n with 0 => EmptyString | S n => String zero (zeros n) end.

(** ** State keys: [exporter/trace.go] *)
Definition with_0x (s : string) : string := if HasPrefix s "0x" then s else "0x" +:+ s.

Definition AcctKey (addr field : string) : string := "acct:" +:+ with_0x (ToLower addr) +:+ ":" +:+ field.
Definition SlotKey (addr slot : string) : string := "slot:" +:+ with_0x (ToLower addr) +:+ ":" +:+ with_0x (ToLower slot).

Definition ParseKey (key : string) : option (string * string * string) :=
  match SplitN ":" 3 key with [kind; addr; field] => Some (kind, addr, field) | _ => None end.

(** ** Lemmas *)
Lemma append_cons c (a b : string) : String c a +:+ b = String c (a +:+ b).
Proof. done. Qed.
Lemma append_nil_l (b : string) : EmptyString +:+ b = b.
Proof. done. Qed.

Lemma append_assoc (a b c : string) : (a +:+ b) +:+ c = a +:+ (b +:+ c).
Proof. induction a as [|x a IH]; [done|]. exact (f_equal (String x) IH). Qed.

Lemma append_nil_r (a : string) : a +:+ EmptyString = a.
Proof. induction a as [|x a IH]; [done|]. exact (f_equal (String x) IH). Qed.

Lemma length_append (a b : string) : len (a +:+ b) = len a + len b.
Proof. induction a as [|x a IH]; [done|]. exact (f_equal S IH). Qed.

Lemma length_zeros n : len (zeros n) = n.
Proof. induction n as [|n IH]; cbn; [done|]. by rewrite IH. Qed.

Lemma append_inj_length (a b c d : string) : a +:+ b = c +:+ d -> len a = len c -> a = c /\ b = d.
Proof.
  revert c. induction a as [|x a IH]; intros [|y c] H Hl; cbn in *; try done.
  injection H as -> H. injection Hl as Hl. destruct (IH c H Hl) as [-> ->]. done.
Qed.

Lemma append_inj_r (a b c : string) : a +:+ b = a +:+ c -> b = c.
Proof. intros H. by apply append_inj_length in H as [_ ?]. Qed.

Lemma take_drop (n : nat) s : n <= len s -> take_bytes n s +:+ drop_bytes n s = s.
Proof. revert s. induction n as [|n IH]; intros [|c s] Hn; cbn in *; [done|done|lia|]. by rewrite append_cons, IH by lia. Qed.

Lemma length_take (n : nat) s : len (take_bytes n s) = n `min` len s.
Proof. revert s. induction n as [|n IH]; intros [|c s]; cbn; [done..|]. by rewrite IH. Qed.

Lemma length_drop (n : nat) s : len (drop_bytes n s) = len s - n.
Proof. revert s. induction n as [|n IH]; intros [|c s]; cbn; [done..|]. by rewrite IH. Qed.

Lemma take_append (a b : string) : take_bytes (len a) (a +:+ b) = a.
Proof. induction a as [|x a IH]; [by destruct b|]. rewrite append_cons. cbn. by rewrite IH. Qed.

Lemma drop_append (a b : string) : drop_bytes (len a) (a +:+ b) = b.
Proof. induction a as [|x a IH]; [by destruct b|done]. Qed.

(** The middle of a string cut out of it. *)
Lemma slice_append (a b c : string) lo hi :
  lo = Z.of_nat (len a) -> hi = (lo + Z.of_nat (len b))%Z -> slice_bytes (a +:+ b +:+ c) lo hi = Ret b.
Proof.
  intros -> ->. unfold slice_bytes. rewrite !length_append, bool_decide_eq_true_2 by lia.
  replace (Z.to_nat (Z.of_nat (len a) + Z.of_nat (len b) - Z.of_nat (len a))) with (len b) by lia.
  by rewrite Nat2Z.id, drop_append, take_append.
Qed.

Lemma slice_length s lo hi b : slice_bytes s lo hi = Ret b -> Z.of_nat (len b) = (hi - lo)%Z.
Proof.
  unfold slice_bytes. case_bool_decide as H; [|done]. intros [= <-]. rewrite length_take, length_drop. lia.
Qed.

Lemma HasPrefix_spec s p : HasPrefix s p = true -> s = p +:+ drop_bytes (len p) s.
Proof.
  unfold HasPrefix. revert s. induction p as [|c p IH]; intros s H; [by destruct s|].
  destruct s as [|d s]; [done|]. cbn [String.prefix] in H. destruct (ascii_dec c d) as [->|]; [|done].
  rewrite append_cons. cbn [String.length drop_bytes]. by rewrite <- IH.
Qed.

Lemma lower_char_idem c : lower_char (lower_char c) = lower_char c.
Proof. destruct c as [[][][][][][][][]]; reflexivity. Qed.

Lemma ToLower_idem s : ToLower (ToLower s) = ToLower s.
Proof. induction s as [|c s IH]; cbn; [done|]. by rewrite lower_char_idem, IH. Qed.

Lemma lower_char_colon c : lower_char c = ":"%char <-> c = ":"%char.
Proof. split; [|by intros ->]. destruct c as [[][][][][][][][]]; vm_compute; congruence. Qed.

Lemma no_colon_cons c s : no_colon (String c s) <-> c <> ":"%char /\ no_colon s.
Proof. unfold no_colon. cbn. rewrite not_elem_of_cons. naive_solver. Qed.

Lemma no_colon_ToLower s : no_colon (ToLower s) <-> no_colon s.
Proof. induction s as [|c s IH]; cbn; [done|]. rewrite !no_colon_cons, lower_char_colon, IH. done. Qed.

Lemma no_colon_append a b : no_colon (a +:+ b) <-> no_colon a /\ no_colon b.
Proof.
  induction a as [|c a IH]; [|rewrite append_cons, !no_colon_cons, IH; tauto]. rewrite append_nil_l.
  split; [|tauto]. intros H. split; [|done]. unfold no_colon. cbn. apply not_elem_of_nil.
Qed.

Lemma no_colon_0x s : no_colon s -> no_colon (with_0x s).
Proof.
  intros Hs. unfold with_0x. destruct (HasPrefix s "0x"); [done|]. apply no_colon_append. split; [|done].
  unfold no_colon. cbn. set_solver.
Qed.

Lemma with_0x_prefix s : HasPrefix (with_0x s) "0x" = true.
Proof. unfold with_0x. destruct (HasPrefix s "0x") eqn:E; [done|]. cbn. by destruct s. Qed.

Lemma with_0x_idem s : with_0x (with_0x s) = with_0x s.
Proof. unfold with_0x at 1. by rewrite with_0x_prefix. Qed.

Lemma cut_append c x y : c ∉ String.list_ascii_of_string x -> cut c (x +:+ String c y) = Some (x, y).
Proof.
  induction x as [|a x IH]; intros Hc.
  - rewrite append_nil_l. cbn. by rewrite Ascii.eqb_refl.
  - rewrite append_cons. cbn. apply not_elem_of_cons in Hc as [Ha Hx]. destruct (Ascii.eqb_spec a c) as [->|]; [done|]. by rewrite IH.
Qed.

(** Text of the shape [kind:addr:field] is taken apart into its three parts. *)
Lemma ParseKey_join kind addr field :
  no_colon kind -> no_colon addr -> ParseKey (kind +:+ ":" +:+ addr +:+ ":" +:+ field) = Some (kind, addr, field).
Proof.
  intros Hk Ha. unfold ParseKey. cbn [SplitN]. change (":" +:+ ?x) with (String ":" x). rewrite (cut_append ":" kind) by done.
  cbn [SplitN]. change (":" +:+ ?x) with (String ":" x). by rewrite (cut_append ":" addr) by done.
Qed.

Lemma AcctKey_shape a f : AcctKey a f = "acct" +:+ ":" +:+ with_0x (ToLower a) +:+ ":" +:+ f.
Proof. done. Qed.
Lemma SlotKey_shape a s : SlotKey a s = "slot" +:+ ":" +:+ with_0x (ToLower a) +:+ ":" +:+ with_0x (ToLower s).
Proof. done. Qed.

Lemma ParseKey_AcctKey a f : no_colon a -> ParseKey (AcctKey a f) = Some ("acct", with_0x (ToLower a), f).
Proof.
  intros Ha. rewrite AcctKey_shape. apply ParseKey_join; [unfold no_colon; cbn; set_solver|].
  by apply no_colon_0x, no_colon_ToLower.
Qed.

Lemma ParseKey_SlotKey a s : no_colon a -> ParseKey (SlotKey a s) = Some ("slot", with_0x (ToLower a), with_0x (ToLower s)).
Proof.
  intros Ha. rewrite SlotKey_shape. apply ParseKey_join; [unfold no_colon; cbn; set_solver|].
  by apply no_colon_0x, no_colon_ToLower.
Qed.

(** Whatever the parts are, a text with two colons parses. *)
Lemma cut_some (a y : string) : exists p q, cut ":" (a +:+ ":" +:+ y) = Some (p, q) /\ (q = y \/ exists q', q = q' +:+ ":" +:+ y).
Proof.
  induction a as [|c a (p & q & IH & Hq)]; [by exists EmptyString, y; split; [|left]|].
  rewrite append_cons. cbn [cut]. destruct (Ascii.eqb c ":").
  - exists EmptyString, (a +:+ ":" +:+ y). split; [done|]. right. by exists a.
  - rewrite IH. by eexists _, _.
Qed.

Lemma ParseKey_total x a y : is_Some (ParseKey (x +:+ ":" +:+ a +:+ ":" +:+ y)).
Proof.
  unfold ParseKey. cbn [SplitN]. destruct (cut_some x (a +:+ ":" +:+ y)) as (p & q & Hc & Hq). rewrite Hc.
  assert (exists p' q', cut ":" q = Some (p', q')) as (p' & q' & Hc').
  { destruct Hq as [->|(q' & ->)].
    - destruct (cut_some a y) as (p' & q' & H & _). eauto.
    - rewrite <- (append_assoc ":" a), <- (append_assoc q').
      destruct (cut_some (q' +:+ ":" +:+ a) y) as (p' & q'' & H & _). eauto. }
  cbn [SplitN]. rewrite Hc'. by eexists.
Qed.

(** ** hex lemmas *)
Lemma hex_digit_val n : (0 <= n < 16)%Z -> hex_val (hex_digit n) = Some n.
Proof.
  intros Hn. assert (n ∈ seqZ 0 16) as Hin by (apply elem_of_seqZ; lia).
  assert (forallb (fun n => bool_decide (hex_val (hex_digit n) = Some n)) (seqZ 0 16) = true) as H by (vm_compute; reflexivity).
  apply (bool_decide_eq_true (hex_val (hex_digit n) = Some n)).
  apply (proj1 (forallb_forall _ _) H). by apply list_elem_of_In.
Qed.

Lemma byte_of_val c : byte_of (byte_val c) = c.
Proof.
  unfold byte_of, byte_val. pose proof (N_ascii_bounded c). rewrite Z.mod_small by lia. rewrite N2Z.id. apply ascii_N_embedding.
Qed.

Lemma Decode_Encode b : DecodeString (EncodeToString b) = b.
Proof.
  induction b as [|c b IH]; cbn [EncodeToString DecodeString]; [done|]. pose proof (byte_val_range c).
  rewrite !hex_digit_val by (first [apply Z.mod_pos_bound; lia|split; [apply Z.div_pos; lia|apply Z.div_lt_upper_bound; lia]]).
  rewrite <- Z.div_mod by lia. by rewrite byte_of_val, IH.
Qed.

Lemma Encode_inj b c : EncodeToString b = EncodeToString c -> b = c.
Proof. intros H. by rewrite <- (Decode_Encode b), H, Decode_Encode. Qed.

(** ** State keys *)

(** State keys are faithful names: [ParseKey] recovers the kind, the
    normalised address and the field or slot from a key; two account keys (two
    slot keys) are equal exactly when address and field (slot) agree after
    normalisation; and no account key is a slot key. *)
Theorem state_keys_faithful a b f g s t :
  no_colon a -> no_colon b ->
  ParseKey (AcctKey a f) = Some ("acct", with_0x (ToLower a), f) /\
  ParseKey (SlotKey a s) = Some ("slot", with_0x (ToLower a), with_0x (ToLower s)) /\
  (AcctKey a f = AcctKey b g <-> with_0x (ToLower a) = with_0x (ToLower b) /\ f = g) /\
  (SlotKey a s = SlotKey b t <-> with_0x (ToLower a) = with_0x (ToLower b) /\ with_0x (ToLower s) = with_0x (ToLower t)) /\
  AcctKey a f <> SlotKey b s.
Proof.
  intros Ha Hb. split; [by apply ParseKey_AcctKey|]. split; [by apply ParseKey_SlotKey|]. split; [|split].
  - split; [|intros [E ->]; unfold AcctKey; by rewrite E]. intros H. apply (f_equal ParseKey) in H.
    rewrite !ParseKey_AcctKey in H by done. by injection H.
  - split; [|intros [E1 E2]; unfold SlotKey; by rewrite E1, E2]. intros H. apply (f_equal ParseKey) in H.
    rewrite !ParseKey_SlotKey in H by done. by injection H.
  - intros H. apply (f_equal ParseKey) in H. rewrite ParseKey_AcctKey, ParseKey_SlotKey in H by done. done.
Qed.

Lemma state_keys_faithful_witness : AcctKey "0xAB" "nonce" = AcctKey "ab" "nonce" /\ AcctKey "0xAB" "nonce" <> SlotKey "ab" "0x1".
Proof.
  assert (no_colon "0xAB" /\ no_colon "ab") as [H1 H2] by (split; unfold no_colon; cbn; set_solver).
  destruct (state_keys_faithful "0xAB" "ab" "nonce" "nonce" "0x1" "0x1" H1 H2) as (_ & _ & H & _ & Hne).
  split; [apply H; by split|exact Hne].
Defined.
