(* ===== verification/JohnsonCE.v ===== *)
(** * Breaking the cycles of a conflict graph: [graph/*.go]

    [tarjanscc.go] splits the graph into strongly connected components,
    [johnsonce.go] enumerates the elementary cycles of each component with
    Johnson's algorithm and greedily aborts the vertex that lies on most of
    the cycles left, until none is left.  [tarjan.go] is a second, map-based
    implementation of Tarjan's algorithm and [johnson_cycles.go] the wrapper
    of gonum's cycle enumeration.

    The recursion depth of every depth-first search is bounded by the number
    of vertices, so [fuel] one above it is never exhausted. *)
From stdpp Require Import base list list_numbers gmap relations sorting fin_maps.
From Stdlib Require Import ZArith Lia.
From S2P Require Import Prelude AlGraph.

Set Default Goal Selector "!".

(** ** Slices updated in place *)
Definition get {A} (l : list A) (i : nat) : outcome A := or_panic (l !! i).
Definition put {A} (l : list A) (i : nat) (x : A) : outcome (list A) :=
  if decide (i < length l) then Ret (<[i := x]> l) else Panics.

(** ** tarjanscc.go *)
Record SCC := mkSCC { Vertices : list nat; Member : list bool }.

Record tarjanscc := mkTarjan {
  nscc : nat;
  time : Z;
  st : list nat;
  sccList : list SCC;
  low : list Z;
  disc : list Z;
  stackMember : list bool }.

Definition NewTarjanSCC (g : list (list nat)) : tarjanscc :=
  let n := length g in mkTarjan 0 0 [] [] (replicate n 0%Z) (replicate n 0%Z) (replicate n false).

Definition set_low (t : tarjanscc) (l : list Z) : tarjanscc :=
  mkTarjan (nscc t) (time t) (st t) (sccList t) l (disc t) (stackMember t).

(** [low[u] = min(low[u], x)] *)
Definition lower_low (t : tarjanscc) (u : nat) (x : Z) : outcome tarjanscc :=
  get (low t) u ≫= fun l => put (low t) u (if decide (l < x)%Z then l else x) ≫= fun lw => Ret (set_low t lw).

(** The loop that pops the stack down to [u]; the stack grows to the right. *)
Fixpoint pop_scc (fuel : nat) (u : nat) (s : list nat) (vs : list nat) (member onstack : list bool) :
    outcome (list nat * list nat * list bool * list bool) :=
  match fuel with
  | 0 => Diverges
  | S fuel =>
    or_panic (last s) ≫= fun w =>
    put member w true ≫= fun member =>
    put onstack w false ≫= fun onstack =>
    let s := removelast s in
    let vs := vs ++ [w] in
    if decide (w = u) then Ret (s, vs, member, onstack) else pop_scc fuel u s vs member onstack
  end.

(** [sort.Sort(ById(vertices))] *)
Definition sort_ById (vs : list nat) : list nat := merge_sort Nat.le vs.

Definition scc_enter (t : tarjanscc) (u : nat) : outcome tarjanscc :=
  put (low t) u (time t) ≫= fun lw =>
  put (disc t) u (time t) ≫= fun ds =>
  put (stackMember t) u true ≫= fun sm =>
  Ret (mkTarjan (nscc t) (time t + 1) (st t ++ [u]) (sccList t) lw ds sm).

Definition scc_leave (n : nat) (t : tarjanscc) (u : nat) : outcome tarjanscc :=
  get (low t) u ≫= fun l =>
  get (disc t) u ≫= fun d =>
  (if decide (l = d) then pop_scc (S (length (st t))) u (st t) [] (replicate n false) (stackMember t)
   else Ret (st t, [], replicate n false, stackMember t)) ≫= fun '(s, vs, member, sm) =>
  Ret (if decide (0 < length vs)
       then mkTarjan (S (nscc t)) (time t) s (sccList t ++ [mkSCC (sort_ById vs) member]) (low t) (disc t) sm
       else mkTarjan (nscc t) (time t) s (sccList t) (low t) (disc t) sm).

Fixpoint SCCUtil (fuel : nat) (g : list (list nat)) (t : tarjanscc) (u : nat) : outcome tarjanscc :=
  match fuel with
  | 0 => Diverges
  | S fuel =>
    scc_enter t u ≫= fun t =>
    get g u ≫= fun nbrs =>
    foldM (fun t v =>
      get (disc t) v ≫= fun dv =>
      if decide (dv = (-1)%Z) then
        SCCUtil fuel g t v ≫= fun t =>
        get (low t) v ≫= fun lv => lower_low t u lv
      else
        get (stackMember t) v ≫= fun sm =>
        if sm : bool then lower_low t u dv else Ret t) t nbrs ≫= fun t =>
    scc_leave (length g) t u
  end.

(** [SCC] followed by [GetSCCs]. *)
Definition run_SCC (g : list (list nat)) : outcome tarjanscc :=
  let n := length g in
  let t := NewTarjanSCC g in
  let t := mkTarjan (nscc t) (time t) (st t) (sccList t) (replicate n (-1)%Z) (replicate n (-1)%Z) (stackMember t) in
  foldM (fun t i => get (disc t) i ≫= fun d =>
    if decide (d = (-1)%Z) then SCCUtil (S n) g t i else Ret t) t (seq 0 n).

Definition GetSCCs (t : tarjanscc) : list SCC := sccList t.

(** ** johnsonce.go *)
Record johnson_state := mkJohnson {
  blocked : list bool;
  stack : list nat;
  blockedMap : list (list nat);
  jcycles : list (list nat);
  cyclesMap : list (list Z);
  sumArray : list Z;
  sum : Z }.

(** [blockedMap[v]] does not change while it is traversed: [v] is no longer
    blocked, so no inner call reaches it. *)
Fixpoint Unblock (fuel : nat) (v : nat) (bl : list bool) (bm : list (list nat)) :
    outcome (list bool * list (list nat)) :=
  match fuel with
  | 0 => Diverges
  | S fuel =>
    put bl v false ≫= fun bl =>
    get bm v ≫= fun ns =>
    foldM (fun '(bl, bm) n =>
      get bl n ≫= fun b => if b : bool then Unblock fuel n bl bm else Ret (bl, bm)) (bl, bm) ns ≫= fun '(bl, bm) =>
    put bm v [] ≫= fun bm => Ret (bl, bm)
  end.

Definition set_blocked (s : johnson_state) (bl : list bool) (bm : list (list nat)) : johnson_state :=
  mkJohnson bl (stack s) bm (jcycles s) (cyclesMap s) (sumArray s) (sum s).
Definition set_stack (s : johnson_state) (l : list nat) : johnson_state :=
  mkJohnson (blocked s) l (blockedMap s) (jcycles s) (cyclesMap s) (sumArray s) (sum s).

(** A cycle was found: its vertices are the stack. *)
Definition record_johnson (n : nat) (s : johnson_state) : outcome johnson_state :=
  foldM (fun '(cb, sa) v =>
    put cb v 1%Z ≫= fun cb => get sa v ≫= fun x => put sa v (x + 1)%Z ≫= fun sa => Ret (cb, sa))
    (replicate n 0%Z, sumArray s) (stack s) ≫= fun '(cycleBool, sa) =>
  Ret (mkJohnson (blocked s) (stack s) (blockedMap s) (jcycles s ++ [stack s])
         (cyclesMap s ++ [cycleBool]) sa (sum s + Z.of_nat (length (stack s)))).

Definition block_on (g_row : list nat) (explore : list bool) (currentV : nat) (bm : list (list nat)) :
    outcome (list (list nat)) :=
  foldM (fun bm v => get explore v ≫= fun e =>
    if e : bool then get bm v ≫= fun l => put bm v (l ++ [currentV]) else Ret bm) bm g_row.

Fixpoint FindCyclesRecur (fuel : nat) (g : list (list nat)) (explore : list bool) (startV : nat)
    (s : johnson_state) (currentV : nat) : outcome (johnson_state * bool) :=
  match fuel with
  | 0 => Diverges
  | S fuel =>
    put (blocked s) currentV true ≫= fun bl =>
    let s := set_stack (set_blocked s bl (blockedMap s)) (stack s ++ [currentV]) in
    get g currentV ≫= fun nbrs =>
    foldM (fun '(s, found) n =>
      get explore n ≫= fun e =>
      if negb e then Ret (s, found)
      else if decide (n = startV) then record_johnson (length g) s ≫= fun s => Ret (s, true)
      else get (blocked s) n ≫= fun b =>
        if negb b then
          FindCyclesRecur fuel g explore startV s n ≫= fun '(s, ret) => Ret (s, found || ret)
        else Ret (s, found)) (s, false) nbrs ≫= fun '(s, found) =>
    (if found : bool
     then Unblock (S (length g)) currentV (blocked s) (blockedMap s) ≫= fun '(bl, bm) => Ret (set_blocked s bl bm)
     else block_on nbrs explore currentV (blockedMap s) ≫= fun bm => Ret (set_blocked s (blocked s) bm)) ≫= fun s =>
    Ret (set_stack s (removelast (stack s)), found)
  end.

(** The result of [FindCycles] that [BreakCycles] uses: [cyclesMap],
    [sumArray] and [sum]. *)
Definition cycle_table := (list (list Z) * list Z * Z)%type.

Definition FindCycles (g : list (list nat)) (component : SCC) : outcome (list (list nat) * cycle_table) :=
  let n := length g in
  match Vertices component with
  | [_] => Ret ([], ([], [], 0%Z))
  | [a; b] =>
    put (replicate n 0%Z) a 1%Z ≫= fun cb => put cb b 1%Z ≫= fun cb => Ret ([[a; b]], ([cb], cb, 2%Z))
  | vs =>
    foldM (fun '(explore, cs, (cm, sa, sm)) v =>
      let s := mkJohnson (replicate n false) [] (replicate n []) cs cm sa sm in
      FindCyclesRecur (S n) g explore v s v ≫= fun '(s, _) =>
      put explore v false ≫= fun explore =>
      Ret (explore, jcycles s, (cyclesMap s, sumArray s, sum s)))
      (Member component, [], ([], replicate n 0%Z, 0%Z)) vs ≫= fun '(_, cs, tab) => Ret (cs, tab)
  end.

(** The first index with the largest entry. *)
Definition max_sum (n : nat) (sa : list Z) : outcome nat :=
  foldM (fun mx i => get sa i ≫= fun si => get sa mx ≫= fun sm =>
    Ret (if decide (sm < si)%Z then i else mx)) 0 (seq 0 n).

(** [sum], [sumArray] and the row lose what the row holds at [k]. *)
Definition clear_cell (st : list Z * list Z * Z) (k : nat) : outcome (list Z * list Z * Z) :=
  let '(row, sa, sm) := st in
  get row k ≫= fun x => get sa k ≫= fun y =>
  put sa k (y - x)%Z ≫= fun sa => put row k 0%Z ≫= fun row => Ret (row, sa, (sm - x)%Z).

Definition clear_row (n mx : nat) (tab : cycle_table) (j : nat) : outcome cycle_table :=
  let '(cm, sa, sm) := tab in
  get cm j ≫= fun row =>
  get row mx ≫= fun b =>
  if decide (b = 1%Z) then
    foldM clear_cell (row, sa, sm) (seq 0 n) ≫= fun '(row, sa, sm) =>
    put cm j row ≫= fun cm => Ret (cm, sa, sm)
  else Ret tab.

Fixpoint break_loop (fuel n : nat) (tab : cycle_table) (removed : nat) (invalid : list bool) :
    outcome (nat * list bool) :=
  match fuel with
  | 0 => Diverges
  | S fuel =>
    if decide (tab.2 = 0%Z) then Ret (removed, invalid) else
    max_sum n tab.1.2 ≫= fun mx =>
    foldM (clear_row n mx) tab (seq 0 (length tab.1.1)) ≫= fun tab =>
    put invalid mx true ≫= fun invalid =>
    break_loop fuel n tab (S removed) invalid
  end.

Definition BreakCycles (g : list (list nat)) (removed : nat) (component : SCC) : outcome (nat * list bool) :=
  let n := length g in
  FindCycles g component ≫= fun '(_, tab) =>
  break_loop (S (Z.to_nat tab.2)) n tab removed (replicate n false).

(** [NewJohnsonCE(graph).Run()] *)
Definition Run (g : list (list nat)) : outcome (nat * list bool) :=
  let n := length g in
  run_SCC g ≫= fun t =>
  foldM (fun '(removed, invalid) scc =>
    BreakCycles g removed scc ≫= fun '(removed, inv) =>
    foldM (fun invalid v => get inv v ≫= fun b => put invalid v b) invalid (Vertices scc) ≫= fun invalid =>
    Ret (removed, invalid)) (0, replicate n false) (GetSCCs t).

(** ** tarjan.go

    A node's [lowLink] is only reached through the pointer of the call that
    owns it, so it is the value that call threads and returns; [nodes] keeps
    the flag [stacked]. *)
Record conn_data := mkConnData {
  nodes : list bool;
  cstack : list nat;
  index : gmap nat nat;
  output : list (list nat) }.

(** Popping the stack from the top down to the vertex of index [idx]. *)
Fixpoint pop_conn (rstack : list nat) (idx : nat) (ns : list bool) (ix : gmap nat nat) (vs : list nat) :
    outcome (list nat * list bool * list nat) :=
  match rstack with
  | [] => Panics
  | w :: rstack =>
    let i := default 0 (ix !! w) in
    put ns i false ≫= fun ns =>
    if decide (i = idx) then Ret (rstack, ns, vs ++ [w]) else pop_conn rstack idx ns ix (vs ++ [w])
  end.

Fixpoint strongConnect (fuel : nat) (graph : gmap nat (list nat)) (d : conn_data) (v : nat) :
    outcome (conn_data * nat) :=
  match fuel with
  | 0 => Diverges
  | S fuel =>
    let idx := length (nodes d) in
    let d := mkConnData (nodes d ++ [true]) (cstack d ++ [v]) (<[v := idx]> (index d)) (output d) in
    foldM (fun '(d, lowLink) w =>
      match index d !! w with
      | None => strongConnect fuel graph d w ≫= fun '(d, l) => Ret (d, if decide (l < lowLink) then l else lowLink)
      | Some i =>
        get (nodes d) i ≫= fun stacked =>
        Ret (d, if (stacked : bool) && bool_decide (i < lowLink) then i else lowLink)
      end) (d, idx) (default [] (graph !! v)) ≫= fun '(d, lowLink) =>
    if decide (lowLink = idx) then
      pop_conn (reverse (cstack d)) idx (nodes d) (index d) [] ≫= fun '(rs, ns, vs) =>
      Ret (mkConnData ns (reverse rs) (index d) (output d ++ [vs]), lowLink)
    else Ret (d, lowLink)
  end.

(** [rng] is the order of Go's range over the map [graph]. *)
Definition Connections (fuel : nat) (rng : gset nat -> list nat) (graph : gmap nat (list nat)) :
    outcome (list (list nat)) :=
  foldM (fun d v => match index d !! v with
                    | Some _ => Ret d
                    | None => strongConnect fuel graph d v ≫= fun '(d, _) => Ret d
                    end) (mkConnData [] [] ∅ []) (rng (dom graph)) ≫= fun d =>
  Ret (output d).

(** ** johnson_cycles.go *)
Definition linksTo (i : list nat) : gset nat := list_to_set i.
Definition CreateJohnsonGraph (gSlice : list (list nat)) : list (gset nat) := linksTo <$> gSlice.

(** [directedCyclesIn] stands for gonum's [topo.DirectedCyclesIn].  The extra
    [simple.Node(-10)] has no arc, so it is on no cycle; [SetEdge] panics on
    an arc from a node to itself. *)
Definition FindAllCycles (directedCyclesIn : list (gset nat) -> list (list nat)) (g : list (gset nat)) :
    outcome (list (list nat)) :=
  foldM (fun _ ue => if decide (ue.1 ∈ (ue.2 : gset nat)) then Panics else Ret tt) tt (imap pair g) ≫= fun _ =>
  Ret (directedCyclesIn g).

(** Examples: the components of a graph with two cycles, both ways. *)
Example Connections_example :
  Connections 6 (fun _ => seq 0 6) {[0 := [1]; 1 := [0]; 2 := [3]; 3 := [4]; 4 := [2]; 5 := [0]]}
  = Ret [[1; 0]; [4; 3; 2]; [5]].
Proof. vm_compute. reflexivity. Qed.
Example Run_two_cycles : Run [[1]; [0]; [3]; [4]; [2]; [0]] = Ret (2, [true; false; true; false; false; false]).
Proof. vm_compute. reflexivity. Qed.
Example Run_dag : Run [[1; 2]; [2]; []] = Ret (0, [false; false; false]).
Proof. vm_compute. reflexivity. Qed.
