(* ===== verification/BreakCycles.v ===== *)
(** * The greedy abort loop of [graph/johnsonce.go] hits every cycle

    [BreakCycles] keeps a table with a row per cycle, the column sums
    ([sumArray]) and their total ([sum]).  The loop ends because every round
    clears at least one row, and every row is hit by an aborted vertex. *)
From stdpp Require Import base list list_numbers gmap relations sorting.
From Stdlib Require Import ZArith Lia.
From S2P Require Import Prelude AlGraph JohnsonCE.

Set Default Goal Selector "!".

Lemma get_eq {A} (l : list A) i x : l !! i = Some x -> get l i = Ret x.
Proof. unfold get. by intros ->. Qed.

Lemma put_eq {A} (l : list A) i x : i < length l -> put l i x = Ret (<[i := x]> l).
Proof. unfold put. intros. by rewrite decide_True. Qed.

Lemma lookup_deg (l : list Z) i : i < length l -> l !! i = Some (deg l i).
Proof. intros Hi. unfold deg. by destruct (lookup_lt_is_Some_2 l i Hi) as [x ->]. Qed.

Section break.
Context (n : nat).

Definition row_ok (row : list Z) : Prop := length row = n /\ Forall (fun x => x = 0 \/ x = 1)%Z row.
Definition col_sum (cm : list (list Z)) (k : nat) : Z := zsum ((fun row => deg row k) <$> cm).

Record table_ok (tab : cycle_table) : Prop := {
  to_rows : Forall row_ok tab.1.1;
  to_length : length tab.1.2 = n;
  to_cols : forall k, k < n -> deg tab.1.2 k = col_sum tab.1.1 k;
  to_sum : tab.2 = zsum (zsum <$> tab.1.1) }.

Lemma row_ok_deg row k : row_ok row -> deg row k = 0%Z \/ deg row k = 1%Z.
Proof.
  intros [_ Hf]. unfold deg. destruct (row !! k) as [x|] eqn:E; [|by left].
  rewrite Forall_lookup in Hf. by apply (Hf k).
Qed.

Lemma row_ok_zsum row : row_ok row -> (0 <= zsum row)%Z.
Proof. intros [_ Hf]. apply zsum_nonneg. eapply Forall_impl; [exact Hf|]. cbn. lia. Qed.

(** Clearing a row cell by cell. *)
Lemma clear_cells row sa sm :
  length row = n -> length sa = n ->
  exists sa', foldM clear_cell (row, sa, sm) (seq 0 n) = Ret (replicate n 0%Z, sa', (sm - zsum row)%Z) /\
    length sa' = n /\ forall k, k < n -> deg sa' k = (deg sa k - deg row k)%Z.
Proof.
  intros Hr Hs.
  destruct (foldM_seq_inv clear_cell (fun m '(row', sa', sm') =>
    row' = replicate m 0%Z ++ drop m row /\ length sa' = n /\ sm' = (sm - zsum (take m row))%Z /\
    forall k, deg sa' k = (deg sa k - if decide (k < m)%nat then deg row k else 0%Z)%Z) n (row, sa, sm))
    as ([[row' sa'] sm'] & -> & -> & Hl & -> & Hk).
  - split; [done|]. split; [done|]. split; [change (zsum (take 0 row)) with 0%Z; lia|]. intros k. rewrite decide_False by lia. lia.
  - intros m [[row' sa'] sm'] Hm (-> & Hl & -> & Hk).
    assert (row !! m = Some (deg row m)) as Hrm by (apply lookup_deg; lia).
    assert ((replicate m 0%Z ++ drop m row) !! m = Some (deg row m)) as Hrm'.
    { rewrite lookup_app_r, length_replicate, Nat.sub_diag, lookup_drop by (rewrite length_replicate; lia).
      by rewrite Nat.add_0_r. }
    unfold clear_cell. rewrite (get_eq _ _ _ Hrm'), (get_eq sa' m (deg sa' m)) by (apply lookup_deg; lia).
    cbn [mbind outcome_bind]. rewrite (put_eq sa') by lia. cbn [mbind outcome_bind].
    rewrite put_eq by (rewrite length_app, length_replicate, length_drop; lia). cbn [mbind outcome_bind].
    eexists. split; [done|]. cbn beta iota. split_and!.
    + rewrite (drop_S row (deg row m) m Hrm).
      change (1 + m) with (S m). rewrite replicate_S_end, <- app_assoc.
      rewrite insert_app_r_alt by (rewrite length_replicate; lia).
      by rewrite length_replicate, Nat.sub_diag.
    + by rewrite length_insert.
    + change (1 + m) with (S m). rewrite (take_S_r row m (deg row m) Hrm), zsum_app. cbn. lia.
    + intros k. rewrite deg_insert by lia. rewrite !Hk. destruct (decide (k = m)) as [->|Hne].
      * rewrite decide_False, decide_True by lia. lia.
      * destruct (decide (k < m)); [rewrite decide_True by lia|rewrite decide_False by lia]; done.
  - rewrite drop_ge, app_nil_r, take_ge by lia. exists sa'. split; [done|]. split; [done|].
    intros k Hkn. rewrite Hk, decide_True by done. done.
Qed.

Definition cleared (mx : nat) (row : list Z) : list Z :=
  if decide (deg row mx = 1%Z) then replicate n 0%Z else row.

Lemma deg_replicate m k : deg (replicate m 0%Z) k = 0%Z.
Proof.
  unfold deg. destruct (replicate m 0%Z !! k) eqn:E; [|done]. by apply lookup_replicate in E as [-> _].
Qed.

Lemma row_ok_zero : row_ok (replicate n 0%Z).
Proof. split; [apply length_replicate|]. apply Forall_replicate. by left. Qed.

Lemma clear_row_spec mx cm sa sm j row :
  table_ok (cm, sa, sm) -> mx < n -> cm !! j = Some row ->
  exists sa' sm', clear_row n mx (cm, sa, sm) j = Ret (<[j := cleared mx row]> cm, sa', sm') /\
    table_ok (<[j := cleared mx row]> cm, sa', sm').
Proof.
  intros [Hrows Hlen Hcols Hsum] Hmx Hj. cbn [fst snd] in *.
  assert (row_ok row) as Hrow by (rewrite Forall_lookup in Hrows; by eapply Hrows).
  unfold clear_row, cleared. rewrite (get_eq _ _ _ Hj). cbn [mbind outcome_bind].
  rewrite (get_eq row mx (deg row mx)) by (apply lookup_deg; destruct Hrow; lia). cbn [mbind outcome_bind].
  destruct (decide (deg row mx = 1%Z)) as [E|E].
  2: { rewrite list_insert_id by done. by exists sa, sm. }
  destruct (clear_cells row sa sm (proj1 Hrow) Hlen) as (sa' & -> & Hl' & Hk).
  cbn [mbind outcome_bind]. rewrite put_eq by (by eapply lookup_lt_Some). cbn [mbind outcome_bind].
  eexists sa', _. split; [done|]. split; cbn [fst snd].
  - apply Forall_insert; [done|apply row_ok_zero].
  - done.
  - intros k Hkn. rewrite Hk, Hcols by done. unfold col_sum. rewrite list_fmap_insert.
    rewrite (zsum_insert _ j (deg row k)) by (rewrite list_lookup_fmap, Hj; done).
    rewrite deg_replicate. lia.
  - rewrite list_fmap_insert, (zsum_insert _ j (zsum row)) by (rewrite list_lookup_fmap, Hj; done).
    rewrite zsum_replicate_0. lia.
Qed.

Lemma clear_rows mx tab :
  table_ok tab -> mx < n ->
  exists tab', foldM (clear_row n mx) tab (seq 0 (length tab.1.1)) = Ret tab' /\
    table_ok tab' /\ tab'.1.1 = cleared mx <$> tab.1.1.
Proof.
  intros Hok Hmx. destruct tab as [[cm sa] sm]. cbn [fst snd].
  destruct (foldM_seq_inv (clear_row n mx) (fun i tab' => table_ok tab' /\
    tab'.1.1 = (cleared mx <$> take i cm) ++ drop i cm) (length cm) (cm, sa, sm)) as (tab' & -> & Hok' & Hcm).
  - done.
  - intros i [[cm' sa'] sm'] Hi [Hok' Hcm]. cbn in Hcm. subst cm'.
    destruct (lookup_lt_is_Some_2 cm i Hi) as [row Hrow].
    assert (length (cleared mx <$> take i cm) = i) as Hl by (rewrite length_fmap, length_take; lia).
    destruct (clear_row_spec mx _ sa' sm' i row Hok' Hmx) as (sa'' & sm'' & -> & Hok'').
    { rewrite lookup_app_r, Hl, Nat.sub_diag, lookup_drop, Nat.add_0_r by lia. done. }
    eexists. split; [done|]. split; [done|]. cbn [fst].
    rewrite (drop_S cm row i Hrow), insert_app_r_alt, Hl, Nat.sub_diag by lia.
    change (1 + i) with (S i). rewrite (take_S_r cm i row Hrow), fmap_app, <- app_assoc. done.
  - exists tab'. split; [done|]. split; [done|]. rewrite Hcm, take_ge, drop_ge, app_nil_r by lia. done.
Qed.

Lemma max_sum_spec sa :
  length sa = n -> 0 < n ->
  exists mx, max_sum n sa = Ret mx /\ mx < n /\ forall k, k < n -> (deg sa k <= deg sa mx)%Z.
Proof.
  intros Hl Hn. unfold max_sum.
  match goal with |- context [foldM ?f 0 (seq 0 n)] =>
    destruct (foldM_seq_inv f (fun i mx => mx < n /\ forall k, k < i -> (deg sa k <= deg sa mx)%Z) n 0)
      as (mx & -> & Hmx & Hall) end.
  - split; [done|]. intros k Hk. lia.
  - intros i mx Hi [Hmx Hall].
    rewrite (get_eq sa i (deg sa i)), (get_eq sa mx (deg sa mx)) by (apply lookup_deg; lia).
    cbn [mbind outcome_bind]. eexists. split; [done|]. destruct (decide (deg sa mx < deg sa i)%Z).
    + split; [done|]. intros k Hk. destruct (decide (k = i)) as [->|]; [lia|]. specialize (Hall k). lia.
    + split; [done|]. intros k Hk. destruct (decide (k = i)) as [->|]; [lia|]. apply Hall. lia.
  - exists mx. split; [done|]. split; [done|]. done.
Qed.

Lemma zsum_pos_in l : (0 < zsum l)%Z -> exists k, (0 < deg l k)%Z /\ k < length l.
Proof.
  unfold zsum. induction l as [|x l IH]; cbn; [lia|]. intros H.
  destruct (decide (0 < x)%Z) as [Hx|Hx]; [exists 0; cbn; split; [done|lia]|].
  destruct IH as (k & Hk & Hkl); [lia|]. exists (S k). split; [done|lia].
Qed.

Lemma deg_fmap (f : list Z -> Z) (l : list (list Z)) j :
  (0 < deg (f <$> l) j)%Z -> exists row, l !! j = Some row /\ (0 < f row)%Z.
Proof.
  unfold deg. rewrite list_lookup_fmap. destruct (l !! j) as [row|]; cbn; [by exists row|lia].
Qed.

(** While the total is not zero the chosen vertex lies on a cycle left. *)
Lemma max_on_cycle tab mx :
  table_ok tab -> (0 < tab.2)%Z -> (forall k, k < n -> (deg tab.1.2 k <= deg tab.1.2 mx)%Z) -> mx < n ->
  exists row, row ∈ tab.1.1 /\ deg row mx = 1%Z.
Proof.
  intros [Hrows Hlen Hcols Hsum] Hpos Hmax Hmx. rewrite Hsum in Hpos.
  apply zsum_pos_in in Hpos as (j & Hj & _). apply deg_fmap in Hj as (row & Hrow & Hz).
  rewrite Forall_lookup in Hrows. pose proof (Hrows _ _ Hrow) as Hok.
  apply zsum_pos_in in Hz as (k & Hk & Hkl). rewrite (proj1 Hok) in Hkl.
  assert (0 < deg tab.1.2 mx)%Z as Hc.
  { specialize (Hmax k Hkl). rewrite Hcols in Hmax by done.
    enough (0 < col_sum tab.1.1 k)%Z by lia. unfold col_sum.
    apply list_elem_of_split_length in Hrow as (l1 & l2 & Heq & _). rewrite Heq in *.
    rewrite fmap_app, fmap_cons, zsum_app. cbn.
    enough (0 <= zsum ((fun row => deg row k) <$> l1) /\ 0 <= zsum ((fun row => deg row k) <$> l2))%Z
      by (unfold zsum in *; lia).
    assert (forall r, r ∈ l1 \/ r ∈ l2 -> (0 <= deg r k)%Z) as Hnn.
    { intros r Hr. assert (r ∈ l1 ++ row :: l2) as (i & Hi)%list_elem_of_lookup by set_solver.
      destruct (row_ok_deg r k (Hrows i r Hi)); lia. }
    split; apply zsum_nonneg, Forall_fmap, Forall_forall; intros r Hr; apply Hnn; auto. }
  rewrite Hcols in Hc by done. unfold col_sum in Hc. apply zsum_pos_in in Hc as (i & Hi & _).
  apply deg_fmap in Hi as (r & Hr & Hd). exists r. split; [by eapply list_elem_of_lookup_2|].
  destruct (row_ok_deg r mx (Hrows i r Hr)); lia.
Qed.

Lemma cleared_total mx cm :
  Forall row_ok cm -> (exists row, row ∈ cm /\ deg row mx = 1%Z) ->
  (0 <= zsum (zsum <$> (cleared mx <$> cm)) < zsum (zsum <$> cm))%Z.
Proof.
  intros Hok Hex.
  assert (forall row, row_ok row -> (0 <= zsum (cleared mx row) <= zsum row)%Z) as Hle.
  { intros row Hr. pose proof (row_ok_zsum row Hr). unfold cleared.
    destruct (decide _); [rewrite zsum_replicate_0|]; lia. }
  assert (forall l, Forall row_ok l -> (0 <= zsum (zsum <$> (cleared mx <$> l)) <= zsum (zsum <$> l))%Z) as Hall.
  { induction 1 as [|r l Hr _ IH]; [done|]. unfold zsum in *. cbn. specialize (Hle r Hr). lia. }
  destruct Hex as (row & (l1 & l2 & ->)%list_elem_of_split & Hd).
  rewrite Forall_app, Forall_cons in Hok. destruct Hok as (H1 & Hr & H2).
  pose proof (Hall l1 H1). pose proof (Hall l2 H2).
  rewrite !fmap_app, !fmap_cons, !zsum_app. unfold cleared at 2 5. rewrite decide_True by done.
  assert (0 < zsum row)%Z as Hpos.
  { destruct Hr as [_ Hf]. clear -Hf Hd. revert mx Hd. unfold zsum.
    induction Hf as [|x l Hx Hf IH]; intros [|k] Hd; cbn in *; try discriminate Hd.
    - unfold deg in Hd. cbn in Hd. subst x.
      assert (0 <= foldr Z.add 0 l)%Z; [|lia]. apply zsum_nonneg. eapply Forall_impl; [exact Hf|]. cbn. lia.
    - specialize (IH k Hd). lia. }
  change (zsum (?x :: ?l)) with (x + zsum l)%Z. rewrite zsum_replicate_0. cbn. unfold zsum in *. lia.
Qed.

Lemma total_zero_rows tab row :
  table_ok tab -> tab.2 = 0%Z -> row ∈ tab.1.1 -> zsum row = 0%Z.
Proof.
  intros [Hrows _ _ Hsum] Hz Hrow. rewrite Hsum in Hz. apply zsum_zero in Hz.
  - rewrite Forall_fmap, Forall_forall in Hz. by apply Hz.
  - apply Forall_fmap. eapply Forall_impl; [exact Hrows|]. intros r. apply row_ok_zsum.
Qed.

Lemma break_loop_spec fuel tab removed invalid :
  table_ok tab -> length invalid = n -> Z.to_nat tab.2 < fuel ->
  exists removed' invalid', break_loop fuel n tab removed invalid = Ret (removed', invalid') /\
    length invalid' = n /\
    (forall v, invalid !! v = Some true -> invalid' !! v = Some true) /\
    (forall row, row ∈ tab.1.1 -> zsum row <> 0%Z -> exists v, deg row v = 1%Z /\ invalid' !! v = Some true) /\
    (forall v, invalid' !! v = Some true ->
       invalid !! v = Some true \/ exists row, row ∈ tab.1.1 /\ deg row v = 1%Z).
Proof.
  revert tab removed invalid; induction fuel as [|fuel IH]; intros tab removed invalid Hok Hinv Hfuel; [lia|].
  assert (0 <= tab.2)%Z as Hnn.
  { rewrite (to_sum _ Hok). apply zsum_nonneg, Forall_fmap.
    eapply Forall_impl; [apply Hok|]. intros r. apply row_ok_zsum. }
  cbn [break_loop]. destruct (decide (tab.2 = 0%Z)) as [Hz|Hz].
  { exists removed, invalid. split_and!; [done|done|done| |by left].
    intros row Hrow Hne. by rewrite (total_zero_rows tab row) in Hne. }
  assert (0 < n) as Hn.
  { destruct (decide (n = 0)) as [En|]; [exfalso|lia]. apply Hz. rewrite (to_sum _ Hok).
    assert (forall l, Forall row_ok l -> zsum (zsum <$> l) = 0%Z) as H0; [|apply H0, Hok].
    induction 1 as [|r l [Hr _] _ IHl]; [done|]. rewrite En in Hr. apply length_zero_iff_nil in Hr as ->. exact IHl. }
  destruct (max_sum_spec tab.1.2 (to_length _ Hok) Hn) as (mx & -> & Hmx & Hmax). cbn [mbind outcome_bind].
  destruct (max_on_cycle tab mx Hok ltac:(lia) Hmax Hmx) as (row0 & Hrow0 & Hd0).
  destruct (clear_rows mx tab Hok Hmx) as (tab' & -> & Hok' & Hcm). cbn [mbind outcome_bind].
  rewrite put_eq by lia. cbn [mbind outcome_bind].
  assert (0 <= tab'.2 < tab.2)%Z as Hdec.
  { rewrite (to_sum _ Hok'), (to_sum _ Hok), Hcm. apply cleared_total; [apply Hok|]. eauto. }
  destruct (IH tab' (S removed) (<[mx := true]> invalid) Hok') as (r' & inv' & -> & Hl & Hmono & Hhit & Honly);
    [by rewrite length_insert|lia|].
  assert (inv' !! mx = Some true) as Hmxt by (apply Hmono; rewrite list_lookup_insert_eq; [done|lia]).
  exists r', inv'. split_and!; [done..| | |].
  - intros v Hv. apply Hmono. destruct (decide (v = mx)) as [->|]; [by rewrite list_lookup_insert_eq by lia|].
    by rewrite list_lookup_insert_ne.
  - intros row Hrow Hne. destruct (decide (deg row mx = 1%Z)) as [|Hd]; [by exists mx|].
    apply Hhit; [|done]. rewrite Hcm. apply list_elem_of_fmap. exists row. split; [|done].
    unfold cleared. by rewrite decide_False.
  - intros v Hv. apply Honly in Hv as [Hv|(row & Hrow & Hd)].
    + destruct (decide (v = mx)) as [->|]; [right; eauto|]. rewrite list_lookup_insert_ne in Hv by done. by left.
    + right. rewrite Hcm in Hrow. apply list_elem_of_fmap in Hrow as (row' & -> & Hrow').
      exists row'. split; [done|]. unfold cleared in Hd. destruct (decide _); [|done].
      by rewrite deg_replicate in Hd.
Qed.
End break.
