(* ===== verification/ConflictGraph.v ===== *)
(** * Conflict graphs of a block: the rest of [core/classical_graph.go]

    [BuildConflictGraph] and its light version [NewBuildConflictGraph] turn
    the read/write nodes of the transactions of a block into an adjacency
    list; [RemoveCycles] and [GetAllCycles] are the two older ways of breaking
    its cycles ([graph/johnsonce.go] is the current one).  gonum's
    [topo.DirectedCyclesIn], reached through [FindAllCycles], is a parameter. *)
From stdpp Require Import base list list_numbers gmap strings relations.
From Stdlib Require Import ZArith Lia.
From S2P Require Import Prelude AlGraph JohnsonCE RWSet.

Set Default Goal Selector "!".
Local Open Scope string_scope.
Local Open Scope list_scope.

Definition isExistForString (slice : list string) (n : string) : bool := existsb (String.eqb n) slice.
Definition isExistForByte (slice : list string) (n : string) : bool := existsb (String.eqb n) slice.

Definition tx_at (txs : list (list RWNode)) (j : nat) : list RWNode := default [] (txs !! j).

(** [if !isExistForInt(gSlice[i], j) { gSlice[i] = append(gSlice[i], j) }] *)
Definition add_arc (row : list nat) (j : nat) : list nat :=
  if isExistForInt row j then row else row ++ [j].

Definition read_keys (v : list RWNode) : list string := CompositeKey <$> filter (fun rw => isRead rw = true) v.
Definition other_keys (v : list RWNode) : list string := CompositeKey <$> filter (fun rw => isRead rw = false) v.

(** ** BuildConflictGraph *)
Definition later_arcs (rKeys wKeys : list string) (row : list nat) (j : nat) (tx : list RWNode) : list nat :=
  foldl (fun row rw =>
    if isWrite rw && isExistForString rKeys (CompositeKey rw) then add_arc row j
    else if isWrite rw && isExistForString wKeys (CompositeKey rw) then add_arc row j
    else row) row tx.

Definition earlier_arcs (rKeys : list string) (row : list nat) (k : nat) (tx : list RWNode) : list nat :=
  foldl (fun row rw =>
    if isWrite rw && isExistForString rKeys (CompositeKey rw) then add_arc row k else row) row tx.

Definition conflict_row (txs : list (list RWNode)) (i : nat) (v : list RWNode) : list nat :=
  let rKeys := read_keys v in
  let wKeys := other_keys v in
  let row := foldl (fun row j => later_arcs rKeys wKeys row j (tx_at txs j))
                   [] (seq (i + 1) (length txs - (i + 1))) in
  foldl (fun row k => earlier_arcs rKeys row k (tx_at txs k)) row (reverse (seq 0 i)).

Definition BuildConflictGraph (txs : list (list RWNode)) : list (list nat) :=
  imap (conflict_row txs) txs.

(** ** NewBuildConflictGraph *)
Definition ww_row (txs : list (list RWNode)) (i : nat) (v : list RWNode) : list nat :=
  let wKeys := other_keys v in
  foldl (fun row j => foldl (fun row rw =>
           if isWrite rw && isExistForString wKeys (CompositeKey rw) then row ++ [j] else row)
           row (tx_at txs j))
        [] (seq (i + 1) (length txs - (i + 1))).

(** [wSet[wKey] = append(wSet[wKey], i)] over all the transactions. *)
Definition writers_of (txs : list (list RWNode)) : gmap string (list nat) :=
  foldl (fun m iv => foldl (fun m k => <[k := default [] (m !! k) ++ [iv.1]]> m) m (other_keys iv.2))
        ∅ (imap pair txs).

Definition rw_row (wSet : gmap string (list nat)) (i : nat) (v : list RWNode) (row : list nat) : list nat :=
  foldl (fun row rw =>
    if isRead rw then
      foldl (fun row w => if negb (Nat.eqb w i) && negb (isExistForInt row w) then row ++ [w] else row)
            row (default [] (wSet !! CompositeKey rw))
    else row) row v.

Definition NewBuildConflictGraph (txs : list (list RWNode)) : list (list nat) :=
  let wSet := writers_of txs in
  imap (fun i v => rw_row wSet i v (ww_row txs i v)) txs.

(** ** RemoveCycles *)

(** [appears[v]]: the indices of the cycles that contain [v]. *)
Definition appears_of (cycles : list (list nat)) : gmap nat (list nat) :=
  foldl (fun m ic => foldl (fun m v =>
           let l := default [] (m !! v) in
           if isExistForInt l ic.1 then m else <[v := l ++ [ic.1]]> m) m ic.2)
        ∅ (imap pair cycles).

(** [rng] is the order in which Go ranges over the map [appears]. *)
Definition max_vertex (rng : gset nat -> list nat) (appears : gmap nat (list nat)) : nat :=
  let ks := rng (dom appears) in
  let len v := length (default [] (appears !! v)) in
  let max := foldl (fun mx v => if decide (mx < len v) then len v else mx) 0 ks in
  default 0 (head (filter (fun v => len v = max) ks)).

Definition RemoveCycles (directedCyclesIn : list (gset nat) -> list (list nat)) (rng : gset nat -> list nat)
    (gSlice : list (list nat)) : outcome (list nat) :=
  FindAllCycles directedCyclesIn (CreateJohnsonGraph gSlice) ≫= fun cycles =>
  let appears := appears_of cycles in
  if decide (length cycles = 0) then Ret [] else
  let maxVertex := max_vertex rng appears in
  let covered := default [] (appears !! maxVertex) in
  if decide (length covered < length cycles) then
    foldM (fun aborted ic =>
      if isExistForInt covered ic.1 then Ret aborted else
      or_panic (head ic.2) ≫= fun c0 =>
      Ret (if isExistForInt aborted c0 then aborted ++ [c0] else aborted))
      [maxVertex] (imap pair cycles)
  else Ret [maxVertex].

(** ** GetAllCycles *)
Record cycle_state := mkCycleState {
  cycles : gmap nat (list nat);
  path : list nat;
  visit : gmap nat nat;
  pathNum : nat }.

Definition set_visit (v x : nat) (st : cycle_state) : cycle_state :=
  mkCycleState (cycles st) (path st) (<[v := x]> (visit st)) (pathNum st).
(** [path[k] = v] *)
Definition set_path (k v : nat) (st : cycle_state) : outcome cycle_state :=
  if decide (k < length (path st))
  then Ret (mkCycleState (cycles st) (<[k := v]> (path st)) (visit st) (pathNum st)) else Panics.

Definition slice_of (l : list nat) (start stop : nat) : list nat := take (stop - start) (drop start l).

Definition existCycle (st : cycle_state) (start stop : nat) : bool :=
  let len := stop - start in
  existsb (fun i =>
    let c := default [] (cycles st !! i) in
    Nat.eqb (length c) len &&
    Nat.eqb (sum_list_with (fun e => occ e c) (slice_of (path st) start stop)) len) (seq 0 (pathNum st)).

Definition record_cycle (st : cycle_state) (start k : nat) : cycle_state :=
  mkCycleState
    (<[pathNum st := default [] (cycles st !! pathNum st) ++ slice_of (path st) start (k + 1)]> (cycles st))
    (path st) (visit st) (S (pathNum st)).

Fixpoint findAllCycles (fuel : nat) (vs : list VNode) (conn : list nat) (st : cycle_state) (v k : nat) :
    outcome cycle_state :=
  match fuel with
  | 0 => Diverges
  | S fuel =>
    set_path k v (set_visit v 1 st) ≫= fun st =>
    or_panic (vs !! v) ≫= fun node =>
    foldM (fun (acc : cycle_state * nat) ver =>
      let '(st, start) := acc in
      if negb (isExistForInt conn (adj ver)) then Ret (st, start) else
      if decide (default 0 (visit st !! adj ver) = 1) then
        let start := foldl (fun s i => if decide (path st !! i = Some (adj ver)) then i else s) start (seq 0 k) in
        Ret (if existCycle st start (k + 1) then record_cycle st start k else st, start)
      else findAllCycles fuel vs conn st (adj ver) (k + 1) ≫= fun st => Ret (st, start))
      (st, 0) (first node) ≫= fun '(st, _) =>
    set_path k 0 (set_visit v 0 st)
  end.

Definition GetAllCycles (al : AlGraph) (conn : list nat) : outcome (gmap nat (list nat)) :=
  let st := mkCycleState ∅ (replicate (length conn + 1) 0) ∅ 0 in
  let st := foldl (fun st n => set_visit n 0 st) st conn in
  foldM (fun st n =>
    if decide (default 0 (visit st !! n) = 0)
    then findAllCycles (S (length conn)) (vertices al) conn st n 0 else Ret st) st conn ≫= fun st =>
  Ret (cycles st).

(** ** What the builders compute *)

(** [i] must come before [j]: [j] writes a cell [i] reads, or both write it
    and [i] is the earlier of the two. *)
Definition conflict (txs : list (list RWNode)) (i j : nat) : Prop :=
  i < length txs /\ j < length txs /\
  ((i <> j /\ exists r w, r ∈ tx_at txs i /\ w ∈ tx_at txs j /\ isRead r = true /\ isWrite w = true /\
              CompositeKey r = CompositeKey w) \/
   (i < j /\ exists w w', w ∈ tx_at txs i /\ w' ∈ tx_at txs j /\ isRead w = false /\ isWrite w' = true /\
              CompositeKey w = CompositeKey w')).

(** Every node is labelled ["r"] or ["w"], as [CreateRWNode] labels them. *)
Definition labelled (txs : list (list RWNode)) : Prop :=
  Forall (Forall (fun rw => isRead rw = false -> isWrite rw = true)) txs.

Lemma isExistForString_spec slice n : isExistForString slice n = true <-> n ∈ slice.
Proof.
  unfold isExistForString. rewrite existsb_exists. setoid_rewrite String.eqb_eq.
  rewrite list_elem_of_In. naive_solver.
Qed.

Lemma isExistForInt_true slice n : isExistForInt slice n = true <-> n ∈ slice.
Proof.
  unfold isExistForInt. rewrite existsb_exists. setoid_rewrite Nat.eqb_eq.
  rewrite list_elem_of_In. naive_solver.
Qed.

Lemma elem_of_add_arc row j x : x ∈ add_arc row j <-> x ∈ row \/ x = j.
Proof.
  unfold add_arc. destruct (isExistForInt row j) eqn:E; [|set_solver].
  apply isExistForInt_true in E. set_solver.
Qed.

Lemma elem_of_read_keys k v : k ∈ read_keys v <-> exists rw, rw ∈ v /\ isRead rw = true /\ CompositeKey rw = k.
Proof. unfold read_keys. rewrite list_elem_of_fmap. setoid_rewrite list_elem_of_filter. naive_solver. Qed.

Lemma elem_of_other_keys k v : k ∈ other_keys v <-> exists rw, rw ∈ v /\ isRead rw = false /\ CompositeKey rw = k.
Proof. unfold other_keys. rewrite list_elem_of_fmap. setoid_rewrite list_elem_of_filter. naive_solver. Qed.

(** A fold that only ever adds elements collects those any step adds. *)
Lemma elem_of_foldl {A} (f : list nat -> A -> list nat) (Q : A -> nat -> Prop) l row x :
  (forall row a x, a ∈ l -> x ∈ f row a <-> x ∈ row \/ Q a x) ->
  x ∈ foldl f row l <-> x ∈ row \/ exists a, a ∈ l /\ Q a x.
Proof.
  revert row; induction l as [|a l IH]; intros row Hf; cbn [foldl]; [set_solver|].
  rewrite IH by (intros; apply Hf; by right). rewrite Hf by left. set_solver.
Qed.

Lemma elem_of_later_arcs rKeys wKeys row j tx x :
  x ∈ later_arcs rKeys wKeys row j tx <->
  x ∈ row \/ x = j /\ exists rw, rw ∈ tx /\ isWrite rw = true /\ (CompositeKey rw ∈ rKeys \/ CompositeKey rw ∈ wKeys).
Proof.
  unfold later_arcs.
  rewrite (elem_of_foldl _ (fun rw x => x = j /\ isWrite rw = true /\
    (CompositeKey rw ∈ rKeys \/ CompositeKey rw ∈ wKeys))); [naive_solver|].
  intros r rw y _. rewrite <- !isExistForString_spec.
  destruct (isWrite rw), (isExistForString rKeys _), (isExistForString wKeys _); cbn;
    rewrite ?elem_of_add_arc; naive_solver.
Qed.

Lemma elem_of_earlier_arcs rKeys row k tx x :
  x ∈ earlier_arcs rKeys row k tx <->
  x ∈ row \/ x = k /\ exists rw, rw ∈ tx /\ isWrite rw = true /\ CompositeKey rw ∈ rKeys.
Proof.
  unfold earlier_arcs.
  rewrite (elem_of_foldl _ (fun rw x => x = k /\ isWrite rw = true /\ CompositeKey rw ∈ rKeys)); [naive_solver|].
  intros r rw y _. rewrite <- !isExistForString_spec.
  destruct (isWrite rw), (isExistForString rKeys _); cbn; rewrite ?elem_of_add_arc; naive_solver.
Qed.

Lemma elem_of_conflict_row txs i v x :
  x ∈ conflict_row txs i v <->
  (i < x < length txs /\ exists rw, rw ∈ tx_at txs x /\ isWrite rw = true /\
     (CompositeKey rw ∈ read_keys v \/ CompositeKey rw ∈ other_keys v)) \/
  (x < i /\ exists rw, rw ∈ tx_at txs x /\ isWrite rw = true /\ CompositeKey rw ∈ read_keys v).
Proof.
  unfold conflict_row.
  rewrite (elem_of_foldl _ (fun k x => x = k /\ exists rw, rw ∈ tx_at txs k /\ isWrite rw = true /\
    CompositeKey rw ∈ read_keys v)) by (intros; apply elem_of_earlier_arcs).
  rewrite (elem_of_foldl _ (fun j x => x = j /\ exists rw, rw ∈ tx_at txs j /\ isWrite rw = true /\
    (CompositeKey rw ∈ read_keys v \/ CompositeKey rw ∈ other_keys v))) by (intros; apply elem_of_later_arcs).
  setoid_rewrite elem_of_reverse. setoid_rewrite elem_of_seq.
  split.
  - intros [[?|(j & Hj & -> & H)]|(k & Hk & -> & H)]; [set_solver|left; split; [lia|done]|right; split; [lia|done]].
  - intros [[Hx H]|[Hx H]]; [left; right|right]; exists x; (split; [lia|done]).
Qed.

Lemma elem_of_ww_row txs i v x :
  x ∈ ww_row txs i v <->
  i < x < length txs /\ exists rw, rw ∈ tx_at txs x /\ isWrite rw = true /\ CompositeKey rw ∈ other_keys v.
Proof.
  unfold ww_row.
  rewrite (elem_of_foldl _ (fun j x => x = j /\ exists rw, rw ∈ tx_at txs j /\ isWrite rw = true /\
    CompositeKey rw ∈ other_keys v)).
  - setoid_rewrite elem_of_seq. split.
    + intros [?|(j & Hj & -> & H)]; [set_solver|]. split; [lia|done].
    + intros [Hx H]. right. exists x. split; [lia|done].
  - intros row j y _.
    rewrite (elem_of_foldl _ (fun rw y => y = j /\ isWrite rw = true /\ CompositeKey rw ∈ other_keys v));
      [naive_solver|].
    intros r rw z _. rewrite <- isExistForString_spec.
    destruct (isWrite rw), (isExistForString _ _); cbn; set_solver.
Qed.

Lemma elem_of_add_writers i ks (m : gmap string (list nat)) k x :
  x ∈ default [] (foldl (fun m k => <[k := default [] (m !! k) ++ [i]]> m) m ks !! k) <->
  x ∈ default [] (m !! k) \/ x = i /\ k ∈ ks.
Proof.
  revert m; induction ks as [|k' ks IH]; intros m; cbn [foldl]; [set_solver|].
  rewrite IH. destruct (decide (k = k')) as [->|Hne].
  - rewrite lookup_insert_eq. cbn. set_solver.
  - rewrite lookup_insert_ne by done. set_solver.
Qed.

Lemma elem_of_writers_fold (ps : list (nat * list RWNode)) (m : gmap string (list nat)) k x :
  x ∈ default [] (foldl (fun m iv => foldl (fun m k => <[k := default [] (m !! k) ++ [iv.1]]> m) m (other_keys iv.2))
                        m ps !! k) <->
  x ∈ default [] (m !! k) \/ exists p, p ∈ ps /\ x = p.1 /\ k ∈ other_keys p.2.
Proof.
  revert m; induction ps as [|p ps IH]; intros m; cbn [foldl]; [set_solver|].
  rewrite IH, elem_of_add_writers. set_solver.
Qed.

Lemma elem_of_writers_of txs k x :
  x ∈ default [] (writers_of txs !! k) <-> x < length txs /\ k ∈ other_keys (tx_at txs x).
Proof.
  unfold writers_of. rewrite elem_of_writers_fold, lookup_empty. unfold tx_at. split.
  - intros [?|([i v] & Hp & -> & Hk)]; [set_solver|].
    apply elem_of_lookup_imap in Hp as (j & w & [= -> ->] & Hw). cbn in *. rewrite Hw.
    split; [by eapply lookup_lt_Some|done].
  - intros [Hx Hk]. destruct (lookup_lt_is_Some_2 txs x Hx) as [v Hv]. rewrite Hv in Hk. right.
    exists (x, v). split; [|done]. apply elem_of_lookup_imap. by exists x, v.
Qed.

Lemma elem_of_rw_row wSet i v row x :
  x ∈ rw_row wSet i v row <->
  x ∈ row \/ x <> i /\ exists k, k ∈ read_keys v /\ x ∈ default [] (wSet !! k).
Proof.
  unfold rw_row.
  rewrite (elem_of_foldl _ (fun rw x => isRead rw = true /\ x <> i /\ x ∈ default [] (wSet !! CompositeKey rw))).
  - setoid_rewrite elem_of_read_keys. naive_solver.
  - intros r rw y _. destruct (isRead rw); [|naive_solver].
    rewrite (elem_of_foldl _ (fun w y => y = w /\ y <> i)); [naive_solver|].
    intros r' w z _. destruct (Nat.eqb_spec w i) as [->|Hne]; cbn; [naive_solver|].
    destruct (isExistForInt r' w) eqn:E; cbn; [apply isExistForInt_true in E|]; set_solver.
Qed.

Lemma row_of_imap {A} (f : nat -> A -> list nat) (l : list A) i x :
  x ∈ row_of (imap f l) i <-> exists v, l !! i = Some v /\ x ∈ f i v.
Proof.
  unfold row_of. rewrite list_lookup_imap. destruct (l !! i); cbn; [naive_solver|set_solver].
Qed.

Lemma tx_at_lookup txs i v : txs !! i = Some v -> tx_at txs i = v /\ i < length txs.
Proof. intros H. unfold tx_at. rewrite H. split; [done|by eapply lookup_lt_Some]. Qed.

Lemma tx_at_inv txs i : i < length txs -> txs !! i = Some (tx_at txs i).
Proof. intros H. unfold tx_at. by destruct (lookup_lt_is_Some_2 txs i H) as [v ->]. Qed.

Lemma edge_BuildConflictGraph txs i j : edge (BuildConflictGraph txs) i j <-> conflict txs i j.
Proof.
  unfold edge, BuildConflictGraph, conflict. rewrite row_of_imap.
  setoid_rewrite elem_of_conflict_row. setoid_rewrite elem_of_read_keys. setoid_rewrite elem_of_other_keys.
  split.
  - intros (v & [<- Hi]%tx_at_lookup & [[Hx (rw & ? & ? & [(r & ? & ? & ?)|(r & ? & ? & ?)])]|
      [Hx (rw & ? & ? & r & ? & ? & ?)]]).
    + split_and!; [done|lia|]. left. split; [lia|]. by exists r, rw.
    + split_and!; [done|lia|]. right. split; [lia|]. by exists r, rw.
    + split_and!; [done|lia|]. left. split; [lia|]. by exists r, rw.
  - intros (Hi & Hj & H). exists (tx_at txs i). split; [by apply tx_at_inv|].
    destruct H as [(Hne & r & w & ? & ? & ? & ? & ?)|(Hlt & w & w' & ? & ? & ? & ? & ?)].
    + destruct (decide (i < j)); [left|right]; (split; [lia|]); exists w; naive_solver.
    + left. split; [lia|]. exists w'. naive_solver.
Qed.

Lemma labelled_write txs i rw : labelled txs -> rw ∈ tx_at txs i -> isRead rw = false <-> isWrite rw = true.
Proof.
  intros Hl Hrw. unfold tx_at in Hrw. destruct (txs !! i) as [v|] eqn:E; cbn in Hrw; [|set_solver].
  unfold labelled in Hl. rewrite Forall_lookup in Hl. specialize (Hl i v E).
  rewrite Forall_forall in Hl. split; [by apply Hl|].
  unfold isRead, isWrite. rewrite String.eqb_eq. by intros ->.
Qed.

Lemma edge_NewBuildConflictGraph txs i j :
  labelled txs -> edge (NewBuildConflictGraph txs) i j <-> conflict txs i j.
Proof.
  intros Hl. unfold edge, NewBuildConflictGraph, conflict. rewrite row_of_imap.
  setoid_rewrite elem_of_rw_row. setoid_rewrite elem_of_ww_row. setoid_rewrite elem_of_writers_of.
  setoid_rewrite elem_of_read_keys. setoid_rewrite elem_of_other_keys. split.
  - intros (v & [<- Hi]%tx_at_lookup &
      [(Hx & rw & ? & ? & r & ? & ? & ?)|(Hne & k & (r & ? & ? & ?) & Hj & w & Hw & Hwl & ?)]).
    + split_and!; [done|lia|]. right. split; [lia|]. by exists r, rw.
    + split_and!; [done..|]. left. split; [done|]. exists r, w.
      apply (labelled_write txs j) in Hwl; [|done..]. split_and!; try done. congruence.
  - intros (Hi & Hj & H). exists (tx_at txs i). split; [by apply tx_at_inv|].
    destruct H as [(Hne & r & w & ? & Hw & ? & Hwl & ?)|(Hlt & w & w' & ? & ? & ? & ? & ?)].
    + right. split; [done|]. apply (labelled_write txs j) in Hwl; [|done..].
      exists (CompositeKey r). split; [by exists r|]. split; [done|]. by exists w.
    + left. split; [lia|]. exists w'. split_and!; [done..|]. by exists w.
Qed.

Lemma conflict_wf g txs :
  length g = length txs -> (forall i j, edge g i j <-> conflict txs i j) -> wf_graph g /\ no_self_loop g.
Proof.
  intros Hlen He. split.
  - apply Forall_lookup. intros i row Hrow. apply Forall_forall. intros j Hj.
    assert (edge g i j) as Hc%He by (unfold edge, row_of; by rewrite Hrow).
    destruct Hc as (_ & ? & _). lia.
  - intros i (_ & _ & [[? _]|[? _]])%He; [done|lia].
Qed.

(** ** RemoveCycles aborts one vertex *)
Lemma elem_of_appears_cycle i (c : list nat) (m : gmap nat (list nat)) v x :
  x ∈ default [] (foldl (fun m v => let l := default [] (m !! v) in
                    if isExistForInt l i then m else <[v := l ++ [i]]> m) m c !! v) <->
  x ∈ default [] (m !! v) \/ x = i /\ v ∈ c.
Proof.
  revert m; induction c as [|a c IH]; intros m; cbn [foldl]; [set_solver|]. rewrite IH.
  destruct (isExistForInt (default [] (m !! a)) i) eqn:E.
  - apply isExistForInt_true in E. destruct (decide (v = a)) as [->|]; set_solver.
  - destruct (decide (v = a)) as [->|Hne].
    + rewrite lookup_insert_eq. cbn. set_solver.
    + rewrite lookup_insert_ne by done. set_solver.
Qed.

Lemma elem_of_appears_of cs v i :
  i ∈ default [] (appears_of cs !! v) <-> exists c, cs !! i = Some c /\ v ∈ c.
Proof.
  unfold appears_of.
  enough (forall (ps : list (nat * list nat)) (m : gmap nat (list nat)), i ∈ default [] (foldl (fun m ic => foldl (fun m v =>
      let l := default [] (m !! v) in
      if isExistForInt l ic.1 then m else <[v := l ++ [ic.1]]> m) m ic.2) m ps !! v) <->
    i ∈ default [] (m !! v) \/ exists p, p ∈ ps /\ i = p.1 /\ v ∈ p.2) as H.
  { rewrite H, lookup_empty. split.
    - intros [?|([j c] & Hp & -> & Hv)]; [set_solver|].
      apply elem_of_lookup_imap in Hp as (j' & c' & [= -> ->] & Hc). by exists c'.
    - intros (c & Hc & Hv). right. exists (i, c). split; [|done]. apply elem_of_lookup_imap. by exists i, c. }
  induction ps as [|p ps IH]; intros m; cbn [foldl]; [set_solver|].
  rewrite IH, elem_of_appears_cycle. set_solver.
Qed.

Lemma FindAllCycles_ok cyclesIn g :
  no_self_loop g -> FindAllCycles cyclesIn (CreateJohnsonGraph g) = Ret (cyclesIn (CreateJohnsonGraph g)).
Proof.
  intros Hns. unfold FindAllCycles.
  assert (forall ps : list (nat * gset nat), Forall (fun ue => ue.1 ∉ ue.2) ps ->
    foldM (fun _ ue => if decide (ue.1 ∈ (ue.2 : gset nat)) then Panics else Ret tt) tt ps = Ret tt) as H.
  { induction 1 as [|p ps Hp _ IH]; [done|]. cbn [foldM]. by rewrite decide_False. }
  rewrite H; [done|]. apply Forall_forall. intros p (i & e & -> & Hi)%elem_of_lookup_imap.
  unfold CreateJohnsonGraph in Hi. rewrite list_lookup_fmap in Hi.
  destruct (g !! i) as [row|] eqn:E; [|done]. injection Hi as <-. cbn. unfold linksTo.
  rewrite elem_of_list_to_set. intros Hin. apply (Hns i). unfold edge, row_of. by rewrite E.
Qed.

Lemma RemoveCycles_spec cyclesIn rng g (cs := cyclesIn (CreateJohnsonGraph g)) :
  no_self_loop g -> Forall (fun c => c <> []) cs ->
  RemoveCycles cyclesIn rng g
  = Ret (if decide (length cs = 0) then [] else [max_vertex rng (appears_of cs)]).
Proof.
  intros Hns Hne. unfold RemoveCycles. rewrite FindAllCycles_ok by done. fold cs. cbn [mbind outcome_bind].
  destruct (decide (length cs = 0)); [done|]. set (m := max_vertex rng (appears_of cs)).
  destruct (decide _); [|done].
  assert (forall ps, (forall p, p ∈ ps -> cs !! p.1 = Some p.2) ->
    foldM (fun aborted ic =>
      if isExistForInt (default [] (appears_of cs !! m)) ic.1 then Ret aborted else
      or_panic (head ic.2) ≫= fun c0 =>
      Ret (if isExistForInt aborted c0 then aborted ++ [c0] else aborted)) [m] ps = Ret [m]) as Hfold.
  { induction ps as [|[i c] ps IH]; intros Hps; [done|]. cbn [foldM fst snd].
    assert (cs !! i = Some c) as Hc by (apply (Hps (i, c)); left).
    destruct (isExistForInt (default [] (appears_of cs !! m)) i) eqn:E; cbn [mbind outcome_bind].
    { apply IH. intros p Hp. apply Hps. by right. }
    assert (m ∉ c) as Hm.
    { intros Hm. assert (i ∈ default [] (appears_of cs !! m)) as Hi%isExistForInt_true
        by (apply elem_of_appears_of; eauto). congruence. }
    rewrite Forall_lookup in Hne. specialize (Hne i c Hc). destruct c as [|c0 c]; [done|].
    cbn [head or_panic mbind outcome_bind].
    assert (isExistForInt [m] c0 = false) as ->.
    { apply not_true_is_false. rewrite isExistForInt_true, list_elem_of_singleton. intros ->. apply Hm. left. }
    apply IH. intros p Hp. apply Hps. by right. }
  apply Hfold. intros p (i & c & -> & Hc)%elem_of_lookup_imap. done.
Qed.

(** ** GetAllCycles finds nothing *)
Record no_cycle_yet (conn P : list nat) (st : cycle_state) : Prop := {
  ny_cycles : cycles st = ∅;
  ny_pathNum : pathNum st = 0;
  ny_path : length (path st) = length conn + 1;
  ny_visit : forall w, default 0 (visit st !! w) = 1 <-> w ∈ P }.

Lemma no_cycle_yet_enter conn P st v :
  no_cycle_yet conn P st -> no_cycle_yet conn (v :: P) (set_visit v 1 st).
Proof.
  intros [H1 H2 H3 H4]. split; [done..|]. intros w. cbn [set_visit visit]. rewrite elem_of_cons.
  destruct (decide (w = v)) as [->|Hne]; [rewrite lookup_insert_eq; naive_solver|].
  rewrite lookup_insert_ne, H4 by done. naive_solver.
Qed.

Lemma no_cycle_yet_leave conn P st v :
  v ∉ P -> no_cycle_yet conn (v :: P) st -> no_cycle_yet conn P (set_visit v 0 st).
Proof.
  intros HvP [H1 H2 H3 H4]. split; [done..|]. intros w. cbn [set_visit visit].
  destruct (decide (w = v)) as [->|Hne]; [rewrite lookup_insert_eq; naive_solver|].
  rewrite lookup_insert_ne, H4, elem_of_cons by done. naive_solver.
Qed.

Lemma set_path_spec conn P st k v :
  no_cycle_yet conn P st -> k <= length conn ->
  exists st', set_path k v st = Ret st' /\ no_cycle_yet conn P st'.
Proof.
  intros [H1 H2 H3 H4] Hk. unfold set_path. rewrite decide_True by lia.
  eexists. split; [done|]. split; cbn; [done..| |done]. by rewrite length_insert.
Qed.

Lemma existCycle_none st start stop : pathNum st = 0 -> existCycle st start stop = false.
Proof. intros H. unfold existCycle. by rewrite H. Qed.

Lemma path_bound (conn P : list nat) v : NoDup P -> P ⊆ conn -> v ∈ conn -> v ∉ P -> length P < length conn.
Proof.
  intros HP HPc Hv HvP. change (length (v :: P) <= length conn).
  apply submseteq_length, NoDup_submseteq; [by constructor|set_solver].
Qed.

Lemma findAllCycles_spec vs conn :
  Forall (fun v => v < length vs) conn ->
  forall fuel st P v,
    no_cycle_yet conn P st -> NoDup P -> P ⊆ conn -> v ∈ conn -> v ∉ P -> length conn < fuel + length P ->
    exists st', findAllCycles fuel vs conn st v (length P) = Ret st' /\ no_cycle_yet conn P st'.
Proof.
  intros Hvs. induction fuel as [|fuel IH]; intros st P v I HP HPc Hv HvP Hfuel; [cbn in Hfuel|].
  { pose proof (path_bound conn P v HP HPc Hv HvP). lia. }
  pose proof (path_bound conn P v HP HPc Hv HvP) as Hlen. cbn [findAllCycles].
  destruct (set_path_spec conn (v :: P) (set_visit v 1 st) (length P) v) as (st1 & -> & I1); [|lia|].
  { by apply no_cycle_yet_enter. }
  rewrite Forall_forall in Hvs. destruct (lookup_lt_is_Some_2 vs v (Hvs v Hv)) as [node ->].
  cbn [or_panic mbind outcome_bind].
  match goal with |- context [foldM ?f (st1, 0) (first node)] =>
    assert (exists acc, foldM f (st1, 0) (first node) = Ret acc /\ no_cycle_yet conn (v :: P) acc.1) as
      ([st2 start] & -> & I2) end.
  { apply (foldM_inv _ (fun _ acc => no_cycle_yet conn (v :: P) acc.1)); [done|].
    intros pre ver post [st' s] _ I'. cbn [fst] in I'.
    destruct (isExistForInt conn (adj ver)) eqn:Ec; cbn [negb]; [|by eexists].
    apply isExistForInt_true in Ec. destruct (decide _) as [E|E].
    - rewrite existCycle_none by apply I'. by eexists.
    - rewrite (ny_visit _ _ _ I') in E. replace (length P + 1) with (length (v :: P)) by (cbn; lia).
      destruct (IH st' (v :: P) (adj ver)) as (st'' & -> & I''); [done|by constructor|set_solver|done|done|cbn; lia|].
      by eexists. }
  cbn [mbind outcome_bind]. apply set_path_spec; [|lia].
  by apply no_cycle_yet_leave.
Qed.

Lemma foldl_visit_zero conn l st :
  no_cycle_yet conn [] st -> no_cycle_yet conn [] (foldl (fun st n => set_visit n 0 st) st l).
Proof.
  revert st; induction l as [|n l IH]; intros st I; [done|]. cbn [foldl]. apply IH.
  destruct I as [H1 H2 H3 H4]. split; [done..|]. intros w. cbn [set_visit visit].
  destruct (decide (w = n)) as [->|Hne]; [rewrite lookup_insert_eq; set_solver|].
  by rewrite lookup_insert_ne.
Qed.

(** ** Properties *)

(** C30: both builders of the conflict graph of a block draw an arc from [i]
    to [j] exactly when [j] writes a cell that [i] reads, or [i] comes first
    and both write it; the two graphs are well formed, without self loops,
    and have the same arcs. *)
Theorem conflict_graphs_agree txs :
  labelled txs ->
  (forall i j, edge (BuildConflictGraph txs) i j <-> conflict txs i j) /\
  (forall i j, edge (NewBuildConflictGraph txs) i j <-> edge (BuildConflictGraph txs) i j) /\
  (wf_graph (BuildConflictGraph txs) /\ no_self_loop (BuildConflictGraph txs)) /\
  (wf_graph (NewBuildConflictGraph txs) /\ no_self_loop (NewBuildConflictGraph txs)).
Proof.
  intros Hl. split; [|split; [|split]].
  - apply edge_BuildConflictGraph.
  - intros i j. by rewrite edge_NewBuildConflictGraph, edge_BuildConflictGraph.
  - apply (conflict_wf _ txs); [apply length_imap|apply edge_BuildConflictGraph].
  - apply (conflict_wf _ txs); [apply length_imap|].
    intros i j. by apply edge_NewBuildConflictGraph.
Qed.

Definition example_txs : list (list RWNode) :=
  let node label id key := node_of label (mkTransInfo id 0) "c" (key, "v") in
  [[node "r" "0" "x"; node "w" "0" "y"]; [node "r" "1" "y"; node "w" "1" "x"]; [node "w" "2" "y"]].

Lemma conflict_graphs_agree_witness :
  labelled example_txs /\ BuildConflictGraph example_txs = [[1; 2]; [2; 0]; []] /\
  edge (NewBuildConflictGraph example_txs) 1 0.
Proof.
  assert (labelled example_txs) as Hl by (unfold labelled, example_txs; repeat constructor; done).
  split; [exact Hl|]. split; [vm_compute; reflexivity|].
  destruct (conflict_graphs_agree example_txs Hl) as (_ & H & _). apply H. vm_compute. right. left.
Defined.

(** [RemoveCycles] never aborts more than one transaction, whatever the
    cycles: with two cycles that share no vertex one of them survives.  (The
    test on [abortedTx] that should add a vertex of each remaining cycle is
    inverted.) *)
Theorem RemoveCycles_aborts_one cyclesIn rng g (cs := cyclesIn (CreateJohnsonGraph g)) :
  no_self_loop g -> Forall (fun c => c <> []) cs ->
  exists aborted, RemoveCycles cyclesIn rng g = Ret aborted /\ length aborted <= 1 /\
    ((forall v, exists c, c ∈ cs /\ v ∉ c) -> exists c, c ∈ cs /\ forall v, v ∈ aborted -> v ∉ c).
Proof.
  intros Hns Hne. eexists. split; [by apply RemoveCycles_spec|]. fold cs.
  destruct (decide _) as [E|E].
  - split; [cbn; lia|]. intros H. destruct (H 0) as (c & Hc & _). exists c. set_solver.
  - split; [cbn; lia|]. intros H. destruct (H (max_vertex rng (appears_of cs))) as (c & Hc & Hv).
    exists c. split; [done|]. by intros v ->%list_elem_of_singleton.
Qed.

Lemma RemoveCycles_aborts_one_witness :
  exists aborted, RemoveCycles (fun _ => [[0; 1]; [2; 3]]) elements [[1]; [0]; [3]; [2]] = Ret aborted /\
    exists c, c ∈ [[0; 1]; [2; 3]] /\ forall v, v ∈ aborted -> v ∉ c.
Proof.
  destruct (RemoveCycles_aborts_one (fun _ => [[0; 1]; [2; 3]]) elements [[1]; [0]; [3]; [2]])
    as (aborted & Hr & _ & H).
  { intros [|[|[|[|]]]]; unfold edge, row_of; cbn; set_solver. }
  { by repeat constructor. }
  exists aborted. split; [exact Hr|]. apply H. intros v.
  destruct (decide (v <= 1)); [exists [2; 3]|exists [0; 1]];
    (split; [set_solver|]); rewrite !elem_of_cons, elem_of_nil; lia.
Defined.

(** [GetAllCycles] returns, and returns no cycle, for every graph and
    every set of its vertices: a cycle is recorded only when it already was. *)
Theorem GetAllCycles_empty al conn :
  Forall (fun v => v < length (vertices al)) conn -> GetAllCycles al conn = Ret ∅.
Proof.
  intros Hvs. unfold GetAllCycles.
  match goal with |- foldM ?f ?st conn ≫= _ = _ =>
    assert (exists st', foldM f st conn = Ret st' /\ no_cycle_yet conn [] st') as (st' & -> & I) end.
  { apply (foldM_inv _ (fun _ => no_cycle_yet conn [])).
    - apply foldl_visit_zero. split; cbn; [done..| |set_solver]. apply length_replicate.
    - intros pre v post st Hl I. destruct (decide _); [|by eexists].
      apply (findAllCycles_spec _ conn Hvs _ _ []); [done|constructor|set_solver|set_solver|set_solver|cbn; lia]. }
  cbn. by rewrite (ny_cycles _ _ _ I).
Qed.

Lemma GetAllCycles_empty_witness : GetAllCycles (Init empty_AlGraph [[1]; [0]]) [0; 1] = Ret ∅.
Proof. apply GetAllCycles_empty. cbn. repeat constructor; lia. Defined.
