(* ===== verification/KeyDerive.v ===== *)
(** * Storage keys of contract variables: [utils/mainnet_contract_mgr.go] (key
      helpers) and [utils/mainnet_keyderive.go]

    Solidity keeps a mapping entry in the slot given by a hash of its key and
    the slot of the mapping.  This file models the key helpers, the reading of
    ABI-encoded calldata and the two calldata-derived key derivers.  The hash
    [keccak256] and the signature recovery [recover] of the third-party
    packages are arguments. *)
From stdpp Require Import base list gmap strings.
From Stdlib Require Import ZArith Ascii Lia.
From S2P Require Import Prelude RWSet GoText.

Set Default Goal Selector "!".
Local Open Scope string_scope.
Local Open Scope list_scope.

Local Notation len := String.length.

(** ** Fixed-width encodings *)
Definition pad32 (data : string) : string :=
  if Nat.leb 32 (len data) then take_bytes 32 data else zeros (32 - len data) +:+ data.

Definition rightPad32 (data : string) : string :=
  data +:+ zeros (((len data + 31) / 32) * 32 - len data).

Definition slotToBytes (slot : Z) : string := pad32 (FillBytes 8 slot).
Definition hexSlot (hash : string) : string := "0x" +:+ EncodeToString hash.

Definition addrToBytes (addr : string) : string :=
  DecodeString (if HasPrefix addr "0x" || HasPrefix addr "0X" then drop_bytes 2 addr else addr).

Definition slot_key (contractAddr : string) (hash : string) : string :=
  "slot:" +:+ ToLower contractAddr +:+ ":" +:+ hexSlot hash.

Definition simpleSlotKey (contractAddr : string) (slot : Z) : string := slot_key contractAddr (slotToBytes slot).

(** ** Calldata *)
Record MainnetTxArgs := mkArgs { a_Addr1 : string; a_Addr2 : string; MsgSender : string; Selector : string; RawCalldata : string }.
Record LLMFieldAccess := mkAccess { f_Account : string; f_Field : string }.
Record DerivedKey := mkDerived { d_ReadKeys : list string; d_WriteKeys : list string }.

(** [binary.BigEndian.Uint64]: a slice shorter than 8 bytes panics. *)
Definition Uint64 (b : string) : outcome Z := if Nat.leb 8 (len b) then Ret (SetBytes (take_bytes 8 b)) else Panics.

Definition abiOffsetWord (raw : string) (at_ : Z) : outcome Z :=
  if bool_decide (Z.of_nat (len raw) < at_ + 32)%Z then Ret 0%Z else
  slice_bytes raw (at_ + 24) (at_ + 32) ≫= Uint64.

Definition add64 (x y : Z) : Z := wrap_uint64 (x + y).

Definition parseDynamicBytes (raw : string) (off : Z) : outcome (option string) :=
  if bool_decide (Z.of_nat (len raw) < add64 off 32)%Z then Ret None else
  slice_bytes raw (add64 off 24) (add64 off 32) ≫= fun w =>
  Uint64 w ≫= fun length_ =>
  let padded := wrap_uint64 (add64 length_ 31 / 32 * 32) in
  let end_ := add64 (add64 off 32) padded in
  if bool_decide (Z.of_nat (len raw) < end_)%Z then Ret None else
  slice_bytes raw (add64 off 32) (add64 (add64 off 32) length_) ≫= fun d => Ret (Some d).

Definition resolveAccountAddr (account : string) (args : MainnetTxArgs) : option string :=
  let known a := if bool_decide (a = EmptyString) then None else Some a in
  if String.eqb account "addr1" then known (a_Addr1 args)
  else if String.eqb account "addr2" then known (a_Addr2 args)
  else if String.eqb account "msg.sender" then known (MsgSender args)
  else None.

(** ** Hashed keys and derivers *)
Section derive.
Context (keccak256 : string -> string).

Definition mappingSlotKey (contractAddr addr : string) (slot : Z) : string :=
  slot_key contractAddr (keccak256 (pad32 (addrToBytes addr) +:+ slotToBytes slot)).

Definition nestedMappingSlotKey (contractAddr outerAddr innerAddr : string) (slot : Z) : string :=
  let innerSlot := keccak256 (pad32 (addrToBytes outerAddr) +:+ slotToBytes slot) in
  slot_key contractAddr (keccak256 (pad32 (addrToBytes innerAddr) +:+ innerSlot)).

Definition mappingSlotKeyBytes32 (contractAddr key32 : string) (slot : Z) : string :=
  slot_key contractAddr (keccak256 (pad32 key32 +:+ slotToBytes slot)).

Definition nestedBytesMappingSlotKey (contractAddr outerAddr innerBytes : string) (slot : Z) : string :=
  let innerSlot := keccak256 (pad32 (addrToBytes outerAddr) +:+ slotToBytes slot) in
  slot_key contractAddr (keccak256 (innerBytes +:+ innerSlot)).

(** [btcec.RecoverCompact] followed by [SerializeUncompressed]: the 65 bytes
    [0x04 || X || Y], or an error. *)
Context (recover : string -> string -> option string).

Definition recoverAttesterAddress (digest sig : string) : outcome (option string) :=
  if negb (Nat.eqb (len sig) 65) then Ret None else
  or_panic (String.get 64 sig) ≫= fun c =>
  let v := byte_val c in
  let recid := if bool_decide (v = 27 \/ v = 28)%Z then Some (v - 27)%Z else if bool_decide (v <= 3)%Z then Some v else None in
  match recid with
  | None => Ret None
  | Some recid =>
    match recover (String (byte_of (recid + 27)) (take_bytes 64 sig)) digest with
    | None => Ret None
    | Some uncompressed =>
      slice_bytes uncompressed 1 (Z.of_nat (len uncompressed)) ≫= fun xy =>
      let sum := keccak256 xy in
      slice_bytes sum 12 (Z.of_nat (len sum)) ≫= fun addr => Ret (Some addr)
    end
  end.

(** The loop over the 65-byte signatures of an attestation. *)
Fixpoint attester_keys (fuel : nat) (contractAddr digest attData : string) (indexKeys : list string) : outcome (option (list string)) :=
  match fuel with
  | 0 => Diverges
  | S fuel =>
    if Nat.ltb (len attData) 65 then Ret (Some indexKeys) else
    recoverAttesterAddress digest (take_bytes 65 attData) ≫= fun attester =>
    match attester with
    | None => Ret None
    | Some a => attester_keys fuel contractAddr digest (drop_bytes 65 attData)
                  (indexKeys ++ [mappingSlotKey contractAddr ("0x" +:+ EncodeToString a) 6])
    end
  end.

Definition deriveReceiveMessageKeys (contractAddr : string) (acc : LLMFieldAccess) (args : MainnetTxArgs) : outcome (option DerivedKey) :=
  if negb (String.eqb (f_Field acc) "usedNonces") || negb (String.eqb (f_Account acc) "global") then Ret None else
  let raw := RawCalldata args in
  if Nat.ltb (len raw) 68 then Ret None else
  abiOffsetWord raw 4 ≫= fun msgOff =>
  abiOffsetWord raw 36 ≫= fun attOff =>
  parseDynamicBytes raw (add64 4 msgOff) ≫= fun msg =>
  match msg with
  | None => Ret None
  | Some msgData =>
    parseDynamicBytes raw (add64 4 attOff) ≫= fun att =>
    match att with
    | None => Ret None
    | Some attData =>
      if Nat.ltb (len msgData) 20 then Ret None else
      let srcAndNonce := take_bytes 4 (drop_bytes 4 msgData) +:+ take_bytes 8 (drop_bytes 12 msgData) in
      let usedNonceKey := mappingSlotKeyBytes32 contractAddr (keccak256 srcAndNonce) 10 in
      let digest := keccak256 msgData in
      attester_keys (S (len attData)) contractAddr digest attData [] ≫= fun indexKeys =>
      match indexKeys with
      | None => Ret None
      | Some [] => Ret None
      | Some indexKeys => Ret (Some (mkDerived (usedNonceKey :: indexKeys) [usedNonceKey]))
      end
    end
  end.

Definition deriveCoinToolTKeys (contractAddr : string) (acc : LLMFieldAccess) (args : MainnetTxArgs) : outcome (option DerivedKey) :=
  if negb (String.eqb (f_Field acc) "map") then Ret None else
  match resolveAccountAddr (f_Account acc) args with
  | None => Ret None
  | Some outerAddr =>
    let raw := RawCalldata args in
    if Nat.ltb (len raw) 100 then Ret None else
    abiOffsetWord raw 68 ≫= fun saltOff =>
    parseDynamicBytes raw (add64 4 saltOff) ≫= fun salt =>
    match salt with
    | None => Ret None
    | Some salt =>
      let key := nestedBytesMappingSlotKey contractAddr outerAddr salt 1 in
      Ret (Some (mkDerived [key] [key]))
    end
  end.

Definition KeyDeriver : Type := string -> LLMFieldAccess -> MainnetTxArgs -> outcome (option DerivedKey).

Definition derivedKeyDerivers : gmap string KeyDeriver :=
  <[ "0x0a992d191deec32afe36203ad87d7d289a738f81:0x57ecfd28" := deriveReceiveMessageKeys ]>
  {[ "0x0de8bf93da2f7eecb3d9169422413a9bef4ef628:0xb1ae2ed1" := deriveCoinToolTKeys ]}.
End derive.

(** ** Fixed-width encodings: lemmas *)
Lemma FillBytes_acc_append n z s : FillBytes_acc n z s = FillBytes n z +:+ s.
Proof.
  unfold FillBytes. revert z s. induction n as [|n IH]; intros z s; cbn [FillBytes_acc]; [done|].
  rewrite IH, (IH _ (String _ EmptyString)), append_assoc. done.
Qed.

Lemma length_FillBytes n z : len (FillBytes n z) = n.
Proof.
  revert z. induction n as [|n IH]; intros z; [done|]. unfold FillBytes. cbn [FillBytes_acc].
  rewrite FillBytes_acc_append, length_append, IH. cbn. lia.
Qed.

Lemma FillBytes_split m k z : FillBytes (m + k) z = FillBytes m (z / 256 ^ Z.of_nat k) +:+ FillBytes k z.
Proof.
  revert z. induction k as [|k IH]; intros z.
  - rewrite Nat.add_0_r. change (256 ^ Z.of_nat 0)%Z with 1%Z. rewrite Z.div_1_r. symmetry. apply append_nil_r.
  - rewrite Nat.add_succ_r. unfold FillBytes at 1 3. cbn [FillBytes_acc].
    rewrite !FillBytes_acc_append, IH, Z.div_div, append_assoc by lia. do 3 f_equal. rewrite Nat2Z.inj_succ, Z.pow_succ_r by lia. done.
Qed.

Lemma length_pad32 d : len (pad32 d) = 32.
Proof.
  unfold pad32. destruct (Nat.leb_spec 32 (len d)); [rewrite length_take|rewrite length_append, length_zeros]; lia.
Qed.

Lemma SetBytes_append a b : SetBytes (a +:+ b) = (SetBytes a * 256 ^ Z.of_nat (len b) + SetBytes b)%Z.
Proof.
  induction a as [|c a IH]; [done|]. rewrite append_cons. unfold SetBytes. cbn [SetBytes_acc].
  rewrite !SetBytes_acc_eq, IH, length_append, Nat2Z.inj_add, Z.pow_add_r by lia. lia.
Qed.

Lemma SetBytes_zeros n : SetBytes (zeros n) = 0%Z.
Proof. induction n as [|n IH]; [done|]. unfold SetBytes in *. cbn [zeros SetBytes_acc]. by change (0 * 256 + byte_val zero)%Z with 0%Z. Qed.

Lemma SetBytes_pad32 d : len d <= 32 -> SetBytes (pad32 d) = SetBytes d.
Proof.
  intros Hd. unfold pad32. destruct (Nat.leb_spec 32 (len d)).
  - replace 32 with (len d) by lia. rewrite <- (append_nil_r d) at 2. by rewrite take_append.
  - rewrite SetBytes_append, SetBytes_zeros. lia.
Qed.

(** A slot number is written as a 32-byte big-endian word. *)
Lemma SetBytes_slotToBytes slot : (0 <= slot < 2^64)%Z -> SetBytes (slotToBytes slot) = slot.
Proof.
  intros Hs. unfold slotToBytes. rewrite SetBytes_pad32, SetBytes_FillBytes by (rewrite length_FillBytes; lia).
  apply Z.mod_small. change (256 ^ Z.of_nat 8)%Z with (2^64)%Z. done.
Qed.

Lemma length_rightPad32 d : Z.of_nat (len (rightPad32 d)) = ((Z.of_nat (len d) + 31) / 32 * 32)%Z.
Proof.
  unfold rightPad32. rewrite length_append, length_zeros.
  pose proof (Nat.div_mod (len d + 31) 32 ltac:(lia)). pose proof (Nat.mod_upper_bound (len d + 31) 32 ltac:(lia)).
  rewrite <- (Nat2Z.inj_add _ 31), <- (Nat2Z.inj_div _ 32). lia.
Qed.

(** ** Reading ABI-encoded calldata *)

(** The encoding of a [bytes] argument: a length word and the padded data. *)
Definition abi_bytes (d : string) : string := FillBytes 32 (Z.of_nat (len d)) +:+ rightPad32 d.

Lemma Uint64_word z : (0 <= z < 2^64)%Z -> Uint64 (FillBytes 8 z) = Ret z.
Proof.
  intros Hz. unfold Uint64. rewrite length_FillBytes. cbn [Nat.leb].
  pose proof (take_append (FillBytes 8 z) EmptyString) as H. rewrite append_nil_r, length_FillBytes in H. rewrite H, SetBytes_FillBytes.
  f_equal. apply Z.mod_small. exact Hz.
Qed.

(** Reading the low 8 bytes of a 32-byte word in the middle of the calldata. *)
Lemma word_slice pre post z lo hi :
  (0 <= z < 2^64)%Z -> lo = (Z.of_nat (len pre) + 24)%Z -> hi = (Z.of_nat (len pre) + 32)%Z ->
  (slice_bytes (pre +:+ FillBytes 32 z +:+ post) lo hi ≫= Uint64) = Ret z.
Proof.
  intros Hz -> ->. change 32 with (24 + 8) at 1. rewrite FillBytes_split, append_assoc, <- append_assoc.
  rewrite (slice_append _ (FillBytes 8 z)) by (rewrite ?length_append, !length_FillBytes; lia).
  by rewrite bind_ret, Uint64_word.
Qed.

Lemma abiOffsetWord_spec pre post z at_ :
  (0 <= z < 2^64)%Z -> at_ = Z.of_nat (len pre) -> abiOffsetWord (pre +:+ FillBytes 32 z +:+ post) at_ = Ret z.
Proof.
  intros Hz ->. unfold abiOffsetWord. rewrite bool_decide_eq_false_2; [by apply word_slice|].
  rewrite !length_append, length_FillBytes. lia.
Qed.

Lemma add64_small x y : (0 <= x + y < 2^64)%Z -> add64 x y = (x + y)%Z.
Proof. intros H. unfold add64, wrap_uint64. by rewrite Z.mod_small. Qed.

Lemma parseDynamicBytes_encoded pre d post :
  (Z.of_nat (len (pre +:+ abi_bytes d +:+ post)) < 2^63)%Z ->
  parseDynamicBytes (pre +:+ abi_bytes d +:+ post) (Z.of_nat (len pre)) = Ret (Some d).
Proof.
  set (raw := pre +:+ abi_bytes d +:+ post). intros Hraw. unfold parseDynamicBytes.
  assert (Z.of_nat (len raw) = (Z.of_nat (len pre) + 32 + (Z.of_nat (len d) + 31) / 32 * 32 + Z.of_nat (len post))%Z) as Hlen.
  { unfold raw, abi_bytes. rewrite !length_append, !Nat2Z.inj_add, length_rightPad32, length_FillBytes. lia. }
  pose proof (Z.div_mod (Z.of_nat (len d) + 31) 32 ltac:(lia)) as Hdm.
  pose proof (Z.mod_pos_bound (Z.of_nat (len d) + 31) 32 ltac:(lia)) as Hmod.
  rewrite !(add64_small (Z.of_nat (len pre))) by lia. rewrite bool_decide_eq_false_2 by lia.
  assert (forall (f : Z -> outcome (option string)),
    (slice_bytes raw (Z.of_nat (len pre) + 24) (Z.of_nat (len pre) + 32) ≫= fun w => Uint64 w ≫= f) = f (Z.of_nat (len d))) as Hw.
  { intros f. unfold raw, abi_bytes. rewrite append_assoc.
    pose proof (word_slice pre (rightPad32 d +:+ post) (Z.of_nat (len d)) _ _ ltac:(lia) eq_refl eq_refl) as H.
    destruct (slice_bytes _ _ _) as [w| |]; cbn [mbind outcome_bind] in *; [by rewrite H|done|done]. }
  rewrite Hw. rewrite (add64_small (Z.of_nat (len d))) by lia.
  assert (wrap_uint64 ((Z.of_nat (len d) + 31) / 32 * 32) = ((Z.of_nat (len d) + 31) / 32 * 32)%Z) as ->.
  { unfold wrap_uint64. apply Z.mod_small. lia. }
  rewrite !(add64_small (Z.of_nat (len pre) + 32)) by lia. rewrite bool_decide_eq_false_2 by lia.
  assert (slice_bytes raw (Z.of_nat (len pre) + 32) (Z.of_nat (len pre) + 32 + Z.of_nat (len d)) = Ret d) as ->; [|done].
  unfold raw, abi_bytes, rightPad32. rewrite !append_assoc, <- append_assoc.
  apply slice_append; rewrite ?length_append, ?length_FillBytes; lia.
Qed.

(** ** Properties *)

(** [parseDynamicBytes] reads back what the ABI encodes: at the offset of
    an encoded [bytes] argument inside any calldata it returns the argument. *)
Theorem parseDynamicBytes_roundtrip pre d post :
  (Z.of_nat (len (pre +:+ abi_bytes d +:+ post)) < 2^63)%Z ->
  parseDynamicBytes (pre +:+ abi_bytes d +:+ post) (Z.of_nat (len pre)) = Ret (Some d).
Proof. apply parseDynamicBytes_encoded. Qed.

Lemma parseDynamicBytes_roundtrip_witness : parseDynamicBytes ("abcd" +:+ abi_bytes "salt" +:+ "xy") 4 = Ret (Some "salt").
Proof. apply (parseDynamicBytes_roundtrip "abcd" "salt" "xy"). vm_compute. reflexivity. Defined.

(** A simple variable's key is canonical: the slot part is the slot number
    as a 32-byte word, so distinct slots of a contract have distinct keys. *)
Theorem simpleSlotKey_injective addr addr' slot slot' :
  no_colon addr -> no_colon addr' -> (0 <= slot < 2^64)%Z -> (0 <= slot' < 2^64)%Z ->
  simpleSlotKey addr slot = simpleSlotKey addr' slot' <-> ToLower addr = ToLower addr' /\ slot = slot'.
Proof.
  intros Ha Ha' Hs Hs'. unfold simpleSlotKey, slot_key, hexSlot. split; [|by intros [-> ->]].
  intros H. apply append_inj_r in H. apply append_colon_inj in H as [E H]; [|by apply no_colon_ToLower..]. split; [done|].
  apply append_inj_r, Encode_inj, (f_equal SetBytes) in H. by rewrite !SetBytes_slotToBytes in H.
Qed.

Lemma simpleSlotKey_injective_witness : simpleSlotKey "0xab" 1 <> simpleSlotKey "0xab" 256.
Proof.
  intros H. apply simpleSlotKey_injective in H; [by destruct H|..]; unfold no_colon; cbn; solve [set_solver|lia].
Defined.

(** The calldata of [CoinTool_App.t(total, data, salt)]: [mid] holds the
    encoding of [data]. *)
Definition coin_tool_calldata (selector total offData mid salt : string) : string :=
  selector +:+ total +:+ offData +:+ FillBytes 32 (96 + Z.of_nat (len mid)) +:+ mid +:+ abi_bytes salt.

(** The CoinTool deriver finds the slot of [map[msg.sender][salt]]: from
    well-formed calldata it derives exactly the key of the nested mapping for
    the resolved account and the salt, as a read and as a write. *)
Theorem deriveCoinToolTKeys_correct keccak256 contract acc args outer selector total offData mid salt :
  f_Field acc = "map" -> resolveAccountAddr (f_Account acc) args = Some outer ->
  len selector = 4 -> len total = 32 -> len offData = 32 ->
  RawCalldata args = coin_tool_calldata selector total offData mid salt ->
  (Z.of_nat (len (RawCalldata args)) < 2^63)%Z ->
  let key := nestedBytesMappingSlotKey keccak256 contract outer salt 1 in
  deriveCoinToolTKeys keccak256 contract acc args = Ret (Some (mkDerived [key] [key])).
Proof.
  intros Hf Hr H1 H2 H3 Hraw Hlen. cbn zeta. unfold deriveCoinToolTKeys. rewrite Hf, Hr, Hraw. cbn [String.eqb negb].
  unfold coin_tool_calldata in *. rewrite Hraw in Hlen. rewrite !length_append, !length_FillBytes in Hlen.
  change (negb ("map" =? "map")%string) with false.
  assert (Nat.ltb (len (selector +:+ total +:+ offData +:+ FillBytes 32 (96 + Z.of_nat (len mid)) +:+ mid +:+ abi_bytes salt)) 100 = false) as ->.
  { apply Nat.ltb_ge. rewrite !length_append, !length_FillBytes. lia. }
  rewrite <- (append_assoc total), <- (append_assoc selector).
  rewrite (abiOffsetWord_spec (selector +:+ total +:+ offData)) by (rewrite ?length_append; lia).
  rewrite bind_ret, add64_small by lia.
  set (w := FillBytes 32 (96 + Z.of_nat (len mid))). rewrite <- (append_assoc w), <- (append_assoc (selector +:+ total +:+ offData)).
  rewrite <- (append_nil_r (abi_bytes salt)).
  replace (4 + (96 + Z.of_nat (len mid)))%Z with (Z.of_nat (len ((selector +:+ total +:+ offData) +:+ w +:+ mid))).
  - rewrite parseDynamicBytes_encoded; [done|]. unfold w. rewrite !length_append, length_FillBytes. cbn [String.length]. lia.
  - unfold w. rewrite !length_append, length_FillBytes. lia.
Qed.

Definition demo_args (calldata : string) : MainnetTxArgs := mkArgs EmptyString EmptyString "0xaa" "0xb1ae2ed1" calldata.

Lemma deriveCoinToolTKeys_correct_witness :
  let key := nestedBytesMappingSlotKey (fun s => s) "0xcc" "0xaa" "salt" 1 in
  deriveCoinToolTKeys (fun s => s) "0xcc" (mkAccess "msg.sender" "map")
    (demo_args (coin_tool_calldata "sel4" (zeros 32) (zeros 32) EmptyString "salt")) = Ret (Some (mkDerived [key] [key])).
Proof.
  apply (deriveCoinToolTKeys_correct (fun s => s) "0xcc" (mkAccess "msg.sender" "map") _ "0xaa" "sel4" (zeros 32) (zeros 32) EmptyString "salt");
    vm_compute; reflexivity.
Defined.

(** A crafted length word crashes the deriver: with the length [2^64 - 1]
    the padded length wraps around to 0, the bounds check passes and the slice
    expression panics, for every hash function, contract and sender. *)
Theorem deriveCoinToolTKeys_panics keccak256 contract :
  let raw := zeros 4 +:+ zeros 64 +:+ FillBytes 32 96 +:+ FillBytes 32 (2^64 - 1) in
  deriveCoinToolTKeys keccak256 contract (mkAccess "msg.sender" "map") (demo_args raw) = Panics.
Proof. vm_compute. reflexivity. Qed.
