(* ===== verification/ContractManager.v ===== *)
(** * Conservative read/write sets of mainnet contracts:
      [utils/mainnet_contract_mgr.go], [utils/mainnet_rwset.go]

    For an analysed contract function the manager turns the abstract accesses
    of the analysis ({account, field}) into state keys, and merges those of the
    functions it calls.  The scheduler relies on the result being an
    over-approximation, so a key that cannot be derived must make the whole
    transaction fall back, never be dropped.

    The manager's lookup cache [itemCache] is explicit state; reading an
    analysis from disk ([loadMainnetLLMCache]) and the third-party hash and
    signature recovery are arguments. *)
From stdpp Require Import base list gmap strings.
From Stdlib Require Import ZArith Ascii Lia.
From S2P Require Import Prelude RWSet GoText KeyDerive.

Set Default Goal Selector "!".
Local Open Scope string_scope.
Local Open Scope list_scope.

Local Notation len := String.length.

(** ** Data *)
Record storageItem := mkItem { it_Label : string; Slot : Z; KeyType : string; IsNested : bool; RawType : string; IsAddress : bool }.

Record MainnetCrossCall := mkCrossCall { cc_Contract : string; cc_Function : string }.
Record MainnetLLMResponse := mkResponse { Reads : list LLMFieldAccess; Writes : list LLMFieldAccess; CrossCalls : list MainnetCrossCall }.

Record abi_input := mkInput { in_Name : string; in_Type : string }.
Record mainnetABIEntry := mkABIEntry { abi_Name : string; abi_Type : string; Inputs : list abi_input }.

Record MainnetContractManager := mkManager {
  layouts : gmap string (list storageItem);
  abis : gmap string (list mainnetABIEntry);
  aliasToAddr : gmap string string;
  rwSets : gmap string MainnetLLMResponse }.

Abbreviation item_cache := (gmap string storageItem).

Inductive rwset_error := ErrNotPreAnalyzed | ErrUnresolvableAccount | ErrKeyUnresolvable | ErrCrossContractNotCached | ErrMaxDepth.

(** ** Storage layouts *)
Record layout_entry := mkLayoutEntry { l_Slot : string; l_Label : string; l_Type : string }.
Record layout_type := mkLayoutType { Encoding : string; t_Key : string; t_Value : string }.

Definition is_digit (c : ascii) : bool := let n := N_of_ascii c in ((48 <=? n) && (n <=? 57))%N.

Fixpoint parse_digits (acc : Z) (s : string) : option Z :=
  match s with
  | EmptyString => Some acc
  | String c s => if is_digit c then parse_digits (10 * acc + (byte_val c - 48)) s else None
  end.

(** [strconv.ParseUint(s, 10, 64)]. *)
Definition ParseUint (s : string) : option Z :=
  if bool_decide (s = EmptyString) then None else
  match parse_digits 0 s with
  | Some n => if bool_decide (n < 2^64)%Z then Some n else None
  | None => None
  end.

(** [strings.Contains]. *)
Fixpoint Contains (s sub : string) : bool :=
  HasPrefix s sub || match s with EmptyString => false | String _ s => Contains s sub end.

Definition storage_item (types : gmap string layout_type) (item : layout_entry) : option storageItem :=
  ParseUint (l_Slot item) ≫= fun slot =>
  let '(keyType, isNested) :=
    match types !! l_Type item with
    | Some typeInfo =>
      if String.eqb (Encoding typeInfo) "mapping" then
        (if Contains (t_Key typeInfo) "string" then "string" else "mapping",
         if String.eqb (t_Value typeInfo) EmptyString then false
         else match types !! t_Value typeInfo with Some v => String.eqb (Encoding v) "mapping" | None => false end)
      else ("simple", false)
    | None => ("simple", false)
    end in
  Some (mkItem (l_Label item) slot keyType isNested (l_Type item) (String.eqb (l_Type item) "t_address")).

Definition parseMainnetStorageLayout (storage : list layout_entry) (types : gmap string layout_type) : option (list storageItem) :=
  mapM (storage_item types) storage.

(** ** Identifiers *)
Definition is_hex_char (c : ascii) : bool := match hex_val c with Some _ => true | None => false end.

Definition isHexAddress (s : string) : bool :=
  Nat.eqb (len s) 42 && (HasPrefix s "0x" || HasPrefix s "0X") &&
  forallb is_hex_char (String.list_ascii_of_string (drop_bytes 2 s)).

Definition ResolveContractIdentifier (m : MainnetContractManager) (id : string) : option string :=
  if isHexAddress id then Some (ToLower id) else aliasToAddr m !! id.

Definition rwset_key (address selector : string) : string := ToLower address +:+ ":" +:+ ToLower selector.

Definition IsRWSetCached (m : MainnetContractManager) (address selector : string) : bool :=
  bool_decide (is_Some (rwSets m !! rwset_key address selector)).

Definition hasUnresolvableAccount (accesses : list LLMFieldAccess) : bool :=
  existsb (fun acc => negb (existsb (String.eqb (f_Account acc)) ["addr1"; "addr2"; "msg.sender"; "global"])) accesses.

Definition collectAvailableAddrs (args : MainnetTxArgs) : list string :=
  filter (fun a => a <> EmptyString) [a_Addr1 args; a_Addr2 args; MsgSender args].

Definition dedupKeys (keys : list string) : list string := dedup_go ∅ keys.

Definition find_label (items : list storageItem) (label : string) : option storageItem :=
  head (filter (fun it => it_Label it = label) items).

Definition findStorageItem (m : MainnetContractManager) (cache : item_cache) (contractAddr label : string) :
    item_cache * option storageItem :=
  let cacheKey := contractAddr +:+ ":" +:+ label in
  match cache !! cacheKey with
  | Some it => (cache, Some it)
  | None =>
    match layouts m !! contractAddr with
    | None => (cache, None)
    | Some items =>
      match find_label items label with
      | None => (cache, None)
      | Some found => (<[cacheKey := found]> cache, Some found)
      end
    end
  end.

Definition find_item (m : MainnetContractManager) (contractAddr label : string) : option storageItem :=
  layouts m !! contractAddr ≫= fun items => find_label items label.

(** ABI entry of the function with a given selector. *)
Definition formatSignature (e : mainnetABIEntry) : string :=
  abi_Name e +:+ "(" +:+ String.concat "," (in_Type <$> Inputs e) +:+ ")".

Definition GetABIInputs (keccak256 : string -> string) (m : MainnetContractManager) (address selector : string) : list mainnetABIEntry :=
  match abis m !! address with
  | None => []
  | Some entries =>
    let target := with_0x (ToLower selector) in
    option_list (head (filter (fun e => (abi_Type e = "function" \/ abi_Type e = EmptyString) /\
      "0x" +:+ EncodeToString (take_bytes 4 (keccak256 (formatSignature e))) = target) entries))
  end.

(** ** From abstract accesses to keys *)
Section manager.
Context (keccak256 : string -> string) (recover : string -> string -> option string).
Context (loadMainnetLLMCache : string -> string -> option MainnetLLMResponse).
Context (m : MainnetContractManager).

Definition loadLLMResponse (address selector : string) : option MainnetLLMResponse :=
  match rwSets m !! rwset_key address selector with
  | Some resp => Some resp
  | None => loadMainnetLLMCache address selector
  end.

(** [None]: no deriver; [Some None]: it cannot derive the key. *)
Definition tryKeyDeriver (contractAddr : string) (acc : LLMFieldAccess) (args : MainnetTxArgs) (write : bool) :
    outcome (option (option (list string))) :=
  match derivedKeyDerivers keccak256 recover !! rwset_key contractAddr (Selector args) with
  | None => Ret None
  | Some deriver =>
    deriver contractAddr acc args ≫= fun dk =>
    Ret (Some match dk with
              | None => None
              | Some dk => Some (if write then d_WriteKeys dk else d_ReadKeys dk)
              end)
  end.

(** Both orientations of a nested mapping key with every known address. *)
Definition nested_keys (contractAddr accAddr : string) (slot : Z) (others : list string) : list string :=
  dedup_go ∅ (others ≫= fun other =>
    [nestedMappingSlotKey keccak256 contractAddr accAddr other slot; nestedMappingSlotKey keccak256 contractAddr other accAddr slot]).

(** The keys of an access to the variable [item]; [None] is unresolved. *)
Definition item_keys (item : storageItem) (contractAddr : string) (acc : LLMFieldAccess) (args : MainnetTxArgs) (write : bool) :
    outcome (option (list string)) :=
  if String.eqb (f_Account acc) "global" then
    if negb (String.eqb (KeyType item) "simple") then
      tryKeyDeriver contractAddr acc args write ≫= fun r => Ret (default None r)
    else Ret (Some [simpleSlotKey contractAddr (Slot item)])
  else if String.eqb (KeyType item) "simple" then Ret (Some [simpleSlotKey contractAddr (Slot item)])
  else if String.eqb (KeyType item) "mapping" && negb (IsNested item) then
    Ret (match resolveAccountAddr (f_Account acc) args with
         | None => None
         | Some addr => Some [mappingSlotKey keccak256 contractAddr addr (Slot item)]
         end)
  else if String.eqb (KeyType item) "mapping" && IsNested item then
    tryKeyDeriver contractAddr acc args write ≫= fun r =>
    match r with
    | Some keys => Ret keys
    | None =>
      Ret (match resolveAccountAddr (f_Account acc) args with
           | None => None
           | Some accAddr => Some (nested_keys contractAddr accAddr (Slot item) (collectAvailableAddrs args))
           end)
    end
  else Ret None.

Definition abstractAccessToKeys (cache : item_cache) (contractAddr : string) (acc : LLMFieldAccess) (args : MainnetTxArgs) (write : bool) :
    outcome (item_cache * option (list string)) :=
  let '(cache, found) := findStorageItem m cache contractAddr (f_Field acc) in
  match found with
  | None => Ret (cache, None)
  | Some item => item_keys item contractAddr acc args write ≫= fun keys => Ret (cache, keys)
  end.

Fixpoint abstractToKeys (cache : item_cache) (contractAddr : string) (accesses : list LLMFieldAccess) (args : MainnetTxArgs) (write : bool) :
    outcome (item_cache * option (list string)) :=
  match accesses with
  | [] => Ret (cache, Some [])
  | acc :: rest =>
    abstractAccessToKeys cache contractAddr acc args write ≫= fun '(cache, more) =>
    match more with
    | None => Ret (cache, None)
    | Some more =>
      abstractToKeys cache contractAddr rest args write ≫= fun '(cache, keys) =>
      Ret (cache, match keys with None => None | Some keys => Some (more ++ keys) end)
    end
  end.

Abbreviation merged := (item_cache * (rwset_error + list string * list string))%type.

(** One iteration of the loop over cross calls; [merge] is the recursive call. *)
Definition merge_call (merge : item_cache -> list MainnetCrossCall -> outcome merged) (args : MainnetTxArgs)
    (st : merged) (call : MainnetCrossCall) : outcome merged :=
  let '(cache, res) := st in
  match res with
  | inl e => Ret (cache, inl e)
  | inr (extraReads, extraWrites) =>
    match ResolveContractIdentifier m (cc_Contract call) with
    | None => Ret (cache, inl ErrCrossContractNotCached)
    | Some targetAddr =>
      match loadLLMResponse targetAddr (cc_Function call) with
      | None => Ret (cache, inl ErrCrossContractNotCached)
      | Some subResp =>
        abstractToKeys cache targetAddr (Reads subResp) args false ≫= fun '(cache, subReads) =>
        match subReads with
        | None => Ret (cache, inl ErrKeyUnresolvable)
        | Some subReads =>
          abstractToKeys cache targetAddr (Writes subResp) args true ≫= fun '(cache, subWrites) =>
          match subWrites with
          | None => Ret (cache, inl ErrKeyUnresolvable)
          | Some subWrites =>
            if bool_decide (CrossCalls subResp = []) then Ret (cache, inr (extraReads ++ subReads, extraWrites ++ subWrites)) else
            merge cache (CrossCalls subResp) ≫= fun '(cache, nested) =>
            Ret (cache, match nested with
                        | inl e => inl e
                        | inr (nr, nw) => inr (extraReads ++ subReads ++ nr, extraWrites ++ subWrites ++ nw)
                        end)
          end
        end
      end
    end
  end.

(** [budget] is [5 - depth]. *)
Fixpoint mergeCrossCalls (budget : nat) (args : MainnetTxArgs) (cache : item_cache) (calls : list MainnetCrossCall) : outcome merged :=
  match budget with
  | 0 => Ret (cache, inl ErrMaxDepth)
  | S budget => foldM (merge_call (mergeCrossCalls budget args) args) (cache, inr ([], [])) calls
  end.

Definition GetConservativeRWSet (cache : item_cache) (address selector : string) (args : MainnetTxArgs) : outcome merged :=
  match loadLLMResponse address selector with
  | None => Ret (cache, inl ErrNotPreAnalyzed)
  | Some resp =>
    if hasUnresolvableAccount (Reads resp) || hasUnresolvableAccount (Writes resp) then Ret (cache, inl ErrUnresolvableAccount) else
    abstractToKeys cache address (Reads resp) args false ≫= fun '(cache, readKeys) =>
    match readKeys with
    | None => Ret (cache, inl ErrKeyUnresolvable)
    | Some readKeys =>
      abstractToKeys cache address (Writes resp) args true ≫= fun '(cache, writeKeys) =>
      match writeKeys with
      | None => Ret (cache, inl ErrKeyUnresolvable)
      | Some writeKeys =>
        if bool_decide (CrossCalls resp = []) then Ret (cache, inr (dedupKeys readKeys, dedupKeys writeKeys)) else
        mergeCrossCalls 5 args cache (CrossCalls resp) ≫= fun '(cache, extra) =>
        Ret (cache, match extra with
                    | inl e => inl e
                    | inr (er, ew) => inr (dedupKeys (readKeys ++ er), dedupKeys (writeKeys ++ ew))
                    end)
      end
    end
  end.

(** ** Without the cache *)
Definition access_keys (contractAddr : string) (acc : LLMFieldAccess) (args : MainnetTxArgs) (write : bool) : outcome (option (list string)) :=
  match find_item m contractAddr (f_Field acc) with
  | None => Ret None
  | Some item => item_keys item contractAddr acc args write
  end.

Definition accesses_of (write : bool) (resp : MainnetLLMResponse) : list LLMFieldAccess := if write then Writes resp else Reads resp.

(** [called_from calls n t resp]: the analysis [resp] of a function of the
    contract [t] is reached from the cross calls [calls] through [n] others. *)
Inductive called_from : list MainnetCrossCall -> nat -> string -> MainnetLLMResponse -> Prop :=
| called_here calls call t resp :
    call ∈ calls -> ResolveContractIdentifier m (cc_Contract call) = Some t ->
    loadLLMResponse t (cc_Function call) = Some resp -> called_from calls 0 t resp
| called_deep calls call t resp n t' resp' :
    call ∈ calls -> ResolveContractIdentifier m (cc_Contract call) = Some t ->
    loadLLMResponse t (cc_Function call) = Some resp -> called_from (CrossCalls resp) n t' resp' ->
    called_from calls (S n) t' resp'.

(** The functions a transaction to [address] runs, with their call depth. *)
Definition runs (address selector : string) (n : nat) (t : string) (resp : MainnetLLMResponse) : Prop :=
  exists root, loadLLMResponse address selector = Some root /\
    match n with 0 => t = address /\ resp = root | S n => called_from (CrossCalls root) n t resp end.

Definition cache_ok (cache : item_cache) : Prop :=
  forall addr label it, no_colon addr -> cache !! (addr +:+ ":" +:+ label) = Some it -> find_item m addr label = Some it.

(** Every access of the functions in [P] is covered by [ks], and nothing else is. *)
Definition covers (P : nat -> string -> MainnetLLMResponse -> Prop) (args : MainnetTxArgs) (write : bool) (ks : list string) : Prop :=
  (forall n t resp acc, P n t resp -> acc ∈ accesses_of write resp ->
     exists keys, access_keys t acc args write = Ret (Some keys) /\ forall k, k ∈ keys -> k ∈ ks) /\
  (forall k, k ∈ ks -> exists n t resp acc keys, P n t resp /\ acc ∈ accesses_of write resp /\
     access_keys t acc args write = Ret (Some keys) /\ k ∈ keys).
End manager.

(** ** Lemmas *)
Lemma find_label_elem items label it : find_label items label = Some it -> it ∈ items /\ it_Label it = label.
Proof.
  unfold find_label. destruct (filter _ items) as [|x l] eqn:E; [done|]. intros [= <-].
  assert (x ∈ x :: l) as Hx by left. rewrite <- E in Hx. apply list_elem_of_filter in Hx. tauto.
Qed.

Lemma hex_no_colon l : forallb is_hex_char l = true -> ":"%char ∉ l.
Proof.
  intros H Hin. apply list_elem_of_In in Hin. rewrite forallb_forall in H. specialize (H _ Hin). done.
Qed.

Lemma isHexAddress_no_colon s : isHexAddress s = true -> no_colon s.
Proof.
  unfold isHexAddress. rewrite !andb_true_iff, orb_true_iff. intros [[_ Hp] Hh]. apply hex_no_colon in Hh.
  destruct Hp as [Hp|Hp]; apply HasPrefix_spec in Hp; rewrite Hp; apply no_colon_append; (split; [|exact Hh]);
    unfold no_colon; cbn; set_solver.
Qed.

Section calls.
Context (keccak256 : string -> string) (recover : string -> string -> option string).
Context (disk : string -> string -> option MainnetLLMResponse).
Context (m : MainnetContractManager) (args : MainnetTxArgs).

Local Abbreviation akeys := (access_keys keccak256 recover m).
Local Abbreviation calls_of := (called_from disk m).
Local Abbreviation cov := (covers keccak256 recover m).

Lemma called_from_nil n t resp : ~ calls_of [] n t resp.
Proof. inversion 1; by eapply not_elem_of_nil. Qed.

(** What one more call adds: the function it runs and those that one calls. *)
Lemma called_from_snoc calls call t resp n t' resp' :
  ResolveContractIdentifier m (cc_Contract call) = Some t -> loadLLMResponse disk m t (cc_Function call) = Some resp ->
  calls_of (calls ++ [call]) n t' resp' <->
  calls_of calls n t' resp' \/ (n = 0 /\ t' = t /\ resp' = resp) \/ exists n', n = S n' /\ calls_of (CrossCalls resp) n' t' resp'.
Proof.
  intros Ht Hr. split.
  - inversion 1 as [cs c t0 r0 Hin H1 H2|cs c t0 r0 n0 t1 r1 Hin H1 H2 H3]; subst;
      apply elem_of_app in Hin as [Hin|Hin%list_elem_of_singleton].
    + left. by eapply called_here.
    + subst. right. left. split; [done|]. by simplify_eq.
    + left. by eapply called_deep.
    + subst. right. right. eexists. split; [done|]. by simplify_eq.
  - intros [H|[(-> & -> & ->)|(n' & -> & H)]].
    + inversion H; subst; [eapply called_here|eapply called_deep]; try done; set_solver.
    + eapply called_here; [|done..]. set_solver.
    + eapply called_deep; [|done..]. set_solver.
Qed.

Lemma covers_union (P P1 P2 : nat -> string -> MainnetLLMResponse -> Prop) w ks1 ks2 :
  (forall n t resp, P n t resp <-> P1 n t resp \/ exists n', P2 n' t resp /\ n = S n') ->
  cov P1 args w ks1 -> cov P2 args w ks2 -> cov P args w (ks1 ++ ks2).
Proof.
  intros HP [A1 A2] [B1 B2]. split.
  - intros n t resp acc [H|(n' & H & _)]%HP Hacc.
    + destruct (A1 _ _ _ _ H Hacc) as (keys & ? & ?). exists keys. split; [done|set_solver].
    + destruct (B1 _ _ _ _ H Hacc) as (keys & ? & ?). exists keys. split; [done|set_solver].
  - intros k. rewrite elem_of_app. intros [(n & t & resp & acc & keys & H & ?)%A2|(n & t & resp & acc & keys & H & ?)%B2].
    + exists n, t, resp, acc, keys. split; [apply HP; by left|done].
    + exists (S n), t, resp, acc, keys. split; [apply HP; right; eauto|done].
Qed.

Lemma covers_add P t resp w ks ks' :
  cov P args w ks ->
  (forall acc, acc ∈ accesses_of w resp -> exists keys, akeys t acc args w = Ret (Some keys) /\ forall k, k ∈ keys -> k ∈ ks') ->
  (forall k, k ∈ ks' -> exists acc keys, acc ∈ accesses_of w resp /\ akeys t acc args w = Ret (Some keys) /\ k ∈ keys) ->
  cov (fun n t' resp' => P n t' resp' \/ (n = 0 /\ t' = t /\ resp' = resp)) args w (ks ++ ks').
Proof.
  intros [A1 A2] B1 B2. split.
  - intros n t' resp' acc [H|(-> & -> & ->)] Hacc.
    + destruct (A1 _ _ _ _ H Hacc) as (keys & ? & ?). exists keys. split; [done|set_solver].
    + destruct (B1 _ Hacc) as (keys & ? & ?). exists keys. split; [done|set_solver].
  - intros k. rewrite elem_of_app. intros [(n & t' & resp' & acc & keys & H & ?)%A2|(acc & keys & ? & ? & ?)%B2].
    + exists n, t', resp', acc, keys. split; [by left|done].
    + exists 0, t, resp, acc, keys. split; [by right|done].
Qed.

Lemma covers_ext P P' w ks : (forall n t resp, P n t resp <-> P' n t resp) -> cov P args w ks -> cov P' args w ks.
Proof.
  intros HP [A1 A2]. split; [intros n t resp acc H; apply (A1 n t resp acc), HP, H|].
  intros k (n & t & resp & acc & keys & H & ?)%A2. exists n, t, resp, acc, keys. by rewrite <- HP.
Qed.

Lemma covers_nil w : cov (calls_of []) args w [].
Proof. split; [intros n t resp acc H; by apply called_from_nil in H|set_solver]. Qed.
End calls.

Section proofs.
Context (keccak256 : string -> string) (recover : string -> string -> option string).
Context (disk : string -> string -> option MainnetLLMResponse).
Context (m : MainnetContractManager).
Context (Halias : forall id a, aliasToAddr m !! id = Some a -> no_colon a).
Context (args : MainnetTxArgs).
Context (Hderive : forall c acc w, is_Ret (tryKeyDeriver keccak256 recover c acc args w)).

Local Abbreviation cacheok := (cache_ok m).
Local Abbreviation akeys := (access_keys keccak256 recover m).

Lemma resolve_no_colon id t : ResolveContractIdentifier m id = Some t -> no_colon t.
Proof.
  unfold ResolveContractIdentifier. destruct (isHexAddress id) eqn:E; [|apply Halias].
  intros [= <-]. by apply no_colon_ToLower, isHexAddress_no_colon.
Qed.

Lemma findStorageItem_spec cache addr label :
  cacheok cache -> no_colon addr ->
  exists cache', findStorageItem m cache addr label = (cache', find_item m addr label) /\ cacheok cache'.
Proof.
  intros Hc Ha. unfold findStorageItem. destruct (cache !! (addr +:+ ":" +:+ label)) as [it|] eqn:E.
  { exists cache. by rewrite (Hc _ _ _ Ha E). }
  unfold find_item. destruct (layouts m !! addr) as [items|] eqn:El; cbn [mbind option_bind]; [|by exists cache].
  destruct (find_label items label) as [it|] eqn:Ef; [|by exists cache]. eexists. split; [done|].
  intros addr' label' it' Ha'. rewrite lookup_insert_Some. intros [[Heq <-]|[_ H]]; [|by apply Hc].
  apply append_colon_inj in Heq as [-> ->]; [|done..]. unfold find_item. by rewrite El.
Qed.

Lemma item_keys_ret item c acc w : is_Ret (item_keys keccak256 recover item c acc args w).
Proof.
  unfold item_keys. destruct (Hderive c acc w) as [r Hr]. rewrite Hr, !bind_ret.
  destruct (String.eqb (f_Account acc) "global"); [by destruct (negb _); eexists|].
  destruct (String.eqb (KeyType item) "simple"); [by eexists|].
  destruct (_ && negb _); [by eexists|]. destruct (_ && _); [|by eexists]. destruct r; by eexists.
Qed.

Lemma abstractAccessToKeys_spec cache addr acc w :
  cacheok cache -> no_colon addr ->
  exists cache' r, abstractAccessToKeys keccak256 recover m cache addr acc args w = Ret (cache', r) /\
    akeys addr acc args w = Ret r /\ cacheok cache'.
Proof.
  intros Hc Ha. unfold abstractAccessToKeys, access_keys.
  destruct (findStorageItem_spec cache addr (f_Field acc) Hc Ha) as (cache' & -> & Hc').
  destruct (find_item m addr (f_Field acc)) as [item|]; [|by eexists _, _].
  destruct (item_keys_ret item addr acc w) as [r Hr]. rewrite Hr, bind_ret. by eexists _, _.
Qed.

(** The accesses of one function: all resolved, or the whole call is not. *)
Lemma abstractToKeys_spec w accs : forall cache addr,
  cacheok cache -> no_colon addr ->
  exists cache' r, abstractToKeys keccak256 recover m cache addr accs args w = Ret (cache', r) /\ cacheok cache' /\
    match r with
    | None => exists acc, acc ∈ accs /\ akeys addr acc args w = Ret None
    | Some ks =>
      (forall acc, acc ∈ accs -> exists keys, akeys addr acc args w = Ret (Some keys) /\ forall k, k ∈ keys -> k ∈ ks) /\
      (forall k, k ∈ ks -> exists acc keys, acc ∈ accs /\ akeys addr acc args w = Ret (Some keys) /\ k ∈ keys)
    end.
Proof.
  induction accs as [|acc accs IH]; intros cache addr Hc Ha; cbn [abstractToKeys].
  { eexists _, _. split; [done|]. split; [done|]. split; set_solver. }
  destruct (abstractAccessToKeys_spec cache addr acc w Hc Ha) as (c1 & r & -> & Hr & Hc1). rewrite bind_ret.
  destruct r as [more|].
  2:{ eexists _, _. split; [done|]. split; [done|]. exists acc. split; [left|done]. }
  destruct (IH c1 addr Hc1 Ha) as (c2 & r2 & -> & Hc2 & Hr2). rewrite bind_ret. eexists _, _. split; [done|]. split; [done|].
  destruct r2 as [ks|].
  - destruct Hr2 as [H1 H2]. split.
    + intros acc' [->|Hin]%elem_of_cons; [exists more; split; [done|set_solver]|].
      destruct (H1 acc' Hin) as (keys & ? & ?). exists keys. split; [done|set_solver].
    + intros k. rewrite elem_of_app. intros [Hk|Hk]; [exists acc, more; set_solver|].
      destruct (H2 k Hk) as (acc' & keys & ? & ? & ?). exists acc', keys. set_solver.
  - destruct Hr2 as (acc' & Hin & Hn). exists acc'. split; [by right|done].
Qed.

Local Abbreviation calls_of := (called_from disk m).
Local Abbreviation cov := (covers keccak256 recover m).

(** The keys found for a list of cross calls, all within the call budget. *)
Definition merged_ok (budget : nat) (calls : list MainnetCrossCall) (r : rwset_error + list string * list string) : Prop :=
  match r with
  | inl _ => True
  | inr (rs, ws) => (forall n t resp, calls_of calls n t resp -> n < budget) /\
      cov (calls_of calls) args false rs /\ cov (calls_of calls) args true ws
  end.

Lemma merge_call_spec b pre call cache r :
  (forall cache calls, cacheok cache -> exists cache' r, mergeCrossCalls keccak256 recover disk m b args cache calls = Ret (cache', r) /\
     cacheok cache' /\ merged_ok b calls r) ->
  cacheok cache -> merged_ok (S b) pre r ->
  exists cache' r', merge_call keccak256 recover disk m (mergeCrossCalls keccak256 recover disk m b args) args (cache, r) call = Ret (cache', r') /\
    cacheok cache' /\ merged_ok (S b) (pre ++ [call]) r'.
Proof.
  intros IH Hc Hr. unfold merge_call. destruct r as [e|[rs ws]]; [by eexists _, _|].
  destruct (ResolveContractIdentifier m (cc_Contract call)) as [t|] eqn:Et; [|by eexists _, _].
  destruct (loadLLMResponse disk m t (cc_Function call)) as [resp|] eqn:Er; [|by eexists _, _].
  pose proof (resolve_no_colon _ _ Et) as Ht.
  destruct (abstractToKeys_spec false (Reads resp) cache t Hc Ht) as (c1 & r1 & -> & Hc1 & Hr1). rewrite bind_ret.
  destruct r1 as [subR|]; [|by eexists _, _].
  destruct (abstractToKeys_spec true (Writes resp) c1 t Hc1 Ht) as (c2 & r2 & -> & Hc2 & Hr2). rewrite bind_ret.
  destruct r2 as [subW|]; [|by eexists _, _].
  destruct Hr as (Hb & HR & HW). destruct Hr1 as [R1 R2], Hr2 as [W1 W2].
  pose proof (fun n t' resp' => called_from_snoc keccak256 recover disk m pre call t resp n t' resp' Et Er) as Hsnoc.
  pose proof (covers_add keccak256 recover disk m args _ t resp false _ _ HR R1 R2) as CR. pose proof (covers_add keccak256 recover disk m args _ t resp true _ _ HW W1 W2) as CW.
  case_bool_decide as Ecc.
  - eexists _, _. split; [done|]. split; [done|]. rewrite Ecc in Hsnoc. split; [|split].
    + intros n t' resp' [?%Hb|[(-> & _)|(n' & -> & H)]]%Hsnoc; [lia|lia|by apply called_from_nil in H].
    + eapply covers_ext; [|exact CR]. intros n t' resp'. rewrite Hsnoc. cbn. split; [tauto|].
      intros [?|[?|(n' & -> & H)]]; [by left|by right|by apply called_from_nil in H].
    + eapply covers_ext; [|exact CW]. intros n t' resp'. rewrite Hsnoc. cbn. split; [tauto|].
      intros [?|[?|(n' & -> & H)]]; [by left|by right|by apply called_from_nil in H].
  - destruct (IH c2 (CrossCalls resp) Hc2) as (c3 & r3 & -> & Hc3 & Hr3). rewrite bind_ret. eexists _, _. split; [done|]. split; [done|].
    destruct r3 as [e|[nr nw]]; [done|]. destruct Hr3 as (Hb3 & NR & NW). split; [|split].
    + intros n t' resp' [?%Hb|[(-> & _)|(n' & -> & H%Hb3)]]%Hsnoc; lia.
    + rewrite app_assoc. eapply (covers_union keccak256 recover disk m args); [|exact CR|exact NR]. intros n t' resp'. rewrite Hsnoc. naive_solver.
    + rewrite app_assoc. eapply (covers_union keccak256 recover disk m args); [|exact CW|exact NW]. intros n t' resp'. rewrite Hsnoc. naive_solver.
Qed.

Lemma mergeCrossCalls_spec b : forall cache calls,
  cacheok cache -> exists cache' r, mergeCrossCalls keccak256 recover disk m b args cache calls = Ret (cache', r) /\
    cacheok cache' /\ merged_ok b calls r.
Proof.
  induction b as [|b IH]; intros cache calls Hc; cbn [mergeCrossCalls]; [by eexists _, _|].
  destruct (foldM_inv (merge_call keccak256 recover disk m (mergeCrossCalls keccak256 recover disk m b args) args)
    (fun pre st => cacheok st.1 /\ merged_ok (S b) pre st.2) calls (cache, inr ([], []))) as ([c r] & Hf & Hc' & Hr).
  - split; [done|]. split; [intros n t resp H; by apply called_from_nil in H|]. split; apply covers_nil.
  - intros pre call post [c r] _ [Hc1 Hr1]. destruct (merge_call_spec b pre call c r IH Hc1 Hr1) as (c' & r' & Hf & Hc' & Hr').
    exists (c', r'). by rewrite Hf.
  - exists c, r. by rewrite Hf.
Qed.

(** *** The answers do not depend on the cache *)
Definition same_answer {R} (o1 o2 : outcome (item_cache * R)) : Prop :=
  exists c1 c2 r, o1 = Ret (c1, r) /\ o2 = Ret (c2, r) /\ cacheok c1 /\ cacheok c2.

Lemma same_ret {R} c1 c2 (r : R) : cacheok c1 -> cacheok c2 -> same_answer (Ret (c1, r)) (Ret (c2, r)).
Proof. intros H1 H2. by exists c1, c2, r. Qed.

Lemma same_bind {R S} (o1 o2 : outcome (item_cache * R)) (f : item_cache * R -> outcome (item_cache * S)) :
  same_answer o1 o2 -> (forall c1 c2 r, cacheok c1 -> cacheok c2 -> same_answer (f (c1, r)) (f (c2, r))) -> same_answer (o1 ≫= f) (o2 ≫= f).
Proof. intros (c1 & c2 & r & -> & -> & H1 & H2) Hf. rewrite !bind_ret. by apply Hf. Qed.

Lemma same_foldM {R X} (f : item_cache * R -> X -> outcome (item_cache * R)) l :
  (forall c1 c2 r x, cacheok c1 -> cacheok c2 -> same_answer (f (c1, r) x) (f (c2, r) x)) ->
  forall c1 c2 r, cacheok c1 -> cacheok c2 -> same_answer (foldM f (c1, r) l) (foldM f (c2, r) l).
Proof.
  intros Hf. induction l as [|x l IH]; intros c1 c2 r H1 H2; [by apply same_ret|].
  cbn [foldM]. apply same_bind; [by apply Hf|]. intros d1 d2 r' K1 K2. by apply IH.
Qed.

Lemma abstractToKeys_same w accs addr : no_colon addr -> forall c1 c2, cacheok c1 -> cacheok c2 ->
  same_answer (abstractToKeys keccak256 recover m c1 addr accs args w) (abstractToKeys keccak256 recover m c2 addr accs args w).
Proof.
  intros Ha. induction accs as [|acc accs IH]; intros c1 c2 H1 H2; cbn [abstractToKeys]; [by apply same_ret|].
  apply same_bind.
  - destruct (abstractAccessToKeys_spec c1 addr acc w H1 Ha) as (d1 & r1 & E1 & A1 & K1).
    destruct (abstractAccessToKeys_spec c2 addr acc w H2 Ha) as (d2 & r2 & E2 & A2 & K2). rewrite A1 in A2. injection A2 as <-. by exists d1, d2, r1.
  - intros d1 d2 [more|] K1 K2; [|by apply same_ret]. apply same_bind; [by apply IH|]. intros e1 e2 r ??. by apply same_ret.
Qed.

Lemma mergeCrossCalls_same b : forall calls c1 c2, cacheok c1 -> cacheok c2 ->
  same_answer (mergeCrossCalls keccak256 recover disk m b args c1 calls) (mergeCrossCalls keccak256 recover disk m b args c2 calls).
Proof.
  induction b as [|b IH]; intros calls c1 c2 H1 H2; cbn [mergeCrossCalls]; [by apply same_ret|].
  apply same_foldM; [|done..]. clear c1 c2 H1 H2. intros c1 c2 r call H1 H2. unfold merge_call. destruct r as [e|[rs ws]]; [by apply same_ret|].
  destruct (ResolveContractIdentifier m (cc_Contract call)) as [t|] eqn:Et; [|by apply same_ret]. apply resolve_no_colon in Et.
  destruct (loadLLMResponse disk m t (cc_Function call)) as [resp|]; [|by apply same_ret].
  apply same_bind; [by apply abstractToKeys_same|]. intros d1 d2 [subR|] ??; [|by apply same_ret].
  apply same_bind; [by apply abstractToKeys_same|]. intros e1 e2 [subW|] ??; [|by apply same_ret].
  case_bool_decide; [by apply same_ret|]. apply same_bind; [by apply IH|]. intros g1 g2 r ??. by apply same_ret.
Qed.

Lemma GetConservativeRWSet_same address selector c1 c2 : no_colon address -> cacheok c1 -> cacheok c2 ->
  same_answer (GetConservativeRWSet keccak256 recover disk m c1 address selector args) (GetConservativeRWSet keccak256 recover disk m c2 address selector args).
Proof.
  intros Ha H1 H2. unfold GetConservativeRWSet. destruct (loadLLMResponse disk m address selector) as [resp|]; [|by apply same_ret].
  destruct (_ || _); [by apply same_ret|].
  apply same_bind; [by apply abstractToKeys_same|]. intros d1 d2 [rs|] ??; [|by apply same_ret].
  apply same_bind; [by apply abstractToKeys_same|]. intros e1 e2 [ws|] ??; [|by apply same_ret].
  case_bool_decide; [by apply same_ret|]. apply same_bind; [by apply mergeCrossCalls_same|]. intros g1 g2 r ??. by apply same_ret.
Qed.
End proofs.

(** ** Properties *)
Lemma dedup_covers keccak256 recover m P args w ks :
  covers keccak256 recover m P args w ks -> covers keccak256 recover m P args w (dedupKeys ks) /\ NoDup (dedupKeys ks).
Proof.
  intros [A1 A2]. unfold dedupKeys. split; [|apply NoDup_dedup_go]. split.
  - intros n t resp acc H Hacc. destruct (A1 _ _ _ _ H Hacc) as (keys & ? & ?). exists keys. split; [done|].
    intros k Hk. apply elem_of_dedup_go. set_solver.
  - intros k [Hk _]%elem_of_dedup_go. by apply A2.
Qed.

Lemma runs_covers keccak256 recover disk m args address selector root w ks ks' :
  loadLLMResponse disk m address selector = Some root ->
  (forall acc, acc ∈ accesses_of w root -> exists keys, access_keys keccak256 recover m address acc args w = Ret (Some keys) /\ forall k, k ∈ keys -> k ∈ ks) ->
  (forall k, k ∈ ks -> exists acc keys, acc ∈ accesses_of w root /\ access_keys keccak256 recover m address acc args w = Ret (Some keys) /\ k ∈ keys) ->
  covers keccak256 recover m (called_from disk m (CrossCalls root)) args w ks' ->
  covers keccak256 recover m (runs disk m address selector) args w (ks ++ ks').
Proof.
  intros Hroot H1 H2 Hc.
  apply (covers_union keccak256 recover disk m args _ (fun n t resp => n = 0 /\ t = address /\ resp = root) (called_from disk m (CrossCalls root))).
  - intros [|n] t resp; unfold runs; rewrite Hroot; split.
    + intros (r & [= <-] & -> & ->). by left.
    + intros [(_ & -> & ->)|(n' & _ & ?)]; [by exists root|done].
    + intros (r & [= <-] & H). right. eauto.
    + intros [(? & _)|(n' & H & [= <-])]; [done|]. by exists root.
  - split; [intros n t resp acc (-> & -> & ->); apply H1|]. intros k (acc & keys & ? & ? & ?)%H2. by exists 0, address, root, acc, keys.
  - done.
Qed.

Lemma GetConservativeRWSet_spec keccak256 recover disk m args cache address selector :
  (forall id a, aliasToAddr m !! id = Some a -> no_colon a) ->
  (forall c acc w, is_Ret (tryKeyDeriver keccak256 recover c acc args w)) ->
  cache_ok m cache -> no_colon address ->
  exists cache' r, GetConservativeRWSet keccak256 recover disk m cache address selector args = Ret (cache', r) /\ cache_ok m cache' /\
    match r with
    | inl _ => True
    | inr (rs, ws) =>
      NoDup rs /\ NoDup ws /\ covers keccak256 recover m (runs disk m address selector) args false rs /\
      covers keccak256 recover m (runs disk m address selector) args true ws /\
      (forall n t resp, runs disk m address selector n t resp -> n <= 5)
    end.
Proof.
  intros Halias Hder Hc Ha. unfold GetConservativeRWSet.
  destruct (loadLLMResponse disk m address selector) as [root|] eqn:Hroot; [|by eexists _, _].
  destruct (_ || _); [by eexists _, _|].
  destruct (abstractToKeys_spec keccak256 recover disk m Halias args Hder false (Reads root) cache address Hc Ha) as (c1 & r1 & -> & Hc1 & Hr1).
  rewrite bind_ret. destruct r1 as [rs|]; [|by eexists _, _].
  destruct (abstractToKeys_spec keccak256 recover disk m Halias args Hder true (Writes root) c1 address Hc1 Ha) as (c2 & r2 & -> & Hc2 & Hr2).
  rewrite bind_ret. destruct r2 as [ws|]; [|by eexists _, _]. destruct Hr1 as [R1 R2], Hr2 as [W1 W2].
  destruct (mergeCrossCalls_spec keccak256 recover disk m Halias args Hder 5 c2 (CrossCalls root) Hc2) as (c3 & r3 & E3 & Hc3 & Hr3).
  case_bool_decide as Ecc.
  - pose proof (covers_nil keccak256 recover disk m args) as Hn. rewrite <- Ecc in Hn.
    destruct (dedup_covers _ _ _ _ _ _ _ (runs_covers _ _ _ _ _ _ _ _ false rs [] Hroot R1 R2 (Hn false))) as [CR NR].
    destruct (dedup_covers _ _ _ _ _ _ _ (runs_covers _ _ _ _ _ _ _ _ true ws [] Hroot W1 W2 (Hn true))) as [CW NW].
    rewrite !app_nil_r in CR, NR, CW, NW. eexists _, _. split; [done|]. split; [done|]. split_and!; try done.
    intros [|n] t resp (r & Hr & H); [lia|]. rewrite Hroot in Hr. injection Hr as <-. rewrite Ecc in H. by apply called_from_nil in H.
  - rewrite E3, bind_ret. eexists _, _. split; [done|]. split; [done|]. destruct r3 as [e|[er ew]]; [done|]. destruct Hr3 as (Hb & HR & HW).
    destruct (dedup_covers _ _ _ _ _ _ _ (runs_covers _ _ _ _ _ _ _ _ false rs er Hroot R1 R2 HR)) as [CR NR].
    destruct (dedup_covers _ _ _ _ _ _ _ (runs_covers _ _ _ _ _ _ _ _ true ws ew Hroot W1 W2 HW)) as [CW NW].
    split_and!; try done. intros [|n] t resp (r & Hr & H); [lia|]. rewrite Hroot in Hr. injection Hr as <-. apply Hb in H. lia.
Qed.

(** No key is dropped: when the derivers do not fault, the manager
    returns, and if it returns key sets they are duplicate-free and hold
    exactly the keys of the accesses of the called function and of every
    function reached from it through cross calls, of which none is more than
    five calls deep; one access that cannot be resolved makes it return an
    error instead.  The lookup cache stays consistent with the layouts. *)
Theorem GetConservativeRWSet_complete keccak256 recover disk m args cache address selector :
  (forall id a, aliasToAddr m !! id = Some a -> no_colon a) ->
  (forall c acc w, is_Ret (tryKeyDeriver keccak256 recover c acc args w)) ->
  cache_ok m cache -> no_colon address ->
  exists cache' r, GetConservativeRWSet keccak256 recover disk m cache address selector args = Ret (cache', r) /\ cache_ok m cache' /\
    match r with
    | inl _ => True
    | inr (rs, ws) =>
      NoDup rs /\ NoDup ws /\ covers keccak256 recover m (runs disk m address selector) args false rs /\
      covers keccak256 recover m (runs disk m address selector) args true ws /\
      (forall n t resp, runs disk m address selector n t resp -> n <= 5)
    end.
Proof. apply GetConservativeRWSet_spec. Qed.

(** Calldata too short for either deriver never makes one fault. *)
Lemma short_calldata_ok keccak256 recover args c acc w :
  len (RawCalldata args) < 68 -> is_Ret (tryKeyDeriver keccak256 recover c acc args w).
Proof.
  intros Hl. unfold tryKeyDeriver. destruct (derivedKeyDerivers keccak256 recover !! _) as [d|] eqn:E; [|by eexists].
  assert (exists r, d c acc args = Ret r) as [r ->]; [|by eexists].
  unfold derivedKeyDerivers in E. rewrite lookup_insert_Some, lookup_singleton_Some in E. destruct E as [[_ <-]|[_ [_ <-]]].
  - unfold deriveReceiveMessageKeys. destruct (_ || _); [by eexists|]. rewrite (proj2 (Nat.ltb_lt _ _)) by lia. by eexists.
  - unfold deriveCoinToolTKeys. destruct (negb _); [by eexists|]. destruct (resolveAccountAddr _ _); [|by eexists].
    rewrite (proj2 (Nat.ltb_lt _ _)) by lia. by eexists.
Qed.

(** A token whose [transfer] touches two balances and calls a registry. *)
Definition demo_manager : MainnetContractManager :=
  mkManager (<[ "0xaa" := [mkItem "balances" 1 "mapping" false "t_mapping" false; mkItem "paused" 2 "simple" false "t_bool" false] ]>
             {[ "0xbb" := [mkItem "count" 7 "simple" false "t_uint256" false] ]}) ∅ {[ "Registry" := "0xbb" ]}
    (<[ "0xaa:0x01" := mkResponse [mkAccess "msg.sender" "balances"; mkAccess "global" "paused"] [mkAccess "msg.sender" "balances"]
                         [mkCrossCall "Registry" "0x02"] ]>
     {[ "0xbb:0x02" := mkResponse [mkAccess "global" "count"] [mkAccess "global" "count"] [] ]}).
Definition demo_call : MainnetTxArgs := mkArgs EmptyString EmptyString "0xcc" "0x01" EmptyString.

Definition token_run : outcome (item_cache * (rwset_error + list string * list string)) :=
  GetConservativeRWSet (fun s => s) (fun _ _ => None) (fun _ _ => None) demo_manager ∅ "0xaa" "0x01" demo_call.

Lemma GetConservativeRWSet_complete_witness :
  exists cache rs ws, token_run = Ret (cache, inr (rs, ws)) /\ NoDup rs /\ simpleSlotKey "0xbb" 7 ∈ ws.
Proof.
  destruct (GetConservativeRWSet_complete (fun s => s) (fun _ _ => None) (fun _ _ => None) demo_manager demo_call ∅ "0xaa" "0x01")
    as (cache & r & H & _ & Hr).
  - intros id a. cbn. rewrite lookup_singleton_Some. intros [_ <-]. unfold no_colon. cbn. set_solver.
  - intros c acc w. apply short_calldata_ok. cbn. lia.
  - intros addr label it _ E. by rewrite lookup_empty in E.
  - unfold no_colon. cbn. set_solver.
  - assert (match token_run with Ret (_, inr (_, ws)) => bool_decide (simpleSlotKey "0xbb" 7 ∈ ws) | _ => false end = true) as Hk
      by (vm_compute; reflexivity).
    unfold token_run in *. rewrite H in Hk |- *. destruct r as [e|[rs ws]]; [done|]. apply bool_decide_eq_true in Hk.
    exists cache, rs, ws. destruct Hr as [Hnd _]. by split.
Defined.

(** An access to a nested mapping is covered in both orientations: if no
    deriver is registered and the account resolves to [x], the keys include
    those of [field[x][y]] and [field[y][x]] for every address [y] of the
    transaction. *)
Theorem nested_access_covered keccak256 recover m args c acc w item x y :
  find_item m c (f_Field acc) = Some item -> KeyType item = "mapping" -> IsNested item = true ->
  tryKeyDeriver keccak256 recover c acc args w = Ret None ->
  resolveAccountAddr (f_Account acc) args = Some x -> y ∈ collectAvailableAddrs args ->
  exists keys, access_keys keccak256 recover m c acc args w = Ret (Some keys) /\
    nestedMappingSlotKey keccak256 c x y (Slot item) ∈ keys /\ nestedMappingSlotKey keccak256 c y x (Slot item) ∈ keys.
Proof.
  intros Hf Hk Hn Hd Hx Hy. unfold access_keys, item_keys. rewrite Hf, Hk, Hn, Hd, Hx.
  assert (f_Account acc <> "global") as Hg by (intros E; by rewrite E in Hx).
  destruct (String.eqb_spec (f_Account acc) "global") as [?|_]; [done|]. eexists. split; [reflexivity|].
  unfold nested_keys. split; apply elem_of_dedup_go; (split; [|set_solver]); apply list_elem_of_bind; exists y; (split; [set_solver|done]).
Qed.

Definition allowance_manager : MainnetContractManager :=
  mkManager {[ "0xaa" := [mkItem "allowed" 3 "mapping" true "t_mapping" false] ]} ∅ ∅ ∅.

Lemma nested_access_covered_witness :
  exists keys, access_keys (fun s => s) (fun _ _ => None) allowance_manager "0xaa" (mkAccess "addr1" "allowed")
      (mkArgs "0x11" EmptyString "0xcc" "0x01" EmptyString) false = Ret (Some keys) /\
    nestedMappingSlotKey (fun s => s) "0xaa" "0x11" "0xcc" 3 ∈ keys /\ nestedMappingSlotKey (fun s => s) "0xaa" "0xcc" "0x11" 3 ∈ keys.
Proof.
  apply (nested_access_covered (fun s => s) (fun _ _ => None) allowance_manager (mkArgs "0x11" EmptyString "0xcc" "0x01" EmptyString)
    "0xaa" (mkAccess "addr1" "allowed") false (mkItem "allowed" 3 "mapping" true "t_mapping" false) "0x11" "0xcc");
    try reflexivity. apply (bool_decide_unpack _). vm_compute. exact I.
Defined.
