(* ===== verification/WitnessExport.v ===== *)
(** * Block witnesses: [cmd/eth-dataset-exporter/exporter/witness.go], [trace.go]

    From the prestate traces of the transactions of a block the exporter builds
    the witness (the state before the block, as far as the block touches it)
    and the read and write keys of every transaction.

    A Go map of pointers is a [gmap] of [option]s ([None] is a nil pointer);
    the order in which [range] visits it is the argument [rng].  A set of keys
    ([map[string]bool]) is a [gset]. *)
From stdpp Require Import base list gmap strings sorting.
From Stdlib Require Import ZArith Lia.
From S2P Require Import Prelude RWSet GoText.

Set Default Goal Selector "!".
Local Open Scope string_scope.
Local Open Scope list_scope.

(** ** Data *)
Record PrestateAccount := mkPrestate {
  Balance : string; Nonce : string; Code : string; Storage : gmap string string; CodeHash : string }.

Abbreviation accounts := (gmap string (option PrestateAccount)).

Record PrestateTracerResult := mkTrace { Accounts : accounts; DiffMode : bool; Added : accounts; Removed : accounts }.

Record WitnessAccount := mkWitnessAccount {
  w_Balance : string; w_Nonce : string; w_CodeHash : string; w_Code : string; w_Storage : gmap string string }.

Abbreviation BlockWitness := (gmap string WitnessAccount).

Record TxRWSets := mkTxRWSets { TxHash : string; TxIndex : nat; ReadKeys : list string; WriteKeys : list string }.

Record Receipt := mkReceipt { r_TxHash : string; r_Status : Z; r_GasUsed : Z; r_Logs : nat }.
Record CanonicalReceipt := mkCanonical { c_TxHash : string; c_TxIndex : nat; c_Status : Z; c_GasUsed : Z; c_LogsCount : nat }.

(** ** Accounts of a trace *)
Definition GetAccounts (r : PrestateTracerResult) : accounts :=
  if DiffMode r then Removed r ∪ (Added r ∪ Accounts r) else Accounts r.

(** The entry a range over [accounts] visits: nil pointers are skipped. *)
Definition account_at (accts : accounts) (addr : string) : option PrestateAccount := mjoin (accts !! addr).

Definition new_witness_account (acct : PrestateAccount) : WitnessAccount :=
  mkWitnessAccount (Balance acct) (Nonce acct) (CodeHash acct) (Code acct) (Storage acct).

(** Slots already present keep their value. *)
Definition add_slots (existing : WitnessAccount) (acct : PrestateAccount) : WitnessAccount :=
  mkWitnessAccount (w_Balance existing) (w_Nonce existing) (w_CodeHash existing) (w_Code existing)
    (w_Storage existing ∪ Storage acct).

Definition record_account (witness : BlockWitness) (addr : string) (acct : PrestateAccount) : BlockWitness :=
  match witness !! addr with
  | None => <[addr := new_witness_account acct]> witness
  | Some existing => <[addr := add_slots existing acct]> witness
  end.

Definition key_if (b : bool) (k : string) : gset string := if b then {[ k ]} else ∅.
Definition slot_keys (addr : string) (m : gmap string string) : gset string := set_map (SlotKey addr) (dom m).

Definition read_keys_of (addr : string) (acct : PrestateAccount) : gset string :=
  slot_keys addr (Storage acct) ∪
  key_if (bool_decide (Balance acct <> EmptyString) && bool_decide (Balance acct <> "0x0")) (AcctKey addr "balance") ∪
  key_if (bool_decide (Nonce acct <> EmptyString)) (AcctKey addr "nonce") ∪
  key_if (bool_decide (CodeHash acct <> EmptyString) && bool_decide (CodeHash acct <> "0x0")) (AcctKey addr "code").

Definition processPrestate (rng : gset string -> list string) (st : BlockWitness * gset string) (accts : accounts) :
    BlockWitness * gset string :=
  foldl (fun '(witness, readKeys) addr =>
    match account_at accts addr with
    | None => (witness, readKeys)
    | Some acct => (record_account witness addr acct, readKeys ∪ read_keys_of addr acct)
    end) st (rng (dom accts)).

(** The older passes over a diff-mode trace. *)
Definition processDiffAccounts (rng : gset string -> list string) (st : BlockWitness * gset string * gset string) (accts : accounts) :
    BlockWitness * gset string * gset string :=
  foldl (fun '(witness, readKeys, writeKeys) addr =>
    match account_at accts addr with
    | None => (witness, readKeys, writeKeys)
    | Some acct =>
      (record_account witness addr acct, readKeys ∪ read_keys_of addr acct,
       writeKeys ∪ slot_keys addr (Storage acct) ∪
         key_if (bool_decide (Balance acct <> EmptyString) && bool_decide (Balance acct <> "0x0")) (AcctKey addr "balance") ∪
         key_if (bool_decide (Nonce acct <> EmptyString)) (AcctKey addr "nonce"))
    end) st (rng (dom accts)).

Definition processDiffAdded (rng : gset string -> list string) (st : BlockWitness * gset string) (added : accounts) :
    BlockWitness * gset string :=
  foldl (fun '(witness, writeKeys) addr =>
    match account_at added addr with
    | None => (witness, writeKeys)
    | Some acct =>
      (record_account witness addr acct,
       writeKeys ∪ slot_keys addr (Storage acct) ∪
         key_if (bool_decide (Balance acct <> EmptyString)) (AcctKey addr "balance") ∪
         key_if (bool_decide (Nonce acct <> EmptyString)) (AcctKey addr "nonce"))
    end) st (rng (dom added)).

Definition removed_keys (addr : string) : gset string :=
  {[ AcctKey addr "balance"; AcctKey addr "nonce"; AcctKey addr "code" ]}.

Definition processDiffRemoved (rng : gset string -> list string) (removed : accounts) (writeKeys : gset string) : gset string :=
  foldl (fun writeKeys addr => writeKeys ∪ removed_keys addr) writeKeys (rng (dom removed)).

(** ** Write keys *)
Definition written_keys (pre : accounts) (addr : string) (postAcct : PrestateAccount) : gset string :=
  match account_at pre addr with
  | None =>
    {[ AcctKey addr "balance"; AcctKey addr "nonce" ]} ∪
    key_if (bool_decide (Code postAcct <> EmptyString) && bool_decide (Code postAcct <> "0x")) (AcctKey addr "code") ∪
    slot_keys addr (Storage postAcct)
  | Some preAcct =>
    key_if (bool_decide (Balance preAcct <> Balance postAcct)) (AcctKey addr "balance") ∪
    key_if (bool_decide (Nonce preAcct <> Nonce postAcct)) (AcctKey addr "nonce") ∪
    key_if (bool_decide (CodeHash preAcct <> CodeHash postAcct)) (AcctKey addr "code") ∪
    slot_keys addr (filter (fun sv => Storage preAcct !! sv.1 <> Some sv.2) (Storage postAcct))
  end.

Definition computeWriteKeys (rng : gset string -> list string) (pre post : accounts) : gset string :=
  let writeKeys := foldl (fun ks addr => match account_at post addr with
                                         | None => ks
                                         | Some postAcct => ks ∪ written_keys pre addr postAcct
                                         end) ∅ (rng (dom post)) in
  foldl (fun ks addr => if bool_decide (addr ∈ dom post) then ks else ks ∪ removed_keys addr) writeKeys (rng (dom pre)).

Definition sortedKeys (m : gset string) : list string := sort_strings (elements m).

(** ** BuildBlockWitness *)
Definition canonical_receipts (receipts : list (option Receipt)) : list CanonicalReceipt :=
  omap id (imap (fun i r => match r with
                            | None => None
                            | Some r => Some (mkCanonical (r_TxHash r) i (r_Status r) (r_GasUsed r) (r_Logs r))
                            end) receipts).

(** [txs] are the hashes of the transactions of the block, [None] for nil. *)
Definition tx_hash (txs : list (option string)) (i : nat) : string := default EmptyString (mjoin (txs !! i)).

Definition witness_tx (rng : gset string -> list string) (txs : list (option string))
    (diffTraces : list (option PrestateTracerResult)) (st : BlockWitness * list TxRWSets)
    (it : nat * option PrestateTracerResult) : BlockWitness * list TxRWSets :=
  let '(witness, txRWSets) := st in
  let '(txIndex, trace) := it in
  let txHash := tx_hash txs txIndex in
  match trace with
  | None => (witness, txRWSets ++ [mkTxRWSets txHash txIndex [] []])
  | Some trace =>
    let '(witness, readKeys) := processPrestate rng (witness, ∅) (Accounts trace) in
    let writeKeys := match mjoin (diffTraces !! txIndex) with
                     | Some d => computeWriteKeys rng (Accounts d) (Added d)
                     | None => ∅
                     end in
    (witness, txRWSets ++ [mkTxRWSets txHash txIndex (sortedKeys readKeys) (sortedKeys writeKeys)])
  end.

Definition BuildBlockWitness (rng : gset string -> list string) (txs : list (option string))
    (traces diffTraces : list (option PrestateTracerResult)) (receipts : list (option Receipt)) :
    BlockWitness * list TxRWSets * list CanonicalReceipt :=
  let '(witness, txRWSets) := foldl (witness_tx rng txs diffTraces) (∅, []) (imap pair traces) in
  (witness, txRWSets, canonical_receipts receipts).

(** ** Validation: [None] is the nil error, otherwise the offending key *)
Definition ValidateWitness (witness : option BlockWitness) : bool :=
  match witness with None => false | Some w => negb (bool_decide (size w = 0)) end.

Definition bad_key (k : string) : bool := match ParseKey k with None => true | Some _ => false end.

Fixpoint ValidateRWSets_from (i : nat) (rwsets : list TxRWSets) : option (nat * string) :=
  match rwsets with
  | [] => None
  | rw :: rest =>
    match filter (fun k => bad_key k = true) (ReadKeys rw ++ WriteKeys rw) with
    | k :: _ => Some (i, k)
    | [] => ValidateRWSets_from (S i) rest
    end
  end.
Definition ValidateRWSets (rwsets : list TxRWSets) : option (nat * string) := ValidateRWSets_from 0 rwsets.

(** ** CodeStore *)
Abbreviation CodeStore := (gset string).
Definition NewCodeStore : CodeStore := ∅.
Definition CodeStore_Add (cs : CodeStore) (codeHash : string) : CodeStore * bool :=
  if bool_decide (codeHash ∈ cs) then (cs, false) else ({[ codeHash ]} ∪ cs, true).
Definition CodeStore_Count (cs : CodeStore) : nat := size cs.

(** ** Lemmas *)
Definition touch (w : option WitnessAccount) (acct : option PrestateAccount) : option WitnessAccount :=
  match acct with
  | None => w
  | Some acct => Some (from_option (fun existing => add_slots existing acct) (new_witness_account acct) w)
  end.

Lemma record_account_lookup w addr acct a :
  record_account w addr acct !! a = if decide (a = addr) then touch (w !! addr) (Some acct) else w !! a.
Proof.
  unfold record_account, touch. destruct (w !! addr) as [e|] eqn:E; destruct (decide (a = addr)) as [->|Hne];
    by rewrite ?lookup_insert_eq, ?lookup_insert_ne.
Qed.

Lemma prestate_fold accts l : forall w reads,
  NoDup l ->
  let r := foldl (fun '(witness, readKeys) addr =>
    match account_at accts addr with
    | None => (witness, readKeys)
    | Some acct => (record_account witness addr acct, readKeys ∪ read_keys_of addr acct)
    end) (w, reads) l in
  (forall a, r.1 !! a = if decide (a ∈ l) then touch (w !! a) (account_at accts a) else w !! a) /\
  (forall k, k ∈ r.2 <-> k ∈ reads \/ exists a acct, a ∈ l /\ account_at accts a = Some acct /\ k ∈ read_keys_of a acct).
Proof.
  induction l as [|addr l IH]; intros w reads Hnd; cbn [foldl].
  - split; [intros a; by rewrite decide_False by apply not_elem_of_nil|]. intros k. cbn. set_solver.
  - apply NoDup_cons in Hnd as [Ha Hnd]. destruct (account_at accts addr) as [acct|] eqn:E.
    + destruct (IH (record_account w addr acct) (reads ∪ read_keys_of addr acct) Hnd) as [H1 H2]. split.
      * intros a. rewrite H1, !record_account_lookup. destruct (decide (a = addr)) as [->|Hne].
        -- rewrite decide_False, decide_True by set_solver. by rewrite E.
        -- destruct (decide (a ∈ l)); [rewrite decide_True by set_solver|rewrite decide_False by set_solver]; done.
      * intros k. rewrite H2, elem_of_union. setoid_rewrite elem_of_cons. naive_solver.
    + destruct (IH w reads Hnd) as [H1 H2]. split.
      * intros a. rewrite H1. destruct (decide (a = addr)) as [->|Hne].
        -- rewrite decide_False, decide_True by set_solver. by rewrite E.
        -- destruct (decide (a ∈ l)); [rewrite decide_True by set_solver|rewrite decide_False by set_solver]; done.
      * intros k. rewrite H2. setoid_rewrite elem_of_cons. naive_solver.
Qed.

Lemma account_at_dom accts a acct : account_at accts a = Some acct -> a ∈ dom accts.
Proof. unfold account_at. rewrite elem_of_dom. destruct (accts !! a); [by eexists|done]. Qed.

Lemma processPrestate_spec rng w reads accts :
  range_ok rng ->
  let r := processPrestate rng (w, reads) accts in
  (forall a, r.1 !! a = touch (w !! a) (account_at accts a)) /\
  (forall k, k ∈ r.2 <-> k ∈ reads \/ exists a acct, account_at accts a = Some acct /\ k ∈ read_keys_of a acct).
Proof.
  intros Hr. destruct (prestate_fold accts (rng (dom accts)) w reads (range_ok_nodup _ _ Hr)) as [H1 H2].
  unfold processPrestate. split.
  - intros a. rewrite H1. destruct (decide (a ∈ rng (dom accts))) as [|Hn]; [done|].
    rewrite range_ok_elem in Hn by done. destruct (account_at accts a) eqn:E; [|done]. by apply account_at_dom in E.
  - intros k. rewrite H2. setoid_rewrite (fun x => range_ok_elem rng _ x Hr). split; [naive_solver|].
    intros [?|(a & acct & E & Hk)]; [by left|]. right. exists a, acct. split; [by eapply account_at_dom|done].
Qed.

Lemma written_fold (post pre : accounts) l : forall ks k,
  k ∈ foldl (fun ks addr => match account_at post addr with
                            | None => ks
                            | Some postAcct => ks ∪ written_keys pre addr postAcct
                            end) ks l
  <-> k ∈ ks \/ exists a acct, a ∈ l /\ account_at post a = Some acct /\ k ∈ written_keys pre a acct.
Proof.
  induction l as [|a l IH]; intros ks k; cbn [foldl]; [set_solver|]. rewrite IH. setoid_rewrite elem_of_cons.
  destruct (account_at post a) eqn:E; [rewrite elem_of_union|]; naive_solver.
Qed.

Lemma removed_fold (post : accounts) l : forall ks k,
  k ∈ foldl (fun ks addr => if bool_decide (addr ∈ dom post) then ks else ks ∪ removed_keys addr) ks l
  <-> k ∈ ks \/ exists a, a ∈ l /\ a ∉ dom post /\ k ∈ removed_keys a.
Proof.
  induction l as [|a l IH]; intros ks k; cbn [foldl]; [set_solver|]. rewrite IH. setoid_rewrite elem_of_cons.
  case_bool_decide; [|rewrite elem_of_union]; naive_solver.
Qed.

Lemma computeWriteKeys_spec rng pre post k :
  range_ok rng ->
  k ∈ computeWriteKeys rng pre post <->
  (exists a acct, account_at post a = Some acct /\ k ∈ written_keys pre a acct) \/
  (exists a, a ∈ dom pre /\ a ∉ dom post /\ k ∈ removed_keys a).
Proof.
  intros Hr. unfold computeWriteKeys. rewrite removed_fold, written_fold. setoid_rewrite (fun x => range_ok_elem rng _ x Hr).
  split; [set_solver|]. intros [(a & acct & E & Hk)|?]; [|by right]. left. right. exists a, acct.
  split; [by eapply account_at_dom|done].
Qed.

(** ** BuildBlockWitness *)

(** The accounts the traces show for an address, in transaction order. *)
Definition touched (traces : list (option PrestateTracerResult)) (addr : string) : list PrestateAccount :=
  omap (fun t => t ≫= fun t => account_at (Accounts t) addr) traces.

Definition witness_of (accts : list PrestateAccount) : option WitnessAccount := foldl touch None (Some <$> accts).

Lemma witness_of_spec accts :
  match accts with
  | [] => witness_of accts = None
  | a :: rest => exists st, witness_of accts = Some (mkWitnessAccount (Balance a) (Nonce a) (CodeHash a) (Code a) st) /\
      forall slot, st !! slot = head (omap (fun a => Storage a !! slot) accts)
  end.
Proof.
  destruct accts as [|a rest]; [done|]. unfold witness_of. cbn [fmap list_fmap foldl touch from_option].
  assert (forall rest w, exists st, foldl touch (Some w) (Some <$> rest)
      = Some (mkWitnessAccount (w_Balance w) (w_Nonce w) (w_CodeHash w) (w_Code w) st) /\
    forall slot, st !! slot = match w_Storage w !! slot with Some v => Some v | None => head (omap (fun a => Storage a !! slot) rest) end)
    as H.
  { clear. induction rest as [|b rest IH]; intros w; cbn [fmap list_fmap foldl touch from_option].
    - exists (w_Storage w). split; [by destruct w|]. intros slot. cbn. by destruct (w_Storage w !! slot).
    - destruct (IH (add_slots w b)) as (st & Hf & Hst). exists st. split; [exact Hf|]. intros slot. rewrite Hst. cbn [add_slots w_Storage].
      rewrite lookup_union. cbn [omap list_omap]. destruct (w_Storage w !! slot), (Storage b !! slot); done. }
  destruct (H rest (new_witness_account a)) as (st & Hf & Hst). exists st. split; [exact Hf|].
  intros slot. rewrite Hst. cbn [new_witness_account w_Storage omap list_omap]. by destruct (Storage a !! slot).
Qed.

Lemma touched_snoc traces t addr :
  touched (traces ++ [t]) addr = touched traces addr ++ option_list (t ≫= fun t => account_at (Accounts t) addr).
Proof. unfold touched. rewrite omap_app. cbn. by destruct (t ≫= _). Qed.

Lemma witness_of_snoc accts acct : witness_of (accts ++ option_list acct) = touch (witness_of accts) acct.
Proof.
  unfold witness_of. rewrite fmap_app, foldl_app. by destruct acct.
Qed.

(** What the exporter records for the transaction [i]. *)
Definition rwset_ok (txs : list (option string)) (diffTraces : list (option PrestateTracerResult)) (rng : gset string -> list string)
    (i : nat) (t : option PrestateTracerResult) (rw : TxRWSets) : Prop :=
  TxHash rw = tx_hash txs i /\ TxIndex rw = i /\ Sorted String.le (ReadKeys rw) /\ Sorted String.le (WriteKeys rw) /\
  NoDup (ReadKeys rw) /\ NoDup (WriteKeys rw) /\
  (forall k, k ∈ ReadKeys rw <-> exists tr a acct, t = Some tr /\ account_at (Accounts tr) a = Some acct /\ k ∈ read_keys_of a acct) /\
  (forall k, k ∈ WriteKeys rw <-> exists tr d, t = Some tr /\ mjoin (diffTraces !! i) = Some d /\
     k ∈ computeWriteKeys rng (Accounts d) (Added d)).

Lemma sortedKeys_spec m : Sorted String.le (sortedKeys m) /\ NoDup (sortedKeys m) /\ forall k, k ∈ sortedKeys m <-> k ∈ m.
Proof.
  unfold sortedKeys. split; [apply sort_strings_sorted|]. split; [rewrite sort_strings_perm; apply NoDup_elements|].
  intros k. by rewrite sort_strings_perm, elem_of_elements.
Qed.

Lemma witness_tx_spec rng txs diffTraces w sets i t :
  range_ok rng ->
  let r := witness_tx rng txs diffTraces (w, sets) (i, t) in
  (forall a, r.1 !! a = touch (w !! a) (t ≫= fun t => account_at (Accounts t) a)) /\
  exists rw, r.2 = sets ++ [rw] /\ rwset_ok txs diffTraces rng i t rw.
Proof.
  intros Hr. destruct t as [tr|].
  - pose proof (processPrestate_spec rng w ∅ (Accounts tr) Hr) as [H1 H2]. cbn [witness_tx].
    destruct (processPrestate rng (w, ∅) (Accounts tr)) as [w' reads]. cbn [fst snd mbind option_bind] in *. split; [done|].
    eexists. split; [done|]. split; [done|]. split; [done|]. cbn [ReadKeys WriteKeys].
    destruct (sortedKeys_spec reads) as (S1 & N1 & E1).
    set (ws := match mjoin (diffTraces !! i) with Some d => computeWriteKeys rng (Accounts d) (Added d) | None => ∅ end).
    destruct (sortedKeys_spec ws) as (S2 & N2 & E2). split_and!; try done.
    + intros k. rewrite E1, H2. set_solver.
    + intros k. rewrite E2. unfold ws. destruct (mjoin (diffTraces !! i)) as [d|] eqn:Ed; set_solver.
  - cbn [witness_tx fst snd]. split; [done|]. eexists. split; [done|].
    split; [done|]. split; [done|]. cbn [ReadKeys WriteKeys].
    split; [constructor|]. split; [constructor|]. split; [constructor|]. split; [constructor|].
    split; intros k; (split; [intros H; by apply not_elem_of_nil in H|]); by intros (? & ? & H); naive_solver.
Qed.

Lemma witness_fold rng txs diffTraces traces :
  range_ok rng ->
  let r := foldl (witness_tx rng txs diffTraces) (∅, []) (imap pair traces) in
  (forall a, r.1 !! a = witness_of (touched traces a)) /\
  length r.2 = length traces /\
  (forall i t, traces !! i = Some t -> exists rw, r.2 !! i = Some rw /\ rwset_ok txs diffTraces rng i t rw).
Proof.
  intros Hr. induction traces as [|t traces IH] using rev_ind; [done|].
  rewrite imap_app, foldl_app. cbn [imap foldl]. rewrite Nat.add_0_r.
  destruct IH as (H1 & H2 & H3). destruct (foldl _ (∅, []) (imap pair traces)) as [w sets]. cbn [fst snd] in *.
  destruct (witness_tx_spec rng txs diffTraces w sets (length traces) t Hr) as (G1 & rw & G2 & G3). cbn zeta in G1.
  rewrite (G2). split_and!.
  - intros a. by rewrite G1, H1, touched_snoc, witness_of_snoc.
  - rewrite !length_app. cbn. lia.
  - intros i t' Hi. apply lookup_app_Some in Hi as [Hi|[Hi Ht]].
    + destruct (H3 i t' Hi) as (rw' & ? & ?). exists rw'. split; [|done]. by apply lookup_app_l_Some.
    + apply list_lookup_singleton_Some in Ht as [Hi' <-]. exists rw. replace i with (length traces) by lia.
      split; [|done]. rewrite lookup_app_r by lia. rewrite H2, Nat.sub_diag. done.
Qed.


Lemma keys_parse k : (exists a f, k = AcctKey a f) \/ (exists a s, k = SlotKey a s) -> bad_key k = false.
Proof.
  unfold bad_key. intros [(a & f & ->)|(a & s & ->)].
  - rewrite AcctKey_shape. by destruct (ParseKey_total "acct" (with_0x (ToLower a)) f) as [? ->].
  - rewrite SlotKey_shape. by destruct (ParseKey_total "slot" (with_0x (ToLower a)) (with_0x (ToLower s))) as [? ->].
Qed.

Lemma elem_of_key_if b k k' : k ∈ key_if b k' <-> b = true /\ k = k'.
Proof. unfold key_if. destruct b; set_solver. Qed.

Lemma elem_of_slot_keys addr m k : k ∈ slot_keys addr m <-> exists s, s ∈ dom m /\ k = SlotKey addr s.
Proof. unfold slot_keys. rewrite elem_of_map. naive_solver. Qed.

Lemma read_keys_shape a acct k : k ∈ read_keys_of a acct -> bad_key k = false.
Proof.
  unfold read_keys_of. rewrite !elem_of_union, elem_of_slot_keys, !elem_of_key_if. intros H. apply keys_parse. naive_solver.
Qed.

Lemma written_keys_shape pre a acct k : k ∈ written_keys pre a acct -> bad_key k = false.
Proof.
  unfold written_keys. intros H. apply keys_parse.
  destruct (account_at pre a); rewrite !elem_of_union, elem_of_slot_keys, !elem_of_key_if, ?elem_of_singleton in H; naive_solver.
Qed.

Lemma removed_keys_shape a k : k ∈ removed_keys a -> bad_key k = false.
Proof. unfold removed_keys. rewrite !elem_of_union, !elem_of_singleton. intros H. apply keys_parse. naive_solver. Qed.

Lemma validate_from i rwsets :
  Forall (fun rw => forall k, k ∈ ReadKeys rw ++ WriteKeys rw -> bad_key k = false) rwsets -> ValidateRWSets_from i rwsets = None.
Proof.
  intros H. revert i. induction H as [|rw l Hrw _ IH]; intros i; cbn [ValidateRWSets_from]; [done|].
  destruct (filter _ _) as [|k ks] eqn:E; [apply IH|].
  assert (k ∈ k :: ks) as Hk by left. rewrite <- E in Hk. apply list_elem_of_filter in Hk as [Hb Hk]. rewrite Hrw in Hb; done.
Qed.

(** What the exporter builds passes its own validation, for any traces. *)
Theorem BuildBlockWitness_validates rng txs traces diffTraces receipts :
  range_ok rng ->
  let '(_, rwsets, _) := BuildBlockWitness rng txs traces diffTraces receipts in ValidateRWSets rwsets = None.
Proof.
  intros Hr. destruct (witness_fold rng txs diffTraces traces Hr) as (_ & H2 & H3). unfold BuildBlockWitness.
  destruct (foldl _ _ _) as [w sets]. cbn [fst snd] in *. apply validate_from, Forall_lookup. intros i rw Hi k Hk.
  destruct (lookup_lt_is_Some_2 traces i) as [t Ht]; [rewrite <- H2; by eapply lookup_lt_Some|].
  destruct (H3 i t Ht) as (rw' & Hi' & _ & _ & _ & _ & _ & _ & HR & HW). rewrite Hi in Hi'. injection Hi' as <-.
  apply elem_of_app in Hk as [Hk|Hk].
  - destruct (proj1 (HR k) Hk) as (tr & a & acct & E1 & E2 & Hk'). by eapply read_keys_shape.
  - destruct (proj1 (HW k) Hk) as (tr & d & E1 & E2 & Hk'). apply computeWriteKeys_spec in Hk' as [(a & acct & E3 & Hk')|(a & E3 & E4 & Hk')]; [..|done].
    + by eapply written_keys_shape.
    + by eapply removed_keys_shape.
Qed.

(** Two transactions touch the same account; the second also reads a second slot. *)
Definition demo_account (balance : string) (st : gmap string string) : PrestateAccount := mkPrestate balance "0x1" EmptyString st EmptyString.
Definition demo_traces : list (option PrestateTracerResult) :=
  [ Some (mkTrace {[ "0xAb" := Some (demo_account "0x5" {[ "0x1" := "0x7" ]}) ]} false ∅ ∅); None;
    Some (mkTrace {[ "0xAb" := Some (demo_account "0x4" (<[ "0x1" := "0x8" ]> {[ "0x2" := "0x9" ]})) ]} false ∅ ∅) ].


Lemma BuildBlockWitness_validates_witness :
  let '(_, rwsets, _) := BuildBlockWitness elements [] demo_traces [] [] in
  ValidateRWSets rwsets = None /\ ReadKeys <$> (head rwsets) = Some ["acct:0xab:balance"; "acct:0xab:nonce"; "slot:0xab:0x1"].
Proof.
  pose proof (BuildBlockWitness_validates elements [] demo_traces [] [] range_ok_elements) as H.
  destruct (BuildBlockWitness elements [] demo_traces [] []) as [[w sets] rs] eqn:E. split; [exact H|].
  replace sets with (BuildBlockWitness elements [] demo_traces [] []).1.2 by (by rewrite E). vm_compute. reflexivity.
Defined.

(** A slot a transaction clears is shown by the tracer before the
    transaction and not after it; [computeWriteKeys] does not report it as
    written, although it differs between the two states. *)
Theorem cleared_slot_not_written :
  let pre : accounts := {[ "0xab" := Some (demo_account "0x5" {[ "0x1" := "0x7" ]}) ]} in
  let post : accounts := {[ "0xab" := Some (demo_account "0x5" ∅) ]} in
  sortedKeys (computeWriteKeys elements pre post) = [] /\
  sortedKeys (computeWriteKeys elements pre {[ "0xab" := Some (demo_account "0x5" {[ "0x1" := "0x0" ]}) ]}) = ["slot:0xab:0x1"].
Proof. split; vm_compute; reflexivity. Qed.
