(* ===== verification/Execution.v ===== *)
(** * What the replay schedulers ask of an executor

    Both replay modes of [test_replay.go] run transactions through
    [LevmSpecFallback.ReExecute]: the transaction with the given index is
    executed on the block's base state plus an overlay of committed writes,
    and its real read keys, real write keys and written values are reported.
    This file states what the schedulers rely on, as a class, and the serial
    execution they are compared with. *)
From stdpp Require Import base list gmap strings.
From S2P Require Import Prelude.

Set Default Goal Selector "!".
Local Open Scope list_scope.

Record ReExecuteResult := mkResult {
  RealReadKeys : list string; RealWriteKeys : list string; WriteValues : gmap string string }.

(** An execution that fails returns an error. *)
Definition executor := nat -> gmap string string -> option ReExecuteResult.

(** The executor reports every key whose value the execution used, and writes
    nothing but the keys it reports. *)
Class ReExecutor (ReExecute : executor) : Prop := {
  reads_complete : forall i o1 o2 r, ReExecute i o1 = Some r ->
    (forall k, k ∈ RealReadKeys r -> o1 !! k = o2 !! k) -> ReExecute i o2 = Some r;
  writes_reported : forall i o r k, ReExecute i o = Some r -> is_Some (WriteValues r !! k) -> k ∈ RealWriteKeys r }.

(** The reference: execute the transactions one after the other, each on the
    writes of all before it. *)
Fixpoint serial (ReExecute : executor) (txIDToIdx : gmap string nat) (delta : gmap string string) (txs : list string) :
    option (gmap string string) :=
  match txs with
  | [] => Some delta
  | t :: txs => i ← txIDToIdx !! t; r ← ReExecute i delta; serial ReExecute txIDToIdx (WriteValues r ∪ delta) txs
  end.

Lemma serial_app RE idx o l1 l2 : serial RE idx o (l1 ++ l2) = serial RE idx o l1 ≫= fun o1 => serial RE idx o1 l2.
Proof.
  revert o; induction l1 as [|t l1 IH]; intros o; [done|]. cbn [app serial].
  destruct (idx !! t) as [i|]; [|done]. cbn. destruct (RE i o) as [r|]; [|done]. cbn. apply IH.
Qed.

Lemma serial_snoc RE idx o l o' t i r :
  serial RE idx o l = Some o' -> idx !! t = Some i -> RE i o' = Some r -> serial RE idx o (l ++ [t]) = Some (WriteValues r ∪ o').
Proof. intros Hs Hi Hr. rewrite serial_app, Hs. cbn. rewrite Hi. cbn. by rewrite Hr. Qed.

(** ** An executor for examples

    Three transactions: one extends the cell [x], one copies [x] into [y],
    one writes [w]; later indices extend [x] as well. *)
Definition demo_ReExecute : executor := fun i o =>
  match i with
  | 1 => Some (mkResult ["x"] ["y"] {["y" := default EmptyString (o !! "x")]})
  | 2 => Some (mkResult [] ["w"] {["w" := "7"]})
  | _ => Some (mkResult ["x"] ["x"] {["x" := default EmptyString (o !! "x") +:+ "1"]})
  end%string.

#[export] Instance demo_executor : ReExecutor demo_ReExecute.
Proof.
  split.
  - intros [|[|[|i]]] o1 o2 r; cbn; intros [= <-] Ho; cbn in Ho; rewrite ?(Ho "x"%string) by left; done.
  - intros [|[|[|i]]] o r k; cbn; intros [= <-]; cbn; intros [v Hv];
      apply lookup_singleton_Some in Hv as [<- _]; left.
Qed.
