(* ===== verification/Vegeta.v ===== *)
(** * The Vegeta replay of a block: [runReplayVegetaMode] of [test_replay.go]

    Every transaction of the block was executed once on the base state, which
    gave its speculative read and write sets.  The transactions are put in an
    order (by key chains), every transaction waits for the earlier ones it
    conflicts with (the DAG), and the ready ones are executed in parallel, all
    on the writes committed before the batch.  A transaction that touches a
    key outside its speculative sets is not committed; it is left to the
    serial replay.

    [ReExecute] of a worker is an argument; the worker's own state is the base
    state before and after the call.  A worker is always acquired, and the
    aborted transactions of a batch are queued in the order of the batch. *)
From stdpp Require Import base list list_numbers gmap sets strings sorting.
From Stdlib Require Import Lia.
From S2P Require Import Prelude Execution.

Set Default Goal Selector "!".
Local Open Scope list_scope.

Definition keyset := gset string.
(** [map[string]map[string]bool]: reading a missing entry gives no keys. *)
Definition keysets := gmap string keyset.
Definition keys_in (m : keysets) (txID : string) : keyset := default ∅ (m !! txID).

(** ** Chains and the order of the transactions

    The orders in which Go ranges over the maps, and the order [sort.Slice]
    gives chains of equal length, are arguments. *)
Record orders := mkOrders {
  range_txs : keyset -> list string;
  range_keys : keyset -> list string;
  range_chains : keyset -> list string;
  sort_chains : list (list string) -> list (list string) }.

Definition orders_ok (o : orders) : Prop :=
  range_ok (range_txs o) /\ range_ok (range_keys o) /\ range_ok (range_chains o) /\
  forall l, sort_chains o l ≡ₚ l.

Definition append_tx (txID : string) (m : gmap string (list string)) (key : string) : gmap string (list string) :=
  <[key := default [] (m !! key) ++ [txID]]> m.

Definition collect_keys (o : orders) (sets : keysets) (m : gmap string (list string)) : gmap string (list string) :=
  foldl (fun m txID => foldl (append_tx txID) m (range_keys o (keys_in sets txID))) m (range_txs o (dom sets)).

Definition keyToTxs (o : orders) (blockRS blockWS : keysets) : gmap string (list string) :=
  collect_keys o blockWS (collect_keys o blockRS ∅).

Definition chains (o : orders) (blockRS blockWS : keysets) : list (list string) :=
  let m := keyToTxs o blockRS blockWS in
  (fun key => dedup_go ∅ (default [] (m !! key))) <$> range_chains o (dom m).

Definition orderedTxs (o : orders) (blockRS blockWS : keysets) (blockIDs : list string) : list string :=
  dedup_go ∅ (mjoin (sort_chains o (chains o blockRS blockWS)) ++ blockIDs).

(** ** The DAG *)
Definition meets (X Y : keyset) : bool := existsb (fun key => bool_decide (key ∈ Y)) (elements X).

Definition hasConflict (blockRS blockWS : keysets) (txID prevTxID : string) : bool :=
  meets (keys_in blockWS txID) (keys_in blockWS prevTxID) ||
  meets (keys_in blockRS txID) (keys_in blockWS prevTxID) ||
  meets (keys_in blockWS txID) (keys_in blockRS prevTxID).

Definition predecessors (blockRS blockWS : keysets) (order : list string) (i : nat) (txID : string) : list string :=
  filter (fun prevTxID => hasConflict blockRS blockWS txID prevTxID = true) (take i order).

Definition build_dag (blockRS blockWS : keysets) (order : list string) : gmap string (list string) :=
  foldl (fun dag '(i, txID) => <[txID := predecessors blockRS blockWS order i txID]> dag) ∅ (imap pair order).

(** ** The validation loop *)
(** How one transaction of a batch ended: no index for its identifier, an
    error of the execution, keys outside the speculative sets, or committed. *)
Inductive verdict := NoContext | ReExecError | KeyExceed | Committed (writeValues : gmap string string).

Definition key_match (keys : list string) (pre : keyset) : bool := forallb (fun key => bool_decide (key ∈ pre)) keys.

Definition validate (ReExecute : executor)
    (txIDToIdx : gmap string nat) (blockRS blockWS : keysets) (overlay : gmap string string) (txID : string) : verdict :=
  match txIDToIdx !! txID with
  | None => NoContext
  | Some txIdx =>
    match ReExecute txIdx overlay with
    | None => ReExecError
    | Some result =>
      if key_match (RealReadKeys result) (keys_in blockRS txID) && key_match (RealWriteKeys result) (keys_in blockWS txID)
      then Committed (WriteValues result) else KeyExceed
    end
  end.

Record vstate := mkV {
  executed : gset string; remaining : gset string; committedDelta : gmap string string;
  serialReplayList : list string; algorithmAborted : nat; committed_txs : list string }.

Definition is_ready (dag : gmap string (list string)) (executed : gset string) (txID : string) : bool :=
  forallb (fun pred => bool_decide (pred ∈ executed)) (default [] (dag !! txID)).

Definition ready_batch (range_remaining : gset string -> list string) (dag : gmap string (list string)) (v : vstate) : list string :=
  sort_strings (filter (fun txID => is_ready dag (executed v) txID = true) (range_remaining (remaining v))).

(** What the loop after [wg.Wait] does with one transaction of the batch; an
    aborted one was appended to the replay list by its worker. *)
Definition finish_tx (results : string -> verdict) (v : vstate) (txID : string) : vstate :=
  let executed := {[txID]} ∪ executed v in
  let remaining := remaining v ∖ {[txID]} in
  match results txID with
  | Committed w => mkV executed remaining (w ∪ committedDelta v) (serialReplayList v) (algorithmAborted v) (committed_txs v ++ [txID])
  | NoContext => mkV executed remaining (committedDelta v) (serialReplayList v) (S (algorithmAborted v)) (committed_txs v)
  | _ => mkV executed remaining (committedDelta v) (serialReplayList v ++ [txID]) (S (algorithmAborted v)) (committed_txs v)
  end.

Definition run_batch (results : gmap string string -> string -> verdict) (v : vstate) (batch : list string) : vstate :=
  foldl (finish_tx (results (committedDelta v))) v batch.

Fixpoint vegeta_loop (fuel : nat) (range_remaining : gset string -> list string) (dag : gmap string (list string))
    (results : gmap string string -> string -> verdict) (v : vstate) : outcome vstate :=
  match fuel with
  | 0 => Diverges
  | S fuel =>
    if decide (remaining v = ∅) then Ret v
    else match ready_batch range_remaining dag v with
         | [] => Ret v
         | batch => vegeta_loop fuel range_remaining dag results (run_batch results v batch)
         end
  end.

(** One block: the order, the DAG and the loop, on the writes committed by the
    blocks before it. *)
Definition vegeta_block (o : orders) (range_remaining : gset string -> list string)
    (ReExecute : executor) (txIDToIdx : gmap string nat)
    (blockRS blockWS : keysets) (blockIDs : list string) (delta : gmap string string) (replay : list string) : outcome vstate :=
  let order := orderedTxs o blockRS blockWS blockIDs in
  vegeta_loop (S (length order)) range_remaining (build_dag blockRS blockWS order)
    (validate ReExecute txIDToIdx blockRS blockWS)
    (mkV ∅ (list_to_set order) delta replay 0 []).

(** The blocks of a run: slices of [blockSize] transactions in block order. *)
Definition block_size (txsPerBlock txCount : nat) : nat :=
  if decide (txsPerBlock = 0 \/ txCount <= txsPerBlock) then txCount else txsPerBlock.

Fixpoint blocks_from (fuel : nat) (blockSize : nat) (ids : list string) : list (list string) :=
  match fuel, ids with
  | S fuel, _ :: _ => take blockSize ids :: blocks_from fuel blockSize (drop blockSize ids)
  | _, _ => []
  end.
Definition blocks (txsPerBlock : nat) (ids : list string) : list (list string) :=
  blocks_from (length ids) (block_size txsPerBlock (length ids)) ids.

Definition restrict (sets : keysets) (ids : list string) : keysets := filter (fun e => e.1 ∈ ids) sets.

(** The run over all blocks: the committed writes and the replay list go from
    one block to the next; [order] collects the committed transactions. *)
Definition replay_block (o : orders) (range_remaining : gset string -> list string)
    (ReExecute : executor) (txIDToIdx : gmap string nat)
    (speculativeRS speculativeWS : keysets) (st : gmap string string * list string * list string) (blockIDs : list string) :
    outcome (gmap string string * list string * list string) :=
  let '(delta, replay, done) := st in
  vegeta_block o range_remaining ReExecute txIDToIdx (restrict speculativeRS blockIDs) (restrict speculativeWS blockIDs)
    blockIDs delta replay ≫= fun v =>
  Ret (committedDelta v, serialReplayList v, done ++ committed_txs v).

Definition vegeta_replay (o : orders) (range_remaining : gset string -> list string)
    (ReExecute : executor) (txIDToIdx : gmap string nat)
    (speculativeRS speculativeWS : keysets) (txsPerBlock : nat) (ids : list string) :
    outcome (gmap string string * list string * list string) :=
  foldM (replay_block o range_remaining ReExecute txIDToIdx speculativeRS speculativeWS) (∅, [], []) (blocks txsPerBlock ids).

(** ** Conflicts *)
Lemma meets_false X Y : meets X Y = false <-> X ## Y.
Proof.
  unfold meets. rewrite <- not_true_iff_false, existsb_exists, elem_of_disjoint. split.
  - intros H x Hx Hy. apply H. exists x. rewrite <- list_elem_of_In, elem_of_elements, bool_decide_eq_true. done.
  - intros H (x & Hx & Hy%bool_decide_eq_true). rewrite <- list_elem_of_In, elem_of_elements in Hx. by eapply H.
Qed.

Definition independent (RS WS : keysets) (a b : string) : Prop :=
  keys_in WS a ## keys_in WS b /\ keys_in RS a ## keys_in WS b /\ keys_in WS a ## keys_in RS b.

Lemma hasConflict_false RS WS a b : hasConflict RS WS a b = false <-> independent RS WS a b.
Proof. unfold hasConflict, independent. rewrite !orb_false_iff, !meets_false. tauto. Qed.

Lemma independent_sym RS WS a b : independent RS WS a b -> independent RS WS b a.
Proof. unfold independent. intros (H1 & H2 & H3). split_and!; by symmetry. Qed.

Lemma foldl_insert_other {A} (f : nat -> string -> A) (l : list (nat * string)) (m : gmap string A) t :
  t ∉ l.*2 -> foldl (fun m '(i, x) => <[x := f i x]> m) m l !! t = m !! t.
Proof.
  revert m; induction l as [|[i x] l IH]; intros m Ht; [done|]. cbn in *.
  apply not_elem_of_cons in Ht as [Hx Ht]. rewrite IH by done. by apply lookup_insert_ne.
Qed.

Lemma build_dag_lookup RS WS order i t :
  NoDup order -> order !! i = Some t -> build_dag RS WS order !! t = Some (predecessors RS WS order i t).
Proof.
  intros Hnd Hi. unfold build_dag.
  assert (order = take i order ++ t :: drop (S i) order) as Hs by (by rewrite take_drop_middle).
  assert (i < length order) as Hlt by (by apply lookup_lt_Some in Hi).
  assert (length (take i order) = i) as Hl by (rewrite length_take; lia).
  replace (imap pair order) with (imap pair (take i order) ++ (i, t) :: imap (fun j => pair (j + S i)) (drop (S i) order)).
  - rewrite foldl_app. cbn [foldl]. rewrite foldl_insert_other, lookup_insert_eq; [done|].
    replace ((imap _ _).*2) with (drop (S i) order).
    + rewrite Hs in Hnd. apply NoDup_app in Hnd as (_ & _ & [Hn _]%NoDup_cons). exact Hn.
    + apply list_eq. intros j. rewrite list_lookup_fmap, list_lookup_imap. by destruct (drop (S i) order !! j).
  - rewrite Hs at 3. rewrite imap_app, Hl. cbn [imap]. rewrite Nat.add_0_r. f_equal. f_equal.
    apply imap_ext. intros j x Hx. cbn. f_equal. lia.
Qed.

Lemma elem_predecessors RS WS order i t p :
  p ∈ predecessors RS WS order i t <-> ~ independent RS WS t p /\ exists j, j < i /\ order !! j = Some p.
Proof.
  unfold predecessors. rewrite list_elem_of_filter, <- hasConflict_false, not_false_iff_true, list_elem_of_lookup.
  setoid_rewrite lookup_take_Some. naive_solver.
Qed.

(** ** Serial execution *)
Lemma filter_insert_one (order : list string) (C : list string) b :
  NoDup order -> b ∈ order -> b ∉ C ->
  exists l1 l2, filter (fun t => t ∈ C) order = l1 ++ l2 /\ filter (fun t => t ∈ C ++ [b]) order = l1 ++ b :: l2 /\
    forall t, t ∈ l2 -> t ∈ C /\ exists i j, order !! i = Some b /\ order !! j = Some t /\ i < j.
Proof.
  intros Hnd (i & Hi)%list_elem_of_lookup HC.
  assert (order = take i order ++ b :: drop (S i) order) as Hs by (by rewrite take_drop_middle).
  assert (forall t, t ∈ take i order ++ drop (S i) order -> t <> b) as Hne.
  { intros t Ht ->. rewrite Hs in Hnd. rewrite <- Permutation_middle in Hnd. by apply NoDup_cons in Hnd as [? _]. }
  exists (filter (fun t => t ∈ C) (take i order)), (filter (fun t => t ∈ C) (drop (S i) order)). split_and!.
  - rewrite Hs at 1. by rewrite filter_app, filter_cons_False.
  - rewrite Hs at 1. rewrite filter_app, filter_cons_True by set_solver.
    assert (forall l : list string, (forall t, t ∈ l -> t <> b) -> filter (fun t => t ∈ C ++ [b]) l = filter (fun t => t ∈ C) l) as Hf.
    { induction l as [|x l IH]; intros Hl; [done|]. rewrite !filter_cons, IH by (intros; apply Hl; by right).
      assert (x <> b) by (apply Hl; left). repeat case_decide; set_solver. }
    rewrite !Hf; [done|..]; intros t Ht; apply Hne; rewrite elem_of_app; auto.
  - intros t (HtC & (j & Hj)%list_elem_of_lookup)%list_elem_of_filter. split; [done|].
    rewrite lookup_drop in Hj. exists i, (S i + j). split_and!; [done..|lia].
Qed.

Section serializability.
Context (ReExecute : executor) (txIDToIdx : gmap string nat) (RS WS : keysets).
Context `{!ReExecutor ReExecute}.

Let results := validate ReExecute txIDToIdx RS WS.

(** [t] executed on [o] stays in its speculative sets and writes [w]. *)
Definition tx_run (o : gmap string string) (t : string) (w : gmap string string) : Prop :=
  exists i r, txIDToIdx !! t = Some i /\ ReExecute i o = Some r /\ w = WriteValues r /\
    (forall k, k ∈ RealReadKeys r -> k ∈ keys_in RS t) /\ (forall k, k ∈ RealWriteKeys r -> k ∈ keys_in WS t).

Lemma key_match_true keys pre : key_match keys pre = true <-> forall k, k ∈ keys -> k ∈ pre.
Proof.
  unfold key_match. rewrite forallb_forall. setoid_rewrite bool_decide_eq_true. by setoid_rewrite <- list_elem_of_In.
Qed.

Lemma validate_committed o t w : results o t = Committed w <-> tx_run o t w.
Proof.
  unfold results, validate, tx_run. destruct (txIDToIdx !! t) as [i|]; [|split; [done|naive_solver]].
  destruct (ReExecute i o) as [r|] eqn:Hr; [|split; [done|naive_solver]].
  destruct (key_match _ _ && key_match _ _) eqn:E.
  - rewrite andb_true_iff, !key_match_true in E. destruct E as [E1 E2].
    split; [intros [= <-]; naive_solver|]. intros (i' & r' & [= <-] & Hr' & -> & _). by simplify_eq.
  - split; [done|]. intros (i' & r' & [= <-] & Hr' & _ & H1 & H2). simplify_eq.
    apply key_match_true in H1. apply key_match_true in H2. by rewrite H1, H2 in E.
Qed.

Lemma tx_run_frame o1 o2 t w : tx_run o1 t w -> (forall k, k ∈ keys_in RS t -> o1 !! k = o2 !! k) -> tx_run o2 t w.
Proof.
  intros (i & r & Hi & Hr & -> & H1 & H2) Ho. exists i, r. split_and!; try done. apply (reads_complete _ _ _ _ Hr). auto.
Qed.

Lemma tx_run_writes o t w k : tx_run o t w -> is_Some (w !! k) -> k ∈ keys_in WS t.
Proof. intros (i & r & _ & Hr & -> & _ & H2) Hk. by eapply H2, writes_reported. Qed.

(** Writes a transaction does not read leave its execution unchanged. *)
Lemma tx_run_past o a b wa wb :
  independent RS WS a b -> tx_run o a wa -> tx_run o b wb <-> tx_run (wa ∪ o) b wb.
Proof.
  intros (_ & _ & Hi) Ha.
  assert (forall k, k ∈ keys_in RS b -> o !! k = (wa ∪ o) !! k) as Ho.
  { intros k Hk. rewrite lookup_union_r; [done|]. apply eq_None_not_Some. intros Hs.
    apply (Hi k); [by eapply tx_run_writes|done]. }
  split; intros Hr; apply (tx_run_frame _ _ _ _ Hr); intros k Hk; [|symmetry]; by apply Ho.
Qed.

Lemma writes_commute o o' a b wa wb :
  independent RS WS a b -> tx_run o a wa -> tx_run o' b wb -> wa ∪ (wb ∪ o) = wb ∪ (wa ∪ o).
Proof.
  intros (Hi & _) Ha Hb. rewrite !(assoc_L _). f_equal. apply map_union_comm, map_disjoint_spec.
  intros k x y Hx Hy. apply (Hi k); eapply tx_run_writes; eauto.
Qed.

Inductive serial_run : gmap string string -> list string -> gmap string string -> Prop :=
| serial_nil o : serial_run o [] o
| serial_cons o t w l o' : tx_run o t w -> serial_run (w ∪ o) l o' -> serial_run o (t :: l) o'.

Lemma serial_run_app o l1 l2 o' :
  serial_run o (l1 ++ l2) o' <-> exists o1, serial_run o l1 o1 /\ serial_run o1 l2 o'.
Proof.
  split.
  - revert o; induction l1 as [|t l1 IH]; intros o H; [exists o; split; [constructor|done]|].
    inversion H; subst. destruct (IH _ ltac:(eassumption)) as (o1 & H1 & H2). exists o1. split; [by econstructor|done].
  - intros (o1 & H1 & H2). induction H1; [done|]. cbn. econstructor; eauto.
Qed.

Lemma serial_run_serial o l o' : serial_run o l o' -> serial ReExecute txIDToIdx o l = Some o'.
Proof.
  induction 1 as [|o t w l o' (i & r & Hi & Hr & -> & _) _ IH]; [done|]. cbn [serial]. rewrite Hi. cbn. rewrite Hr. done.
Qed.

(** A transaction that ran after [l], independent of all of [l], could have
    run before it. *)
Lemma serial_run_insert o l o' b w :
  serial_run o l o' -> tx_run o' b w -> (forall t, t ∈ l -> independent RS WS b t) ->
  tx_run o b w /\ serial_run (w ∪ o) l (w ∪ o').
Proof.
  induction 1 as [o|o t wt l o' Ht Hl IH]; intros Hb Hi; [split; [done|constructor]|].
  destruct IH as [Hb1 Hl1]; [done|intros x Hx; apply Hi; by right|].
  assert (independent RS WS b t) as Hbt by (apply Hi; left).
  assert (tx_run o b w) as Hb0 by (by apply (tx_run_past o t b wt w (independent_sym _ _ _ _ Hbt) Ht)).
  split; [done|]. apply (serial_cons _ t wt).
  - by apply (tx_run_past o b t w wt).
  - by rewrite <- (writes_commute o o b t w wt).
Qed.


(** *** The loop *)
Context (order : list string) (delta0 : gmap string string) (replay0 : list string).
Hypothesis Hnd : NoDup order.

Definition waits_for (t p : string) : Prop :=
  ~ independent RS WS t p /\ exists i j, j < i /\ order !! i = Some t /\ order !! j = Some p.

Record vinv (v : vstate) : Prop := {
  vi_split : forall t, t ∈ order <-> t ∈ executed v \/ t ∈ remaining v;
  vi_disj : forall t, t ∈ executed v -> t ∈ remaining v -> False;
  vi_closed : forall t p, t ∈ executed v -> waits_for t p -> p ∈ executed v;
  vi_committed : forall t, t ∈ committed_txs v -> t ∈ executed v;
  vi_serial : serial_run delta0 (filter (fun t => t ∈ committed_txs v) order) (committedDelta v);
  vi_replay : exists l, serialReplayList v = replay0 ++ l /\ NoDup (committed_txs v ++ l) /\ forall t, t ∈ l -> t ∈ executed v;
  vi_all : forall t, t ∈ executed v -> t ∈ committed_txs v \/ t ∈ serialReplayList v \/ txIDToIdx !! t = None;
  vi_count : algorithmAborted v + length (committed_txs v) = size (executed v) }.

Lemma is_ready_spec E t : t ∈ order ->
  is_ready (build_dag RS WS order) E t = true <-> forall p, waits_for t p -> p ∈ E.
Proof.
  intros (i & Hi)%list_elem_of_lookup. unfold is_ready. rewrite (build_dag_lookup _ _ _ i) by done. cbn [default].
  rewrite forallb_forall. setoid_rewrite bool_decide_eq_true. setoid_rewrite <- list_elem_of_In.
  setoid_rewrite elem_predecessors. unfold waits_for. split.
  - intros H p (Hc & i' & j & Hlt & Hi' & Hj). apply H. split; [done|].
    assert (i' = i) as -> by (by eapply NoDup_lookup). eauto.
  - intros H p (Hc & j & Hlt & Hj). apply H. split; [done|]. eauto.
Qed.

Lemma finish_tx_executed f v b : executed (finish_tx f v b) = {[b]} ∪ executed v.
Proof. unfold finish_tx. by destruct (f b). Qed.
Lemma finish_tx_remaining f v b : remaining (finish_tx f v b) = remaining v ∖ {[b]}.
Proof. unfold finish_tx. by destruct (f b). Qed.

(** Committing [b], which ran on writes that agree with the committed ones on
    what [b] reads, keeps the committed transactions a serial run. *)
Lemma commit_serial v b w :
  vinv v -> b ∈ remaining v -> (forall t, t ∈ executed v -> waits_for t b -> False) -> tx_run (committedDelta v) b w ->
  serial_run delta0 (filter (fun t => t ∈ committed_txs v ++ [b]) order) (w ∪ committedDelta v).
Proof.
  intros Hv Hb Hlate Hrun.
  assert (b ∈ order) as Hbo by (apply (vi_split _ Hv); auto).
  assert (b ∉ committed_txs v) as HbC.
  { intros HC. by apply (vi_disj _ Hv b); [apply (vi_committed _ Hv)|]. }
  destruct (filter_insert_one order (committed_txs v) b Hnd Hbo HbC) as (l1 & l2 & E1 & -> & Hl2).
  pose proof (vi_serial _ Hv) as Hs. rewrite E1 in Hs. apply serial_run_app in Hs as (o1 & Hs1 & Hs2).
  destruct (serial_run_insert o1 l2 (committedDelta v) b w Hs2 Hrun) as [Hb1 Hs2'].
  - intros t Ht. destruct (Hl2 t Ht) as (HtC & i & j & Hi & Hj & Hlt).
    apply independent_sym, hasConflict_false, not_true_is_false. intros Hc.
    apply (Hlate t); [by apply (vi_committed _ Hv)|]. split; [|eauto 6].
    rewrite <- hasConflict_false. congruence.
  - apply serial_run_app. exists o1. split; [done|]. by econstructor.
Qed.

Lemma finish_tx_inv v s0 b :
  vinv v -> b ∈ remaining v -> (forall p, waits_for b p -> p ∈ executed v) ->
  (forall t, t ∈ executed v -> waits_for t b -> False) ->
  (forall k, k ∈ keys_in RS b -> committedDelta v !! k = s0 !! k) -> vinv (finish_tx (results s0) v b).
Proof.
  intros Hv Hb Hpre Hlate Hag. pose proof (vi_disj _ Hv) as Hdisj.
  assert (b ∉ executed v) as HbE by eauto.
  destruct (vi_replay _ Hv) as (l & Hl & Hndl & Hlin).
  assert (b ∉ committed_txs v ++ l) as Hbn.
  { rewrite elem_of_app. intros [H|H]; apply HbE; [by apply (vi_committed _ Hv)|auto]. }
  assert (forall t, t ∈ executed v -> t ∈ {[b]} ∪ executed v) as Hsub by set_solver.
  split; rewrite ?finish_tx_executed, ?finish_tx_remaining.
  - intros t. rewrite (vi_split _ Hv), elem_of_union, elem_of_difference, elem_of_singleton.
    destruct (decide (t = b)) as [->|]; tauto.
  - set_solver.
  - intros t p [Hx%elem_of_singleton|Ht]%elem_of_union Hw; apply Hsub; [subst; auto|by apply (vi_closed _ Hv t)].
  - intros t Ht. unfold finish_tx in Ht. pose proof (vi_committed _ Hv) as HC.
    destruct (results s0 b); cbn [committed_txs] in Ht; [auto..|].
    apply elem_of_app in Ht as [Ht|Ht%list_elem_of_singleton]; [auto|set_solver].
  - unfold finish_tx. destruct (results s0 b) eqn:Hr; cbn [committed_txs committedDelta]; [apply (vi_serial _ Hv)..|].
    apply commit_serial; [done..|]. apply validate_committed in Hr. apply (tx_run_frame _ _ _ _ Hr).
    intros k Hk. by rewrite Hag.
  - unfold finish_tx. destruct (results s0 b); cbn [committed_txs serialReplayList].
    + exists l. auto.
    + exists (l ++ [b]). rewrite Hl, app_assoc. split_and!; [done| |set_solver].
      rewrite app_assoc, NoDup_app. split_and!; [done|set_solver|apply NoDup_singleton].
    + exists (l ++ [b]). rewrite Hl, app_assoc. split_and!; [done| |set_solver].
      rewrite app_assoc, NoDup_app. split_and!; [done|set_solver|apply NoDup_singleton].
    + exists l. split_and!; [done| |auto]. rewrite <- app_assoc. cbn. rewrite <- Permutation_middle. by apply NoDup_cons.
  - intros t [Hx%elem_of_singleton|Ht]%elem_of_union.
    + subst t. unfold finish_tx, results, validate. destruct (txIDToIdx !! b) as [i|]; [|auto].
      destruct (ReExecute i s0) as [r|]; [|cbn; set_solver].
      destruct (key_match _ _ && key_match _ _); cbn; set_solver.
    + pose proof (vi_all _ Hv t Ht) as Ha. unfold finish_tx. destruct (results s0 b); cbn; set_solver.
  - rewrite size_union, size_singleton by set_solver. pose proof (vi_count _ Hv) as Hc.
    unfold finish_tx. destruct (results s0 b); cbn [committed_txs algorithmAborted]; rewrite ?length_app; cbn; lia.
Qed.

Lemma vinv_start : vinv (mkV ∅ (list_to_set order) delta0 replay0 0 []).
Proof.
  split; cbn; try set_solver.
  { replace (filter _ order) with (@nil string); [constructor|]. symmetry.
    clear. induction order as [|t l IH]; [done|]. rewrite filter_cons_False; [done|]. apply not_elem_of_nil. }
  exists []. rewrite app_nil_r. split_and!; [done|constructor|set_solver].
Qed.
Lemma waits_total a b : a ∈ order -> b ∈ order -> a <> b -> ~ independent RS WS a b -> waits_for a b \/ waits_for b a.
Proof.
  intros (i & Hi)%list_elem_of_lookup (j & Hj)%list_elem_of_lookup Hab Hc.
  destruct (decide (j < i)); [left; split; [done|eauto]|]. right.
  split; [intros H; by apply Hc, independent_sym|]. exists j, i. split_and!; [|done..].
  assert (i <> j) by (intros ->; congruence). lia.
Qed.

Lemma run_batch_from s0 E0 batch v :
  vinv v -> NoDup batch -> E0 ⊆ executed v ->
  (forall b, b ∈ batch -> b ∈ remaining v /\ forall p, waits_for b p -> p ∈ E0) ->
  (forall t p, t ∈ executed v -> waits_for t p -> p ∈ E0) ->
  (forall b k, b ∈ batch -> k ∈ keys_in RS b -> committedDelta v !! k = s0 !! k) ->
  vinv (foldl (finish_tx (results s0)) v batch) /\
  remaining (foldl (finish_tx (results s0)) v batch) = remaining v ∖ list_to_set batch.
Proof.
  revert v; induction batch as [|b batch IH]; intros v Hv Hndb HE Hbatch Hcl Hag.
  { split; [done|]. cbn. set_solver. }
  apply NoDup_cons in Hndb as [Hbn Hndb].
  destruct (Hbatch b ltac:(left)) as [Hb Hpre].
  assert (forall x, x ∈ b :: batch -> x ∉ E0) as HnE.
  { intros x Hx HxE. destruct (Hbatch x Hx) as [Hr _]. apply (vi_disj _ Hv x); [by apply HE|done]. }
  assert (vinv (finish_tx (results s0) v b)) as Hv1.
  { apply finish_tx_inv; [done..| | |].
    - intros p Hp. by apply HE, Hpre.
    - intros t Ht Hw. apply (HnE b ltac:(left)). by eapply Hcl.
    - intros k Hk. apply (Hag b); [left|done]. }
  cbn [foldl]. destruct (IH (finish_tx (results s0) v b)) as [Hi Hr]; rewrite ?finish_tx_executed; [done|done|set_solver|..].
  - intros x Hx. destruct (Hbatch x ltac:(by right)) as [Hxr Hxp]. split; [|done].
    rewrite finish_tx_remaining. set_solver.
  - intros t p [Ht%elem_of_singleton|Ht]%elem_of_union Hw; [subst; auto|by eapply Hcl].
  - intros x k Hx Hk. rewrite <- (Hag x k) by (done || by right). unfold finish_tx.
    destruct (results s0 b) as [| | |w] eqn:Hres; [done..|]. cbn [committedDelta].
    apply lookup_union_r, eq_None_not_Some. intros Hs. apply validate_committed in Hres.
    destruct (hasConflict RS WS b x) eqn:Hc.
    + destruct (waits_total b x) as [H|H].
      * apply (vi_split _ Hv). auto.
      * apply (vi_split _ Hv). right. apply (Hbatch x). by right.
      * intros ->. done.
      * rewrite <- hasConflict_false. congruence.
      * apply (HnE x ltac:(by right)). auto.
      * apply (HnE b ltac:(left)). apply (Hbatch x); [by right|done].
    + apply hasConflict_false in Hc as (_ & _ & Hc). apply (Hc k); [by eapply tx_run_writes|done].
  - split; [done|]. rewrite Hr, finish_tx_remaining. cbn. set_solver.
Qed.

Context (range_remaining : gset string -> list string).
Hypothesis Hrange : range_ok range_remaining.

Lemma elem_ready_batch v b : vinv v ->
  b ∈ ready_batch range_remaining (build_dag RS WS order) v <->
  b ∈ remaining v /\ forall p, waits_for b p -> p ∈ executed v.
Proof.
  intros Hv. unfold ready_batch. rewrite sort_strings_perm, list_elem_of_filter, range_ok_elem by done.
  split; intros [H1 H2]; (split; [|]); try done.
  - apply is_ready_spec; [apply (vi_split _ Hv); auto|done].
  - apply is_ready_spec; [apply (vi_split _ Hv); auto|done].
Qed.

(** The earliest remaining transaction is ready, so no batch is empty. *)
Lemma ready_batch_nonempty v : vinv v -> remaining v <> ∅ ->
  ready_batch range_remaining (build_dag RS WS order) v <> [].
Proof.
  intros Hv (t & Ht)%set_choose_L Hempty.
  assert (t ∈ order) as (i & Hi)%list_elem_of_lookup by (apply (vi_split _ Hv); auto).
  revert t Ht Hi. induction (lt_wf i) as [i _ IH]. intros t Ht Hi.
  assert (t ∈ ready_batch range_remaining (build_dag RS WS order) v) as Hin; [|rewrite Hempty in Hin; by apply elem_of_nil in Hin].
  apply elem_ready_batch; [done|]. split; [done|]. intros p (_ & i' & j & Hlt & Hi' & Hj).
  assert (i' = i) as -> by (by eapply NoDup_lookup).
  assert (p ∈ order) as Hp by (apply list_elem_of_lookup; eauto).
  apply (vi_split _ Hv) in Hp as [Hp|Hp]; [done|]. by destruct (IH j Hlt p).
Qed.

Lemma run_batch_inv v :
  let batch := ready_batch range_remaining (build_dag RS WS order) v in
  vinv v -> vinv (run_batch results v batch) /\ remaining (run_batch results v batch) = remaining v ∖ list_to_set batch.
Proof.
  intros batch Hv. unfold run_batch. apply (run_batch_from _ (executed v)); try done.
  - unfold batch, ready_batch. rewrite sort_strings_perm. apply NoDup_filter. by apply range_ok_nodup.
  - intros b Hb. by apply elem_ready_batch.
  - intros t p Ht Hw. by apply (vi_closed _ Hv t).
Qed.

Lemma vegeta_loop_spec fuel v :
  vinv v -> size (remaining v) < fuel ->
  exists v', vegeta_loop fuel range_remaining (build_dag RS WS order) results v = Ret v' /\ vinv v' /\ remaining v' = ∅.
Proof.
  revert v; induction fuel as [|fuel IH]; intros v Hv Hf; [lia|]. cbn [vegeta_loop].
  destruct (decide (remaining v = ∅)) as [He|He]; [eauto|].
  destruct (run_batch_inv v Hv) as [Hv1 Hr1]. pose proof (ready_batch_nonempty v Hv He) as Hne.
  assert (forall b, b ∈ ready_batch range_remaining (build_dag RS WS order) v -> b ∈ remaining v) as Hsub.
  { intros b Hb. by apply elem_ready_batch in Hb as [? _]. }
  destruct (ready_batch range_remaining (build_dag RS WS order) v) as [|b batch]; [done|].
  apply IH; [done|]. rewrite Hr1. assert (b ∈ remaining v) by (apply Hsub; left).
  rewrite size_difference by (intros x; rewrite elem_of_list_to_set; auto).
  assert (size (remaining v) <> 0) as Hrem by (by rewrite size_empty_iff, leibniz_equiv_iff).
  assert (size (list_to_set (b :: batch) : gset string) <> 0) as Hpos; [|lia].
  rewrite size_empty_iff. cbn. set_solver.
Qed.

End serializability.

(** ** The order holds the transactions of the block *)
Lemma append_tx_elem txID key m k l t :
  append_tx txID m key !! k = Some l -> t ∈ l -> t = txID \/ exists l', m !! k = Some l' /\ t ∈ l'.
Proof.
  unfold append_tx. destruct (decide (key = k)) as [->|Hk].
  - rewrite lookup_insert_eq. intros [= <-] [Ht|Ht%list_elem_of_singleton]%elem_of_app; [|auto].
    destruct (m !! k) as [l'|]; [eauto|by apply elem_of_nil in Ht].
  - rewrite lookup_insert_ne by done. eauto.
Qed.

Lemma collect_keys_elem o sets m k l t :
  orders_ok o -> collect_keys o sets m !! k = Some l -> t ∈ l -> t ∈ dom sets \/ exists l', m !! k = Some l' /\ t ∈ l'.
Proof.
  intros (Ho & _). unfold collect_keys.
  assert (forall x, x ∈ range_txs o (dom sets) -> x ∈ dom sets) as Hin by (intros x; by rewrite (range_ok_elem _ _ _ Ho)).
  revert m Hin. generalize (range_txs o (dom sets)) as txs.
  induction txs as [|x txs IH]; intros m Hin; cbn [foldl]; [eauto|]. intros Hl Ht.
  destruct (IH _ (fun y Hy => Hin y (list_elem_of_further _ _ _ Hy)) Hl Ht) as [?|(l' & Hl' & Ht')]; [auto|].
  clear Hl Ht IH l. assert (x ∈ dom sets) as Hx by (apply Hin; left). clear Hin.
  revert m l' Hl' Ht'. generalize (range_keys o (keys_in sets x)) as keys.
  induction keys as [|key keys IH]; intros m l Hl Ht; [eauto|]. cbn [foldl] in Hl.
  destruct (IH _ _ Hl Ht) as [?|(l' & Hl' & Ht')]; [auto|].
  destruct (append_tx_elem _ _ _ _ _ _ Hl' Ht') as [->|?]; auto.
Qed.

Lemma elem_orderedTxs o RS WS ids t :
  orders_ok o -> dom RS ⊆ list_to_set ids -> dom WS ⊆ list_to_set ids ->
  t ∈ orderedTxs o RS WS ids <-> t ∈ ids.
Proof.
  intros Ho HR HW. unfold orderedTxs. rewrite elem_of_dedup_go, elem_of_app. split; [|set_solver].
  intros [[Ht|Ht] _]; [|done]. destruct Ho as (Ho1 & Ho2 & Ho3 & Hsort).
  apply list_elem_of_join in Ht as (l & Ht & Hl). rewrite Hsort in Hl. unfold chains in Hl.
  apply list_elem_of_fmap in Hl as (key & -> & _). apply elem_of_dedup_go in Ht as [Ht _].
  destruct (keyToTxs o RS WS !! key) as [l|] eqn:El; [|by apply elem_of_nil in Ht]. cbn in Ht.
  unfold keyToTxs in El. destruct (collect_keys_elem o WS _ key l t ltac:(by split_and!) El Ht) as [H|(l' & Hl' & Ht')].
  { apply HW in H. set_solver. }
  destruct (collect_keys_elem o RS _ key l' t ltac:(by split_and!) Hl' Ht') as [H|(l2 & Hl2 & _)].
  { apply HR in H. set_solver. }
  by rewrite lookup_empty in Hl2.
Qed.

Lemma NoDup_orderedTxs o RS WS ids : NoDup (orderedTxs o RS WS ids).
Proof. apply NoDup_dedup_go. Qed.

Lemma dom_restrict (sets : keysets) ids : dom (restrict sets ids) ⊆ list_to_set ids.
Proof.
  intros t (s & (Hs & Hin)%map_lookup_filter_Some)%elem_of_dom. by apply elem_of_list_to_set.
Qed.

(** ** Blocks *)
Lemma blocks_from_join n fuel ids : 0 < n -> length ids <= fuel -> mjoin (blocks_from fuel n ids) = ids.
Proof.
  intros Hn. revert ids; induction fuel as [|fuel IH]; intros [|t ids] Hl; cbn in Hl; try done; [lia|].
  cbn [blocks_from]. cbn [mjoin list_join]. rewrite IH, take_drop; [done|]. rewrite length_drop. cbn. lia.
Qed.

Lemma blocks_join n ids : mjoin (blocks n ids) = ids.
Proof.
  unfold blocks. destruct ids as [|t ids]; [done|]. apply blocks_from_join; [|done].
  unfold block_size. case_decide; cbn in *; lia.
Qed.

Lemma vegeta_block_spec o rr RE `{!ReExecutor RE} idx RS WS ids delta replay :
  orders_ok o -> range_ok rr ->
  dom RS ⊆ list_to_set ids -> dom WS ⊆ list_to_set ids ->
  exists v l, vegeta_block o rr RE idx RS WS ids delta replay = Ret v /\
    serial RE idx delta (filter (fun t => t ∈ committed_txs v) (orderedTxs o RS WS ids)) = Some (committedDelta v) /\
    serialReplayList v = replay ++ l /\ NoDup (committed_txs v ++ l) /\
    (forall t, t ∈ ids -> t ∈ committed_txs v \/ t ∈ replay ++ l \/ idx !! t = None) /\
    (forall t, t ∈ committed_txs v ++ l -> t ∈ ids).
Proof.
  intros Ho Hrr HdR HdW. unfold vegeta_block. set (order := orderedTxs o RS WS ids).
  assert (NoDup order) as Hnd by apply NoDup_orderedTxs.
  destruct (vegeta_loop_spec RE idx RS WS order delta replay Hnd rr Hrr (S (length order))
    (mkV ∅ (list_to_set order) delta replay 0 [])) as (v & -> & Hv & Hrem).
  { by eapply vinv_start. }
  { cbn. rewrite size_list_to_set by done. lia. }
  destruct (vi_replay _ _ _ _ _ _ _ _ Hv) as (l & Hl & Hndl & Hlin). exists v, l.
  assert (forall t, t ∈ executed v <-> t ∈ ids) as Hex.
  { intros t. rewrite <- (elem_orderedTxs o RS WS) by done. change (orderedTxs o RS WS ids) with order.
    rewrite (vi_split _ _ _ _ _ _ _ _ Hv), Hrem. set_solver. }
  split_and!; try done.
  - eapply serial_run_serial, (vi_serial _ _ _ _ _ _ _ _ Hv).
  - intros t Ht. rewrite <- Hl. by apply (vi_all _ _ _ _ _ _ _ _ Hv), Hex.
  - intros t [Ht|Ht]%elem_of_app; apply Hex; [by apply (vi_committed _ _ _ _ _ _ _ _ Hv)|auto].
Qed.

Lemma filter_elem_ext (C D l : list string) :
  (forall t, t ∈ l -> t ∈ C <-> t ∈ D) -> filter (fun t => t ∈ C) l = filter (fun t => t ∈ D) l.
Proof.
  induction l as [|x l IH]; intros H; [done|]. rewrite !filter_cons, IH by (intros; apply H; by right).
  assert (x ∈ C <-> x ∈ D) as Hx by (apply H; left). repeat case_decide; tauto.
Qed.

(** The serial order of a run: block after block, each in its own order, the
    committed transactions only. *)
Definition commit_sequence (o : orders) (RS WS : keysets) (done : list string) (bs : list (list string)) : list string :=
  mjoin ((fun ids => filter (fun t => t ∈ done) (orderedTxs o (restrict RS ids) (restrict WS ids) ids)) <$> bs).

Lemma commit_sequence_app o RS WS done bs1 bs2 :
  commit_sequence o RS WS done (bs1 ++ bs2) = commit_sequence o RS WS done bs1 ++ commit_sequence o RS WS done bs2.
Proof. unfold commit_sequence. by rewrite fmap_app, join_app. Qed.

Lemma commit_sequence_ext o RS WS C D bs :
  orders_ok o -> (forall t, t ∈ mjoin bs -> t ∈ C <-> t ∈ D) -> commit_sequence o RS WS C bs = commit_sequence o RS WS D bs.
Proof.
  intros Ho H. unfold commit_sequence. f_equal. apply list_fmap_ext. intros i ids Hi. apply filter_elem_ext.
  intros t Ht. rewrite elem_orderedTxs in Ht by (done || apply dom_restrict). apply H, list_elem_of_join. exists ids.
  split; [done|]. by apply list_elem_of_lookup_2 in Hi.
Qed.


(** A block for the witness: [c] touches a cell it did not announce. *)
Definition demo_orders : orders := mkOrders elements elements elements (fun l => l).
Definition demo_idx : gmap string nat := {["a" := 0; "b" := 1; "c" := 2]}.
Definition demo_RS : keysets := {["a" := {["x"]}; "b" := {["x"]}; "c" := ∅]}.
Definition demo_WS : keysets := {["a" := {["x"]}; "b" := {["y"]}; "c" := {["z"]}]}.

