(* ===== verification/ReplayAdapter.v ===== *)
(** * From speculative key sets to schedulable transactions

    [utils/replay_adapter.go] turns the read and write keys predicted for a
    transaction ([core/replay_types.go]) into [RWNode]s, and
    [runReplayDepurgeMode] of [test_replay.go] turns those into the contexts
    the Depurge scheduler is loaded with; transactions without a usable
    prediction go to the serial replay. *)
From stdpp Require Import base list list_numbers gmap sets strings sorting.
From Stdlib Require Import ZArith Lia.
From S2P Require Import Prelude RWSet.

Set Default Goal Selector "!".
Local Open Scope string_scope.
Local Open Scope list_scope.

(** ** Data *)
Record ReplayRef := mkRef { BlockNum : Z; BlockHash : string; TxIndex : nat; TxHash : string }.

Record ReplayRWSet := mkReplayRWSet {
  Ref : ReplayRef; Success : bool; GasUsed : Z; ReadKeys : list string; WriteKeys : list string; Error : string }.

Record CanonicalRWSet := mkCanonical { c_Ref : ReplayRef; c_ReadKeys : list string; c_WriteKeys : list string }.

Definition ReplayContractName : string := "eth".

Definition specID (r : ReplayRef) : string := TxHash r.

(** ** RWSetsToRWNodes *)
Definition key_node (info : TransInfo) (label k : string) : RWNode :=
  mkRWNode (mkRWPair k EmptyString) info label 0 false ReplayContractName.

Definition set_label (n : RWNode) (label : string) : RWNode :=
  mkRWNode (RWSet n) (Trans n) label (Sequence n) (isAssigned n) (ContractName n).

Definition node_state := (list RWNode * gset string)%type.

Definition add_read_key (info : TransInfo) (st : node_state) (k : string) : node_state :=
  let '(nodes, seen) := st in
  if decide (k ∈ seen) then st else (nodes ++ [key_node info "r" k], {[k]} ∪ seen).

(** The inner loop over [nodes], which stops at the first match. *)
Fixpoint relabel (k : string) (nodes : list RWNode) : list RWNode :=
  match nodes with
  | [] => []
  | n :: nodes =>
    if decide (Key (RWSet n) = k /\ Label n = "r") then set_label n "w" :: nodes else n :: relabel k nodes
  end.

Definition add_write_key (info : TransInfo) (st : node_state) (k : string) : node_state :=
  let '(nodes, seen) := st in
  if decide (k ∈ seen) then (relabel k nodes, seen) else (nodes ++ [key_node info "w" k], {[k]} ∪ seen).

Definition spec_nodes (spec : ReplayRWSet) : list RWNode :=
  let ref := Ref spec in
  let transInfo := mkTransInfo (specID ref) (BlockNum ref `mod` 2^32) in
  let st := foldl (add_read_key transInfo) ([], ∅) (ReadKeys spec) in
  (foldl (add_write_key transInfo) st (WriteKeys spec)).1.

Definition RWSetsToRWNodes (specs : list (option ReplayRWSet)) : list (list RWNode) :=
  (fun spec => match spec with None => [] | Some spec => spec_nodes spec end) <$> specs.

Definition CanonicalToKeySet (c : CanonicalRWSet) : gset string * gset string :=
  (list_to_set (c_ReadKeys c), list_to_set (c_WriteKeys c)).
Definition SpecToKeySet (s : ReplayRWSet) : gset string * gset string :=
  (list_to_set (ReadKeys s), list_to_set (WriteKeys s)).

(** ** Contexts for the scheduler *)
Record replay_input := mkInput {
  in_contexts : gmap string TransactionContext; txIDToIdx : gmap string nat; in_serial : list string }.

Definition add_context (st : replay_input) (i : nat) (txID : string) (nodes : list RWNode) : replay_input :=
  let ctx := RWNodesToContext txID ReplayContractName EmptyString 0 0 nodes EmptyString EmptyString in
  mkInput (<[txID := ctx]> (in_contexts st)) (<[txID := i]> (txIDToIdx st)) (in_serial st).

Definition add_serial (st : replay_input) (i : nat) (txID : string) : replay_input :=
  mkInput (in_contexts st) (<[txID := i]> (txIDToIdx st)) (in_serial st ++ [txID]).

Definition add_spec (refs : list ReplayRef) (txs : list (list RWNode)) (st : replay_input)
    (e : nat * option ReplayRWSet) : outcome replay_input :=
  let '(i, spec) := e in
  or_panic (refs !! i) ≫= fun ref =>
  if match spec with None => true | Some s => negb (Success s) end then Ret (add_serial st i (TxHash ref))
  else or_panic (txs !! i) ≫= fun nodes => Ret (add_context st i (TxHash ref) nodes).

Definition build_contexts (refs : list ReplayRef) (specs : list (option ReplayRWSet)) : outcome replay_input :=
  foldM (add_spec refs (RWSetsToRWNodes specs)) (mkInput ∅ ∅ []) (imap pair specs).

(** ** The nodes of a prediction *)

(** Nodes as pairs of a key and its label. *)
Definition labels (nodes : list RWNode) : list (string * string) := (fun n => (Key (RWSet n), Label n)) <$> nodes.

Lemma labels_app n1 n2 : labels (n1 ++ n2) = labels n1 ++ labels n2.
Proof. apply fmap_app. Qed.

(** [nodes] are one node per key: [W] are the written keys, [R] the keys that
    are only read. *)
Definition labelled (R W : list string) (nodes : list RWNode) : Prop :=
  NoDup ((labels nodes).*1) /\
  (forall k, (k, "w") ∈ labels nodes <-> k ∈ W) /\ (forall k, (k, "r") ∈ labels nodes <-> k ∈ R /\ k ∉ W) /\
  (forall k l, (k, l) ∈ labels nodes -> l = "r" \/ l = "w").

Lemma labelled_keys R W nodes k : labelled R W nodes -> k ∈ (labels nodes).*1 <-> k ∈ R \/ k ∈ W.
Proof.
  intros (_ & HW & HR & Hl). rewrite list_elem_of_fmap. split.
  - intros ([k' l] & -> & Hin). destruct (Hl _ _ Hin) as [->| ->]; [apply HR in Hin|apply HW in Hin]; tauto.
  - intros H. destruct (decide (k ∈ W)) as [Hw|Hw].
    + exists (k, "w"). split; [done|]. by apply HW.
    + exists (k, "r"). split; [done|]. apply HR. tauto.
Qed.

Lemma relabel_fst k nodes : (labels (relabel k nodes)).*1 = (labels nodes).*1.
Proof.
  induction nodes as [|n nodes IH]; [done|]. cbn [relabel]. case_decide; [done|]. cbn. by f_equal.
Qed.

Definition to_write (k : string) (p : string * string) : string * string := if decide (p.1 = k) then (k, "w") else p.

Lemma to_write_absent k ps : k ∉ ps.*1 -> to_write k <$> ps = ps.
Proof.
  induction ps as [|[x l] ps IH]; intros Hk; [done|]. cbn in Hk. apply not_elem_of_cons in Hk as [Hx Hk].
  cbn [fmap list_fmap]. rewrite IH by done. unfold to_write. cbn. by rewrite decide_False.
Qed.

Lemma relabel_labels k nodes :
  NoDup ((labels nodes).*1) -> (forall x l, (x, l) ∈ labels nodes -> l = "r" \/ l = "w") ->
  labels (relabel k nodes) = to_write k <$> labels nodes.
Proof.
  induction nodes as [|n nodes IH]; intros Hnd Hl; [done|]. cbn in Hnd. apply NoDup_cons in Hnd as [Hn Hnd].
  assert (Label n = "r" \/ Label n = "w") as Hln by (apply (Hl (Key (RWSet n))); left).
  assert (forall x l, (x, l) ∈ labels nodes -> l = "r" \/ l = "w") as Hl' by (intros x l Hx; apply (Hl x); by right).
  cbn [relabel]. destruct (decide (Key (RWSet n) = k /\ Label n = "r")) as [[<- Hr]|Hd].
  - cbn [labels fmap list_fmap]. f_equal; [|symmetry; by apply to_write_absent].
    unfold to_write. cbn. by rewrite decide_True.
  - cbn [labels fmap list_fmap]. f_equal; [|by apply IH]. unfold to_write. cbn.
    destruct (decide (Key (RWSet n) = k)) as [Hk|Hk]; [|done]. rewrite Hk.
    destruct Hln as [Hr| ->]; [tauto|done].
Qed.

Lemma elem_to_write k ps x l :
  k ∈ ps.*1 -> (x, l) ∈ to_write k <$> ps <-> if decide (x = k) then l = "w" else (x, l) ∈ ps.
Proof.
  intros Hk. rewrite list_elem_of_fmap. unfold to_write. split.
  - intros ([y m] & E & Hin). cbn in E. destruct (decide (y = k)) as [->|Hy]; simplify_eq.
    + by rewrite decide_True.
    + by rewrite decide_False.
  - apply list_elem_of_fmap in Hk as ([k' m] & -> & Hk). cbn. destruct (decide (x = k')) as [->|Hx]; [intros ->|intros Hin].
    + exists (k', m). cbn. by rewrite decide_True.
    + exists (x, l). cbn. by rewrite decide_False.
Qed.

Lemma elem_label (x l k m : string) : (x, l) ∈ [(k, m)] <-> x = k /\ l = m.
Proof. rewrite list_elem_of_singleton. split; [by intros [= -> ->]|by intros [-> ->]]. Qed.

Lemma labelled_snoc_nodup R W nodes info k m :
  labelled R W nodes -> k ∉ R -> k ∉ W -> NoDup ((labels (nodes ++ [key_node info m k])).*1).
Proof.
  intros Hl HkR HkW. pose proof (labelled_keys _ _ _ k Hl) as Hkeys. destruct Hl as (Hnd & _).
  rewrite labels_app, fmap_app. apply NoDup_app. split_and!; [done| |apply NoDup_singleton].
  intros x Hx ->%list_elem_of_singleton. cbn in Hx. tauto.
Qed.

Lemma labelled_snoc_read R W nodes info k :
  labelled R W nodes -> k ∉ R -> k ∉ W -> labelled (R ++ [k]) W (nodes ++ [key_node info "r" k]).
Proof.
  intros Hl HkR HkW. pose proof (labelled_snoc_nodup _ _ _ info k "r" Hl HkR HkW) as Hnd'.
  destruct Hl as (Hnd & HW & HR & Ha). split_and!; [done|..]; rewrite labels_app; cbn [labels fmap list_fmap key_node Key RWSet Label].
  - intros x. rewrite elem_of_app, HW, elem_label. split; [intros [?|[_ ?]]; done|auto].
  - intros x. rewrite elem_of_app, HR, elem_label, elem_of_app, list_elem_of_singleton.
    split; [|tauto]. intros [?|[-> _]]; tauto.
  - intros x l. rewrite elem_of_app, elem_label. intros [Hx|[_ ->]]; [by eapply Ha|auto].
Qed.

Lemma labelled_snoc_write R W nodes info k :
  labelled R W nodes -> k ∉ R -> k ∉ W -> labelled R (W ++ [k]) (nodes ++ [key_node info "w" k]).
Proof.
  intros Hl HkR HkW. pose proof (labelled_snoc_nodup _ _ _ info k "w" Hl HkR HkW) as Hnd'.
  destruct Hl as (Hnd & HW & HR & Ha). split_and!; [done|..]; rewrite labels_app; cbn [labels fmap list_fmap key_node Key RWSet Label].
  - intros x. rewrite elem_of_app, HW, elem_label, elem_of_app, list_elem_of_singleton. tauto.
  - intros x. rewrite elem_of_app, HR, elem_label, elem_of_app, list_elem_of_singleton.
    split; [|tauto]. intros [[Hx Hn]|[_ ?]]; [|done]. split; [done|]. intros [?| ->]; tauto.
  - intros x l. rewrite elem_of_app, elem_label. intros [Hx|[_ ->]]; [by eapply Ha|auto].
Qed.

Lemma labelled_read info nodes seen R k :
  labelled R [] nodes -> (forall x, x ∈ seen <-> x ∈ R) ->
  let '(nodes', seen') := add_read_key info (nodes, seen) k in
  labelled (R ++ [k]) [] nodes' /\ (forall x, x ∈ seen' <-> x ∈ R ++ [k]).
Proof.
  intros Hl Hseen. cbn. destruct (decide (k ∈ seen)) as [Hk|Hk]; rewrite Hseen in Hk.
  - split; [|set_solver]. destruct Hl as (Hnd & HW & HR & Ha). split_and!; [done|done| |done].
    intros x. rewrite HR, elem_of_app, list_elem_of_singleton. split; [tauto|]. intros [[?| ->] ?]; tauto.
  - split; [|set_solver]. apply labelled_snoc_read; [done|done|apply not_elem_of_nil].
Qed.

Lemma labelled_add_write info nodes seen R W k :
  labelled R W nodes -> (forall x, x ∈ seen <-> x ∈ R \/ x ∈ W) ->
  let '(nodes', seen') := add_write_key info (nodes, seen) k in
  labelled R (W ++ [k]) nodes' /\ (forall x, x ∈ seen' <-> x ∈ R \/ x ∈ W ++ [k]).
Proof.
  intros Hl Hseen. cbn. pose proof (labelled_keys _ _ _ k Hl) as Hkeys. rewrite <- Hseen in Hkeys.
  destruct (decide (k ∈ seen)) as [Hk|Hk].
  - split; [|intros x; rewrite Hseen, elem_of_app, list_elem_of_singleton; rewrite Hseen in Hk; split; [tauto|]; intros [?|[?| ->]]; tauto].
    destruct Hl as (Hnd & HW & HR & Ha). apply Hkeys in Hk as Hk'. unfold labelled. rewrite relabel_fst, relabel_labels by done.
    split_and!; [done|..].
    + intros x. rewrite elem_to_write, elem_of_app, list_elem_of_singleton by done.
      destruct (decide (x = k)); [split; auto|]. rewrite HW. tauto.
    + intros x. rewrite elem_to_write, elem_of_app, list_elem_of_singleton by done.
      destruct (decide (x = k)); [split; [done|tauto]|]. rewrite HR. tauto.
    + intros x l. rewrite elem_to_write by done. destruct (decide (x = k)); [auto|]. apply Ha.
  - split; [|intros x; rewrite elem_of_union, elem_of_singleton, Hseen, elem_of_app, list_elem_of_singleton; tauto].
    rewrite Hseen in Hk. apply labelled_snoc_write; [done|tauto|tauto].
Qed.

Lemma spec_nodes_labelled spec : labelled (ReadKeys spec) (WriteKeys spec) (spec_nodes spec).
Proof.
  unfold spec_nodes. set (info := mkTransInfo _ _).
  assert (forall ks nodes seen R, labelled R [] nodes -> (forall x, x ∈ seen <-> x ∈ R) ->
    let st := foldl (add_read_key info) (nodes, seen) ks in
    labelled (R ++ ks) [] st.1 /\ forall x, x ∈ st.2 <-> x ∈ R ++ ks) as Hreads.
  { induction ks as [|k ks IH]; intros nodes seen R Hl Hs; [by rewrite app_nil_r|]. cbn [foldl].
    pose proof (labelled_read info nodes seen R k Hl Hs) as Hk. destruct (add_read_key info (nodes, seen) k) as [nodes' seen'].
    destruct Hk as [Hl' Hs']. specialize (IH _ _ _ Hl' Hs'). by rewrite <- app_assoc in IH. }
  assert (forall ks nodes seen R W, labelled R W nodes -> (forall x, x ∈ seen <-> x ∈ R \/ x ∈ W) ->
    labelled R (W ++ ks) (foldl (add_write_key info) (nodes, seen) ks).1) as Hwrites.
  { induction ks as [|k ks IH]; intros nodes seen R W Hl Hs; [by rewrite app_nil_r|]. cbn [foldl].
    pose proof (labelled_add_write info nodes seen R W k Hl Hs) as Hk. destruct (add_write_key info (nodes, seen) k) as [nodes' seen'].
    destruct Hk as [Hl' Hs']. specialize (IH _ _ _ _ Hl' Hs'). by rewrite <- app_assoc in IH. }
  destruct (Hreads (ReadKeys spec) [] ∅ []) as [Hl Hs].
  { unfold labelled. cbn. split_and!; [constructor|..]; intros; rewrite ?elem_of_nil; try done; [tauto|]. by apply elem_of_nil in H. }
  { intros x. rewrite elem_of_nil. set_solver. }
  destruct (foldl (add_read_key info) ([], ∅) (ReadKeys spec)) as [nodes seen]. cbn in Hl, Hs.
  apply (Hwrites (WriteKeys spec) nodes seen (ReadKeys spec) [] Hl). intros x. rewrite Hs, elem_of_nil. tauto.
Qed.

(** ** The contexts of the predictions *)
Lemma context_fold_dom nodes R W D :
  dom (foldl context_node (R, W, D) nodes).1.1 = dom R ∪ list_to_set (filter (fun p => p.2 = "r") (labels nodes)).*1 /\
  dom (foldl context_node (R, W, D) nodes).1.2 = dom W ∪ list_to_set (filter (fun p => p.2 = "w") (labels nodes)).*1.
Proof.
  revert R W D; induction nodes as [|n nodes IH]; intros R W D; [cbn; split; set_solver|].
  cbn [foldl labels fmap list_fmap]. unfold context_node at 2 4, isRead, isWrite, ConvertByte2String. rewrite !filter_cons. cbn [snd].
  destruct (String.eqb_spec (Label n) "r") as [Hr|Hr]; [|destruct (String.eqb_spec (Label n) "w") as [Hw|Hw]].
  - destruct (IH (<[Key (RWSet n) := Value (RWSet n)]> R) W D) as [-> ->].
    rewrite decide_True by done. rewrite (decide_False (P := Label n = "w")) by (rewrite Hr; done).
    rewrite dom_insert_L. cbn. split; [set_solver|done].
  - set (D' := <[_ := _]> D). destruct (IH R (<[Key (RWSet n) := Value (RWSet n)]> W) D') as [-> ->].
    rewrite (decide_False (P := Label n = "r")) by done. rewrite decide_True by done.
    rewrite dom_insert_L. cbn. split; [done|set_solver].
  - destruct (IH R W D) as [-> ->]. by rewrite !decide_False by done.
Qed.

Lemma spec_context_keys spec txID c f a1 a2 from to :
  let ctx := RWNodesToContext txID c f a1 a2 (spec_nodes spec) from to in
  TxID ctx = txID /\ dom (PreWriteSet ctx) = list_to_set (WriteKeys spec) /\
  dom (PreReadSet ctx) = list_to_set (ReadKeys spec) ∖ list_to_set (WriteKeys spec).
Proof.
  unfold RWNodesToContext. pose proof (context_fold_dom (spec_nodes spec) ∅ ∅ ∅) as [HR HW].
  destruct (spec_nodes_labelled spec) as (_ & Hlw & Hlr & _).
  destruct (foldl context_node (∅, ∅, ∅) (spec_nodes spec)) as [[R W] D]. cbn in *. split; [done|].
  assert (forall l x, x ∈ (filter (fun p => p.2 = l) (labels (spec_nodes spec))).*1 <-> (x, l) ∈ labels (spec_nodes spec)) as Hf.
  { intros l x. rewrite list_elem_of_fmap. setoid_rewrite list_elem_of_filter. split.
    - intros ([y m] & -> & Hm & Hin). cbn in *. by subst.
    - intros Hin. by exists (x, l). }
  rewrite HR, HW. split; apply set_eq; intros x; rewrite dom_empty_L, elem_of_union, elem_of_list_to_set, Hf, elem_of_empty.
  - rewrite Hlw, elem_of_list_to_set. tauto.
  - rewrite Hlr, elem_of_difference, !elem_of_list_to_set. tauto.
Qed.

Definition usable (spec : option ReplayRWSet) : bool := match spec with Some s => Success s | None => false end.

(** The input after the predictions [0..n) were visited. *)
Definition built (refs : list ReplayRef) (specs : list (option ReplayRWSet)) (n : nat) (st : replay_input) : Prop :=
  (forall i ref, i < n -> refs !! i = Some ref -> txIDToIdx st !! TxHash ref = Some i) /\
  (forall id ctx, in_contexts st !! id = Some ctx -> TxID ctx = id /\ exists i ref s, i < n /\ refs !! i = Some ref /\ TxHash ref = id /\
     specs !! i = Some (Some s) /\ Success s = true /\
     dom (PreWriteSet ctx) = list_to_set (WriteKeys s) /\ dom (PreReadSet ctx) = list_to_set (ReadKeys s) ∖ list_to_set (WriteKeys s)) /\
  (forall i ref spec, i < n -> refs !! i = Some ref -> specs !! i = Some spec ->
     if usable spec then is_Some (in_contexts st !! TxHash ref) else TxHash ref ∈ in_serial st) /\
  (forall id, id ∈ in_serial st -> exists i ref spec, i < n /\ refs !! i = Some ref /\ TxHash ref = id /\ specs !! i = Some spec /\ usable spec = false).

Lemma hash_inj refs i j r1 r2 :
  NoDup (TxHash <$> refs) -> refs !! i = Some r1 -> refs !! j = Some r2 -> TxHash r1 = TxHash r2 -> i = j.
Proof.
  intros Hnd H1 H2 E. eapply (NoDup_lookup (TxHash <$> refs)); [done|..]; rewrite list_lookup_fmap.
  - by rewrite H1.
  - by rewrite H2, E.
Qed.

Section add.
Context (refs : list ReplayRef) (specs : list (option ReplayRWSet)) (i : nat) (ref : ReplayRef) (st : replay_input).
Hypothesis Hnd : NoDup (TxHash <$> refs).
Hypothesis Href : refs !! i = Some ref.
Hypothesis Hst : built refs specs i st.

Lemma earlier_hash j r : j < i -> refs !! j = Some r -> TxHash ref <> TxHash r.
Proof. intros Hj Hr E. pose proof (hash_inj _ _ _ _ _ Hnd Href Hr E). lia. Qed.

Lemma idx_built j r : j < S i -> refs !! j = Some r -> <[TxHash ref := i]> (txIDToIdx st) !! TxHash r = Some j.
Proof.
  intros Hj Hr. destruct (decide (j = i)) as [->|]; [simplify_eq; by rewrite lookup_insert_eq|].
  rewrite lookup_insert_ne by (apply (earlier_hash j); [lia|done]). apply Hst; [lia|done].
Qed.

Lemma add_context_built s :
  specs !! i = Some (Some s) -> Success s = true -> built refs specs (S i) (add_context st i (TxHash ref) (spec_nodes s)).
Proof.
  intros Hs Hok. destruct Hst as (_ & H2 & H3 & H4).
  destruct (spec_context_keys s (TxHash ref) ReplayContractName EmptyString 0 0 EmptyString EmptyString) as (Hid & HW & HR).
  split; [apply idx_built|]. cbn [add_context in_contexts in_serial]. split_and!.
  - intros id ctx. destruct (decide (TxHash ref = id)) as [<-|Hne].
    + rewrite lookup_insert_eq. intros [= <-]. split; [done|]. exists i, ref, s. split_and!; [lia|done..].
    + rewrite lookup_insert_ne by done. intros Hc. destruct (H2 id ctx Hc) as (Ht & j & r & s' & Hj & Hrest).
      split; [done|]. exists j, r, s'. split; [lia|done].
  - intros j r sp Hj Hr Hsp. destruct (decide (j = i)) as [->|Hne].
    + simplify_eq. cbn [usable]. rewrite Hok, lookup_insert_eq. eauto.
    + specialize (H3 j r sp ltac:(lia) Hr Hsp). destruct (usable sp); [|done].
      rewrite lookup_insert_ne by (apply (earlier_hash j); [lia|done]). done.
  - intros id Hin. destruct (H4 id Hin) as (j & r & sp & Hj & Hrest). exists j, r, sp. split; [lia|done].
Qed.

Lemma add_serial_built spec :
  specs !! i = Some spec -> usable spec = false -> built refs specs (S i) (add_serial st i (TxHash ref)).
Proof.
  intros Hs Hu. destruct Hst as (_ & H2 & H3 & H4).
  split; [apply idx_built|]. cbn [add_serial in_contexts in_serial]. split_and!.
  - intros id ctx Hc. destruct (H2 id ctx Hc) as (Ht & j & r & s' & Hj & Hrest). split; [done|]. exists j, r, s'. split; [lia|done].
  - intros j r sp Hj Hr Hsp. destruct (decide (j = i)) as [->|Hne].
    + simplify_eq. rewrite Hu. apply elem_of_app. right. left.
    + specialize (H3 j r sp ltac:(lia) Hr Hsp). destruct (usable sp); [done|]. apply elem_of_app. auto.
  - intros id [Hin|Hin%list_elem_of_singleton]%elem_of_app.
    + destruct (H4 id Hin) as (j & r & sp & Hj & Hrest). exists j, r, sp. split; [lia|done].
    + exists i, ref, spec. split_and!; [lia|done..].
Qed.
End add.

Lemma build_contexts_spec refs specs :
  length specs <= length refs -> NoDup (TxHash <$> refs) ->
  exists st, build_contexts refs specs = Ret st /\ built refs specs (length specs) st.
Proof.
  intros Hlen Hnd. unfold build_contexts.
  destruct (foldM_inv (add_spec refs (RWSetsToRWNodes specs)) (fun pre st => built refs specs (length pre) st)
    (imap pair specs) (mkInput ∅ ∅ [])) as (st & Hst & Hb).
  - split_and!; cbn; intros; try lia; [done|]. by apply elem_of_nil in H.
  - intros pre [i spec] post st Hl Hb.
    assert (imap pair specs !! length pre = Some (i, spec)) as Hi by (rewrite Hl; by apply list_lookup_middle).
    rewrite list_lookup_imap in Hi. destruct (specs !! length pre) as [sp|] eqn:Hsp; [|done]. cbn in Hi. injection Hi as <- <-.
    assert (length pre < length specs) as Hlt by (by apply lookup_lt_Some in Hsp).
    destruct (lookup_lt_is_Some_2 refs (length pre)) as [ref Href]; [lia|].
    unfold add_spec. rewrite Href. cbn [or_panic]. rewrite bind_ret, length_app, Nat.add_1_r.
    destruct sp as [s|]; [destruct (Success s) eqn:Hok|]; cbn [negb].
    + unfold RWSetsToRWNodes. rewrite list_lookup_fmap, Hsp. eexists. split; [reflexivity|]. by apply add_context_built.
    + eexists. split; [reflexivity|]. by eapply add_serial_built.
    + eexists. split; [reflexivity|]. by eapply add_serial_built.
  - exists st. split; [done|]. by rewrite length_imap in Hb.
Qed.
