(* ===== verification/ConflictQueue.v ===== *)
(** * Address queues and the commit order: [core/conflict_queue.go] and
      [core/nezha_variable.go]

    A block becomes one queue per state cell, its reads apart from its writes
    ([CreateGraph]); the queues are ranked ([QueuesSort]); each queue in turn
    gives sequence numbers to the transactions of its nodes or aborts them
    ([sortInQueue]); transactions that share a number commit together
    ([DeSS]).  The variable scheme differs in two places: an empty
    transaction panics, and a second read-modify-write of a cell gets a new
    number where the fixed scheme aborts it.

    [RWNode]s are shared: a queue and the edge of a transaction hold pointers
    to the same nodes.  A pointer is a [nat] and the heap a total function,
    as every pointer of the program comes from [CreateRWNode]. *)
From stdpp Require Import base list list_numbers gmap sets strings sorting.
From Stdlib Require Import ZArith Lia.
From S2P Require Import Prelude AlGraph RWSet.

Set Default Goal Selector "!".
Local Open Scope string_scope.
Local Open Scope list_scope.

(** ** Data *)
Abbreviation ptr := nat.
Definition heap := ptr -> RWNode.

Record Queue := mkQueue { rSlice : list ptr; wSlice : list ptr; maxRead : Z; maxWrite : Z }.
Record Edge := mkEdge { set : list ptr; isAborted : bool }.
Record QueueGraph := mkQueueGraph { Queues : gmap string Queue; Edges : gmap string Edge }.

#[global] Instance RWPair_eq_dec : EqDecision RWPair.
Proof. solve_decision. Defined.
#[global] Instance TransInfo_eq_dec : EqDecision TransInfo.
Proof. solve_decision. Defined.
#[global] Instance RWNode_eq_dec : EqDecision RWNode.
Proof. solve_decision. Defined.

Definition initialSequence : Z := 10.

Definition txid (h : heap) (p : ptr) : string := ID (Trans (h p)).
Definition key_of (h : heap) (p : ptr) : string := CompositeKey (h p).

(** ** Writes through a pointer *)
Definition store (h : heap) (p : ptr) (n : RWNode) : heap := fun q => if decide (q = p) then n else h q.
Definition with_sequence (s : Z) (n : RWNode) : RWNode :=
  mkRWNode (RWSet n) (Trans n) (Label n) s (isAssigned n) (ContractName n).
Definition with_assigned (n : RWNode) : RWNode :=
  mkRWNode (RWSet n) (Trans n) (Label n) (Sequence n) true (ContractName n).

Definition assignSequence (h : heap) (rw : ptr) (edge : list ptr) : heap :=
  foldl (fun h e => if decide (h rw = h e) then h else store h e (with_sequence (Sequence (h rw)) (h e))) h edge.

(** [cq.Edges[id]], whose fields panic when the key is absent. *)
Definition edge_of (E : gmap string Edge) (id : string) : outcome Edge := or_panic (E !! id).

(** [p.Sequence = s; p.isAssigned = true; p.assignSequence(cq.Edges[id].set)] *)
Definition assign_tx (h : heap) (E : gmap string Edge) (p : ptr) (s : Z) : outcome heap :=
  let h := store h p (with_assigned (with_sequence s (h p))) in
  edge_of E (txid h p) ≫= fun e => Ret (assignSequence h p (set e)).

(** ** CreateGraph *)
Definition initialSorting (h : heap) (queue : list ptr) : list ptr * list ptr :=
  (filter (fun p => isRead (h p) = true) queue, filter (fun p => isRead (h p) = false) queue).

Definition add_to_queue (h : heap) (m : gmap string (list ptr)) (p : ptr) : gmap string (list ptr) :=
  <[key_of h p := default [] (m !! key_of h p) ++ [p]]> m.

Abbreviation graph_tables := (gmap string Edge * gmap string (list ptr))%type.

Definition create_tx (h : heap) (st : graph_tables) (rw : list ptr) (p0 : ptr) : graph_tables :=
  (<[txid h p0 := mkEdge rw false]> st.1, foldl (add_to_queue h) st.2 rw).

Definition make_queue (h : heap) (ps : list ptr) : Queue :=
  let '(r, w) := initialSorting h ps in mkQueue r w 0 0.

Definition CreateGraph (h : heap) (rwNodes : list (list ptr)) : QueueGraph :=
  let '(edges, queueArray) :=
    foldl (fun st rw => match rw with [] => st | p0 :: _ => create_tx h st rw p0 end) (∅, ∅) rwNodes in
  mkQueueGraph (make_queue h <$> queueArray) edges.

Definition CreateVariableGraph (h : heap) (rwNodes : list (list ptr)) : outcome QueueGraph :=
  foldM (fun st rw => or_panic (head rw) ≫= fun p0 => Ret (create_tx h st rw p0)) (∅, ∅) rwNodes
  ≫= fun '(edges, queueArray) => Ret (mkQueueGraph (make_queue h <$> queueArray) edges).

(** ** QueuesSort *)

(** The cells read by the transactions that write the cell of a queue. *)
Definition dep_keys (h : heap) (E : gmap string Edge) (q : Queue) : outcome (gset string) :=
  foldM (fun temp w =>
    edge_of E (txid h w) ≫= fun e =>
    Ret (foldl (fun temp n =>
      if isRead (h n) && negb (bool_decide (key_of h n = key_of h w)) then {[key_of h n]} ∪ temp else temp)
      temp (set e))) ∅ (wSlice q).

Definition index_map (l : list string) : gmap string nat :=
  foldl (fun m p => <[p.2 := p.1]> m) ∅ (imap pair l).

(** [rng key s] is the order in which Go ranges over the set [s] collected
    for the queue [key]. *)
Definition QueuesSort (rng : string -> gset string -> list string) (h : heap) (cq : QueueGraph) :
    outcome (list string) :=
  let sortedStrings := sort_strings (elements (dom (Queues cq))) in
  let sortedQueues := index_map sortedStrings in
  let index_of k := default 0 (sortedQueues !! k) in
  foldM (fun dep key =>
    or_panic (Queues cq !! key) ≫= fun q =>
    dep_keys h (Edges cq) q ≫= fun temp =>
    Ret (<[index_of key := index_of <$> rng key temp]> dep))
    (∅ : gmap nat (list nat)) (elements (dom (Queues cq))) ≫= fun depQueue =>
  let deps := (fun i => default [] (depQueue !! i)) <$> seq 0 (size depQueue) in
  AdvancedTopologicalSort (S (length deps)) (Init empty_AlGraph deps) ≫= fun '(_, order) =>
  foldM (fun sequence o =>
    if decide (0 < length sortedStrings)
    then or_panic (sortedStrings !! o) ≫= fun str => Ret (sequence ++ [str])
    else Ret sequence) [] order.

(** ** sortInQueue *)

(** Reads whose transaction already has a number and is not aborted. *)
Definition determined_reads (h : heap) (E : gmap string Edge) (rs : list ptr) : outcome (list ptr) :=
  foldM (fun acc r =>
    if decide (Sequence (h r) = 0%Z) then Ret acc else
    edge_of E (txid h r) ≫= fun e => Ret (if isAborted e then acc else acc ++ [r])) [] rs.

(** First branch: no read is determined, all start at [initialSequence]. *)
Definition initial_reads (E : gmap string Edge) (h : heap) (mr : Z) (rs : list ptr) : outcome (heap * Z) :=
  foldM (fun '(h, mr) r =>
    assign_tx h E r initialSequence ≫= fun h => Ret (h, Sequence (h r))) (h, mr) rs.

(** Second branch: the least and the largest number among the determined reads... *)
Definition read_bound (st : heap * Z * Z) (tr : ptr) : heap * Z * Z :=
  let '(h, mn, mr) := st in
  let h := store h tr (with_assigned (h tr)) in
  (h, if decide (Sequence (h tr) < mn)%Z then Sequence (h tr) else mn,
      if decide (mr < Sequence (h tr))%Z then Sequence (h tr) else mr).

Definition read_bounds (h : heap) (mr : Z) (tmpR : list ptr) : heap * Z * Z :=
  foldl read_bound (h, MaxInt32, mr) tmpR.

(** ... and the least one for the reads not yet numbered. *)
Definition remaining_reads (E : gmap string Edge) (mn : Z) (h : heap) (rs : list ptr) : outcome heap :=
  foldM (fun h r => if decide (Sequence (h r) = 0%Z) then assign_tx h E r (wrap_int32 mn) else Ret h) h rs.

(** The scan of an edge for assigned reads: [(isSame, isBefore)]. *)
Fixpoint scan_edge (h : heap) (w : ptr) (edge : list ptr) (isBefore : bool) : bool * bool :=
  match edge with
  | [] => (false, isBefore)
  | rw :: edge =>
    if isRead (h rw) && isAssigned (h rw) then
      if decide (key_of h w = key_of h rw) then (true, isBefore) else scan_edge h w edge true
    else scan_edge h w edge isBefore
  end.

Abbreviation write_classes := (gmap string Edge * list ptr * gmap Z (list ptr))%type.

Definition push_write (m : gmap Z (list ptr)) (s : Z) (w : ptr) : gmap Z (list ptr) :=
  <[s := default [] (m !! s) ++ [w]]> m.

Definition abort (E : gmap string Edge) (id : string) : gmap string Edge :=
  alter (fun e => mkEdge (set e) true) id E.

(** Numbered writes: [tmpWQueue], aborted, or [tmpWQueue2]. *)
Definition classify_write (h : heap) (mr : Z) (st : write_classes) (w : ptr) : outcome write_classes :=
  let '(E, tmpW, tmpW2) := st in
  let s := Sequence (h w) in
  if decide (s = 0%Z) then Ret st else
  edge_of E (txid h w) ≫= fun e =>
  if isAborted e then Ret st else
  if decide (s <= mr)%Z then
    let '(isSame, isBefore) := scan_edge h w (set e) false in
    if isSame : bool then Ret (E, tmpW ++ [w], tmpW2)
    else if isBefore : bool then Ret (abort E (txid h w), tmpW, tmpW2)
    else Ret (E, tmpW, push_write tmpW2 s w)
  else Ret (E, tmpW, push_write tmpW2 s w).

Abbreviation sort_state := (heap * gmap string Edge * Z * Z)%type.  (* heap, Edges, maxRead, maxWrite *)

(** A read-modify-write gets the next number... *)
Definition bump_write (st : sort_state) (w : ptr) : outcome sort_state :=
  let '(h, E, mr, mw) := st in
  let s := wrap_int32 (mw + 1) in
  assign_tx h E w s ≫= fun h => Ret (h, E, s, s).

(** ... in the fixed scheme only the first one, the others are aborted. *)
Definition adjust_same (st : sort_state) (tmpW : list ptr) : outcome sort_state :=
  foldM (fun st iw =>
    if decide (iw.1 = 0) then bump_write st iw.2 else
    let '(h, E, mr, mw) := st in
    edge_of E (txid h iw.2) ≫= fun _ => Ret (h, abort E (txid h iw.2), mr, mw)) st (imap pair tmpW).

Definition variable_adjust_same (st : sort_state) (tmpW : list ptr) : outcome sort_state :=
  foldM bump_write st tmpW.

Definition isExist (slice : list Z) (n : Z) : bool := existsb (Z.eqb n) slice.

(** [for i := maxWrite + 1; i < math.MaxInt32; i++ { if !isExist(keys, i) ... }];
    among [length keys + 1] consecutive numbers one is not in [keys]. *)
Fixpoint find_free (fuel : nat) (keys : list Z) (i : Z) : option Z :=
  match fuel with
  | 0 => None
  | S fuel => if decide (i < MaxInt32)%Z then if isExist keys i then find_free fuel keys (i + 1) else Some i else None
  end.

Definition fresh_write (keys : list Z) (st : sort_state) (w : ptr) : outcome sort_state :=
  let '(h, E, mr, mw) := st in
  if decide (Sequence (h w) = 0%Z) then
    match find_free (S (length keys)) keys (wrap_int32 (mw + 1)) with
    | Some i => assign_tx h E w i ≫= fun h => Ret (h, E, mr, i)
    | None => Ret st
    end
  else Ret st.

(** The last loop: numbers that are taken, or not above the reads, move up. *)
Definition remaining_write (n : Z) (st : sort_state) (iw : nat * ptr) : outcome sort_state :=
  let '(h, E, mr, mw) := st in
  if bool_decide (mr < n)%Z && bool_decide (iw.1 = 0) then Ret st else
  let s := wrap_int32 (mw + 1) in
  assign_tx h E iw.2 s ≫= fun h => Ret (h, E, mr, s).

Definition remaining_writes (tmpW2 : gmap Z (list ptr)) (keys : list Z) (st : sort_state) : outcome sort_state :=
  foldM (fun st n => foldM (remaining_write n) st (imap pair (default [] (tmpW2 !! n)))) st keys.

(** Reads of the queue. *)
Definition sort_reads (h : heap) (E : gmap string Edge) (queue : Queue) : outcome (heap * Z) :=
  determined_reads h E (rSlice queue) ≫= fun tmpR =>
  match tmpR with
  | [] => initial_reads E h (maxRead queue) (rSlice queue)
  | _ =>
    let '(h, mn, mr) := read_bounds h (maxRead queue) tmpR in
    remaining_reads E mn h (rSlice queue) ≫= fun h => Ret (h, mr)
  end.

(** Writes of the queue; [adjust] is the treatment of [tmpWQueue]. *)
Definition sort_writes (adjust : sort_state -> list ptr -> outcome sort_state)
    (h : heap) (E : gmap string Edge) (ws : list ptr) (mr : Z) : outcome sort_state :=
  foldM (classify_write h mr) (E, [], ∅) ws ≫= fun '(E, tmpW, tmpW2) =>
  let keys := sort_ints (elements (dom tmpW2)) in
  let mw := if decide (mr = 0%Z) then (initialSequence - 1)%Z else mr in
  adjust (h, E, mr, mw) tmpW ≫= fun st =>
  foldM (fresh_write keys) st ws ≫= fun '(h, E, mr, mw) =>
  let mw := match last keys with
            | Some maxSeq => if decide (mw < maxSeq)%Z then maxSeq else mw
            | None => mw
            end in
  remaining_writes tmpW2 keys (h, E, mr, mw).

Definition sortInQueue (h : heap) (E : gmap string Edge) (queue : Queue) :
    outcome (heap * gmap string Edge * Queue) :=
  sort_reads h E queue ≫= fun '(h, mr) =>
  sort_writes adjust_same h E (wSlice queue) mr ≫= fun '(h, E, mr, mw) =>
  Ret (h, E, mkQueue (rSlice queue) (wSlice queue) mr mw).

Definition variable_sortInQueue (h : heap) (E : gmap string Edge) (queue : Queue) :
    outcome (heap * gmap string Edge * Queue) :=
  sort_reads h E queue ≫= fun '(h, mr) =>
  sort_writes variable_adjust_same h E (wSlice queue) mr ≫= fun '(h, E, mr, mw) =>
  Ret (h, E, mkQueue (rSlice queue) (wSlice queue) mr mw).

(** ** DeSS *)
Definition sorter := heap -> gmap string Edge -> Queue -> outcome (heap * gmap string Edge * Queue).

Definition sort_queues (sortIn : sorter) (h : heap) (cq : QueueGraph) (sequence : list string) :
    outcome (heap * QueueGraph) :=
  foldM (fun '(h, cq) s =>
    or_panic (Queues cq !! s) ≫= fun queue =>
    sortIn h (Edges cq) queue ≫= fun '(h, E, queue) =>
    Ret (h, mkQueueGraph (<[s := queue]> (Queues cq)) E)) (h, cq) sequence.

Abbreviation commit_order := (gmap Z (list (list ptr))).

(** The write nodes of a transaction that was not aborted, under its number. *)
Definition commit_tx (h : heap) (E : gmap string Edge) (co : commit_order) (t : string) : outcome commit_order :=
  edge_of E t ≫= fun e =>
  if isAborted e then Ret co else
  let wNodes := filter (fun p => isWrite (h p) = true) (set e) in
  or_panic (head (set e)) ≫= fun p0 =>
  let seq := Sequence (h p0) in
  Ret (<[seq := default [] (co !! seq) ++ [wNodes]]> co).

(** [rng] is the order in which Go ranges over [cq.Edges]. *)
Definition DeSS (sortIn : sorter) (rng : gset string -> list string) (h : heap) (cq : QueueGraph)
    (sequence : list string) : outcome (heap * QueueGraph * commit_order) :=
  sort_queues sortIn h cq sequence ≫= fun '(h, cq) =>
  foldM (commit_tx h (Edges cq)) ∅ (rng (dom (Edges cq))) ≫= fun co => Ret (h, cq, co).

Definition GetRWNums (cq : QueueGraph) : nat :=
  map_fold (fun _ q n => length (rSlice q) + length (wSlice q) + n) 0 (Queues cq).

Definition GetAbortedNums (cq : QueueGraph) : nat :=
  map_fold (fun _ e n => if isAborted e then S n else n) 0 (Edges cq).

(** [ProcessTransactions] of the variable scheme. *)
Definition ProcessTransactions (rngQ : string -> gset string -> list string) (rngE : gset string -> list string)
    (h : heap) (txs : list (list ptr)) : outcome (commit_order * nat) :=
  CreateVariableGraph h txs ≫= fun graph =>
  QueuesSort rngQ h graph ≫= fun sequence =>
  DeSS variable_sortInQueue rngE h graph sequence ≫= fun '(h, graph, commitOrder) =>
  Ret (commitOrder, GetAbortedNums graph).

(** ** Running a block *)

(** A heap and the pointer lists of a block given as node values. *)
Fixpoint layout (next : nat) (txs : list (list RWNode)) : list (list ptr) :=
  match txs with
  | [] => []
  | tx :: txs => seq next (length tx) :: layout (next + length tx) txs
  end.
Definition heap_of (txs : list (list RWNode)) : heap :=
  fun p => default (node_of EmptyString (mkTransInfo EmptyString 0) EmptyString (EmptyString, EmptyString))
             (mjoin txs !! p).

Definition show_commits (h : heap) (co : commit_order) : list (Z * list string) :=
  (fun p : Z * list (list ptr) => (p.1, (fun ws => from_option (txid h) EmptyString (head ws)) <$> p.2)) <$> map_to_list co.

Definition nezha (sortIn : sorter) (rngQ : string -> gset string -> list string) (rngE : gset string -> list string)
    (txs : list (list RWNode)) : outcome (list string * list (Z * list string)) :=
  let h := heap_of txs in
  let cq := CreateGraph h (layout 0 txs) in
  QueuesSort rngQ h cq ≫= fun sequence =>
  DeSS sortIn rngE h cq sequence ≫= fun r =>
  Ret (sequence, show_commits r.1.1 r.2).

Definition node (label id key : string) : RWNode := node_of label (mkTransInfo id 0) "c" (key, "v").

(** Write skew: T1 reads a and b and writes b, T2 reads b and writes a. *)
Definition skew_block : list (list RWNode) :=
  [[node "r" "T1" "a"; node "r" "T1" "b"; node "w" "T1" "b"];
   [node "r" "T2" "b"; node "w" "T2" "a"]].

Example skew_run : nezha sortInQueue (fun _ => elements) elements skew_block = Ret (["c:a"; "c:b"], [(11%Z, ["T2"]); (12%Z, ["T1"])]).
Proof. vm_compute. reflexivity. Qed.
