(* ===== verification/QueueOrder.v ===== *)
(** * The numbers a queue gives are a serial order of its cell

    What [sortInQueue] of [core/conflict_queue.go] guarantees of one queue:
    all nodes of a transaction carry the same number, among the transactions
    left a reader of the cell comes strictly before every other writer of it,
    and two writers never share a number. *)
From stdpp Require Import base list list_numbers gmap sets strings sorting.
From Stdlib Require Import ZArith Lia.
From S2P Require Import Prelude AlGraph RWSet ConflictQueue.

Set Default Goal Selector "!".
Local Open Scope string_scope.
Local Open Scope list_scope.

(** ** Assigning a number to a transaction *)

(** The part of a node that no operation changes. *)
Definition shape (n : RWNode) := (RWSet n, Trans n, Label n, ContractName n).

Lemma shape_txid (h h' : heap) p : shape (h p) = shape (h' p) -> txid h p = txid h' p.
Proof. unfold shape, txid. by intros [= _ -> _ _]. Qed.
Lemma shape_key (h h' : heap) p : shape (h p) = shape (h' p) -> key_of h p = key_of h' p.
Proof. unfold shape, key_of, CompositeKey. by intros [= -> _ _ ->]. Qed.
Lemma shape_isRead (h h' : heap) p : shape (h p) = shape (h' p) -> isRead (h p) = isRead (h' p).
Proof. unfold shape, isRead. by intros [= _ _ -> _]. Qed.

(** Whatever [reflect.DeepEqual] skips already has the number. *)
Lemma assignSequence_spec h p edge q :
  assignSequence h p edge q
  = if decide (q ∈ edge) then with_sequence (Sequence (h p)) (h q) else h q.
Proof.
  unfold assignSequence.
  enough (forall edge h', Sequence (h' p) = Sequence (h p) ->
    foldl (fun h e => if decide (h p = h e) then h else store h e (with_sequence (Sequence (h p)) (h e))) h' edge q
    = if decide (q ∈ edge) then with_sequence (Sequence (h p)) (h' q) else h' q) as H by (by apply H).
  clear edge. induction edge as [|e edge IH]; intros h' Hp; [done|]. cbn [foldl].
  assert (forall n : RWNode, Sequence n = Sequence (h p) -> with_sequence (Sequence (h p)) n = n) as Hid.
  { intros n <-. by destruct n. }
  destruct (decide (h' p = h' e)) as [E|E].
  - rewrite IH by done. destruct (decide (q ∈ edge)) as [Hq|Hq]; [by rewrite decide_True by set_solver|].
    destruct (decide (q = e)) as [->|Hne]; [|by rewrite decide_False by set_solver].
    rewrite decide_True by set_solver. rewrite Hid; [done|]. by rewrite <- E.
  - rewrite IH.
    2: { unfold store. destruct (decide (p = e)) as [->|]; [by rewrite <- Hp|done]. }
    unfold store. destruct (decide (q = e)) as [->|Hne].
    + rewrite (decide_True (P := e ∈ e :: edge)) by set_solver. rewrite Hp. by destruct (decide (e ∈ edge)).
    + destruct (decide (q ∈ edge)); [rewrite decide_True by set_solver|rewrite decide_False by set_solver]; done.
Qed.

(** Updating the number of one transaction. *)
Definition upd (S : string -> Z) (t : string) (s : Z) : string -> Z := fun u => if decide (u = t) then s else S u.

Lemma upd_eq S t s : upd S t s t = s.
Proof. unfold upd. by rewrite decide_True. Qed.
Lemma upd_ne S t s u : u <> t -> upd S t s u = S u.
Proof. intros. unfold upd. by rewrite decide_False. Qed.

Section sort.
Context (h0 : heap) (sets : gmap string (list ptr)).
Hypothesis Hsets : forall id l p, sets !! id = Some l -> p ∈ l -> txid h0 p = id.

Local Abbreviation id := (txid h0).

(** The node belongs to the edge of its transaction. *)
Definition owned (p : ptr) : Prop := exists l, sets !! id p = Some l /\ p ∈ l.

Definition aborted (E : gmap string Edge) (t : string) : bool := from_option isAborted false (E !! t).

(** The heap gives every node of transaction [t] the number [S t]. *)
Record good (h : heap) (E : gmap string Edge) (S : string -> Z) : Prop := {
  good_shape : forall p, shape (h p) = shape (h0 p);
  good_sets : set <$> E = sets;
  good_seq : forall p, owned p -> Sequence (h p) = S (id p) }.

Lemma good_txid h E S p : good h E S -> txid h p = id p.
Proof. intros G. by apply shape_txid, G. Qed.
Lemma good_key h E S p : good h E S -> key_of h p = key_of h0 p.
Proof. intros G. by apply shape_key, G. Qed.
Lemma good_isRead h E S p : good h E S -> isRead (h p) = isRead (h0 p).
Proof. intros G. by apply shape_isRead, G. Qed.

Lemma good_edge h E S p :
  good h E S -> owned p -> exists e, E !! id p = Some e /\ sets !! id p = Some (set e) /\ p ∈ set e.
Proof.
  intros G (l & Hl & Hp). pose proof Hl as Hl'. rewrite <- (good_sets _ _ _ G), lookup_fmap in Hl'.
  destruct (E !! id p) as [e|]; [|done]. injection Hl' as <-. by exists e.
Qed.

Lemma assign_tx_good h E S p s :
  good h E S -> owned p ->
  exists h', assign_tx h E p s = Ret h' /\ good h' E (upd S (id p) s) /\
    forall q, isAssigned (h' q) = (bool_decide (q = p) || isAssigned (h q)).
Proof.
  intros G Hp. destruct (good_edge h E S p G Hp) as (e & He & Hs & Hpe).
  unfold assign_tx. set (h1 := store h p _).
  assert (forall q, shape (h1 q) = shape (h0 q)) as Hsh.
  { intros q. unfold h1, store. destruct (decide (q = p)) as [->|]; [|apply G].
    rewrite <- (good_shape _ _ _ G p). by destruct (h p). }
  rewrite (shape_txid h1 h0 p) by apply Hsh. unfold edge_of. rewrite He. cbn [or_panic mbind outcome_bind].
  assert (Sequence (h1 p) = s) as Hseq by (unfold h1, store; by rewrite decide_True).
  eexists. split; [done|]. split; [split|].
  - intros q. rewrite assignSequence_spec, <- (Hsh q). by destruct (decide _).
  - apply G.
  - intros q Hq. rewrite assignSequence_spec, Hseq. destruct (decide (q ∈ set e)) as [Hqe|Hqe].
    + rewrite (Hsets _ _ _ Hs Hqe). by rewrite upd_eq.
    + rewrite upd_ne.
      * unfold h1, store. destruct (decide (q = p)) as [->|]; [done|]. by apply G.
      * intros E'. destruct Hq as (l & Hl & Hql). rewrite E', Hs in Hl. by injection Hl as <-.
  - intros q. rewrite assignSequence_spec.
    assert (isAssigned (h1 q) = bool_decide (q = p) || isAssigned (h q)) as Hq.
    { unfold h1, store. destruct (decide (q = p)) as [->|]; [by rewrite bool_decide_eq_true_2|].
      by rewrite bool_decide_eq_false_2. }
    by destruct (decide _).
Qed.

Lemma good_store_assigned h E S p :
  good h E S -> good (store h p (with_assigned (h p))) E S.
Proof.
  intros G. split; [|apply G|].
  - intros q. rewrite <- (good_shape _ _ _ G q). unfold store. destruct (decide (q = p)) as [->|]; [|done].
    by destruct (h p).
  - intros q Hq. rewrite <- (good_seq _ _ _ G q Hq). unfold store.
    by destruct (decide (q = p)) as [->|].
Qed.

Lemma abort_sets E t : set <$> abort E t = set <$> E.
Proof.
  apply map_eq. intros u. unfold abort. rewrite !lookup_fmap.
  destruct (decide (u = t)) as [->|Hne]; [rewrite lookup_alter_eq|by rewrite lookup_alter_ne].
  by destruct (E !! t).
Qed.

Lemma aborted_abort E t u : is_Some (E !! t) -> aborted (abort E t) u = aborted E u || bool_decide (u = t).
Proof.
  intros [e He]. unfold aborted, abort. destruct (decide (u = t)) as [->|Hne].
  - rewrite lookup_alter_eq, He, bool_decide_eq_true_2 by done. cbn. by rewrite orb_true_r.
  - rewrite lookup_alter_ne, bool_decide_eq_false_2 by done. by rewrite orb_false_r.
Qed.

Lemma good_abort h E S t : good h E S -> good h (abort E t) S.
Proof. intros G. split; [apply G| |apply G]. rewrite abort_sets. apply G. Qed.

(** *** Reads *)
Lemma determined_reads_spec h E S rs :
  good h E S -> Forall owned rs ->
  determined_reads h E rs = Ret (filter (fun r => S (id r) <> 0%Z /\ aborted E (id r) = false) rs).
Proof.
  intros G Hrs. unfold determined_reads.
  enough (forall acc, foldM (fun acc r => if decide (Sequence (h r) = 0%Z) then Ret acc else
      edge_of E (txid h r) ≫= fun e => Ret (if isAborted e then acc else acc ++ [r])) acc rs
    = Ret (acc ++ filter (fun r => S (id r) <> 0%Z /\ aborted E (id r) = false) rs)) as H by apply (H []).
  induction Hrs as [|r rs Hr Hrs IH]; intros acc; cbn [foldM]; [by rewrite app_nil_r|].
  rewrite filter_cons. rewrite (good_seq _ _ _ G r Hr). destruct (decide (S (id r) = 0%Z)) as [Ez|Ez].
  { cbn [mbind outcome_bind]. rewrite IH. rewrite decide_False by tauto. done. }
  destruct (good_edge h E S r G Hr) as (e & He & _). unfold edge_of. rewrite (good_txid _ _ _ _ G), He.
  cbn [or_panic mbind outcome_bind]. rewrite IH. unfold aborted. rewrite He. cbn [from_option].
  destruct (isAborted e); [by rewrite decide_False by naive_solver|].
  rewrite decide_True by done. by rewrite <- app_assoc.
Qed.

Definition numbers_in (B : Z) (S : string -> Z) : Prop := forall t, (0 <= S t <= B)%Z.

Lemma numbers_in_upd B S t s : numbers_in B S -> (0 <= s <= B)%Z -> numbers_in B (upd S t s).
Proof. intros HS Hs u. unfold upd. destruct (decide (u = t)); [done|apply HS]. Qed.

Lemma initial_reads_spec h E S mr rs :
  good h E S -> Forall owned rs ->
  exists h' S', initial_reads E h mr rs = Ret (h', match rs with [] => mr | _ => initialSequence end) /\
    good h' E S' /\
    (forall t, S' t = if decide (t ∈ id <$> rs) then initialSequence else S t) /\
    (forall r, isAssigned (h' r) = bool_decide (r ∈ rs) || isAssigned (h r)).
Proof.
  unfold initial_reads. intros G Hrs. revert h S mr G; induction Hrs as [|r rs Hr Hrs IH]; intros h S mr G.
  { exists h, S. split_and!; [done|done|done|]. intros r. done. }
  cbn [foldM]. destruct (assign_tx_good h E S r initialSequence G Hr) as (h1 & -> & G1 & Ha1).
  cbn [mbind outcome_bind]. rewrite (good_seq _ _ _ G1 r Hr), upd_eq.
  destruct (IH h1 _ initialSequence G1) as (h' & S' & Hf & G' & HS' & Ha').
  exists h', S'. split; [etransitivity; [exact Hf|by destruct rs]|]. split; [done|]. split.
  - intros t. rewrite HS'. cbn [fmap list_fmap]. unfold upd.
    destruct (decide (t ∈ id <$> rs)) as [Hin|Hin]; [by rewrite decide_True by set_solver|].
    destruct (decide (t = id r)) as [->|Hne]; [rewrite decide_True by set_solver|rewrite decide_False by set_solver]; done.
  - intros q. rewrite Ha', Ha1, orb_assoc. f_equal.
    apply eq_bool_prop_intro. rewrite orb_True, !bool_decide_spec. set_solver.
Qed.

Lemma read_bounds_spec h E S mr tmpR :
  good h E S -> Forall owned tmpR -> (forall r, r ∈ tmpR -> S (id r) <= MaxInt32)%Z ->
  exists h' mn mr', read_bounds h mr tmpR = (h', mn, mr') /\ good h' E S /\
    (forall r, isAssigned (h' r) = bool_decide (r ∈ tmpR) || isAssigned (h r)) /\
    (forall r, r ∈ tmpR -> (mn <= S (id r) <= mr')%Z) /\
    (mn = MaxInt32 \/ exists r, r ∈ tmpR /\ mn = S (id r)) /\
    (mr' = mr \/ exists r, r ∈ tmpR /\ mr' = S (id r)) /\ (mr <= mr')%Z.
Proof.
  intros G Hrs HB. unfold read_bounds.
  enough (forall l h mn mr, good h E S -> Forall owned l ->
    exists h' mn' mr', foldl read_bound (h, mn, mr) l = (h', mn', mr') /\
    good h' E S /\ (forall r, isAssigned (h' r) = bool_decide (r ∈ l) || isAssigned (h r)) /\
    (forall r, r ∈ l -> (mn' <= S (id r) <= mr')%Z) /\ (mn' <= mn)%Z /\ (mr <= mr')%Z /\
    (mn' = mn \/ exists r, r ∈ l /\ mn' = S (id r)) /\ (mr' = mr \/ exists r, r ∈ l /\ mr' = S (id r))) as H.
  { destruct (H tmpR h MaxInt32 mr G Hrs) as (h' & mn & mr' & ? & ? & ? & ? & ? & ? & ? & ?).
    exists h', mn, mr'. done. }
  clear -Hsets. induction l as [|r l IH]; intros h mn mr G Hl; cbn [foldl].
  { exists h, mn, mr. split_and!; [done..|set_solver|lia|lia|by left|by left]. }
  apply Forall_cons in Hl as [Hr Hl]. pose proof (good_store_assigned h E S r G) as G1.
  unfold read_bound at 2. rewrite (good_seq _ _ _ G1 r Hr).
  destruct (IH _ (if decide (S (id r) < mn)%Z then S (id r) else mn)
    (if decide (mr < S (id r))%Z then S (id r) else mr) G1 Hl)
    as (h' & mn' & mr' & -> & G' & Ha & Hb & Hmn & Hmr & Hmn' & Hmr').
  exists h', mn', mr'. split; [done|]. split; [done|]. split_and!.
  - intros q. rewrite Ha. unfold store. destruct (decide (q = r)) as [->|Hne].
    + rewrite (bool_decide_eq_true_2 (r ∈ r :: l)) by set_solver. cbn. by rewrite orb_true_r.
    + f_equal. apply bool_decide_ext. set_solver.
  - intros q [->|Hq]%elem_of_cons; [|by apply Hb]. repeat case_decide; lia.
  - repeat case_decide; lia.
  - repeat case_decide; lia.
  - destruct Hmn' as [->|(q & ? & ->)]; [|right; exists q; set_solver].
    destruct (decide (S (id r) < mn)%Z); [right; exists r; set_solver|by left].
  - destruct Hmr' as [->|(q & ? & ->)]; [|right; exists q; set_solver].
    destruct (decide (mr < S (id r))%Z); [right; exists r; set_solver|by left].
Qed.

Lemma remaining_reads_spec h E S mn rs :
  good h E S -> Forall owned rs -> (0 < mn <= MaxInt32)%Z ->
  exists h' S', remaining_reads E mn h rs = Ret h' /\ good h' E S' /\
    (forall t, S' t = if decide (t ∈ id <$> rs /\ S t = 0%Z) then mn else S t) /\
    (forall r, isAssigned (h r) = true -> isAssigned (h' r) = true) /\
    (forall r, r ∈ rs -> S (id r) = 0%Z -> exists r', r' ∈ rs /\ id r' = id r /\ isAssigned (h' r') = true).
Proof.
  unfold remaining_reads. intros G Hrs Hmn. revert h S G; induction Hrs as [|r rs Hr Hrs IH]; intros h S G.
  { exists h, S. split_and!; [done|done| |done|set_solver]. intros t. rewrite decide_False by set_solver. done. }
  cbn [foldM]. rewrite (good_seq _ _ _ G r Hr), wrap_int32_id by lia.
  destruct (decide (S (id r) = 0%Z)) as [Ez|Ez].
  - destruct (assign_tx_good h E S r mn G Hr) as (h1 & -> & G1 & Ha1). cbn [mbind outcome_bind].
    destruct (IH h1 _ G1) as (h' & S' & Hf & G' & HS' & Hmono & Has). rewrite wrap_int32_id in Hf by lia.
    exists h', S'. split; [exact Hf|]. split; [done|]. split_and!.
    + intros t. rewrite HS'. unfold upd. destruct (decide (t = id r)) as [->|Hne].
      * rewrite decide_False by lia. rewrite decide_True by set_solver. done.
      * destruct (decide (t ∈ id <$> rs /\ S t = 0%Z)); [rewrite decide_True by set_solver|rewrite decide_False by set_solver]; done.
    + intros q Hq. apply Hmono. rewrite Ha1, Hq. apply orb_true_r.
    + intros q [->|Hq]%elem_of_cons Hz.
      * exists r. split; [left|]. split; [done|]. apply Hmono. rewrite Ha1, bool_decide_eq_true_2; done.
      * destruct (decide (id q = id r)) as [Eq|Eq].
        { exists r. split; [left|]. split; [done|]. apply Hmono. rewrite Ha1, bool_decide_eq_true_2; done. }
        destruct (Has q Hq) as (q' & ? & ? & ?); [by rewrite upd_ne|]. exists q'. set_solver.
  - cbn [mbind outcome_bind]. destruct (IH h S G) as (h' & S' & Hf & G' & HS' & Hmono & Has).
    rewrite wrap_int32_id in Hf by lia. exists h', S'. split; [exact Hf|]. split; [done|]. split_and!; [|done|].
    + intros t. rewrite HS'. destruct (decide (t ∈ id <$> rs /\ S t = 0%Z)); [rewrite decide_True by set_solver; done|].
      rewrite decide_False; [done|]. cbn [fmap list_fmap]. rewrite elem_of_cons. naive_solver.
    + intros q [->|Hq]%elem_of_cons Hz; [done|]. destruct (Has q Hq Hz) as (q' & ? & ? & ?). exists q'. set_solver.
Qed.

(** After the reads: every reader has a number, none above [mr] unless it
    is aborted, and it has an assigned read in this queue. *)
Record reads_sorted (rs : list ptr) (h : heap) (E : gmap string Edge) (S : string -> Z) (mr : Z) : Prop := {
  rd_pos : forall r, r ∈ rs -> (0 < S (id r))%Z;
  rd_le : forall r, r ∈ rs -> aborted E (id r) = false -> (S (id r) <= mr)%Z;
  rd_assigned : forall r, r ∈ rs -> aborted E (id r) = false ->
    exists r', r' ∈ rs /\ id r' = id r /\ isAssigned (h r') = true;
  rd_mr : mr = 0%Z -> rs = [] }.

Lemma sort_reads_spec h E S q B :
  good h E S -> Forall owned (rSlice q) -> maxRead q = 0%Z ->
  numbers_in B S -> (initialSequence <= B <= MaxInt32)%Z ->
  exists h' mr S', sort_reads h E q = Ret (h', mr) /\ good h' E S' /\ numbers_in B S' /\ (0 <= mr <= B)%Z /\
    reads_sorted (rSlice q) h' E S' mr /\
    (forall t, S' t = S t \/ (t ∈ id <$> rSlice q /\ (S t = 0%Z \/ aborted E t = true))).
Proof.
  intros G Hrs Hmr HB HB'. unfold sort_reads. rewrite (determined_reads_spec h E S) by done.
  cbn [mbind outcome_bind]. set (tmpR := filter _ (rSlice q)). rewrite Hmr.
  assert (forall r, r ∈ tmpR <-> r ∈ rSlice q /\ S (id r) <> 0%Z /\ aborted E (id r) = false) as Htmp.
  { intros r. unfold tmpR. rewrite list_elem_of_filter. tauto. }
  destruct tmpR as [|r0 tmpR'] eqn:Et.
  - destruct (initial_reads_spec h E S 0 (rSlice q) G Hrs) as (h' & S' & -> & G' & HS' & Ha).
    eexists h', _, S'. split; [done|]. split; [done|].
    assert (forall r, r ∈ rSlice q -> S' (id r) = initialSequence) as Hini.
    { intros r Hr. rewrite HS', decide_True; [done|]. apply list_elem_of_fmap. eauto. }
    split_and!.
    + intros t. rewrite HS'. destruct (decide _); [unfold initialSequence in *; lia|apply HB].
    + destruct (rSlice q); unfold initialSequence in *; lia.
    + destruct (rSlice q); unfold initialSequence in *; lia.
    + split.
      * intros r Hr. rewrite Hini by done. unfold initialSequence. lia.
      * intros r Hr _. rewrite Hini by done. destruct (rSlice q); [set_solver|lia].
      * intros r Hr _. exists r. rewrite Ha, bool_decide_eq_true_2; done.
      * by destruct (rSlice q).
    + intros t. rewrite HS'. destruct (decide _) as [Hin|]; [right|by left]. split; [done|].
      destruct (decide (S t = 0%Z)); [by left|right]. apply not_false_is_true. intros Hab.
      apply list_elem_of_fmap in Hin as (r & -> & Hr).
      assert (r ∈ @nil ptr) as Hr' by (by apply Htmp). set_solver.
  - rewrite <- Et in *. assert (Forall owned tmpR) as Hown.
    { apply Forall_forall. intros r [Hr _]%Htmp. rewrite Forall_forall in Hrs. by apply Hrs. }
    destruct (read_bounds_spec h E S 0 tmpR G Hown) as (h1 & mn & mr & -> & G1 & Ha1 & Hb & Hmn & Hmr' & Hge).
    { intros r _. pose proof (HB (id r)). lia. }
    assert (r0 ∈ tmpR) as Hr0 by (rewrite Et; left). pose proof Hr0 as (_ & Hr0nz & _)%Htmp.
    pose proof (Hb r0 Hr0) as Hbr0. pose proof (HB (id r0)) as HB0.
    assert (0 < mn <= B)%Z as Hmnpos.
    { destruct Hmn as [->|(r & (_ & Hnz & _)%Htmp & ->)]; [unfold MaxInt32 in *; lia|].
      pose proof (HB (id r)). lia. }
    assert (0 < mr <= B)%Z as Hmrpos.
    { split; [lia|]. destruct Hmr' as [->|(r & _ & ->)]; [lia|apply HB]. }
    destruct (remaining_reads_spec h1 E S mn (rSlice q) G1 Hrs) as (h' & S' & -> & G' & HS' & Hmono & Has); [lia|].
    cbn [mbind outcome_bind]. exists h', mr, S'. split; [done|]. split; [done|]. split_and!; [| lia | lia | |].
    + intros t. rewrite HS'. destruct (decide _); [lia|apply HB].
    + split.
      * intros r Hr. rewrite HS'. pose proof (HB (id r)). destruct (decide _) as [|Hn]; [lia|].
        assert (S (id r) <> 0%Z); [|lia]. intros Hz. apply Hn. split; [apply list_elem_of_fmap; eauto|done].
      * intros r Hr Hab. rewrite HS'. destruct (decide _) as [|Hn]; [lia|].
        apply Hb. apply Htmp. split; [done|]. split; [|done]. intros Hz. apply Hn.
        split; [apply list_elem_of_fmap; eauto|done].
      * intros r Hr Hab. destruct (decide (S (id r) = 0%Z)) as [Hz|Hz]; [by apply Has|].
        exists r. split; [done|]. split; [done|]. apply Hmono. rewrite Ha1, bool_decide_eq_true_2; [done|].
        by apply Htmp.
      * intros ->. lia.
    + intros t. rewrite HS'. destruct (decide _) as [[Hin Hz]|]; [right; auto|by left].
Qed.

(** *** Fresh numbers *)
Lemma isExist_spec keys i : isExist keys i = bool_decide (i ∈ keys).
Proof.
  unfold isExist. apply eq_bool_prop_intro. rewrite bool_decide_spec, Is_true_true, existsb_exists.
  setoid_rewrite Z.eqb_eq. rewrite list_elem_of_In. naive_solver.
Qed.

(** Among the numbers from [i] up to one above all keys there is a free one,
    and [length keys + 1] tries find it. *)
Lemma find_free_spec fuel keys i U :
  length (filter (fun k => i <= k)%Z keys) < fuel -> (forall k, k ∈ keys -> (k <= U)%Z) ->
  (i <= U + 1)%Z -> (U + 1 < MaxInt32)%Z ->
  exists j, find_free fuel keys i = Some j /\ (i <= j <= U + 1)%Z /\ j ∉ keys.
Proof.
  revert i; induction fuel as [|fuel IH]; intros i Hf HU Hi HM; [lia|]. cbn [find_free].
  rewrite decide_True by lia. rewrite isExist_spec. case_bool_decide as Hin; [|exists i; split_and!; [done|lia|lia|done]].
  destruct (IH (i + 1)%Z) as (j & -> & Hj & Hjk); [|done| |done|exists j; split_and!; [done|lia|lia|done]].
  - enough (length (filter (fun k => i + 1 <= k)%Z keys) < length (filter (fun k => i <= k)%Z keys)) by lia.
    rewrite <- (list_filter_filter_l (fun k => i + 1 <= k)%Z (fun k => i <= k)%Z) by (intros; lia).
    apply (length_filter_lt _ _ i); [|lia]. apply list_elem_of_filter. split; [lia|done].
  - specialize (HU i Hin). lia.
Qed.

Lemma fresh_spec E keys mr ws :
  Forall owned ws -> NoDup (id <$> ws) -> forall h S mw U,
  good h E S -> (forall k, k ∈ keys -> (k <= U)%Z) -> (0 <= mw <= U)%Z ->
  (U + Z.of_nat (length ws) < MaxInt32)%Z ->
  exists h' S' mw', foldM (fresh_write keys) (h, E, mr, mw) ws = Ret (h', E, mr, mw') /\ good h' E S' /\
    (mw <= mw' <= U + Z.of_nat (length ws))%Z /\
    (forall t, S' t = S t \/ (t ∈ id <$> ws /\ S t = 0%Z)) /\
    (forall w, w ∈ ws -> S (id w) = 0%Z -> (mw < S' (id w) <= mw')%Z /\ S' (id w) ∉ keys) /\
    (forall w w', w ∈ ws -> w' ∈ ws -> S (id w) = 0%Z -> S (id w') = 0%Z -> id w <> id w' -> S' (id w) <> S' (id w')).
Proof.
  intros Hws. induction Hws as [|w ws Hw Hws IH]; intros Hnd h S mw U G HU Hmw HM.
  { exists h, S, mw. split_and!; [done|done|lia|cbn; lia|by left|set_solver|set_solver]. }
  cbn [fmap list_fmap] in Hnd. apply NoDup_cons in Hnd as [Hni Hnd]. cbn [length] in HM.
  cbn [foldM]. unfold fresh_write at 2. rewrite (good_seq _ _ _ G w Hw).
  destruct (decide (S (id w) = 0%Z)) as [Ez|Ez].
  - rewrite wrap_int32_id by lia.
    destruct (find_free_spec (Datatypes.S (length keys)) keys (mw + 1) U) as (i & -> & Hi & Hik);
      [pose proof (length_filter (fun k => mw + 1 <= k)%Z keys); lia|done|lia|lia|].
    destruct (assign_tx_good h E S w i G Hw) as (h1 & -> & G1 & _). cbn [mbind outcome_bind].
    destruct (IH Hnd h1 _ i (U + 1)%Z G1) as (h' & S' & mw' & -> & G' & Hmw' & HS' & Hfr & Hdist);
      [intros k Hk; specialize (HU k Hk); lia|lia|lia|].
    assert (S' (id w) = i) as Hwi.
    { destruct (HS' (id w)) as [->|[? _]]; [apply upd_eq|done]. }
    assert (forall w', w' ∈ ws -> id w' <> id w) as Hne.
    { intros w' Hw' E'. apply Hni. rewrite <- E'. apply list_elem_of_fmap. eauto. }
    exists h', S', mw'. split_and!; [done|done|lia|cbn; lia| | |].
    + intros t. destruct (decide (t = id w)) as [->|Ht]; [right; split; [set_solver|done]|].
      destruct (HS' t) as [->|[Hin Hz]]; [rewrite upd_ne by done; by left|].
      rewrite upd_ne in Hz by done. right. split; [set_solver|done].
    + intros w' [->|Hw']%elem_of_cons Hz; [rewrite Hwi; split; [lia|done]|].
      destruct (Hfr w' Hw') as [? ?]; [rewrite upd_ne by auto; done|]. split; [lia|done].
    + assert (forall w', w' ∈ ws -> S (id w') = 0%Z -> S' (id w) <> S' (id w')) as Hlt.
      { intros w' Hw' Hz. destruct (Hfr w' Hw') as [? _]; [rewrite upd_ne by auto; done|]. lia. }
      intros w1 w2 [->|H1]%elem_of_cons [->|H2]%elem_of_cons Hz1 Hz2 Hne12; [done|auto|symmetry; auto|].
      apply Hdist; [done..| | |done]; rewrite upd_ne by auto; done.
  - cbn [mbind outcome_bind].
    destruct (IH Hnd h S mw U G HU Hmw) as (h' & S' & mw' & -> & G' & Hmw' & HS' & Hfr & Hdist); [lia|].
    exists h', S', mw'. split_and!; [done|done|lia|cbn; lia| | |].
    + intros t. destruct (HS' t) as [->|[? ?]]; [by left|right; set_solver].
    + intros w' [->|Hw']%elem_of_cons Hz; [done|]. auto.
    + intros w1 w2 [->|H1]%elem_of_cons [->|H2]%elem_of_cons Hz1 Hz2; [done|done|done|auto].
Qed.

(** *** The last loop *)
Lemma foldM_nested {A B} (f : A -> sort_state -> B -> outcome sort_state) (g : A -> list B) st l :
  foldM (fun st a => foldM (f a) st (g a)) st l
  = foldM (fun st ab => f ab.1 st ab.2) st (l ≫= fun a => (fun b => (a, b)) <$> g a).
Proof.
  revert st; induction l as [|a l IH]; intros st; [done|]. cbn [foldM]. cbn [mbind list_bind].
  rewrite foldM_app. assert (forall st bs, foldM (f a) st bs
    = foldM (fun st ab => f ab.1 st ab.2) st ((fun b => (a, b)) <$> bs)) as ->.
  { clear. intros st bs. revert st; induction bs as [|b bs IH]; intros st; [done|].
    cbn [foldM fmap list_fmap fst snd]. destruct (f a st b); cbn; [apply IH|done..]. }
  destruct (foldM _ _ _); cbn; [apply IH|done..].
Qed.

Definition kept (mr : Z) (x : Z * (nat * ptr)) : bool := bool_decide (mr < x.1)%Z && bool_decide (x.2.1 = 0).

Lemma remaining_spec E mr items :
  Forall (fun x : Z * (nat * ptr) => owned x.2.2) items -> NoDup ((fun x => id x.2.2) <$> items) -> forall h S mw,
  good h E S -> (0 <= mw)%Z -> (mw + Z.of_nat (length items) <= MaxInt32)%Z ->
  exists h' S' mw', foldM (fun st x => remaining_write x.1 st x.2) (h, E, mr, mw) items = Ret (h', E, mr, mw') /\
    good h' E S' /\ (mw <= mw' <= mw + Z.of_nat (length items))%Z /\
    (forall t, S' t = S t \/ exists x, x ∈ items /\ kept mr x = false /\ id x.2.2 = t) /\
    (forall x, x ∈ items -> kept mr x = true -> S' (id x.2.2) = S (id x.2.2)) /\
    (forall x, x ∈ items -> kept mr x = false -> (mw < S' (id x.2.2) <= mw')%Z) /\
    (forall x y, x ∈ items -> y ∈ items -> kept mr x = false -> kept mr y = false ->
       id x.2.2 <> id y.2.2 -> S' (id x.2.2) <> S' (id y.2.2)).
Proof.
  intros Hi. induction Hi as [|x items Hx Hi IH]; intros Hnd h S mw G Hmw HM.
  { exists h, S, mw. split_and!; [done|done|lia|cbn; lia|by left|set_solver|set_solver|set_solver]. }
  cbn [fmap list_fmap] in Hnd. apply NoDup_cons in Hnd as [Hni Hnd]. cbn [length] in HM.
  assert (forall y, y ∈ items -> id y.2.2 <> id x.2.2) as Hne.
  { intros y Hy E'. apply Hni. rewrite <- E'. by apply (list_elem_of_fmap_2 (fun x => id x.2.2)). }
  cbn [foldM]. unfold remaining_write at 2. fold (kept mr x).
  destruct (kept mr x) eqn:Hk.
  - cbn [mbind outcome_bind].
    destruct (IH Hnd h S mw G Hmw) as (h' & S' & mw' & -> & G' & Hmw' & HS' & Hkp & Hb & Hd); [lia|].
    exists h', S', mw'. split_and!; [done|done|lia|cbn; lia| | | |].
    + intros t. destruct (HS' t) as [->|(y & ? & ? & ?)]; [by left|right; exists y; set_solver].
    + intros y [->|Hy]%elem_of_cons Hky; [|auto]. destruct (HS' (id x.2.2)) as [->|(z & Hz & _ & E')]; [done|].
      by apply Hne in Hz.
    + intros y [->|Hy]%elem_of_cons Hky; [congruence|auto].
    + intros y z [->|Hy]%elem_of_cons [->|Hz]%elem_of_cons Hky Hkz; [congruence..|auto].
  - rewrite wrap_int32_id by lia.
    destruct (assign_tx_good h E S x.2.2 (mw + 1) G Hx) as (h1 & -> & G1 & _). cbn [mbind outcome_bind].
    destruct (IH Hnd h1 _ (mw + 1)%Z G1) as (h' & S' & mw' & -> & G' & Hmw' & HS' & Hkp & Hb & Hd); [lia|lia|].
    assert (S' (id x.2.2) = mw + 1)%Z as Hxs.
    { destruct (HS' (id x.2.2)) as [->|(z & Hz & _ & E')]; [apply upd_eq|]. by apply Hne in Hz. }
    exists h', S', mw'. split_and!; [done|done|lia|cbn; lia| | | |].
    + intros t. destruct (decide (t = id x.2.2)) as [->|Ht]; [right; exists x; set_solver|].
      destruct (HS' t) as [->|(y & ? & ? & ?)]; [rewrite upd_ne by done; by left|right; exists y; set_solver].
    + intros y [->|Hy]%elem_of_cons Hky; [congruence|]. rewrite Hkp by done. apply upd_ne. auto.
    + intros y [->|Hy]%elem_of_cons Hky; [lia|]. specialize (Hb y Hy Hky). lia.
    + intros y z [->|Hy]%elem_of_cons [->|Hz]%elem_of_cons Hky Hkz Hyz; [done| | |by apply Hd].
      * specialize (Hb z Hz Hkz). lia.
      * specialize (Hb y Hy Hky). lia.
Qed.

(** *** Classifying the numbered writes *)
Lemma scan_edge_same h w edge b rw :
  rw ∈ edge -> isRead (h rw) = true -> isAssigned (h rw) = true -> key_of h w = key_of h rw ->
  (scan_edge h w edge b).1 = true.
Proof.
  revert b; induction edge as [|e edge IH]; intros b Hin Hr Ha Hk; [set_solver|]. cbn [scan_edge].
  destruct (isRead (h e) && isAssigned (h e)) eqn:E.
  - destruct (decide (key_of h w = key_of h e)) as [|Hne]; [done|].
    apply elem_of_cons in Hin as [->|Hin]; [done|]. by apply IH.
  - apply elem_of_cons in Hin as [->|Hin]; [by rewrite Hr, Ha in E|]. by apply IH.
Qed.

Lemma elem_of_push m s w x t :
  x ∈ default [] (push_write m s w !! t) <-> x ∈ default [] (m !! t) \/ x = w /\ t = s.
Proof.
  unfold push_write. destruct (decide (t = s)) as [->|Hne].
  - rewrite lookup_insert_eq. cbn. set_solver.
  - rewrite lookup_insert_ne by done. naive_solver.
Qed.

Record classified (readers : list string) (E0 : gmap string Edge) (S : string -> Z) (mr : Z) (pre : list ptr)
    (st : write_classes) : Prop := {
  cl_sets : set <$> st.1.1 = sets;
  cl_mono : forall t, aborted E0 t = true -> aborted st.1.1 t = true;
  cl_new : forall t, aborted st.1.1 t = true -> aborted E0 t = true \/ t ∈ id <$> pre;
  cl_same : forall w, w ∈ st.1.2 -> w ∈ pre /\ (0 < S (id w) <= mr)%Z /\ aborted E0 (id w) = false;
  cl_same_nodup : NoDup st.1.2;
  cl_other : forall s w, w ∈ default [] (st.2 !! s) ->
    w ∈ pre /\ S (id w) = s /\ s <> 0%Z /\ id w ∉ readers /\ w ∉ st.1.2;
  cl_other_nodup : forall s, NoDup (default [] (st.2 !! s));
  cl_other_ne : forall s, st.2 !! s <> Some [];
  cl_all : forall w, w ∈ pre -> S (id w) <> 0%Z ->
    aborted st.1.1 (id w) = true \/ w ∈ st.1.2 \/ w ∈ default [] (st.2 !! S (id w)) }.

Section classify.
Context (readers : list string) (E0 : gmap string Edge) (S : string -> Z) (mr : Z).

Lemma classified_init : set <$> E0 = sets -> classified readers E0 S mr [] (E0, [], ∅).
Proof.
  intros Hs. split; cbn [fst snd]; [done|done|by left|set_solver|constructor| | | |set_solver];
    intros s; rewrite lookup_empty; cbn; [set_solver|constructor|done].
Qed.

Lemma classified_skip pre st w :
  classified readers E0 S mr pre st -> S (id w) = 0%Z \/ aborted st.1.1 (id w) = true ->
  classified readers E0 S mr (pre ++ [w]) st.
Proof.
  intros [] Hw. split; try done.
  - intros t Ht. apply cl_new0 in Ht as [?|?]; [by left|right]. rewrite fmap_app. set_solver.
  - intros v Hv. apply cl_same0 in Hv as (? & ? & ?). set_solver.
  - intros s v Hv. apply cl_other0 in Hv as (? & ? & ? & ? & ?). set_solver.
  - intros v [Hv|Hv%list_elem_of_singleton]%elem_of_app Hnz; [by apply cl_all0|]. subst v.
    destruct Hw as [?|?]; [done|by left].
Qed.

Lemma classified_same pre E tmpW tmpW2 w :
  classified readers E0 S mr pre (E, tmpW, tmpW2) -> w ∉ pre -> (0 < S (id w) <= mr)%Z ->
  aborted E (id w) = false ->
  classified readers E0 S mr (pre ++ [w]) (E, tmpW ++ [w], tmpW2).
Proof.
  intros [] Hw Hs Hab. cbn [fst snd] in *. split; cbn [fst snd]; try done.
  - intros t Ht. apply cl_new0 in Ht as [?|?]; [by left|right]. rewrite fmap_app. set_solver.
  - intros v [Hv|Hv%list_elem_of_singleton]%elem_of_app.
    + apply cl_same0 in Hv as (? & ? & ?). set_solver.
    + subst v. split; [set_solver|]. split; [done|]. apply not_true_is_false. intros H%cl_mono0. congruence.
  - apply NoDup_app. split_and!; [done| |apply NoDup_singleton].
    intros v Hv ->%list_elem_of_singleton. by apply cl_same0 in Hv as [? _].
  - intros s v Hv. apply cl_other0 in Hv as (Hp & ? & ? & ? & ?). split; [set_solver|]. split_and!; [done..|].
    rewrite elem_of_app, list_elem_of_singleton. intros [?| ->]; done.
  - intros v [Hv|Hv%list_elem_of_singleton]%elem_of_app Hnz; [|subst v; set_solver].
    apply cl_all0 in Hv; [set_solver|done].
Qed.

Lemma classified_push pre E tmpW tmpW2 w :
  classified readers E0 S mr pre (E, tmpW, tmpW2) -> w ∉ pre -> S (id w) <> 0%Z -> id w ∉ readers ->
  classified readers E0 S mr (pre ++ [w]) (E, tmpW, push_write tmpW2 (S (id w)) w).
Proof.
  intros [] Hw Hs Hr. cbn [fst snd] in *. split; cbn [fst snd]; try done.
  - intros t Ht. apply cl_new0 in Ht as [?|?]; [by left|right]. rewrite fmap_app. set_solver.
  - intros v Hv. apply cl_same0 in Hv as (? & ? & ?). set_solver.
  - intros s v [Hv|[-> ->]]%elem_of_push.
    + apply cl_other0 in Hv as (Hp & ? & ? & ? & ?). set_solver.
    + split; [set_solver|]. split_and!; [done..|]. by intros [? _]%cl_same0.
  - intros s. unfold push_write. destruct (decide (s = S (id w))) as [->|Hne].
    + rewrite lookup_insert_eq. cbn. apply NoDup_app. split_and!; [apply cl_other_nodup0| |apply NoDup_singleton].
      intros v Hv ->%list_elem_of_singleton. by apply cl_other0 in Hv as [? _].
    + rewrite lookup_insert_ne by done. apply cl_other_nodup0.
  - intros s. unfold push_write. destruct (decide (s = S (id w))) as [->|Hne].
    + rewrite lookup_insert_eq. intros [= E']. by apply app_nil in E' as [_ ?].
    + rewrite lookup_insert_ne by done. apply cl_other_ne0.
  - intros v Hv Hnz. rewrite elem_of_push. apply elem_of_app in Hv as [Hv|Hv%list_elem_of_singleton].
    + destruct (cl_all0 v Hv Hnz) as [?|[?|?]]; auto.
    + subst v. right. right. right. done.
Qed.

Lemma classified_abort pre E tmpW tmpW2 w :
  classified readers E0 S mr pre (E, tmpW, tmpW2) -> is_Some (E !! id w) ->
  classified readers E0 S mr (pre ++ [w]) (abort E (id w), tmpW, tmpW2).
Proof.
  intros [] Hw. cbn [fst snd] in *. split; cbn [fst snd]; try done.
  - by rewrite abort_sets.
  - intros t Ht. rewrite aborted_abort, cl_mono0 by done. done.
  - intros t. rewrite aborted_abort by done. intros [Ht|Ht%bool_decide_eq_true]%orb_true_iff.
    + apply cl_new0 in Ht as [?|?]; [by left|right]. rewrite fmap_app. set_solver.
    + right. subst t. rewrite fmap_app. set_solver.
  - intros v Hv. apply cl_same0 in Hv as (? & ? & ?). set_solver.
  - intros s v Hv. apply cl_other0 in Hv as (? & ? & ? & ? & ?). set_solver.
  - intros v Hv Hnz. rewrite aborted_abort by done. apply elem_of_app in Hv as [Hv|Hv%list_elem_of_singleton].
    + destruct (cl_all0 v Hv Hnz) as [->|[?|?]]; auto.
    + subst v. left. rewrite bool_decide_eq_true_2 by done. apply orb_true_r.
Qed.
End classify.

Lemma classify_spec h E S mr rs ws k :
  good h E S -> (forall t, 0 <= S t)%Z -> reads_sorted rs h E S mr ->
  Forall owned rs -> Forall owned ws -> NoDup ws ->
  (forall r, r ∈ rs -> isRead (h0 r) = true /\ key_of h0 r = k) -> (forall w, w ∈ ws -> key_of h0 w = k) ->
  exists st, foldM (classify_write h mr) (E, [], ∅) ws = Ret st /\ classified (id <$> rs) E S mr ws st.
Proof.
  intros G HS Hrd Hrs Hws Hnd Hkr Hkw.
  apply (foldM_inv _ (classified (id <$> rs) E S mr)); [apply classified_init, G|].
  intros pre w post [[E1 tmpW] tmpW2] Hl I.
  assert (w ∈ ws) as Hw by (rewrite Hl; set_solver).
  assert (w ∉ pre) as Hwp.
  { rewrite Hl in Hnd. apply NoDup_app in Hnd as (_ & Hd & _). intros Hp. apply (Hd w Hp). left. }
  assert (owned w) as How by (rewrite Forall_forall in Hws; auto).
  assert (good h E1 S) as G1 by (split; [apply G|apply (cl_sets _ _ _ _ _ _ I)|apply G]).
  destruct (good_edge h E1 S w G1 How) as (e & He & Hse & Hwe).
  assert (aborted E1 (id w) = isAborted e) as Hab by (unfold aborted; by rewrite He).
  pose proof (HS (id w)) as Hnn.
  unfold classify_write. rewrite (good_seq _ _ _ G w How), (good_txid _ _ _ w G).
  destruct (decide (S (id w) = 0%Z)) as [Hz|Hz]; [eexists; split; [done|]; apply classified_skip; auto|].
  unfold edge_of. rewrite He. cbn [or_panic mbind outcome_bind].
  destruct (isAborted e) eqn:Hea; [eexists; split; [done|]; apply classified_skip; auto|].
  assert (aborted E (id w) = false) as HabE.
  { apply not_true_is_false. intros Ht%(cl_mono _ _ _ _ _ _ I). cbn in Ht. congruence. }
  destruct (decide (S (id w) <= mr)%Z) as [Hle|Hle].
  - destruct (scan_edge h w (set e) false) as [isSame isBefore] eqn:Hscan.
    destruct isSame; [eexists; split; [done|]; apply classified_same; [done|done|lia|done]|].
    destruct isBefore; [eexists; split; [done|]; apply classified_abort; [done|by eexists]|].
    eexists; split; [done|]. apply classified_push; [done..|].
    intros (r & Eq & Hr)%list_elem_of_fmap.
    destruct (rd_assigned _ _ _ _ _ Hrd r Hr) as (r' & Hr' & Eq' & Has); [by rewrite <- Eq|].
    assert (owned r') as (l & Hsl & Hl') by (rewrite Forall_forall in Hrs; auto).
    rewrite Eq', <- Eq, Hse in Hsl. injection Hsl as <-.
    pose proof (scan_edge_same h w (set e) false r' Hl') as Hs. rewrite Hscan in Hs. cbn in Hs.
    destruct (Hkr r' Hr') as [Hrr Hkr']. discriminate Hs; [by rewrite (good_isRead _ _ _ _ G)|done|].
    rewrite !(good_key _ _ _ _ G), Hkr'. auto.
  - eexists; split; [done|]. apply classified_push; [done..|].
    intros (r & Eq & Hr)%list_elem_of_fmap. apply Hle. rewrite Eq. apply (rd_le _ _ _ _ _ Hrd r Hr). by rewrite <- Eq.
Qed.

(** *** Reads and writes of the same cell *)
Lemma adjust_tail h E S mr mw (ps : list (nat * ptr)) :
  good h E S -> Forall (fun p => p.1 <> 0 /\ owned p.2) ps ->
  exists E', foldM (fun st iw => if decide (iw.1 = 0) then bump_write st iw.2 else
      let '(h, E, mr, mw) := st in
      edge_of E (txid h iw.2) ≫= fun _ => Ret (h, abort E (txid h iw.2), mr, mw)) (h, E, mr, mw) ps
    = Ret (h, E', mr, mw) /\ good h E' S /\
    forall t, aborted E' t = aborted E t || bool_decide (t ∈ (fun p => id p.2) <$> ps).
Proof.
  intros G Hps. revert E G; induction Hps as [|[i w] ps [Hi Hw] _ IH]; intros E G.
  { exists E. split_and!; [done|done|]. intros t. cbn. by rewrite orb_false_r. }
  cbn [foldM fst snd] in *. rewrite decide_False by done.
  destruct (good_edge h E S w G Hw) as (e & He & _). rewrite (good_txid _ _ _ _ G).
  assert (edge_of E (id w) = Ret e) as -> by (unfold edge_of; by rewrite He). cbn [mbind outcome_bind].
  destruct (IH (abort E (id w)) (good_abort _ _ _ _ G)) as (E' & Hf & G' & Hab).
  exists E'. split; [exact Hf|]. split; [done|]. intros t.
  rewrite Hab, aborted_abort by (by eexists). rewrite <- orb_assoc. f_equal.
  apply eq_bool_prop_intro. cbn [fmap list_fmap snd]. rewrite orb_True, !bool_decide_spec. set_solver.
Qed.

Lemma bump_write_good h E S mr mw w :
  good h E S -> owned w -> (0 <= mw < MaxInt32)%Z ->
  exists h', bump_write (h, E, mr, mw) w = Ret (h', E, mw + 1, mw + 1)%Z /\ good h' E (upd S (id w) (mw + 1)).
Proof.
  intros G Hw Hmw. unfold bump_write. rewrite wrap_int32_id by lia.
  destruct (assign_tx_good h E S w (mw + 1) G Hw) as (h1 & -> & G1 & _). by exists h1.
Qed.

(** The state after [adjust_same]: [tmpW] is empty and nothing changed, or
    its first transaction has the number [mw + 1] and the others are aborted. *)
Lemma adjust_same_spec h E S mr mw tmpW :
  good h E S -> Forall owned tmpW -> NoDup (id <$> tmpW) -> (0 <= mw < MaxInt32)%Z ->
  exists h' E' S' mr' mw', adjust_same (h, E, mr, mw) tmpW = Ret (h', E', mr', mw') /\ good h' E' S' /\
    match tmpW with
    | [] => E' = E /\ S' = S /\ mr' = mr /\ mw' = mw
    | w0 :: rest => S' = upd S (id w0) (mw + 1) /\ mr' = (mw + 1)%Z /\ mw' = (mw + 1)%Z /\
        forall t, aborted E' t = aborted E t || bool_decide (t ∈ id <$> rest)
    end.
Proof.
  intros G Hown Hnd Hmw. destruct tmpW as [|w0 rest].
  { exists h, E, S, mr, mw. done. }
  apply Forall_cons in Hown as [Hw0 Hrest]. unfold adjust_same. cbn [imap foldM fst snd].
  rewrite decide_True by done.
  destruct (bump_write_good h E S mr mw w0 G Hw0 Hmw) as (h1 & -> & G1). cbn [mbind outcome_bind].
  destruct (adjust_tail h1 E _ (mw + 1) (mw + 1) (imap (pair ∘ Datatypes.S) rest) G1) as (E' & Hf & G' & Hab).
  { apply Forall_lookup. intros i p Hp. rewrite list_lookup_imap in Hp.
    destruct (rest !! i) as [w|] eqn:Ew; [|done]. injection Hp as <-. cbn. split; [done|].
    rewrite Forall_lookup in Hrest. by eapply Hrest. }
  eexists h1, E', _, _, _. split; [exact Hf|]. split; [exact G'|]. split_and!; [done..|].
  intros t. rewrite Hab. f_equal. apply bool_decide_ext.
  replace ((fun p : nat * ptr => id p.2) <$> imap (pair ∘ Datatypes.S) rest) with (id <$> rest); [done|].
  apply list_eq. intros i. rewrite !list_lookup_fmap, list_lookup_imap. by destruct (rest !! i).
Qed.

(** The order a queue promises for its cell. *)
Record queue_sorted (rs ws : list ptr) (E : gmap string Edge) (S : string -> Z) : Prop := {
  qs_read_write : forall r w, r ∈ rs -> w ∈ ws -> id r <> id w ->
    aborted E (id r) = false -> aborted E (id w) = false -> (S (id r) < S (id w))%Z;
  qs_write_write : forall w w', w ∈ ws -> w' ∈ ws -> id w <> id w' ->
    aborted E (id w) = false -> aborted E (id w') = false -> S (id w) <> S (id w');
  qs_pos : forall p, p ∈ rs ++ ws -> aborted E (id p) = false -> (0 < S (id p))%Z }.

(** *** All the writes *)
Section writes.
Context (readers : list string) (ws : list ptr) (E0 E1 : gmap string Edge) (S : string -> Z) (mr : Z).
Context (tmpW : list ptr) (tmpW2 : gmap Z (list ptr)).
Hypothesis C : classified readers E0 S mr ws (E1, tmpW, tmpW2).
Hypothesis Hnd : NoDup (id <$> ws).

Definition write_keys : list Z := sort_ints (elements (dom tmpW2)).
Definition write_items : list (Z * (nat * ptr)) :=
  write_keys ≫= fun n => (fun b => (n, b)) <$> imap pair (default [] (tmpW2 !! n)).

Lemma elem_of_write_keys n : n ∈ write_keys <-> is_Some (tmpW2 !! n).
Proof. unfold write_keys. by rewrite sort_ints_perm, elem_of_elements, elem_of_dom. Qed.

Lemma elem_of_write_items x : x ∈ write_items <-> default [] (tmpW2 !! x.1) !! x.2.1 = Some x.2.2.
Proof.
  destruct x as [n [i w]]. unfold write_items. rewrite list_elem_of_bind. cbn. split.
  - intros (m & (b & [= -> <-] & Hb)%list_elem_of_fmap & Hm).
    by apply elem_of_lookup_imap in Hb as (j & v & [= -> ->] & Hv).
  - intros Hi. exists n. split.
    + apply list_elem_of_fmap. exists (i, w). split; [done|]. apply elem_of_lookup_imap. by exists i, w.
    + apply elem_of_write_keys. destruct (tmpW2 !! n); [by eexists|done].
Qed.

Lemma write_item_spec x :
  x ∈ write_items -> x.2.2 ∈ ws /\ S (id x.2.2) = x.1 /\ x.1 <> 0%Z /\ id x.2.2 ∉ readers /\ x.2.2 ∉ tmpW.
Proof.
  intros Hx%elem_of_write_items%list_elem_of_lookup_2. by apply (cl_other _ _ _ _ _ _ C).
Qed.

Lemma write_item_exists w :
  w ∈ default [] (tmpW2 !! S (id w)) -> exists i, (S (id w), (i, w)) ∈ write_items.
Proof. intros (i & Hi)%list_elem_of_lookup_1. exists i. by apply elem_of_write_items. Qed.

Lemma write_items_inj x y : x ∈ write_items -> y ∈ write_items -> id x.2.2 = id y.2.2 -> x = y.
Proof.
  intros Hx Hy E. destruct (write_item_spec x Hx) as (Hxw & Hxs & _). destruct (write_item_spec y Hy) as (Hyw & Hys & _).
  assert (x.2.2 = y.2.2) as Ep by (by apply (NoDup_fmap_elem id ws)).
  assert (x.1 = y.1) as En by (by rewrite <- Hxs, <- Hys, E).
  apply elem_of_write_items in Hx, Hy. rewrite <- En, <- Ep in Hy.
  pose proof (NoDup_lookup _ _ _ _ (cl_other_nodup _ _ _ _ _ _ C x.1) Hx Hy) as Ei.
  destruct x as [n [i w]], y as [m [j v]]. cbn in *. by subst.
Qed.

Lemma NoDup_write_items : NoDup ((fun x => id x.2.2) <$> write_items).
Proof.
  apply NoDup_fmap_2_strong; [intros x y Hx Hy; by apply write_items_inj|].
  apply NoDup_bind.
  - intros n m x _ _ (b & -> & _)%list_elem_of_fmap (b' & [= -> _] & _)%list_elem_of_fmap. done.
  - intros n _. apply NoDup_fmap_2; [by intros ? ? [= ->]|].
    apply NoDup_alt. intros i j x Hi Hj. rewrite list_lookup_imap in Hi, Hj.
    destruct (_ !! i) eqn:Ei; [|done]. destruct (_ !! j) eqn:Ej; [|done]. cbn in *. congruence.
  - unfold write_keys. rewrite sort_ints_perm. apply NoDup_elements.
Qed.

Lemma length_write_items : length write_items <= length ws.
Proof.
  rewrite <- (length_fmap (fun x => id x.2.2)), <- (length_fmap id ws).
  apply submseteq_length, NoDup_submseteq; [apply NoDup_write_items|].
  intros t (x & -> & Hx)%list_elem_of_fmap. apply list_elem_of_fmap_2. by apply write_item_spec in Hx as [? _].
Qed.

(** What [adjust_same] leaves for the later loops. *)
Record adjusted (mw0 : Z) (E2 : gmap string Edge) (S1 : string -> Z) (mr1 mw1 : Z) : Prop := {
  ad_bounds : (mr <= mr1 <= mw1)%Z /\ (mw1 <= mw0 + 1)%Z;
  ad_seq : forall t, S1 t = S t \/ exists w, w ∈ tmpW /\ t = id w;
  ad_first : forall w, w ∈ tmpW -> aborted E2 (id w) = false -> head tmpW = Some w /\ S1 (id w) = mr1 /\ (mr < mr1)%Z;
  ad_pos : forall w, w ∈ tmpW -> (0 < S1 (id w))%Z;
  ad_le : forall w, w ∈ tmpW -> (S1 (id w) <= mr1)%Z;
  ad_mono : forall t, aborted E1 t = true -> aborted E2 t = true;
  ad_new : forall t, aborted E2 t = true -> aborted E1 t = true \/ t ∈ id <$> ws }.

Lemma adjust_adjusted h mw0 :
  good h E1 S -> Forall owned ws -> (0 <= mr <= mw0)%Z -> (mw0 < MaxInt32)%Z ->
  exists h' E2 S1 mr1 mw1, adjust_same (h, E1, mr, mw0) tmpW = Ret (h', E2, mr1, mw1) /\ good h' E2 S1 /\
    adjusted mw0 E2 S1 mr1 mw1.
Proof.
  intros G Hws Hmw HM.
  assert (forall w, w ∈ tmpW -> w ∈ ws /\ (0 < S (id w) <= mr)%Z) as Hsame.
  { intros w Hw. by apply (cl_same _ _ _ _ _ _ C) in Hw as (? & ? & _). }
  assert (NoDup (id <$> tmpW)) as HndW.
  { apply NoDup_fmap_2_strong; [|apply (cl_same_nodup _ _ _ _ _ _ C)].
    intros w v Hw Hv. apply (NoDup_fmap_elem id ws); [done|by apply Hsame|by apply Hsame]. }
  destruct (adjust_same_spec h E1 S mr mw0 tmpW G) as (h' & E2 & S1 & mr1 & mw1 & -> & G' & Hm); [|done|lia|].
  { apply Forall_forall. intros w [Hw _]%Hsame. rewrite Forall_forall in Hws. auto. }
  exists h', E2, S1, mr1, mw1. split; [done|]. split; [done|].
  destruct tmpW as [|w0 rest] eqn:Et.
  - destruct Hm as (-> & -> & -> & ->).
    split; [lia|by left| | | |done|by left]; intros w Hw; rewrite Et in Hw; set_solver.
  - destruct Hm as (-> & -> & -> & Hab). cbn [fmap list_fmap] in HndW. apply NoDup_cons in HndW as [Hw0 _].
    destruct (Hsame w0 ltac:(left)) as [Hw0s Hw0p].
    assert (forall w, w ∈ rest -> id w <> id w0) as Hne.
    { intros w Hw E. apply Hw0. rewrite <- E. by apply list_elem_of_fmap_2. }
    assert (forall w, w ∈ w0 :: rest -> upd S (id w0) (mw0 + 1) (id w) = (mw0 + 1)%Z \/
      (0 < upd S (id w0) (mw0 + 1) (id w) <= mr)%Z) as Hu.
    { intros w [->|Hw]%elem_of_cons; [left; apply upd_eq|right]. rewrite upd_ne by auto. apply Hsame. by right. }
    split; [lia| | | | | |].
    + intros t. destruct (decide (t = id w0)) as [->|]; [right; exists w0; rewrite Et; set_solver|left; by apply upd_ne].
    + intros w Hw Hna. rewrite Et in *. apply elem_of_cons in Hw as [->|Hw]; [split_and!; [done|apply upd_eq|lia]|].
      rewrite Hab, (bool_decide_eq_true_2 (id w ∈ id <$> rest)) in Hna by (by apply list_elem_of_fmap_2).
      by rewrite orb_true_r in Hna.
    + intros w Hw. rewrite Et in Hw. destruct (Hu w Hw); lia.
    + intros w Hw. rewrite Et in Hw. destruct (Hu w Hw); lia.
    + intros t Ht. by rewrite Hab, Ht.
    + intros t. rewrite Hab. intros [Ht|Ht%bool_decide_eq_true]%orb_true_iff; [by left|right].
      apply list_elem_of_fmap in Ht as (w & -> & Hw). apply list_elem_of_fmap_2. apply Hsame. by right.
Qed.

(** The numbers at the end, by how each writer got its own. *)
Section numbers.
Context (mw0 mr1 mw1 mw2 mw3 : Z) (E2 : gmap string Edge) (S1 S2 S3 : string -> Z).
Hypothesis AD : adjusted mw0 E2 S1 mr1 mw1.
Hypothesis HS : forall t, (0 <= S t)%Z.
Hypothesis F1 : forall t, S2 t = S1 t \/ (t ∈ id <$> ws /\ S1 t = 0%Z).
Hypothesis F2 : forall w, w ∈ ws -> S1 (id w) = 0%Z -> (mw1 < S2 (id w) <= mw2)%Z /\ S2 (id w) ∉ write_keys.
Hypothesis F3 : forall w w', w ∈ ws -> w' ∈ ws -> S1 (id w) = 0%Z -> S1 (id w') = 0%Z -> id w <> id w' ->
  S2 (id w) <> S2 (id w').
Hypothesis M3 : (mw2 <= mw3)%Z /\ (mr1 <= mw3)%Z /\ forall k, k ∈ write_keys -> (k <= mw3)%Z.
Hypothesis R1 : forall t, S3 t = S2 t \/ exists x, x ∈ write_items /\ kept mr1 x = false /\ id x.2.2 = t.
Hypothesis R2 : forall x, x ∈ write_items -> kept mr1 x = true -> S3 (id x.2.2) = S2 (id x.2.2).
Hypothesis R3 : forall x, x ∈ write_items -> kept mr1 x = false -> (mw3 < S3 (id x.2.2))%Z.
Hypothesis R4 : forall x y, x ∈ write_items -> y ∈ write_items -> kept mr1 x = false -> kept mr1 y = false ->
  id x.2.2 <> id y.2.2 -> S3 (id x.2.2) <> S3 (id y.2.2).

Inductive wclass (w : ptr) : Prop :=
| W_first : head tmpW = Some w -> S3 (id w) = mr1 -> (mr < mr1)%Z -> wclass w
| W_fresh : S1 (id w) = 0%Z -> S3 (id w) = S2 (id w) -> (mw1 < S3 (id w) <= mw3)%Z -> S3 (id w) ∉ write_keys ->
    wclass w
| W_kept : S3 (id w) = S (id w) -> (S (id w), (0, w)) ∈ write_items -> (mr1 < S (id w))%Z -> wclass w
| W_moved i : (S (id w), (i, w)) ∈ write_items -> kept mr1 (S (id w), (i, w)) = false -> (mw3 < S3 (id w))%Z ->
    wclass w.

Lemma tmpW_not_item w x : w ∈ tmpW -> x ∈ write_items -> id x.2.2 <> id w.
Proof.
  intros Hw Hx Eq. destruct (write_item_spec x Hx) as (Hxw & _ & _ & _ & Hn). apply Hn.
  assert (x.2.2 = w) as ->; [|done]. apply (NoDup_fmap_elem id ws); [done|done| |done].
  by apply (cl_same _ _ _ _ _ _ C) in Hw as [? _].
Qed.

Lemma not_tmpW_S1 t : (forall w, w ∈ tmpW -> t <> id w) -> S1 t = S t.
Proof. intros H. destruct (ad_seq _ _ _ _ _ AD t) as [|(w & Hw & ->)]; [done|]. by apply H in Hw. Qed.

Lemma wclass_of w : w ∈ ws -> aborted E2 (id w) = false -> wclass w.
Proof.
  intros Hw Hna. assert (aborted E1 (id w) = false) as Hna1.
  { apply not_true_is_false. intros Ht%(ad_mono _ _ _ _ _ AD). congruence. }
  destruct (decide (w ∈ tmpW)) as [HwW|HwW].
  { destruct (ad_first _ _ _ _ _ AD w HwW Hna) as (Hh & Hs & Hlt). apply W_first; [done| |done].
    rewrite <- Hs. destruct (R1 (id w)) as [->|(x & Hx & _ & Eq)]; [|by apply (tmpW_not_item w x) in Hx].
    pose proof (ad_pos _ _ _ _ _ AD w HwW). destruct (F1 (id w)) as [->|[_ ?]]; [done|lia]. }
  assert (S1 (id w) = S (id w)) as E1S.
  { apply not_tmpW_S1. intros v Hv Eq. apply HwW.
    assert (w = v) as ->; [|done]. apply (NoDup_fmap_elem id ws); [done|done| |done].
    by apply (cl_same _ _ _ _ _ _ C) in Hv as [? _]. }
  destruct (decide (S (id w) = 0%Z)) as [Hz|Hz].
  { rewrite <- E1S in Hz. destruct (F2 w Hw Hz) as [Hb Hk].
    assert (S3 (id w) = S2 (id w)) as E3.
    { destruct (R1 (id w)) as [|(x & Hx & _ & Eq)]; [done|].
      destruct (write_item_spec x Hx) as (_ & Hxs & Hnz & _). rewrite Eq in Hxs. congruence. }
    apply W_fresh; [done|done|lia|by rewrite E3]. }
  destruct (cl_all _ _ _ _ _ _ C w Hw Hz) as [Hab|[?|Hin]]; cbn [fst snd] in *; [congruence|done|].
  destruct (write_item_exists w Hin) as (i & Hi).
  destruct (kept mr1 (S (id w), (i, w))) eqn:Hk; [|apply (W_moved w i); [done|done|by apply (R3 _ Hi)]].
  pose proof (R2 _ Hi Hk) as E3. unfold kept in Hk. cbn [fst snd] in E3, Hk.
  apply andb_true_iff in Hk as [H1%bool_decide_eq_true H2%bool_decide_eq_true]. subst i.
  apply W_kept; [|done|done]. rewrite E3. destruct (F1 (id w)) as [->|[_ ?]]; congruence.
Qed.

Lemma wclass_distinct w w' :
  w ∈ ws -> w' ∈ ws -> id w <> id w' -> wclass w -> wclass w' -> S3 (id w) <> S3 (id w').
Proof.
  assert (forall v, (S (id v), (0, v)) ∈ write_items -> S (id v) ∈ write_keys) as Hkey.
  { intros v Hv. apply elem_of_write_items in Hv. cbn in Hv. apply elem_of_write_keys.
    destruct (tmpW2 !! S (id v)); [by eexists|done]. }
  destruct M3 as (M3a & M3b & M3c). destruct (ad_bounds _ _ _ _ _ AD) as [AB1 AB2].
  intros Hw Hw' Hne [] []; try lia; try congruence.
  - intros Eq. apply (F3 w w' Hw Hw'); [done|done|done|congruence].
  - intros Eq. apply H2. rewrite Eq, H3. auto.
  - intros Eq. apply H5. rewrite <- Eq, H. auto.
  - pose proof (Hkey w H0) as Hk%M3c. rewrite H. intros Eq. apply Hne.
    rewrite H2 in Eq. rewrite Eq in H0.
    apply elem_of_write_items in H0, H3. cbn in *. rewrite H0 in H3. by injection H3 as ->.
  - pose proof (Hkey w H0) as Hk%M3c. lia.
  - pose proof (Hkey w' H3) as Hk%M3c. lia.
  - by apply (R4 (S (id w), (i, w)) (S (id w'), (i0, w'))).
Qed.

Lemma wclass_above w : w ∈ ws -> wclass w -> (mr < S3 (id w))%Z /\ (head tmpW <> Some w -> (mr1 < S3 (id w))%Z).
Proof.
  destruct M3 as (M3a & M3b & M3c). destruct (ad_bounds _ _ _ _ _ AD) as [AB1 AB2].
  intros Hw []; split; try lia; intros; try congruence; lia.
Qed.

Lemma numbers_frame t : t ∉ id <$> ws -> S3 t = S t.
Proof.
  intros Ht. assert (forall w, w ∈ ws -> t <> id w) as Hne by (intros w Hw ->; by apply Ht, list_elem_of_fmap_2).
  destruct (R1 t) as [->|(x & Hx & _ & <-)]; [|by destruct (write_item_spec x Hx) as [Hw%Hne _]].
  destruct (F1 t) as [->|[? _]]; [|done]. apply not_tmpW_S1.
  intros w Hw. apply Hne. by apply (cl_same _ _ _ _ _ _ C) in Hw as [? _].
Qed.

(** A transaction that reads and writes the cell is the one [adjust_same] kept. *)
Lemma wclass_reader w : id w ∈ readers -> (0 < S (id w))%Z -> wclass w -> head tmpW = Some w /\ S3 (id w) = mr1.
Proof.
  intros Hr Hp []; [done| | |].
  - destruct (ad_seq _ _ _ _ _ AD (id w)) as [Eq|(v & Hv & Eq)]; [lia|].
    pose proof (ad_pos _ _ _ _ _ AD v Hv) as Hpos. rewrite <- Eq in Hpos. lia.
  - by destruct (write_item_spec _ H0) as (_ & _ & _ & ? & _).
  - by destruct (write_item_spec _ H) as (_ & _ & _ & ? & _).
Qed.

Lemma numbers_sorted h rs :
  readers = id <$> rs -> reads_sorted rs h E0 S mr -> (0 <= mr)%Z ->
  (forall t, aborted E0 t = true -> aborted E2 t = true) -> queue_sorted rs ws E2 S3.
Proof.
  intros Hrs Hrd Hmr Hmono. assert (forall r, r ∈ rs -> id r ∈ readers) as Hin.
  { intros r Hr. rewrite Hrs. by apply list_elem_of_fmap_2. }
  split.
  - intros r w Hr Hw Hne Hnr Hnw. destruct (wclass_above w Hw (wclass_of w Hw Hnw)) as [Hgt Hgt1].
    destruct (decide (id r ∈ id <$> ws)) as [(v & Ev & Hv)%list_elem_of_fmap|Hni].
    + destruct (wclass_reader v) as [Hh Hs]; [rewrite <- Ev; auto|rewrite <- Ev; by apply (rd_pos _ _ _ _ _ Hrd)|
        apply wclass_of; [done|by rewrite <- Ev]|].
      rewrite Ev, Hs. apply Hgt1. rewrite Hh. intros [= ->]. done.
    + rewrite (numbers_frame _ Hni). eapply Z.le_lt_trans; [|exact Hgt]. apply (rd_le _ _ _ _ _ Hrd r Hr).
      apply not_true_is_false. intros Ht%Hmono. congruence.
  - intros w w' Hw Hw' Hne Hn Hn'. apply wclass_distinct; auto using wclass_of.
  - intros p Hp Hna. destruct (decide (id p ∈ id <$> ws)) as [(v & Ev & Hv)%list_elem_of_fmap|Hni].
    + rewrite Ev in *. destruct (wclass_above v Hv (wclass_of v Hv Hna)) as [? _]. lia.
    + rewrite (numbers_frame _ Hni). apply (rd_pos _ _ _ _ _ Hrd).
      apply elem_of_app in Hp as [|Hp]; [done|]. by apply (list_elem_of_fmap_2 id) in Hp.
Qed.
End numbers.
End writes.

Record cell (k : string) (rs ws : list ptr) : Prop := {
  cell_reads : Forall owned rs;
  cell_writes : Forall owned ws;
  cell_once : NoDup (id <$> ws);
  cell_read_key : forall r, r ∈ rs -> isRead (h0 r) = true /\ key_of h0 r = k;
  cell_write_key : forall w, w ∈ ws -> key_of h0 w = k }.


(** No number is above the last one given. *)
Lemma numbers_within ws E1 S mr tmpW tmpW2 mw0 mr1 mw1 mw2 mw4 E2 S1 S2 S3 B :
  adjusted ws E1 S mr tmpW mw0 E2 S1 mr1 mw1 -> numbers_in B S ->
  (0 <= B <= mw4)%Z -> (0 <= mr1 <= mw1)%Z -> (mw1 <= mw2 <= mw4)%Z ->
  (forall t, S2 t = S1 t \/ (t ∈ id <$> ws /\ S1 t = 0%Z)) ->
  (forall w, w ∈ ws -> S1 (id w) = 0%Z -> (mw1 < S2 (id w) <= mw2)%Z /\ S2 (id w) ∉ write_keys tmpW2) ->
  (forall t, S3 t = S2 t \/ exists x, x ∈ write_items tmpW2 /\ kept mr1 x = false /\ id x.2.2 = t) ->
  (forall x, x ∈ write_items tmpW2 -> kept mr1 x = false -> (0 <= S3 (id x.2.2) <= mw4)%Z) ->
  numbers_in mw4 S3.
Proof.
  intros AD HB Hb Hmr Hmw F1 F2 R1 R3 t. specialize (HB t).
  destruct (R1 t) as [->|(x & Hx & Hk & <-)]; [|by apply R3].
  destruct (F1 t) as [->|[(w & -> & Hw)%list_elem_of_fmap Hz]]; [|destruct (F2 w Hw Hz); lia].
  destruct (ad_seq _ _ _ _ _ _ _ _ _ _ AD t) as [->|(w & Hw & ->)]; [lia|].
  pose proof (ad_pos _ _ _ _ _ _ _ _ _ _ AD w Hw). pose proof (ad_le _ _ _ _ _ _ _ _ _ _ AD w Hw). lia.
Qed.

Lemma last_sorted_max keys mx k : Sorted Z.le keys -> last keys = Some mx -> k ∈ keys -> (k <= mx)%Z.
Proof.
  intros Hs Hl Hk. apply last_Some in Hl as [l ->].
  apply Sorted_StronglySorted in Hs; [|intros ? ? ?; lia].
  apply elem_of_app in Hk as [Hk| ->%list_elem_of_singleton]; [|lia].
  induction l as [|x l IH]; [set_solver|]. apply StronglySorted_inv in Hs as [Hs Hf].
  apply elem_of_cons in Hk as [->|Hk]; [|by apply IH]. rewrite Forall_forall in Hf. apply Hf. set_solver.
Qed.

Lemma sort_writes_spec h E S mr k rs ws B :
  good h E S -> numbers_in B S -> (initialSequence <= B)%Z -> (0 <= mr <= B)%Z ->
  (B + 2 * Z.of_nat (length ws) + 1 < MaxInt32)%Z -> reads_sorted rs h E S mr -> cell k rs ws ->
  exists h' E' S' mr' mw', sort_writes adjust_same h E ws mr = Ret (h', E', mr', mw') /\ good h' E' S' /\
    queue_sorted rs ws E' S' /\ numbers_in (B + 2 * Z.of_nat (length ws) + 1) S' /\
    (forall t, aborted E t = true -> aborted E' t = true) /\
    (forall t, aborted E' t = true -> aborted E t = true \/ t ∈ id <$> ws) /\
    (forall t, t ∉ id <$> ws -> S' t = S t).
Proof.
  intros G HB HB10 Hmr HM Hrd [Hrs Hws Hnd Hkr Hkw]. pose proof (NoDup_fmap_1 _ _ Hnd) as Hndw.
  assert (forall t, 0 <= S t)%Z as HS by (intros t; apply HB).
  destruct (classify_spec h E S mr rs ws k G HS Hrd Hrs Hws Hndw Hkr Hkw) as ([[E1 tmpW] tmpW2] & Hcl & C).
  unfold sort_writes. rewrite Hcl. cbn [mbind outcome_bind]. fold (write_keys tmpW2).
  set (mw0 := if decide (mr = 0%Z) then (initialSequence - 1)%Z else mr).
  assert (mr <= mw0 <= B)%Z as Hmw0 by (unfold mw0, initialSequence in *; destruct (decide _); lia).
  assert (good h E1 S) as G1 by (split; [apply G|apply (cl_sets _ _ _ _ _ _ C)|apply G]).
  destruct (adjust_adjusted _ ws E E1 S mr tmpW tmpW2 C Hnd h mw0 G1 Hws) as (h1 & E2 & S1 & mr1 & mw1 & -> & G2 & AD);
    [lia|unfold MaxInt32 in *; lia|]. cbn [mbind outcome_bind].
  destruct (ad_bounds _ _ _ _ _ _ _ _ _ _ AD) as [AB1 AB2].
  assert (forall n, n ∈ write_keys tmpW2 -> (n <= B)%Z) as HkB.
  { intros n [l Hl]%elem_of_write_keys. destruct l as [|w l].
    - by apply (cl_other_ne _ _ _ _ _ _ C) in Hl.
    - destruct (cl_other _ _ _ _ _ _ C n w) as (_ & <- & _); [cbn; rewrite Hl; set_solver|apply HB]. }
  destruct (fresh_spec E2 (write_keys tmpW2) mr1 ws Hws Hnd h1 S1 mw1 (B + 1)%Z G2)
    as (h2 & S2 & mw2 & -> & G3 & Hmw2 & F1 & F2 & F3); [intros n Hn%HkB; lia|lia|lia|].
  cbn [mbind outcome_bind].
  set (mw3 := match last (write_keys tmpW2) with Some mx => if decide (mw2 < mx)%Z then mx else mw2 | None => mw2 end).
  assert (mw2 <= mw3 <= B + 1 + Z.of_nat (length ws))%Z as Hmw3.
  { unfold mw3. destruct (last _) as [mx|] eqn:El; [|lia]. destruct (decide (mw2 < mx)%Z); [|lia].
    assert (mx ∈ write_keys tmpW2) as Hmx%HkB by (apply last_Some in El as [l' ->]; set_solver). lia. }
  assert (forall n, n ∈ write_keys tmpW2 -> (n <= mw3)%Z) as Hk3.
  { intros n Hn. unfold mw3. destruct (last _) as [mx|] eqn:El; [|apply last_None in El; rewrite El in Hn; set_solver].
    pose proof (last_sorted_max _ _ _ (sort_ints_sorted _) El Hn). destruct (decide (mw2 < mx)%Z); lia. }
  unfold remaining_writes. rewrite foldM_nested. fold (write_items tmpW2).
  pose proof (length_write_items _ ws E E1 S mr tmpW tmpW2 C Hnd) as Hli.
  destruct (remaining_spec E2 mr1 (write_items tmpW2)) with (h := h2) (S := S2) (mw := mw3)
    as (h3 & S3 & mw4 & -> & G4 & Hmw4 & R1 & R2 & R3 & R4); [|by eapply NoDup_write_items|done|lia|lia|].
  { apply Forall_forall. intros x Hx. eapply write_item_spec in Hx as [Hx _]; [|done..].
    rewrite Forall_forall in Hws. auto. }
  assert (forall t, aborted E t = true -> aborted E2 t = true) as Hmono.
  { intros t Ht. apply (ad_mono _ _ _ _ _ _ _ _ _ _ AD), (cl_mono _ _ _ _ _ _ C), Ht. }
  exists h3, E2, S3, mr1, mw4. split; [done|]. split; [done|].
  split; [|split; [|split; [done|split]]].
  - eapply (numbers_sorted (id <$> rs) ws E E1 S mr tmpW tmpW2 C Hnd mw0 mr1 mw1 mw2 mw3 E2 S1 S2 S3); try done; try lia.
    + split; [lia|]. split; [lia|done].
    + intros x Hx Hk. by apply R3.
  - apply (numbers_within ws E1 S mr tmpW tmpW2 mw0 mr1 mw1 mw2 _ E2 S1 S2 S3 B); try done; [unfold initialSequence in *; lia|lia|lia|].
    intros x Hx Hk. specialize (R3 x Hx Hk). lia.
  - intros t [Ht|Ht]%(ad_new _ _ _ _ _ _ _ _ _ _ AD); [|by right]. by apply (cl_new _ _ _ _ _ _ C).
  - intros t. eapply (numbers_frame (id <$> rs) ws E E1 S mr tmpW tmpW2 C mw0 mr1 mw1 E2 S1 S2 S3); done.
Qed.

Lemma sortInQueue_spec h E S q k B :
  good h E S -> cell k (rSlice q) (wSlice q) -> maxRead q = 0%Z -> numbers_in B S -> (initialSequence <= B)%Z ->
  (B + 2 * Z.of_nat (length (wSlice q)) + 1 < MaxInt32)%Z ->
  exists h' E' q' S', sortInQueue h E q = Ret (h', E', q') /\ good h' E' S' /\
    queue_sorted (rSlice q) (wSlice q) E' S' /\ numbers_in (B + 2 * Z.of_nat (length (wSlice q)) + 1) S' /\
    (forall t, aborted E t = true -> aborted E' t = true) /\
    (forall t, aborted E' t = true -> aborted E t = true \/ t ∈ id <$> wSlice q) /\
    (forall t, t ∉ id <$> (rSlice q ++ wSlice q) -> S' t = S t).
Proof.
  intros G Hc Hmr HB HB10 HM.
  destruct (sort_reads_spec h E S q B G (cell_reads _ _ _ Hc) Hmr HB) as (h1 & mr & S1 & Hr & G1 & HB1 & Hmrb & Hrd & Hf1);
    [lia|].
  destruct (sort_writes_spec h1 E S1 mr k (rSlice q) (wSlice q) B) as (h2 & E2 & S2 & mr2 & mw2 & Hw & G2 & Hq & Hb & Hm & Hn & Hf2);
    [done..|].
  unfold sortInQueue. rewrite Hr. cbn [mbind outcome_bind]. rewrite Hw. cbn [mbind outcome_bind].
  eexists h2, E2, _, S2. do 6 (split; [done|]).
  intros t Ht. rewrite fmap_app, not_elem_of_app in Ht. destruct Ht as [Ht1 Ht2].
  rewrite Hf2 by done. destruct (Hf1 t) as [|[? _]]; done.
Qed.
End sort.
