(* ===== verification/QueueGraph.v ===== *)
(** * From a block to its commit order: theorems about
      [core/conflict_queue.go] and [core/nezha_variable.go]

    [CreateGraph] files every node under its cell and its transaction;
    [QueuesSort] ranks every queue exactly once; [sortInQueue] orders the
    cell of a queue; [DeSS] commits every transaction that is not aborted
    exactly once, under its number.  The last section shows two things the
    scheme does not do: the result is not a serial order across cells, and
    the ranking is not determined by the block. *)
From stdpp Require Import base list list_numbers gmap sets strings sorting relations.
From Stdlib Require Import ZArith Lia.
From S2P Require Import Prelude AlGraph TopoSort RWSet ConflictGraph ConflictQueue QueueOrder.

Set Default Goal Selector "!".
Local Open Scope string_scope.
Local Open Scope list_scope.

(** ** CreateGraph *)

(** A block as [CreateRWNode] makes it: the nodes of a transaction carry its
    identifier and no two transactions share one. *)
Record block_ok (h : heap) (txs : list (list ptr)) : Prop := {
  bo_ids : forall tx p p', tx ∈ txs -> p ∈ tx -> p' ∈ tx -> txid h p = txid h p';
  bo_unique : forall tx tx' p p', tx ∈ txs -> tx' ∈ txs -> p ∈ tx -> p' ∈ tx' -> txid h p = txid h p' -> tx = tx' }.

Lemma foldl_add_to_queue h ps m k :
  foldl (add_to_queue h) m ps !! k
  = match filter (fun p => key_of h p = k) ps with
    | [] => m !! k
    | l => Some (default [] (m !! k) ++ l)
    end.
Proof.
  revert m; induction ps as [|p ps IH]; intros m; [done|]. cbn [foldl]. rewrite IH, filter_cons.
  unfold add_to_queue. destruct (decide (key_of h p = k)) as [->|Hne].
  - rewrite lookup_insert_eq. cbn [default from_option]. unfold default, from_option, Datatypes.id.
    destruct (filter _ ps); [done|]. by rewrite <- app_assoc.
  - rewrite lookup_insert_ne by done. done.
Qed.

Definition create_step (h : heap) (st : graph_tables) (rw : list ptr) : graph_tables :=
  match rw with [] => st | p0 :: _ => create_tx h st rw p0 end.

Lemma create_queues h txs st k :
  (foldl (create_step h) st txs).2 !! k
  = match filter (fun p => key_of h p = k) (mjoin txs) with
    | [] => st.2 !! k
    | l => Some (default [] (st.2 !! k) ++ l)
    end.
Proof.
  revert st; induction txs as [|tx txs IH]; intros st; [done|]. cbn [foldl mjoin list_join].
  rewrite IH, filter_app. destruct tx as [|p0 tx]; [done|]. unfold create_step, create_tx. cbn [snd].
  rewrite foldl_add_to_queue. destruct (filter _ (p0 :: tx)) as [|a l]; [done|].
  cbn [app]. destruct (filter _ (mjoin txs)); [by rewrite app_nil_r|].
  cbn. by rewrite <- app_assoc.
Qed.

Lemma create_edges h txs st t e :
  (foldl (create_step h) st txs).1 !! t = Some e ->
  st.1 !! t = Some e \/ exists p0 tx, p0 :: tx ∈ txs /\ t = txid h p0 /\ e = mkEdge (p0 :: tx) false.
Proof.
  revert st; induction txs as [|tx txs IH]; intros st; [by left|]. cbn [foldl]. intros H.
  apply IH in H as [H|(p0 & tx' & ? & ?)]; [|right; exists p0, tx'; set_solver].
  destruct tx as [|p0 tx]; [by left|]. cbn [create_step create_tx fst] in H.
  destruct (decide (txid h p0 = t)) as [<-|Hne].
  - rewrite lookup_insert_eq in H. injection H as <-. right. exists p0, tx. set_solver.
  - rewrite lookup_insert_ne in H by done. by left.
Qed.

Lemma create_edges_mono h txs st t : is_Some (st.1 !! t) -> is_Some ((foldl (create_step h) st txs).1 !! t).
Proof.
  revert st; induction txs as [|tx txs IH]; intros st Hs; [done|]. cbn [foldl]. apply IH.
  destruct tx as [|p0 tx]; [done|]. cbn. apply lookup_insert_is_Some'. by right.
Qed.

Lemma create_edges_some h txs st p0 tx :
  p0 :: tx ∈ txs -> is_Some ((foldl (create_step h) st txs).1 !! txid h p0).
Proof.
  revert st; induction txs as [|tx' txs IH]; intros st Hin; [set_solver|]. cbn [foldl].
  apply elem_of_cons in Hin as [<-|Hin]; [|by apply IH]. apply create_edges_mono. cbn.
  rewrite lookup_insert_eq. by eexists.
Qed.

Lemma CreateGraph_eq h txs :
  CreateGraph h txs = mkQueueGraph (make_queue h <$> (foldl (create_step h) (∅, ∅) txs).2)
                                   (foldl (create_step h) (∅, ∅) txs).1.
Proof. unfold CreateGraph. fold (create_step h). by destruct (foldl (create_step h) (∅, ∅) txs). Qed.

Lemma CreateGraph_queue h txs k :
  Queues (CreateGraph h txs) !! k
  = match filter (fun p => key_of h p = k) (mjoin txs) with [] => None | l => Some (make_queue h l) end.
Proof.
  rewrite CreateGraph_eq. cbn [Queues]. rewrite lookup_fmap, create_queues. cbn [snd]. rewrite lookup_empty.
  by destruct (filter _ _).
Qed.

(** The edges of the graph are exactly the transactions of the block. *)
Lemma CreateGraph_edge h txs p tx :
  block_ok h txs -> tx ∈ txs -> p ∈ tx -> Edges (CreateGraph h txs) !! txid h p = Some (mkEdge tx false).
Proof.
  intros [Hids Huniq] Htx Hp. rewrite CreateGraph_eq. cbn [Edges].
  destruct tx as [|p0 tx]; [set_solver|].
  rewrite (Hids _ p p0 Htx Hp ltac:(left)).
  destruct (create_edges_some h txs (∅, ∅) p0 tx Htx) as [e He]. rewrite He. f_equal.
  apply create_edges in He as [He|(q0 & tx' & Hin & Hq & ->)]; [cbn [fst] in He; by rewrite lookup_empty in He|].
  by rewrite (Huniq _ _ p0 q0 Htx Hin ltac:(left) ltac:(left) Hq).
Qed.

Lemma CreateGraph_edge_inv h txs t e :
  Edges (CreateGraph h txs) !! t = Some e -> exists p0 tx, p0 :: tx ∈ txs /\ t = txid h p0 /\ e = mkEdge (p0 :: tx) false.
Proof.
  rewrite CreateGraph_eq. cbn [Edges]. intros [He|?]%create_edges; [cbn [fst] in He; by rewrite lookup_empty in He|done].
Qed.

(** ** A state between two queues *)

(** The nodes of a transaction carry its identifier and one number. *)
Record sequenced (h : heap) (E : gmap string Edge) : Prop := {
  sq_id : forall t e p, E !! t = Some e -> p ∈ set e -> txid h p = t;
  sq_same : forall t e p p', E !! t = Some e -> p ∈ set e -> p' ∈ set e -> Sequence (h p) = Sequence (h p') }.

Definition in_edge (h : heap) (E : gmap string Edge) (p : ptr) : Prop :=
  exists e, E !! txid h p = Some e /\ p ∈ set e.

Definition not_aborted (E : gmap string Edge) (t : string) : Prop := aborted E t = false.

Definition number_of (h : heap) (E : gmap string Edge) (t : string) : Z :=
  match E !! t with
  | Some e => match head (set e) with Some p => Sequence (h p) | None => 0%Z end
  | None => 0%Z
  end.

Lemma sequenced_number h E t e p :
  sequenced h E -> E !! t = Some e -> p ∈ set e -> Sequence (h p) = number_of h E t.
Proof.
  intros [_ Hs] He Hp. unfold number_of. rewrite He.
  destruct (set e) as [|p0 l] eqn:El; [set_solver|]. cbn. rewrite <- El in *. apply (Hs t e); [done|done|]. rewrite El. left.
Qed.

Lemma owned_in_edge h E p : owned h (set <$> E) p <-> in_edge h E p.
Proof.
  unfold owned, in_edge. setoid_rewrite lookup_fmap. split.
  - intros (l & Hl & Hp). destruct (E !! txid h p) as [e|]; [|done]. injection Hl as <-. eauto.
  - intros (e & -> & Hp). cbn. eauto.
Qed.

Lemma sequenced_good h E : sequenced h E -> good h (set <$> E) h E (number_of h E).
Proof.
  intros Hs. split; [done|done|]. intros p (e & He & Hp)%owned_in_edge. by eapply sequenced_number.
Qed.

Lemma good_sequenced h0 E0 h E S :
  sequenced h0 E0 -> good h0 (set <$> E0) h E S -> sequenced h E.
Proof.
  intros [Hid _] G. assert (forall t e p, E !! t = Some e -> p ∈ set e -> txid h0 p = t /\ owned h0 (set <$> E0) p) as H.
  { intros t e p He Hp. assert ((set <$> E0) !! t = Some (set e)) as Hset.
    { rewrite <- (good_sets _ _ _ _ _ G), lookup_fmap, He. done. }
    pose proof Hset as Hs'. rewrite lookup_fmap in Hs'.
    destruct (E0 !! t) as [e0|] eqn:E0t; [|done]. injection Hs' as Hs'.
    assert (txid h0 p = t) as Ht by (apply (Hid t e0); [done|by rewrite Hs']).
    split; [done|]. exists (set e). by rewrite Ht. }
  split.
  - intros t e p He Hp. destruct (H t e p He Hp) as [<- _]. by eapply good_txid.
  - intros t e p p' He Hp Hp'. destruct (H t e p He Hp) as [Ht Ho]. destruct (H t e p' He Hp') as [Ht' Ho'].
    by rewrite (good_seq _ _ _ _ _ G p Ho), (good_seq _ _ _ _ _ G p' Ho'), Ht, Ht'.
Qed.

Lemma number_of_bound h E B :
  (0 <= B)%Z -> (forall p, in_edge h E p -> 0 <= Sequence (h p) <= B)%Z -> sequenced h E -> numbers_in B (number_of h E).
Proof.
  intros HB Hb Hs t. unfold number_of. destruct (E !! t) as [e|] eqn:He; [|lia].
  destruct (set e) as [|p l] eqn:El; cbn; [lia|]. apply Hb. exists e.
  rewrite (sq_id _ _ Hs t e p He) by (rewrite El; left). split; [done|]. rewrite El. left.
Qed.

(** The nodes of a queue: reads and writes of one cell, one write for each
    transaction. *)
Record queue_ok (h : heap) (E : gmap string Edge) (k : string) (q : Queue) : Prop := {
  qo_edge : forall p, p ∈ rSlice q ++ wSlice q -> in_edge h E p /\ key_of h p = k;
  qo_read : forall r, r ∈ rSlice q -> isRead (h r) = true;
  qo_once : NoDup (txid h <$> wSlice q) }.

Lemma queue_ok_cell h E k q : queue_ok h E k q -> cell h (set <$> E) k (rSlice q) (wSlice q).
Proof.
  intros [He Hr Hn]. split.
  - apply Forall_forall. intros p Hp. apply owned_in_edge, He. set_solver.
  - apply Forall_forall. intros p Hp. apply owned_in_edge, He. set_solver.
  - done.
  - intros r Hr'. split; [by apply Hr|]. apply He. set_solver.
  - intros w Hw. apply He. set_solver.
Qed.

Lemma sets_spec h E : sequenced h E -> forall t l p, (set <$> E) !! t = Some l -> p ∈ l -> txid h p = t.
Proof.
  intros Hs t l p Hl Hp. rewrite lookup_fmap in Hl. destruct (E !! t) as [e|] eqn:He; [|done].
  injection Hl as <-. by eapply sq_id.
Qed.

Lemma sortInQueue_state h E k q B :
  sequenced h E -> queue_ok h E k q -> maxRead q = 0%Z ->
  (forall p, in_edge h E p -> 0 <= Sequence (h p) <= B)%Z -> (initialSequence <= B)%Z ->
  (B + 2 * Z.of_nat (length (wSlice q)) + 1 < MaxInt32)%Z ->
  exists h' E' q', sortInQueue h E q = Ret (h', E', q') /\ sequenced h' E' /\
    (forall p, shape (h' p) = shape (h p)) /\ set <$> E' = set <$> E /\
    (forall p, in_edge h E p -> 0 <= Sequence (h' p) <= B + 2 * Z.of_nat (length (wSlice q)) + 1)%Z /\
    (forall r w, r ∈ rSlice q -> w ∈ wSlice q -> txid h r <> txid h w ->
       not_aborted E' (txid h r) -> not_aborted E' (txid h w) -> (Sequence (h' r) < Sequence (h' w))%Z) /\
    (forall w w', w ∈ wSlice q -> w' ∈ wSlice q -> txid h w <> txid h w' ->
       not_aborted E' (txid h w) -> not_aborted E' (txid h w') -> Sequence (h' w) <> Sequence (h' w')) /\
    (forall t, not_aborted E' t -> not_aborted E t) /\
    (forall p, in_edge h E p -> txid h p ∉ txid h <$> (rSlice q ++ wSlice q) -> Sequence (h' p) = Sequence (h p)).
Proof.
  intros Hs Hq Hmr HB HB10 HM.
  destruct (sortInQueue_spec h (set <$> E) (sets_spec h E Hs) h E (number_of h E) q k B)
    as (h' & E' & q' & S' & Hrun & G' & [Hrw Hww _] & HB' & Hmono & _ & Hframe);
    [by apply sequenced_good|by apply queue_ok_cell|done|apply number_of_bound; [unfold initialSequence in *; lia|done..]|done|done|].
  assert (forall p, in_edge h E p -> Sequence (h' p) = S' (txid h p)) as Hseq.
  { intros p Hp. apply (good_seq _ _ _ _ _ G'). by apply owned_in_edge. }
  assert (forall p, p ∈ rSlice q ++ wSlice q -> in_edge h E p) as Hin by (intros p Hp; by apply (qo_edge _ _ _ _ Hq)).
  exists h', E', q'. split; [done|]. split; [by eapply good_sequenced|].
  split; [apply G'|]. split; [apply G'|]. split; [|split; [|split; [|split]]].
  - intros p Hp. rewrite Hseq by done. apply HB'.
  - intros r w Hr Hw. rewrite !Hseq by (apply Hin; set_solver). by apply Hrw.
  - intros w w' Hw Hw'. rewrite !Hseq by (apply Hin; set_solver). by apply Hww.
  - intros t Ht. apply not_true_is_false. intros Ha%Hmono. unfold not_aborted in Ht. congruence.
  - intros p Hp Ht. rewrite Hseq, Hframe by done. destruct Hp as (e & He & Hp). symmetry. by eapply sequenced_number.
Qed.

(** ** Sorting the queues one after the other *)
Lemma in_edge_transfer h E h' E' p :
  (forall p, shape (h' p) = shape (h p)) -> set <$> E' = set <$> E -> in_edge h' E' p <-> in_edge h E p.
Proof.
  intros Hsh Hset. rewrite <- !owned_in_edge, Hset. unfold owned.
  by rewrite (shape_txid h' h) by apply Hsh.
Qed.

Lemma queue_ok_transfer h E h' E' k q :
  (forall p, shape (h' p) = shape (h p)) -> set <$> E' = set <$> E -> queue_ok h E k q -> queue_ok h' E' k q.
Proof.
  intros Hsh Hset [He Hr Ho]. split.
  - intros p Hp. rewrite (in_edge_transfer h E h' E'), (shape_key h' h) by (done || apply Hsh). by apply He.
  - intros r Hr'. rewrite (shape_isRead h' h) by apply Hsh. by apply Hr.
  - erewrite list_fmap_ext; [exact Ho|]. intros i p _. by apply shape_txid, Hsh.
Qed.

Definition queue_cost (cq : QueueGraph) (k : string) : Z :=
  match Queues cq !! k with Some q => 2 * Z.of_nat (length (wSlice q)) + 1 | None => 0 end.

Lemma sort_queues_spec ks : forall h cq B,
  NoDup ks ->
  (forall k, k ∈ ks -> exists q, Queues cq !! k = Some q /\ queue_ok h (Edges cq) k q /\ maxRead q = 0%Z) ->
  sequenced h (Edges cq) -> (forall p, in_edge h (Edges cq) p -> 0 <= Sequence (h p) <= B)%Z ->
  (initialSequence <= B)%Z -> (B + zsum (queue_cost cq <$> ks) < MaxInt32)%Z ->
  exists h' cq', sort_queues sortInQueue h cq ks = Ret (h', cq') /\ sequenced h' (Edges cq') /\
    (forall p, shape (h' p) = shape (h p)) /\ set <$> Edges cq' = set <$> Edges cq.
Proof.
  induction ks as [|k ks IH]; intros h cq B Hnd Hks Hs Hb HB HM; [by exists h, cq|].
  apply NoDup_cons in Hnd as [Hk Hnd]. destruct (Hks k ltac:(left)) as (q & Hq & Hqo & Hmr).
  change (zsum (queue_cost cq <$> k :: ks)) with (queue_cost cq k + zsum (queue_cost cq <$> ks))%Z in HM.
  unfold queue_cost at 1 in HM. rewrite Hq in HM.
  assert (0 <= zsum (queue_cost cq <$> ks))%Z as Hnn.
  { apply zsum_nonneg, Forall_fmap, Forall_forall. intros k' _. unfold queue_cost. cbn. destruct (Queues cq !! k'); lia. }
  destruct (sortInQueue_state h (Edges cq) k q B Hs Hqo Hmr Hb HB) as (h1 & E1 & q1 & Hrun & Hs1 & Hsh & Hset & Hb1 & _);
    [lia|].
  unfold sort_queues. cbn [foldM]. rewrite Hq. cbn [or_panic mbind outcome_bind]. rewrite Hrun. cbn [mbind outcome_bind].
  set (cq1 := mkQueueGraph (<[k := q1]> (Queues cq)) E1).
  destruct (IH h1 cq1 (B + 2 * Z.of_nat (length (wSlice q)) + 1)%Z) as (h' & cq' & Hrun' & Hs' & Hsh' & Hset');
    [done| |done| |lia| |].
  - intros k' Hk'. destruct (Hks k' ltac:(by right)) as (q' & Hq' & Hqo' & Hmr'). exists q'. cbn [Queues cq1].
    rewrite lookup_insert_ne by (intros ->; done). split; [done|]. split; [|done].
    by apply (queue_ok_transfer h (Edges cq)).
  - intros p Hp. apply Hb1. by apply (in_edge_transfer h (Edges cq) h1 E1).
  - replace (queue_cost cq1 <$> ks) with (queue_cost cq <$> ks); [lia|]. apply list_fmap_ext. intros i k' Hi.
    apply list_elem_of_lookup_2 in Hi. unfold queue_cost. cbn [Queues cq1]. rewrite lookup_insert_ne; [done|]. intros ->. done.
  - exists h', cq'. split; [exact Hrun'|]. split; [done|]. split; [intros p; by rewrite Hsh', Hsh|]. by rewrite Hset', <- Hset.
Qed.

(** ** Committing *)
Definition commits_at (h : heap) (E : gmap string Edge) (s : Z) (t : string) : bool :=
  negb (aborted E t) && bool_decide (number_of h E t = s).
Definition write_nodes (h : heap) (E : gmap string Edge) (t : string) : list ptr :=
  filter (fun p => isWrite (h p) = true) (from_option set [] (E !! t)).

Lemma commit_spec h E ts co :
  (forall t, t ∈ ts -> exists e, E !! t = Some e /\ set e <> []) ->
  exists co', foldM (commit_tx h E) co ts = Ret co' /\
    forall s, default [] (co' !! s) = default [] (co !! s) ++ (write_nodes h E <$> filter (fun t => commits_at h E s t = true) ts).
Proof.
  revert co; induction ts as [|t ts IH]; intros co Hts.
  { exists co. split; [done|]. intros s. by rewrite app_nil_r. }
  destruct (Hts t ltac:(left)) as (e & He & Hne).
  assert (exists co1, commit_tx h E co t = Ret co1 /\ forall s, default [] (co1 !! s)
    = default [] (co !! s) ++ if commits_at h E s t then [write_nodes h E t] else []) as (co1 & Hc & H1).
  { unfold commit_tx, edge_of, commits_at, aborted, number_of, write_nodes. rewrite He.
    cbn [or_panic mbind outcome_bind from_option]. destruct (isAborted e).
    - exists co. split; [done|]. intros s. by rewrite app_nil_r.
    - destruct (set e) as [|p l]; [done|]. cbn [head or_panic mbind outcome_bind]. eexists. split; [done|].
      intros s. cbn [negb andb]. destruct (decide (Sequence (h p) = s)) as [->|Hns].
      + by rewrite lookup_insert_eq, bool_decide_eq_true_2.
      + rewrite lookup_insert_ne, bool_decide_eq_false_2 by done. by rewrite app_nil_r. }
  cbn [foldM]. rewrite Hc. cbn [mbind outcome_bind].
  destruct (IH co1) as (co' & -> & H'); [intros t' Ht'; apply Hts; by right|].
  exists co'. split; [done|]. intros s. rewrite H', H1, filter_cons, <- app_assoc. f_equal.
  destruct (commits_at h E s t) eqn:Ec; [rewrite decide_True by done|rewrite decide_False by congruence]; done.
Qed.

(** ** Whole blocks *)

(** A block whose nodes are distinct, not numbered yet, and in which a
    transaction has at most one write node for a cell. *)
Record block_fresh (h : heap) (txs : list (list ptr)) : Prop := {
  bf_ok : block_ok h txs;
  bf_nodup : NoDup (mjoin txs);
  bf_zero : forall p, p ∈ mjoin txs -> Sequence (h p) = 0%Z;
  bf_once : forall p p', p ∈ mjoin txs -> p' ∈ mjoin txs -> isRead (h p) = false -> isRead (h p') = false ->
    txid h p = txid h p' -> key_of h p = key_of h p' -> p = p' }.

Lemma CreateGraph_sequenced h txs : block_fresh h txs -> sequenced h (Edges (CreateGraph h txs)).
Proof.
  intros [[Hids _] _ Hz _].
  assert (forall t e p, Edges (CreateGraph h txs) !! t = Some e -> p ∈ set e ->
    txid h p = t /\ p ∈ mjoin txs) as H.
  { intros t e p (p0 & tx & Hin & -> & ->)%CreateGraph_edge_inv Hp. cbn [set] in Hp.
    split; [apply (Hids _ p p0 Hin Hp); left|]. apply list_elem_of_join. eauto. }
  split.
  - intros t e p He Hp. by destruct (H t e p He Hp).
  - intros t e p p' He Hp Hp'. destruct (H t e p He Hp) as [_ Hj]. destruct (H t e p' He Hp') as [_ Hj'].
    by rewrite !Hz.
Qed.

Lemma CreateGraph_queue_ok h txs k q :
  block_fresh h txs -> Queues (CreateGraph h txs) !! k = Some q ->
  queue_ok h (Edges (CreateGraph h txs)) k q /\ maxRead q = 0%Z.
Proof.
  intros [Hok Hnd _ Honce] Hq. rewrite CreateGraph_queue in Hq.
  destruct (filter (fun p => key_of h p = k) (mjoin txs)) as [|a l] eqn:El; [done|]. rewrite <- El in Hq.
  injection Hq as <-. unfold make_queue, initialSorting. cbn [maxRead rSlice wSlice]. split; [|done].
  assert (forall b p, p ∈ filter (fun p => isRead (h p) = b) (filter (fun p => key_of h p = k) (mjoin txs)) <->
    isRead (h p) = b /\ key_of h p = k /\ p ∈ mjoin txs) as Hin.
  { intros b p. by rewrite !list_elem_of_filter. }
  split; cbn [rSlice wSlice].
  - intros p [Hp|Hp]%elem_of_app; apply Hin in Hp as (_ & Hk & (tx & Hp & Htx)%list_elem_of_join); (split; [|done]);
      exists (mkEdge tx false); (split; [by apply CreateGraph_edge|done]).
  - intros r Hr. by apply Hin in Hr as [? _].
  - apply NoDup_fmap_2_strong; [|by apply NoDup_filter, NoDup_filter].
    intros p p' (? & ? & ?)%Hin (? & ? & ?)%Hin Eq. apply Honce; [done..|congruence].
Qed.

Lemma sum_keys_le h (ks : list string) (ps : list ptr) :
  NoDup ks -> sum_list_with (fun k => length (filter (fun p => key_of h p = k) ps)) ks <= length ps.
Proof.
  intros Hnd. induction ps as [|p ps IH]; [by rewrite (proj2 (sum_list_with_zero _ _))|].
  enough (forall ks, NoDup ks -> sum_list_with (fun k => length (filter (fun p => key_of h p = k) (p :: ps))) ks
    <= sum_list_with (fun k => length (filter (fun p => key_of h p = k) ps)) ks +
       if decide (key_of h p ∈ ks) then 1 else 0) as H.
  { specialize (H ks Hnd). cbn [length]. destruct (decide _) in H; lia. }
  clear. induction ks as [|k ks IH]; intros Hnd; cbn [sum_list_with]; [lia|].
  apply NoDup_cons in Hnd as [Hk Hnd]. specialize (IH Hnd). rewrite filter_cons.
  destruct (decide (key_of h p = k)) as [<-|Hne]; cbn [length].
  - rewrite (decide_False (P := key_of h p ∈ ks)) in IH by done. rewrite decide_True by left. lia.
  - destruct (decide (key_of h p ∈ ks)); [rewrite decide_True by (by right)|rewrite decide_False by set_solver]; lia.
Qed.

Lemma CreateGraph_cost h txs ks :
  NoDup ks -> (forall k, k ∈ ks -> is_Some (Queues (CreateGraph h txs) !! k)) ->
  (zsum (queue_cost (CreateGraph h txs) <$> ks) <= 3 * Z.of_nat (length (mjoin txs)))%Z.
Proof.
  intros Hnd Hks. pose proof (sum_keys_le h ks (mjoin txs) Hnd) as Hsum.
  enough (zsum (queue_cost (CreateGraph h txs) <$> ks)
    <= 3 * Z.of_nat (sum_list_with (fun k => length (filter (fun p => key_of h p = k) (mjoin txs))) ks))%Z by lia.
  clear Hnd Hsum. induction ks as [|k ks IH]; [done|]. rewrite fmap_cons.
  change (zsum (?x :: ?l)) with (x + zsum l)%Z. cbn [sum_list_with].
  specialize (IH ltac:(intros k' Hk'; apply Hks; by right)).
  destruct (Hks k ltac:(left)) as [q Hq]. unfold queue_cost at 1. rewrite Hq. rewrite CreateGraph_queue in Hq.
  destruct (filter (fun p => key_of h p = k) (mjoin txs)) as [|a l] eqn:El; [done|]. rewrite <- El in *.
  injection Hq as <-. unfold make_queue, initialSorting. cbn [wSlice].
  pose proof (length_filter (fun p => isRead (h p) = false) (filter (fun p => key_of h p = k) (mjoin txs))).
  assert (0 < length (filter (fun p => key_of h p = k) (mjoin txs))) by (rewrite El; cbn; lia). lia.
Qed.

Lemma DeSS_run h txs rng sequence :
  block_fresh h txs -> range_ok rng -> sequence ≡ₚ elements (dom (Queues (CreateGraph h txs))) ->
  (initialSequence + 3 * Z.of_nat (length (mjoin txs)) < MaxInt32)%Z ->
  exists h' cq' co, DeSS sortInQueue rng h (CreateGraph h txs) sequence = Ret (h', cq', co) /\
    sequenced h' (Edges cq') /\ set <$> Edges cq' = set <$> Edges (CreateGraph h txs) /\
    forall s, default [] (co !! s) = write_nodes h' (Edges cq') <$>
      filter (fun t => commits_at h' (Edges cq') s t = true) (rng (dom (Edges cq'))).
Proof.
  intros Hbf Hrng Hseq HM. pose proof (CreateGraph_sequenced h txs Hbf) as Hs.
  assert (NoDup sequence) as Hnd by (rewrite Hseq; apply NoDup_elements).
  assert (forall k, k ∈ sequence -> is_Some (Queues (CreateGraph h txs) !! k)) as Hks.
  { intros k Hk. by rewrite Hseq, elem_of_elements, elem_of_dom in Hk. }
  destruct (sort_queues_spec sequence h (CreateGraph h txs) initialSequence) as (h' & cq' & Hrun & Hs' & Hsh & Hset);
    [done| |done| |done| |].
  { intros k [q Hq]%Hks. exists q. split; [done|]. by apply CreateGraph_queue_ok. }
  { intros p (e & (p0 & tx & Hin & _ & ->)%CreateGraph_edge_inv & Hp). cbn [set] in Hp.
    rewrite (bf_zero _ _ Hbf); [unfold initialSequence; lia|]. apply list_elem_of_join. eauto. }
  { pose proof (CreateGraph_cost h txs sequence Hnd Hks). lia. }
  unfold DeSS. rewrite Hrun. cbn [mbind outcome_bind].
  destruct (commit_spec h' (Edges cq') (rng (dom (Edges cq'))) ∅) as (co & -> & Hco).
  { intros t Ht. rewrite range_ok_elem, elem_of_dom in Ht by done. destruct Ht as [e He]. exists e. split; [done|].
    assert ((set <$> Edges (CreateGraph h txs)) !! t = Some (set e)) as Hse by (by rewrite <- Hset, lookup_fmap, He).
    rewrite lookup_fmap in Hse. destruct (Edges (CreateGraph h txs) !! t) as [e0|] eqn:E0; [|done].
    injection Hse as <-. by apply CreateGraph_edge_inv in E0 as (p0 & tx & _ & _ & ->). }
  exists h', cq', co. split; [done|]. split; [done|]. split; [done|]. intros s. by rewrite Hco, lookup_empty.
Qed.

(** ** QueuesSort *)
Lemma index_map_spec l k i : NoDup l -> l !! i = Some k -> index_map l !! k = Some i.
Proof.
  intros Hnd Hi. unfold index_map.
  enough (forall (ps : list (nat * string)) (m : gmap string nat), NoDup ps.*2 -> (i, k) ∈ ps ->
    foldl (fun m p => <[p.2 := p.1]> m) m ps !! k = Some i) as H.
  { apply H; [|apply elem_of_lookup_imap; eauto].
    replace (imap pair l).*2 with l; [done|]. apply list_eq. intros j.
    rewrite list_lookup_fmap, list_lookup_imap. by destruct (l !! j). }
  assert (forall (ps : list (nat * string)) (m : gmap string nat), k ∉ ps.*2 ->
    foldl (fun m p => <[p.2 := p.1]> m) m ps !! k = m !! k) as Hskip.
  { induction ps as [|p ps IH]; intros m Hn; [done|]. cbn [foldl fmap list_fmap] in *.
    apply not_elem_of_cons in Hn as [Hne Hn]. rewrite IH by done. by apply lookup_insert_ne. }
  induction ps as [|p ps IH]; intros m Hps Hin; [set_solver|]. cbn [foldl fmap list_fmap] in *. apply NoDup_cons in Hps as [Hp Hps].
  apply elem_of_cons in Hin as [<-|Hin]; [|by apply IH]. rewrite Hskip by done. apply lookup_insert_eq.
Qed.

(** The cells read by a writer of the cell of [q], other than that cell. *)
Definition depends (h : heap) (E : gmap string Edge) (q : Queue) (k : string) : Prop :=
  exists w e n, w ∈ wSlice q /\ E !! txid h w = Some e /\ n ∈ set e /\ isRead (h n) = true /\
    key_of h n <> key_of h w /\ k = key_of h n.

Lemma dep_keys_spec h E q :
  (forall w, w ∈ wSlice q -> is_Some (E !! txid h w)) ->
  exists temp, dep_keys h E q = Ret temp /\ forall k, k ∈ temp <-> depends h E q k.
Proof.
  intros HE. unfold dep_keys, depends.
  match goal with |- context [foldM ?f ∅ (wSlice q)] =>
    destruct (foldM_inv f (fun pre temp => forall k, k ∈ temp <->
      exists w e n, w ∈ pre /\ E !! txid h w = Some e /\ n ∈ set e /\ isRead (h n) = true /\
        key_of h n <> key_of h w /\ k = key_of h n) (wSlice q) ∅) as (temp & -> & Ht) end.
  - intros k. set_solver.
  - intros pre w post temp Hl Hpre. destruct (HE w) as [e He]; [rewrite Hl; set_solver|].
    unfold edge_of. rewrite He. cbn [or_panic mbind outcome_bind]. eexists. split; [done|]. intros k.
    assert (forall l (temp : gset string), k ∈ foldl (fun temp n => if isRead (h n) && negb (bool_decide (key_of h n = key_of h w))
      then {[key_of h n]} ∪ temp else temp) temp l <->
      k ∈ temp \/ exists n, n ∈ l /\ isRead (h n) = true /\ key_of h n <> key_of h w /\ k = key_of h n) as ->.
    { clear. induction l as [|n l IH]; intros temp; cbn [foldl]; [set_solver|]. rewrite IH. clear IH.
      assert (k ∈ (if isRead (h n) && negb (bool_decide (key_of h n = key_of h w)) then {[key_of h n]} ∪ temp else temp) <->
        k ∈ temp \/ isRead (h n) = true /\ key_of h n <> key_of h w /\ k = key_of h n) as ->.
      { destruct (isRead (h n)); cbn [andb]; [|tauto || (split; [by left|by intros [?|[? _]]])].
        case_bool_decide; cbn [negb]; [tauto|]. rewrite elem_of_union, elem_of_singleton. tauto. }
      setoid_rewrite elem_of_cons. split.
      - intros [[?|?]|(m & ? & ?)]; [by left|right; exists n; auto|right; exists m; auto].
      - intros [?|(m & [->|?] & ?)]; [auto|auto|right; exists m; auto]. }
    rewrite Hpre. split.
    + intros [(w' & e' & n & ? & ?)|(n & ? & ?)]; [exists w', e', n; set_solver|exists w, e, n; set_solver].
    + intros (w' & e' & n & [Hw'|Hw'%list_elem_of_singleton]%elem_of_app & He' & Hn); [left; by exists w', e', n|].
      subst w'. rewrite He in He'. injection He' as <-. right. by exists n.
  - by exists temp.
Qed.

Section queues_sort.
Context (rng : string -> gset string -> list string) (h : heap) (cq : QueueGraph).
Hypothesis Hrng : forall k, range_ok (rng k).
Hypothesis Hedges : forall k q w, Queues cq !! k = Some q -> w ∈ wSlice q -> is_Some (Edges cq !! txid h w).
Hypothesis Hdeps : forall k q k', Queues cq !! k = Some q -> depends h (Edges cq) q k' -> is_Some (Queues cq !! k') /\ k' <> k.

Local Abbreviation ks := (sort_strings (elements (dom (Queues cq)))).
Definition idx (k : string) : nat := default 0 (index_map ks !! k).

(** [k] is ranked before the cells its writers read. *)
Definition ranks (k k' : string) : Prop := exists q, Queues cq !! k = Some q /\ depends h (Edges cq) q k'.

Lemma NoDup_ks : NoDup ks.
Proof. rewrite sort_strings_perm. apply NoDup_elements. Qed.
Lemma elem_of_ks k : k ∈ ks <-> is_Some (Queues cq !! k).
Proof. by rewrite sort_strings_perm, elem_of_elements, elem_of_dom. Qed.
Lemma idx_lookup k : k ∈ ks -> ks !! idx k = Some k.
Proof. intros [i Hi]%list_elem_of_lookup. unfold idx. by rewrite (index_map_spec _ k i NoDup_ks Hi). Qed.
Lemma lookup_idx i k : ks !! i = Some k -> idx k = i.
Proof. intros Hi. unfold idx. by rewrite (index_map_spec _ k i NoDup_ks Hi). Qed.
Lemma idx_inj k k' : k ∈ ks -> k' ∈ ks -> idx k = idx k' -> k = k'.
Proof. intros Hk%idx_lookup Hk'%idx_lookup E. rewrite E in Hk. congruence. Qed.

Definition dep_set (k : string) : gset string :=
  match Queues cq !! k with
  | Some q => match dep_keys h (Edges cq) q with Ret temp => temp | _ => ∅ end
  | None => ∅
  end.

Lemma dep_set_spec k k' : k' ∈ dep_set k <-> ranks k k'.
Proof.
  unfold dep_set, ranks. destruct (Queues cq !! k) as [q|] eqn:Hq; [|set_solver].
  destruct (dep_keys_spec h (Edges cq) q) as (temp & -> & Ht); [intros w; by eapply Hedges|].
  rewrite Ht. naive_solver.
Qed.

Definition dep_row (k : string) : list nat := idx <$> rng k (dep_set k).

Lemma elem_of_dep_row k j : j ∈ dep_row k <-> exists k', ranks k k' /\ j = idx k'.
Proof.
  unfold dep_row. rewrite list_elem_of_fmap. setoid_rewrite (range_ok_elem _ _ _ (Hrng k)).
  setoid_rewrite dep_set_spec. naive_solver.
Qed.

Lemma NoDup_dep_row k : NoDup (dep_row k).
Proof.
  apply NoDup_fmap_2_strong; [|apply range_ok_nodup, Hrng].
  intros a b. rewrite !(range_ok_elem _ _ _ (Hrng k)), !dep_set_spec. intros (q & Hq & Ha) (q' & Hq' & Hb).
  apply idx_inj; apply elem_of_ks; [by apply (Hdeps k q)|by apply (Hdeps k q')].
Qed.

(** The dependency lists the code collects, in the order of the sorted keys. *)
Definition dep_graph : list (list nat) := dep_row <$> ks.

Lemma dep_queue_spec (l : list string) :
  (forall k, k ∈ l -> k ∈ ks) -> NoDup l ->
  exists dep : gmap nat (list nat),
    foldM (fun dep key =>
      or_panic (Queues cq !! key) ≫= fun q =>
      dep_keys h (Edges cq) q ≫= fun temp =>
      Ret (<[idx key := idx <$> rng key temp]> dep)) ∅ l = Ret dep /\
    (forall k, k ∈ l -> dep !! idx k = Some (dep_row k)) /\ size dep = length l.
Proof.
  intros Hl Hnd.
  match goal with |- context [foldM ?f ∅ l] =>
    destruct (foldM_inv f (fun pre (dep : gmap nat (list nat)) => (forall k, k ∈ pre -> dep !! idx k = Some (dep_row k)) /\
      (forall i, is_Some (dep !! i) -> exists k, k ∈ pre /\ i = idx k) /\ size dep = length pre) l ∅) as (dep & Hf & Hd & _ & Hs) end.
  - split; [set_solver|]. split; [intros i [? Hi]; by rewrite lookup_empty in Hi|apply map_size_empty].
  - intros pre k post dep Heq (Hd & Hi & Hs). assert (k ∈ l) as Hk by (rewrite Heq; set_solver).
    pose proof (Hl k Hk) as [q Hq]%elem_of_ks.
    assert (exists temp, dep_keys h (Edges cq) q = Ret temp /\ temp = dep_set k) as (temp & Ht & ->).
    { destruct (dep_keys_spec h (Edges cq) q) as (temp & Ht & _); [intros w; by eapply Hedges|].
      exists temp. split; [done|]. unfold dep_set. by rewrite Hq, Ht. }
    rewrite Hq. cbn [or_panic mbind outcome_bind]. rewrite Ht. cbn [mbind outcome_bind].
    eexists. split; [done|]. fold (dep_row k).
    assert (forall k', k' ∈ pre -> idx k <> idx k') as Hne.
    { intros k' Hk' E. assert (k = k') as <-. { apply idx_inj; [by apply Hl|apply Hl; rewrite Heq; set_solver|done]. }
      rewrite Heq in Hnd. apply NoDup_app in Hnd as (_ & Hdis & _). apply (Hdis k Hk'). left. }
    split_and!.
    + intros k' [Hk'|Hk'%list_elem_of_singleton]%elem_of_app; [|subst k'; apply lookup_insert_eq].
      rewrite lookup_insert_ne; auto.
    + intros i [x Hx]. destruct (decide (i = idx k)) as [->|Hni]; [exists k; set_solver|].
      rewrite lookup_insert_ne in Hx by done. destruct (Hi i) as (k' & ? & ?); [by eexists|]. exists k'. set_solver.
    + rewrite map_size_insert_None, Hs, length_app; [cbn; lia|].
      destruct (dep !! idx k) eqn:E; [|done]. destruct (Hi (idx k)) as (k' & Hk' & E'); [by eexists|]. by apply Hne in Hk'.
  - exists dep. split; [exact Hf|]. done.
Qed.

Lemma occ_NoDup v row : NoDup row -> occ v row <= 1.
Proof.
  induction 1 as [|a row Ha Hnd IH]; [unfold occ, countb; cbn; lia|]. rewrite occ_cons.
  destruct (decide (v = a)) as [->|]; [|lia]. apply occ_zero in Ha. lia.
Qed.

Lemma row_of_dep_graph i k : ks !! i = Some k -> row_of dep_graph i = dep_row k.
Proof. intros Hi. unfold row_of, dep_graph. by rewrite list_lookup_fmap, Hi. Qed.

Lemma edge_dep_graph i j : edge dep_graph i j <-> exists k k', ks !! i = Some k /\ ks !! j = Some k' /\ ranks k k'.
Proof.
  unfold edge. split.
  - intros Hj. destruct (ks !! i) as [k|] eqn:Hi.
    + rewrite (row_of_dep_graph i k Hi) in Hj. apply elem_of_dep_row in Hj as (k' & Hr & ->).
      exists k, k'. split; [done|]. split; [|done]. apply idx_lookup, elem_of_ks.
      destruct Hr as (q & Hq & Hd). by apply (Hdeps k q).
    + unfold row_of, dep_graph in Hj. rewrite list_lookup_fmap, Hi in Hj. cbn in Hj. by apply elem_of_nil in Hj.
  - intros (k & k' & Hi & Hj & Hr). rewrite (row_of_dep_graph i k Hi). apply elem_of_dep_row.
    exists k'. split; [done|]. symmetry. by apply lookup_idx.
Qed.

Lemma dep_graph_ok :
  wf_graph dep_graph /\ no_self_loop dep_graph /\
  forall v, arcs_from dep_graph (seq 0 (length dep_graph)) v <= length dep_graph.
Proof.
  split_and!.
  - apply Forall_lookup. intros i row Hrow. apply Forall_forall. intros j Hj.
    assert (edge dep_graph i j) as (_ & k' & _ & Hj' & _)%edge_dep_graph by (unfold edge, row_of; by rewrite Hrow).
    apply lookup_lt_Some in Hj'. unfold dep_graph. by rewrite length_fmap.
  - intros u (k & k' & Hk & Hk' & q & Hq & Hd)%edge_dep_graph. rewrite Hk in Hk'. injection Hk' as <-.
    by apply (Hdeps k q) in Hd as [_ ?].
  - intros v. rewrite <- (length_seq (length dep_graph) 0) at 2. generalize (seq 0 (length dep_graph)) as us.
    induction us as [|u us IH]; [done|]. unfold arcs_from in *. cbn [sum_list_with length].
    enough (mult dep_graph u v <= 1) by lia. unfold mult. apply occ_NoDup.
    destruct (ks !! u) as [k|] eqn:Hu; [rewrite (row_of_dep_graph u k Hu); apply NoDup_dep_row|].
    unfold row_of, dep_graph. rewrite list_lookup_fmap, Hu. constructor.
Qed.

Definition key_at (o : nat) : string := default EmptyString (ks !! o).

Lemma read_back order :
  Forall (fun o => o < length ks) order ->
  foldM (fun sequence o => if decide (0 < length ks) then or_panic (ks !! o) ≫= fun str => Ret (sequence ++ [str])
                           else Ret sequence) [] order = Ret (key_at <$> order).
Proof.
  intros Ho. enough (forall acc, foldM (fun sequence o => if decide (0 < length ks)
    then or_panic (ks !! o) ≫= fun str => Ret (sequence ++ [str]) else Ret sequence) acc order
    = Ret (acc ++ (key_at <$> order))) as H by apply (H []).
  induction Ho as [|o order Ho _ IH]; intros acc; [by rewrite app_nil_r|]. cbn [foldM].
  rewrite decide_True by lia. destruct (lookup_lt_is_Some_2 ks o Ho) as [k Hk]. rewrite Hk.
  cbn [or_panic mbind outcome_bind]. rewrite IH, <- app_assoc. cbn. unfold key_at. by rewrite Hk.
Qed.

Lemma key_at_seq : key_at <$> seq 0 (length ks) = ks.
Proof.
  apply list_eq. intros i. rewrite list_lookup_fmap. destruct (decide (i < length ks)) as [Hi|Hi].
  - rewrite lookup_seq_lt by done. cbn. unfold key_at. by destruct (lookup_lt_is_Some_2 ks i Hi) as [k ->].
  - rewrite lookup_seq_ge by lia. symmetry. apply lookup_ge_None_2. lia.
Qed.

(** A cycle of the dependency lists is a cycle of the cells. *)
Lemma dep_graph_acyclic : (forall k, ~ tc ranks k k) -> acyclic dep_graph.
Proof.
  intros Hac u Hu. apply (Hac (key_at u)). eapply tc_congruence; [|exact Hu].
  intros i j (k & k' & Hi & Hj & Hr)%edge_dep_graph. unfold key_at. by rewrite Hi, Hj.
Qed.

Lemma QueuesSort_spec :
  Queues cq <> ∅ -> (Z.of_nat (size (Queues cq)) < MaxInt64)%Z ->
  exists sequence, QueuesSort rng h cq = Ret sequence /\ sequence ≡ₚ elements (dom (Queues cq)) /\
    ((forall k, ~ tc ranks k k) -> forall s1 k' s2 k, sequence = s1 ++ k' :: s2 -> ranks k k' -> k ∈ s1).
Proof.
  intros Hne Hsz. unfold QueuesSort.
  destruct (dep_queue_spec (elements (dom (Queues cq)))) as (dep & Hf & Hd & Hs);
    [intros k Hk; by rewrite sort_strings_perm|apply NoDup_elements|].
  match goal with |- context [foldM ?f ?e (elements (dom (Queues cq)))] =>
    assert (foldM f e (elements (dom (Queues cq))) = Ret dep) as -> by exact Hf end.
  cbn [mbind outcome_bind].
  assert (length ks = size dep) as Hlen by (rewrite Hs; apply Permutation_length, sort_strings_perm).
  assert ((fun i => default [] (dep !! i)) <$> seq 0 (size dep) = dep_graph) as ->.
  { transitivity (dep_row <$> (key_at <$> seq 0 (length ks))); [|by rewrite key_at_seq].
    rewrite <- Hlen, <- list_fmap_compose. apply list_fmap_ext.
    intros j i [-> Hi]%lookup_seq. rewrite Nat.add_0_l. unfold compose, key_at.
    destruct (lookup_lt_is_Some_2 ks j Hi) as [k Hk]. rewrite Hk.
    rewrite <- (lookup_idx _ _ Hk), Hd; [done|].
    apply list_elem_of_lookup_2 in Hk. by rewrite sort_strings_perm in Hk. }
  destruct dep_graph_ok as (Hwf & Hns & Harcs).
  assert (length dep_graph = length ks) as Hlg by apply length_fmap.
  assert (length ks = size (Queues cq)) as Hlq.
  { rewrite (Permutation_length (sort_strings_perm _)). apply size_dom. }
  destruct (AdvancedTopologicalSort_spec dep_graph Hwf Hns) as (al & order & -> & Hperm & Hresp).
  { intros v. specialize (Harcs v). lia. }
  { intros E. apply Hne, map_size_empty_inv. by rewrite <- Hlq, <- Hlg, E. }
  cbn [mbind outcome_bind]. rewrite read_back.
  2: { apply Forall_forall. intros o Ho. rewrite Hperm, Hlg in Ho. apply elem_of_seq in Ho. lia. }
  eexists. split; [done|]. split.
  - rewrite Hperm, Hlg, key_at_seq. apply sort_strings_perm.
  - intros Hac s1 k' s2 k Heq Hr. specialize (Hresp (dep_graph_acyclic Hac)).
    apply fmap_app_inv in Heq as (o1 & o' & -> & Ho' & ->). symmetry in Ho'.
    apply fmap_cons_inv in Ho' as (j & o2 & -> & -> & ->).
    assert (j < length ks) as Hj.
    { assert (j ∈ o1 ++ j :: o2) as Hin by set_solver. rewrite Hperm, Hlg in Hin. apply elem_of_seq in Hin. lia. }
    destruct (lookup_lt_is_Some_2 ks j Hj) as [k' Hk']. unfold key_at in Hr. rewrite Hk' in Hr. cbn in Hr.
    assert (k ∈ ks) as Hk by (apply elem_of_ks; destruct Hr as (q & Hq & _); by eexists).
    apply list_elem_of_fmap. exists (idx k). pose proof (idx_lookup k Hk) as Hi. split; [unfold key_at; by rewrite Hi|].
    apply (Hresp o1 j o2 (idx k)); [done|]. apply edge_dep_graph. by exists k, k'.
Qed.
End queues_sort.

(** ** Counting the nodes *)
Definition total (m : gmap string (list ptr)) : nat := map_fold (fun _ l n => length l + n) 0 m.

Lemma total_delete m k l : m !! k = Some l -> total m = length l + total (delete k m).
Proof.
  intros Hk. unfold total.
  apply (map_fold_delete_L (fun _ l n => length l + n) 0 k l m); [intros; lia|done].
Qed.

Lemma total_insert m k l : m !! k = None -> total (<[k := l]> m) = length l + total m.
Proof.
  intros Hk. unfold total.
  apply (map_fold_insert_L (fun _ l n => length l + n) 0 k l m); [intros; lia|done].
Qed.

Lemma total_add h m p : total (add_to_queue h m p) = S (total m).
Proof.
  unfold add_to_queue. set (k := key_of h p). destruct (m !! k) as [l|] eqn:Hk.
  - rewrite <- insert_delete_eq, total_insert by apply lookup_delete_eq.
    rewrite (total_delete m k l) by done. cbn. rewrite length_app. cbn. lia.
  - rewrite total_insert by done. cbn. lia.
Qed.

Lemma total_create h txs st : total (foldl (create_step h) st txs).2 = total st.2 + length (mjoin txs).
Proof.
  revert st; induction txs as [|tx txs IH]; intros st; [cbn; lia|]. cbn [foldl].
  change (mjoin (tx :: txs)) with (tx ++ mjoin txs). rewrite IH, length_app. destruct tx as [|p0 tx]; [done|]. unfold create_step at 1, create_tx. cbn [snd].
  assert (forall ps m, total (foldl (add_to_queue h) m ps) = total m + length ps) as ->; [|lia].
  clear. induction ps as [|p ps IH]; intros m; cbn [foldl length]; [lia|]. rewrite IH, total_add. lia.
Qed.

Lemma filter_split_length h (ps : list ptr) :
  length (filter (fun p => isRead (h p) = true) ps) + length (filter (fun p => isRead (h p) = false) ps) = length ps.
Proof.
  induction ps as [|p ps IH]; [done|]. rewrite !filter_cons. cbn [length] in *.
  destruct (isRead (h p)).
  - rewrite decide_True, decide_False by done. cbn [length]. lia.
  - rewrite decide_False, decide_True by done. cbn [length]. lia.
Qed.

Lemma GetRWNums_total h txs : GetRWNums (CreateGraph h txs) = length (mjoin txs).
Proof.
  rewrite CreateGraph_eq. unfold GetRWNums. cbn [Queues]. rewrite map_fold_fmap.
  transitivity (total (foldl (create_step h) (∅, ∅) txs).2).
  - unfold total. rewrite !map_fold_foldr.
    induction (map_to_list _) as [|[k l] kvs IH]; [done|]. cbn [foldr uncurry]. rewrite IH.
    unfold compose, make_queue, initialSorting. cbn [rSlice wSlice]. pose proof (filter_split_length h l). lia.
  - rewrite total_create. cbn [snd]. unfold total. by rewrite map_fold_empty.
Qed.

(** ** Blocks given as node values *)
Lemma mjoin_layout n txs : mjoin (layout n txs) = seq n (length (mjoin txs)).
Proof.
  revert n; induction txs as [|tx txs IH]; intros n; [done|]. cbn [layout].
  change (mjoin (?a :: ?l)) with (a ++ mjoin l). rewrite IH, length_app. by rewrite seq_app.
Qed.

(** A decidable form of [block_fresh] for blocks laid out by [layout]. *)
Definition block_freshb (h : heap) (txs : list (list ptr)) : bool :=
  bool_decide (Forall (fun tx => Forall (fun p => Forall (fun p' => txid h p = txid h p') tx) tx) txs) &&
  bool_decide (Forall (fun tx => Forall (fun tx' => Forall (fun p => Forall (fun p' =>
    txid h p = txid h p' -> tx = tx') tx') tx) txs) txs) &&
  bool_decide (NoDup (mjoin txs)) &&
  bool_decide (Forall (fun p => Sequence (h p) = 0%Z) (mjoin txs)) &&
  bool_decide (Forall (fun p => Forall (fun p' => isRead (h p) = false -> isRead (h p') = false ->
    txid h p = txid h p' -> key_of h p = key_of h p' -> p = p') (mjoin txs)) (mjoin txs)).

Lemma block_freshb_spec h txs : block_freshb h txs = true -> block_fresh h txs.
Proof.
  unfold block_freshb. rewrite !andb_true_iff, !bool_decide_eq_true.
  intros [[[[H1 H2] H3] H4] H5].
  repeat setoid_rewrite Forall_forall in H1. repeat setoid_rewrite Forall_forall in H2.
  repeat setoid_rewrite Forall_forall in H5. rewrite Forall_forall in H4.
  split; [split|done|done|]; eauto.
Qed.

Lemma CreateGraph_queue_some h txs p : p ∈ mjoin txs -> is_Some (Queues (CreateGraph h txs) !! key_of h p).
Proof.
  intros Hp. rewrite CreateGraph_queue. destruct (filter _ _) eqn:E; [|by eexists].
  apply (filter_nil_not_elem_of _ _ p) in E; done.
Qed.

Lemma CreateGraph_ranked h txs :
  block_fresh h txs ->
  (forall k q w, Queues (CreateGraph h txs) !! k = Some q -> w ∈ wSlice q -> is_Some (Edges (CreateGraph h txs) !! txid h w)) /\
  (forall k q k', Queues (CreateGraph h txs) !! k = Some q -> depends h (Edges (CreateGraph h txs)) q k' ->
     is_Some (Queues (CreateGraph h txs) !! k') /\ k' <> k).
Proof.
  intros Hbf. split.
  - intros k q w Hq Hw. destruct (CreateGraph_queue_ok h txs k q Hbf Hq) as [Hqo _].
    destruct (qo_edge _ _ _ _ Hqo w) as [(e & He & _) _]; [set_solver|]. by exists e.
  - intros k q k' Hq (w & e & n & Hw & He & Hn & _ & Hne & ->).
    destruct (CreateGraph_queue_ok h txs k q Hbf Hq) as [Hqo _].
    destruct (qo_edge _ _ _ _ Hqo w) as [_ Hk]; [set_solver|]. rewrite Hk in Hne. split; [|done].
    apply CreateGraph_queue_some. apply CreateGraph_edge_inv in He as (p0 & tx & Hin & _ & ->).
    apply list_elem_of_join. by exists (p0 :: tx).
Qed.

(** ** Properties *)

(** [CreateGraph] files every node of a block under its cell, reads apart
    from writes and in block order, makes one edge per transaction, and counts
    every node once. *)
Theorem CreateGraph_correct h txs :
  block_ok h txs ->
  (forall k, Queues (CreateGraph h txs) !! k =
     match filter (fun p => key_of h p = k) (mjoin txs) with
     | [] => None
     | l => Some (mkQueue (filter (fun p => isRead (h p) = true) l) (filter (fun p => isRead (h p) = false) l) 0 0)
     end) /\
  (forall tx p, tx ∈ txs -> p ∈ tx -> Edges (CreateGraph h txs) !! txid h p = Some (mkEdge tx false)) /\
  GetRWNums (CreateGraph h txs) = length (mjoin txs).
Proof.
  intros Hok. split_and!.
  - intros k. rewrite CreateGraph_queue. by destruct (filter _ _).
  - intros tx p Htx Hp. by apply CreateGraph_edge.
  - apply GetRWNums_total.
Qed.

Lemma CreateGraph_correct_witness :
  GetRWNums (CreateGraph (heap_of skew_block) (layout 0 skew_block)) = 5 /\
  Queues (CreateGraph (heap_of skew_block) (layout 0 skew_block)) !! "c:b" = Some (mkQueue [1; 3] [2] 0 0).
Proof.
  assert (block_ok (heap_of skew_block) (layout 0 skew_block)) as Hok
    by (apply block_freshb_spec; vm_compute; reflexivity).
  destruct (CreateGraph_correct _ _ Hok) as (Hq & _ & Hn). rewrite Hn, Hq. split; vm_compute; reflexivity.
Defined.

(** C28: [QueuesSort] returns and ranks every queue exactly once; when no cell
    depends on itself through the reads of its writers, a cell is ranked
    before the cells that its writers read.  For every order in which Go may
    range over its maps. *)
Theorem QueuesSort_correct h txs rng :
  block_fresh h txs -> (forall k, range_ok (rng k)) -> mjoin txs <> [] ->
  (Z.of_nat (size (Queues (CreateGraph h txs))) < MaxInt64)%Z ->
  exists sequence, QueuesSort rng h (CreateGraph h txs) = Ret sequence /\
    sequence ≡ₚ elements (dom (Queues (CreateGraph h txs))) /\
    ((forall k, ~ tc (ranks h (CreateGraph h txs)) k k) ->
     forall s1 k' s2 k, sequence = s1 ++ k' :: s2 -> ranks h (CreateGraph h txs) k k' -> k ∈ s1).
Proof.
  intros Hbf Hrng Hne Hsz. destruct (CreateGraph_ranked h txs Hbf) as [He Hd].
  apply QueuesSort_spec; [done..| |done].
  destruct (mjoin txs) as [|p ps] eqn:E; [done|]. intros Hq.
  destruct (CreateGraph_queue_some h txs p) as [q Hs]; [rewrite E; left|]. by rewrite Hq, lookup_empty in Hs.
Qed.

Lemma QueuesSort_correct_witness :
  exists sequence, QueuesSort (fun _ => elements) (heap_of skew_block) (CreateGraph (heap_of skew_block) (layout 0 skew_block))
    = Ret sequence /\ sort_strings sequence = ["c:a"; "c:b"].
Proof.
  destruct (QueuesSort_correct (heap_of skew_block) (layout 0 skew_block) (fun _ => elements)) as (sequence & Hr & Hp & _);
    [apply block_freshb_spec; vm_compute; reflexivity|intros k; apply range_ok_elements|done|vm_compute; reflexivity|].
  exists sequence. split; [exact Hr|]. rewrite (sort_strings_proper _ _ Hp). vm_compute. reflexivity.
Defined.

(** C1: after [sortInQueue] the nodes of every transaction still carry one
    number, and among the transactions of the queue that are not aborted a
    reader of the cell comes strictly before every other writer of it and two
    writers never share a number; transactions outside the queue keep theirs. *)
Theorem sortInQueue_serial h E k q B :
  sequenced h E -> queue_ok h E k q -> maxRead q = 0%Z ->
  (forall p, in_edge h E p -> 0 <= Sequence (h p) <= B)%Z -> (initialSequence <= B)%Z ->
  (B + 2 * Z.of_nat (length (wSlice q)) + 1 < MaxInt32)%Z ->
  exists h' E' q', sortInQueue h E q = Ret (h', E', q') /\ sequenced h' E' /\
    (forall r w, r ∈ rSlice q -> w ∈ wSlice q -> txid h r <> txid h w ->
       not_aborted E' (txid h r) -> not_aborted E' (txid h w) -> (Sequence (h' r) < Sequence (h' w))%Z) /\
    (forall w w', w ∈ wSlice q -> w' ∈ wSlice q -> txid h w <> txid h w' ->
       not_aborted E' (txid h w) -> not_aborted E' (txid h w') -> Sequence (h' w) <> Sequence (h' w')) /\
    (forall t, not_aborted E' t -> not_aborted E t) /\
    (forall p, in_edge h E p -> txid h p ∉ txid h <$> (rSlice q ++ wSlice q) -> Sequence (h' p) = Sequence (h p)).
Proof.
  intros Hs Hq Hm Hb HB HM.
  destruct (sortInQueue_state h E k q B Hs Hq Hm Hb HB HM) as (h' & E' & q' & H1 & H2 & _ & _ & _ & H3).
  by exists h', E', q'.
Qed.

Lemma sortInQueue_serial_witness :
  let h := heap_of skew_block in
  let E := Edges (CreateGraph h (layout 0 skew_block)) in
  exists h' E' q', sortInQueue h E (mkQueue [0] [4] 0 0) = Ret (h', E', q') /\ (Sequence (h' 0%nat) < Sequence (h' 4%nat))%Z.
Proof.
  cbn zeta. set (h := heap_of skew_block). set (E := Edges (CreateGraph h (layout 0 skew_block))).
  assert (block_fresh h (layout 0 skew_block)) as Hbf by (apply block_freshb_spec; vm_compute; reflexivity).
  assert (Queues (CreateGraph h (layout 0 skew_block)) !! "c:a" = Some (mkQueue [0] [4] 0 0)) as Hq
    by (vm_compute; reflexivity).
  destruct (CreateGraph_queue_ok h _ _ _ Hbf Hq) as [Hqo _].
  destruct (sortInQueue_serial h E "c:a" (mkQueue [0] [4] 0 0) initialSequence) as (h' & E' & q' & Hr & _ & Hrw & _);
    [by apply CreateGraph_sequenced|exact Hqo|done| |done|vm_compute; reflexivity|].
  { intros p (e & (p0 & tx & Hin & _ & ->)%CreateGraph_edge_inv & Hp).
    rewrite (bf_zero _ _ Hbf); [unfold initialSequence; lia|]. apply list_elem_of_join. eauto. }
  exists h', E', q'. split; [exact Hr|]. apply Hrw; [set_solver|set_solver|done|..];
    injection Hr as _ <- _; vm_compute; reflexivity.
Defined.

(** C3: [DeSS] runs on every block (of less than about seven hundred million
    nodes) and commits each transaction that is not aborted exactly once, in
    the group of its number, with its write nodes. *)
Theorem DeSS_commits h txs rng sequence :
  block_fresh h txs -> range_ok rng -> sequence ≡ₚ elements (dom (Queues (CreateGraph h txs))) ->
  (initialSequence + 3 * Z.of_nat (length (mjoin txs)) < MaxInt32)%Z ->
  exists h' cq' co, DeSS sortInQueue rng h (CreateGraph h txs) sequence = Ret (h', cq', co) /\
    sequenced h' (Edges cq') /\ dom (Edges cq') = dom (Edges (CreateGraph h txs)) /\
    forall s, exists ts, NoDup ts /\ default [] (co !! s) = write_nodes h' (Edges cq') <$> ts /\
      forall t, t ∈ ts <-> t ∈ dom (Edges cq') /\ not_aborted (Edges cq') t /\ number_of h' (Edges cq') t = s.
Proof.
  intros Hbf Hrng Hseq HM.
  destruct (DeSS_run h txs rng sequence Hbf Hrng Hseq HM) as (h' & cq' & co & Hrun & Hs & Hset & Hco).
  exists h', cq', co. split; [done|]. split; [done|]. split.
  - rewrite <- (dom_fmap_L set), Hset. apply dom_fmap_L.
  - intros s. exists (filter (fun t => commits_at h' (Edges cq') s t = true) (rng (dom (Edges cq')))).
    split; [apply NoDup_filter, range_ok_nodup, Hrng|]. split; [apply Hco|].
    intros t. rewrite list_elem_of_filter, range_ok_elem by done. unfold commits_at, not_aborted.
    rewrite andb_true_iff, negb_true_iff, bool_decide_eq_true. tauto.
Qed.

Lemma DeSS_commits_witness :
  exists h' cq' co, DeSS sortInQueue elements (heap_of skew_block)
    (CreateGraph (heap_of skew_block) (layout 0 skew_block)) ["c:a"; "c:b"] = Ret (h', cq', co) /\
    dom (Edges cq') = dom (Edges (CreateGraph (heap_of skew_block) (layout 0 skew_block))).
Proof.
  destruct (DeSS_commits (heap_of skew_block) (layout 0 skew_block) elements ["c:a"; "c:b"])
    as (h' & cq' & co & Hr & _ & Hd & _);
    [apply block_freshb_spec; vm_compute; reflexivity|apply range_ok_elements| |vm_compute; reflexivity|].
  { transitivity (sort_strings (elements (dom (Queues (CreateGraph (heap_of skew_block) (layout 0 skew_block))))));
      [vm_compute; reflexivity|apply sort_strings_perm]. }
  exists h', cq', co. split; [exact Hr|exact Hd].
Defined.

(** C40: the numbers do not make a serial order of the block.  In
    [skew_block] T1 reads a cell that T2 writes and T2 reads a cell that T1
    writes, yet [DeSS] aborts neither: it commits T2 with number 11 and T1
    with number 12, although T1 read the cell T2 writes before T2 ran. *)
Theorem DeSS_not_serializable :
  nezha sortInQueue (fun _ => elements) elements skew_block
    = Ret (["c:a"; "c:b"], [(11%Z, ["T2"]); (12%Z, ["T1"])]) /\
  conflict skew_block 0 1 /\ conflict skew_block 1 0.
Proof.
  split; [vm_compute; reflexivity|]. split; (split; [cbn; lia|split; [cbn; lia|]]); left; (split; [done|]).
  - exists (node "r" "T1" "a"), (node "w" "T2" "a"). split_and!; [set_solver|set_solver|done..].
  - exists (node "r" "T2" "b"), (node "w" "T1" "b"). split_and!; [set_solver|set_solver|done..].
Qed.

(** The order in which Go ranges over the cells read by the writers of a cell
    reaches the commit order. *)
Definition order_block : list (list RWNode) :=
  [[node "r" "T1" "b"; node "r" "T1" "c"; node "w" "T1" "a"]; [node "w" "T3" "b"];
   [node "w" "T2" "b"; node "w" "T2" "c"]; [node "w" "T4" "c"]].

(** [DeSS] is documented to obtain a deterministic total order, but the
    commit order depends on the iteration order of a Go map: two orders, both
    allowed by the language, give transaction T2 different numbers. *)
Theorem DeSS_not_deterministic :
  exists rng1 rng2 : string -> gset string -> list string,
    (forall k, range_ok (rng1 k)) /\ (forall k, range_ok (rng2 k)) /\
    exists s1 s2 c1 c2, nezha sortInQueue rng1 elements order_block = Ret (s1, c1) /\
      nezha sortInQueue rng2 elements order_block = Ret (s2, c2) /\
      (11%Z, ["T2"]) ∈ c1 /\ (12%Z, ["T2"]) ∈ c2.
Proof.
  exists (fun _ => elements), (fun _ X => reverse (elements X)). split; [intros k; apply range_ok_elements|].
  split; [intros k X; apply reverse_Permutation|].
  eexists _, _, _, _. split; [vm_compute; reflexivity|]. split; [vm_compute; reflexivity|].
  split; set_solver.
Qed.
