(* ===== verification/ClassicalScheme.v ===== *)
(** * The conflict-graph scheme end to end

    The classical scheme builds the conflict graph of a block
    ([NewBuildConflictGraph]), aborts transactions until no recorded cycle is
    left ([JohnsonCE.Run]), removes them ([RebuildGraph]) and commits what
    [BasicTopologicalSort] returns. *)
From stdpp Require Import base list list_numbers gmap strings.
From Stdlib Require Import ZArith Lia.
From S2P Require Import Prelude AlGraph RWSet JohnsonCE ConflictGraph ConflictQueue.

Set Default Goal Selector "!".
Local Open Scope string_scope.
Local Open Scope list_scope.

Definition invalid_indices (invalid : list bool) : list nat :=
  fst <$> filter (fun p : nat * bool => p.2 = true) (imap pair invalid).

Definition conflict_graph_commit (txs : list (list RWNode)) : outcome (list nat * list nat) :=
  let gSlice := NewBuildConflictGraph txs in
  let al := Init empty_AlGraph gSlice in
  Run gSlice ≫= fun r =>
  let inValidTxs := invalid_indices r.2 in
  RebuildGraph al inValidTxs ≫= fun al =>
  BasicTopologicalSort al ≫= fun s =>
  Ret (inValidTxs, s.2).

(** T0 conflicts both ways with T1 and with T3, T1 with T2, T3 with T4. *)
Definition chain_block : list (list RWNode) :=
  [[node "r" "T0" "a"; node "w" "T0" "b"; node "r" "T0" "e"; node "w" "T0" "f"];
   [node "w" "T1" "a"; node "r" "T1" "b"; node "r" "T1" "c"; node "w" "T1" "d"];
   [node "w" "T2" "c"; node "r" "T2" "d"];
   [node "w" "T3" "e"; node "r" "T3" "f"; node "r" "T3" "g"; node "w" "T3" "h"];
   [node "w" "T4" "g"; node "r" "T4" "h"]].

(** ** Properties *)

(** A transaction that was aborted can be committed all the same.  In
    [chain_block] T0, T1 and T3 are aborted; all arcs into T0 come from the
    other two, so [RebuildGraph] brings its in-degree to zero and
    [BasicTopologicalSort], which does not look at [abortedTx], returns it. *)
Theorem aborted_transaction_committed :
  exists aborted order, conflict_graph_commit chain_block = Ret (aborted, order) /\ 0 ∈ aborted /\ 0 ∈ order.
Proof. eexists _, _. split; [vm_compute; reflexivity|]. split; set_solver. Qed.
