(* ===== verification/Depurge.v ===== *)
(** * The Depurge scheduler: [core/Depurge.go]

    Every state cell has a FIFO queue of the transactions that may touch it;
    a transaction may run when it is at the front of all its queues.  Workers
    pop ready transactions, narrow their key sets to the keys really touched
    ([Prune]) and finish them ([Execute], [Abort]), which releases the next
    transaction of each queue.

    The mutex makes every method atomic, so a run of the scheduler is a
    sequence of the operations below. *)
From stdpp Require Import base list list_numbers gmap strings sorting.
From Stdlib Require Import ZArith Lia.
From S2P Require Import Prelude RWSet.

Set Default Goal Selector "!".
Local Open Scope string_scope.
Local Open Scope list_scope.

(** ** TransactionQueue

    A [container/list] element is an identity and a value; [index] points to
    elements. *)
Record TransactionQueue := mkTQ { queue : list (nat * string); next_elem : nat; index : gmap string nat }.

Definition newTransactionQueue : TransactionQueue := mkTQ [] 0 ∅.

Definition push (q : TransactionQueue) (txID : string) : TransactionQueue :=
  match index q !! txID with
  | Some _ => q
  | None => mkTQ (queue q ++ [(next_elem q, txID)]) (S (next_elem q)) (<[txID := next_elem q]> (index q))
  end.

Definition pop (q : TransactionQueue) : TransactionQueue * string :=
  match queue q with
  | [] => (q, EmptyString)
  | (_, txID) :: rest => (mkTQ rest (next_elem q) (delete txID (index q)), txID)
  end.

Definition front (q : TransactionQueue) : string :=
  match queue q with [] => EmptyString | (_, txID) :: _ => txID end.

Definition tq_isEmpty (q : TransactionQueue) : bool := bool_decide (length (queue q) = 0).
Definition tq_len (q : TransactionQueue) : nat := length (queue q).
Definition contains (q : TransactionQueue) (txID : string) : bool := bool_decide (is_Some (index q !! txID)).

Definition remove (q : TransactionQueue) (txID : string) : TransactionQueue * bool :=
  match index q !! txID with
  | None => (q, false)
  | Some elem =>
    (mkTQ (filter (fun e : nat * string => e.1 <> elem) (queue q)) (next_elem q) (delete txID (index q)), true)
  end.

(** ** DepurgeScheduler *)
Record DepurgeScheduler := mkDS {
  keyQueues : gmap string TransactionQueue;
  txKeyMap : gmap string (list string);
  txExecuted : gmap string bool;
  readyQueue : list string;
  pruneReadyQueue : list string;
  txReadyCount : gmap string Z;
  inReady : gmap string bool;
  inPruneReady : gmap string bool }.

Definition NewDepurgeScheduler : DepurgeScheduler := mkDS ∅ ∅ ∅ [] [] ∅ ∅ ∅.

Definition flag (m : gmap string bool) (t : string) : bool := default false (m !! t).
Definition count (ds : DepurgeScheduler) (t : string) : Z := default 0%Z (txReadyCount ds !! t).
Definition keys_of (ds : DepurgeScheduler) (t : string) : list string := default [] (txKeyMap ds !! t).

Definition set_queue (ds : DepurgeScheduler) (k : string) (q : TransactionQueue) : DepurgeScheduler :=
  mkDS (<[k := q]> (keyQueues ds)) (txKeyMap ds) (txExecuted ds) (readyQueue ds) (pruneReadyQueue ds)
    (txReadyCount ds) (inReady ds) (inPruneReady ds).
Definition set_count (ds : DepurgeScheduler) (t : string) (c : Z) : DepurgeScheduler :=
  mkDS (keyQueues ds) (txKeyMap ds) (txExecuted ds) (readyQueue ds) (pruneReadyQueue ds)
    (<[t := c]> (txReadyCount ds)) (inReady ds) (inPruneReady ds).
Definition set_executed (ds : DepurgeScheduler) (t : string) : DepurgeScheduler :=
  mkDS (keyQueues ds) (txKeyMap ds) (<[t := true]> (txExecuted ds)) (readyQueue ds) (pruneReadyQueue ds)
    (txReadyCount ds) (inReady ds) (inPruneReady ds).

Definition PushReady (ds : DepurgeScheduler) (t : string) : DepurgeScheduler :=
  mkDS (keyQueues ds) (txKeyMap ds) (txExecuted ds) (readyQueue ds ++ [t]) (pruneReadyQueue ds)
    (txReadyCount ds) (<[t := true]> (inReady ds)) (inPruneReady ds).
Definition push_prune_ready (ds : DepurgeScheduler) (t : string) : DepurgeScheduler :=
  mkDS (keyQueues ds) (txKeyMap ds) (txExecuted ds) (readyQueue ds) (pruneReadyQueue ds ++ [t])
    (txReadyCount ds) (inReady ds) (<[t := true]> (inPruneReady ds)).

(** *** addTransaction *)
Definition add_key (txID : string) (ds : DepurgeScheduler) (key : string) : DepurgeScheduler :=
  let q := push (default newTransactionQueue (keyQueues ds !! key)) txID in
  let ds := set_queue ds key q in
  if decide (front q = txID) then set_count ds txID (count ds txID - 1) else ds.

Definition addTransaction (ds : DepurgeScheduler) (txID : string) (keys : list string) : DepurgeScheduler :=
  let keys := sort_strings (dedup_go ∅ keys) in
  let ds := mkDS (keyQueues ds) (<[txID := keys]> (txKeyMap ds)) (<[txID := false]> (txExecuted ds))
              (readyQueue ds) (pruneReadyQueue ds) (<[txID := Z.of_nat (length keys)]> (txReadyCount ds))
              (inReady ds) (inPruneReady ds) in
  let ds := foldl (add_key txID) ds keys in
  if decide (count ds txID = 0%Z) then PushReady ds txID else ds.

(** *** Execute, Abort, Prune *)

(** The next transaction of a queue loses one blocker; [to_ready] tells which
    ready list it joins when none is left. *)
Definition release (to_ready : bool) (ds : DepurgeScheduler) (nextTx : string) : DepurgeScheduler :=
  if bool_decide (nextTx = EmptyString) || flag (txExecuted ds) nextTx then ds else
  let ds := set_count ds nextTx (count ds nextTx - 1) in
  if to_ready then
    if bool_decide (count ds nextTx = 0%Z) && negb (flag (inReady ds) nextTx) then PushReady ds nextTx else ds
  else
    if bool_decide (count ds nextTx = 0%Z) && negb (flag (inReady ds) nextTx) && negb (flag (inPruneReady ds) nextTx)
    then push_prune_ready ds nextTx else ds.

(** [ds.keyQueues[key]]; a method call on the nil of a missing key panics. *)
Definition queue_of (ds : DepurgeScheduler) (key : string) : outcome TransactionQueue := or_panic (keyQueues ds !! key).

Definition finish_key (to_ready : bool) (txID : string) (ds : DepurgeScheduler) (key : string) : outcome DepurgeScheduler :=
  queue_of ds key ≫= fun q =>
  if decide (front q = txID) then
    let '(q, _) := pop q in
    Ret (release to_ready (set_queue ds key q) (front q))
  else Ret ds.

Definition finish (to_ready : bool) (ds : DepurgeScheduler) (txID : string) : outcome DepurgeScheduler :=
  if flag (txExecuted ds) txID then Ret ds else
  let ds := set_executed ds txID in
  foldM (finish_key to_ready txID) ds (keys_of ds txID).

Definition Execute : DepurgeScheduler -> string -> outcome DepurgeScheduler := finish true.
Definition Abort : DepurgeScheduler -> string -> outcome DepurgeScheduler := finish false.

Definition prune_key (txID : string) (realKeys : list string) (ds : DepurgeScheduler) (key : string) :
    outcome DepurgeScheduler :=
  if bool_decide (key ∈ realKeys) then Ret ds else
  queue_of ds key ≫= fun q =>
  if contains q txID then
    let wasFront := bool_decide (front q = txID) in
    let '(q, _) := remove q txID in
    let ds := set_queue ds key q in
    Ret (if wasFront then release false ds (front q) else ds)
  else Ret ds.

Definition Prune (ds : DepurgeScheduler) (txID : string) (realKeys : list string) : outcome DepurgeScheduler :=
  foldM (prune_key txID realKeys) ds (keys_of ds txID).

(** *** Popping and reading *)
Definition PopReady (ds : DepurgeScheduler) : DepurgeScheduler * string :=
  match readyQueue ds with
  | [] => (ds, EmptyString)
  | t :: rest => (mkDS (keyQueues ds) (txKeyMap ds) (txExecuted ds) rest (pruneReadyQueue ds) (txReadyCount ds)
                    (delete t (inReady ds)) (inPruneReady ds), t)
  end.

Definition PopPruneReady (ds : DepurgeScheduler) : DepurgeScheduler * string :=
  match pruneReadyQueue ds with
  | [] => (ds, EmptyString)
  | t :: rest => (mkDS (keyQueues ds) (txKeyMap ds) (txExecuted ds) (readyQueue ds) rest (txReadyCount ds)
                    (inReady ds) (delete t (inPruneReady ds)), t)
  end.

Definition GetReadyCount (ds : DepurgeScheduler) (t : string) : Z := count ds t.
Definition GetConservativeKeys (ds : DepurgeScheduler) (t : string) : list string := keys_of ds t.
Definition IsExecuted (ds : DepurgeScheduler) (t : string) : bool := flag (txExecuted ds) t.
Definition GetReadyQueueLen (ds : DepurgeScheduler) : nat := length (readyQueue ds).
Definition GetPruneReadyQueueLen (ds : DepurgeScheduler) : nat := length (pruneReadyQueue ds).

(** *** schedule *)
Fixpoint run_level (n : nat) (ds : DepurgeScheduler) (level : list string) : outcome (DepurgeScheduler * list string) :=
  match n with
  | 0 => Ret (ds, level)
  | S n =>
    match readyQueue ds with
    | [] => Ret (ds, level)
    | t :: _ => Execute (PopReady ds).1 t ≫= fun ds => run_level n ds (level ++ [t])
    end
  end.

Fixpoint schedule_loop (fuel : nat) (ds : DepurgeScheduler) (levels : list (list string)) :
    outcome (DepurgeScheduler * list (list string)) :=
  match fuel with
  | 0 => Diverges
  | S fuel =>
    if decide (length (readyQueue ds) = 0) then Ret (ds, levels) else
    run_level (length (readyQueue ds)) ds [] ≫= fun '(ds, level) =>
    schedule_loop fuel ds (levels ++ [sort_strings level])
  end.

Definition schedule (ds : DepurgeScheduler) : outcome (DepurgeScheduler * list (list string)) :=
  schedule_loop (S (size (txKeyMap ds))) ds [].

(** *** buildLevels *)
Record level_state := mkLevel { tempReady : list string; tempExecuted : gmap string bool; inTempReady : gmap string bool }.

Definition push_next (txID : string) (q : TransactionQueue) (st : level_state) : level_state :=
  match filter (fun t => t <> txID /\ flag (tempExecuted st) t = false) ((queue q).*2) with
  | [] => st
  | nextTx :: _ =>
    if bool_decide (nextTx = EmptyString) || flag (inTempReady st) nextTx then st else
    mkLevel (tempReady st ++ [nextTx]) (<[nextTx := false]> (tempExecuted st)) (<[nextTx := true]> (inTempReady st))
  end.

Fixpoint build_level (ds : DepurgeScheduler) (n : nat) (st : level_state) (level : list string) :
    outcome (level_state * list string) :=
  match n with
  | 0 => Ret (st, level)
  | S n =>
    match tempReady st with
    | [] => Ret (st, level)
    | txID :: rest =>
      let st := mkLevel rest (<[txID := true]> (tempExecuted st)) (<[txID := false]> (inTempReady st)) in
      foldM (fun st key => queue_of ds key ≫= fun q =>
        Ret (if decide (front q = txID) then push_next txID q st else st)) st (keys_of ds txID) ≫= fun st =>
      build_level ds n st (level ++ [txID])
    end
  end.

Fixpoint build_loop (fuel : nat) (ds : DepurgeScheduler) (st : level_state) (levels : list (list string)) :
    outcome (list (list string)) :=
  match fuel with
  | 0 => Diverges
  | S fuel =>
    if decide (length (tempReady st) = 0) then Ret levels else
    build_level ds (length (tempReady st)) st [] ≫= fun '(st, level) =>
    build_loop fuel ds st (levels ++ [sort_strings level])
  end.

Definition buildLevels (ds : DepurgeScheduler) : outcome (list (list string)) :=
  let st := foldl (fun st t => mkLevel (tempReady st ++ [t]) (<[t := false]> (tempExecuted st)) (<[t := true]> (inTempReady st)))
              (mkLevel [] ∅ ∅) (readyQueue ds) in
  build_loop (S (size (txKeyMap ds))) ds st [].

(** *** Depurge_schedule *)
Definition ctx_le (a b : TransactionContext) : Prop := String.le (TxID a) (TxID b).
#[global] Instance ctx_le_dec : RelDecision ctx_le.
Proof. intros a b. unfold ctx_le. apply _. Defined.

Definition context_keys (ctx : TransactionContext) : list string :=
  sort_strings (elements (dom (PreReadSet ctx) ∪ dom (PreWriteSet ctx))).

(** Transactions are added in the order of their identifiers, which the
    iteration order of [contexts] does not affect when they are distinct. *)
Definition load_contexts (contexts : gmap string TransactionContext) : DepurgeScheduler :=
  foldl (fun ds ctx => addTransaction ds (TxID ctx) (context_keys ctx)) NewDepurgeScheduler
        (merge_sort ctx_le ((map_to_list contexts).*2)).

Definition Depurge_schedule (contexts : gmap string TransactionContext) :
    outcome (DepurgeScheduler * list (list string)) :=
  let scheduler := load_contexts contexts in
  buildLevels scheduler ≫= fun levels => Ret (scheduler, levels).

(** Three transactions on one cell. *)
Definition three_on_one : DepurgeScheduler :=
  addTransaction (addTransaction (addTransaction NewDepurgeScheduler "a" ["k"]) "b" ["k"]) "c" ["k"].
Example levels_of_three : buildLevels three_on_one = Ret [["a"]; ["b"]].
Proof. vm_compute. reflexivity. Qed.
Example schedule_of_three : (schedule three_on_one ≫= fun r => Ret r.2) = Ret [["a"]; ["b"]; ["c"]].
Proof. vm_compute. reflexivity. Qed.
