(* ===== verification/DepurgeInv.v ===== *)
(** * Correctness of the Depurge scheduler

    The queues refine duplicate-free lists.  The scheduler keeps the ready
    count of every pending transaction equal to the number of its queues in
    which another transaction is in front, and its ready lists together with
    the transactions being processed equal to the pending ones whose count is
    zero.  From this follow exclusion (no two transactions in process hold the
    same cell), order (a cell is used in the order of arrival) and progress. *)
From stdpp Require Import base list list_numbers gmap strings sorting.
From Stdlib Require Import ZArith Lia.
From S2P Require Import Prelude RWSet Depurge.

Set Default Goal Selector "!".
Local Open Scope string_scope.
Local Open Scope list_scope.

(** ** TransactionQueue refines a list *)
Definition contents (q : TransactionQueue) : list string := (queue q).*2.

Record tq_ok (q : TransactionQueue) : Prop := {
  tq_values : NoDup (queue q).*2;
  tq_ids : NoDup (queue q).*1;
  tq_fresh : forall e, e ∈ queue q -> e.1 < next_elem q;
  tq_index : forall t e, index q !! t = Some e <-> (e, t) ∈ queue q }.

Lemma tq_contains q t : tq_ok q -> contains q t = bool_decide (t ∈ contents q).
Proof.
  intros Hq. unfold contains, contents. apply bool_decide_ext. rewrite list_elem_of_fmap. split.
  - intros [e He]. apply (tq_index _ Hq) in He. by exists (e, t).
  - intros ([e t'] & -> & He). exists e. by apply (tq_index _ Hq).
Qed.

Lemma new_ok : tq_ok newTransactionQueue.
Proof. split; cbn; [constructor|constructor|set_solver|]. intros t e. rewrite lookup_empty. set_solver. Qed.

Lemma push_spec q t :
  tq_ok q -> tq_ok (push q t) /\ contents (push q t) = if decide (t ∈ contents q) then contents q else contents q ++ [t].
Proof.
  intros Hq. unfold push. pose proof (tq_contains q t Hq) as Hc. unfold contains in Hc.
  destruct (index q !! t) as [e|] eqn:He.
  - rewrite bool_decide_eq_true_2 in Hc by eauto. symmetry in Hc. apply bool_decide_eq_true in Hc.
    by rewrite decide_True.
  - rewrite bool_decide_eq_false_2 in Hc by (by intros []). symmetry in Hc. apply bool_decide_eq_false in Hc.
    rewrite decide_False by done. unfold contents in *. cbn [queue]. rewrite fmap_app. split; [|done].
    destruct Hq as [Hv Hi Hf Hx]. split; cbn [queue index next_elem]; rewrite ?fmap_app.
    + apply NoDup_app. split_and!; [done|set_solver|apply NoDup_singleton].
    + apply NoDup_app. split_and!; [done| |apply NoDup_singleton].
      intros i Hin Hi'. apply list_elem_of_singleton in Hi'. cbn in Hi'. subst i.
      apply list_elem_of_fmap in Hin as (p & Hp & Hin). apply Hf in Hin. lia.
    + intros p [Hp|Hp%list_elem_of_singleton]%elem_of_app; [apply Hf in Hp; lia|subst; cbn; lia].
    + intros u i. rewrite elem_of_app, list_elem_of_singleton. destruct (decide (u = t)) as [->|Hne].
      * rewrite lookup_insert_eq. split; [intros [= <-]; by right|]. intros [Hin|[= ->]]; [|done].
        apply Hx in Hin. congruence.
      * rewrite lookup_insert_ne by done. rewrite Hx. naive_solver.
Qed.

Lemma front_spec q : front q = default EmptyString (head (contents q)).
Proof. unfold front, contents. by destruct (queue q) as [|[? ?] ?]. Qed.

Lemma pop_spec q : tq_ok q -> tq_ok (pop q).1 /\ contents (pop q).1 = tail (contents q) /\ (pop q).2 = front q.
Proof.
  intros [Hv Hi Hf Hx]. unfold pop, front, contents. destruct (queue q) as [|[e t] rest] eqn:Eq.
  - cbn [fst snd]. rewrite Eq. split; [|done]. split; by rewrite Eq.
  - cbn [fst snd queue]. split; [|done]. cbn [fmap list_fmap fst snd] in Hv, Hi.
    apply NoDup_cons in Hv as [Ht Hv]. apply NoDup_cons in Hi as [He Hi].
    split; cbn [queue index next_elem]; [done|done|intros p Hp; apply Hf; by right|].
    intros u i. destruct (decide (u = t)) as [->|Hne].
    + rewrite lookup_delete_eq. split; [done|]. intros Hin. destruct Ht. by apply (list_elem_of_fmap_2 snd) in Hin.
    + rewrite lookup_delete_ne, Hx by done. rewrite elem_of_cons. naive_solver.
Qed.

Lemma remove_spec q t :
  tq_ok q -> tq_ok (remove q t).1 /\ contents (remove q t).1 = filter (fun u => u <> t) (contents q) /\
    (remove q t).2 = bool_decide (t ∈ contents q).
Proof.
  intros Hq. unfold remove. pose proof (tq_contains q t Hq) as Hc. unfold contains in Hc.
  destruct (index q !! t) as [e|] eqn:He.
  - rewrite bool_decide_eq_true_2 in Hc by eauto. cbn [fst snd]. rewrite <- Hc. destruct Hq as [Hv Hi Hf Hx].
    apply Hx in He. unfold contents. cbn [queue].
    assert (forall p, p ∈ queue q -> p.1 <> e <-> p.2 <> t) as Hiff.
    { intros p Hp. assert (p.1 = e <-> p.2 = t); [|tauto]. split.
      - intros E. by rewrite (NoDup_fmap_elem fst _ p (e, t) Hi Hp He E).
      - intros E. by rewrite (NoDup_fmap_elem snd _ p (e, t) Hv Hp He E). }
    assert ((filter (fun p : nat * string => p.1 <> e) (queue q)).*2 = filter (fun u => u <> t) (queue q).*2) as Ef.
    { clear -Hiff. induction (queue q) as [|p l IH]; [done|]. cbn [fmap list_fmap]. rewrite !filter_cons.
      pose proof (Hiff p ltac:(left)) as Hp. rewrite <- IH by (intros p' Hp'; apply Hiff; by right).
      destruct (decide (p.1 <> e)); [rewrite decide_True by tauto|rewrite decide_False by tauto]; done. }
    split; [|by rewrite Ef]. split; cbn [queue index next_elem].
    + rewrite Ef. by apply NoDup_filter.
    + eapply sublist_NoDup; [exact Hi|]. apply fmap_sublist, sublist_filter.
    + intros p [_ Hp]%list_elem_of_filter. by apply Hf.
    + intros u i. rewrite list_elem_of_filter. cbn [fst]. destruct (decide (u = t)) as [->|Hne].
      * rewrite lookup_delete_eq. split; [done|]. intros [Hne Hin]. apply (Hiff _ Hin) in Hne. done.
      * rewrite lookup_delete_ne, Hx by done. split; [|by intros [_ ?]]. intros Hin. split; [|done]. by apply (Hiff _ Hin).
  - rewrite bool_decide_eq_false_2 in Hc by (by intros []). cbn [fst snd]. split; [done|]. split; [|done].
    symmetry in Hc. apply bool_decide_eq_false in Hc. rewrite filter_all_True; [done|]. by intros u Hu ->.
Qed.

(** ** The invariant *)
Definition Q (ds : DepurgeScheduler) (k : string) : list string := from_option contents [] (keyQueues ds !! k).
Definition executed (ds : DepurgeScheduler) (t : string) : bool := flag (txExecuted ds) t.

(** Another transaction is in front of [t] in the queue of [k]. *)
Definition blocked (ds : DepurgeScheduler) (t k : string) : bool :=
  bool_decide (t ∈ Q ds k) && negb (bool_decide (head (Q ds k) = Some t)).
Definition blockers (ds : DepurgeScheduler) (t : string) : Z := Z.of_nat (countb (blocked ds t) (keys_of ds t)).

(** The part of the invariant that does not mention who is being processed.
    [order] lists the transactions in the order they were added. *)
Record sched_static (order : list string) (ds : DepurgeScheduler) : Prop := {
  ss_nodup : NoDup order;
  ss_nonempty : EmptyString ∉ order;
  ss_keys : forall t, NoDup (keys_of ds t);
  ss_queue : forall k q, keyQueues ds !! k = Some q -> tq_ok q;
  ss_exists : forall t k, t ∈ order -> k ∈ keys_of ds t -> is_Some (keyQueues ds !! k);
  ss_sub : forall k, sublist (Q ds k) order }.

(** [ready], [pruneReady] and [R] hold exactly the pending transactions,
    other than those in [X], that nothing blocks. *)
Record sched_lists (order R X : list string) (ds : DepurgeScheduler) : Prop := {
  sl_nodup : NoDup (readyQueue ds ++ pruneReadyQueue ds ++ R);
  sl_elem : forall t, t ∈ readyQueue ds ++ pruneReadyQueue ds ++ R <->
    t ∈ order /\ t ∉ X /\ executed ds t = false /\ count ds t = 0%Z;
  sl_inReady : forall t, flag (inReady ds) t = bool_decide (t ∈ readyQueue ds);
  sl_inPrune : forall t, flag (inPruneReady ds) t = bool_decide (t ∈ pruneReadyQueue ds) }.

(** Between two operations; [R] are the transactions being processed. *)
Record sched_inv (order R : list string) (ds : DepurgeScheduler) : Prop := {
  si_static : sched_static order ds;
  si_in : forall t k, t ∈ Q ds k -> k ∈ keys_of ds t /\ executed ds t = false;
  si_count : forall t, t ∈ order -> executed ds t = false -> count ds t = blockers ds t;
  si_lists : sched_lists order R [] ds }.

(** Inside an operation on [t], which is in front of every queue it is in. *)
Record mid_inv (order R : list string) (t : string) (ds : DepurgeScheduler) : Prop := {
  mi_static : sched_static order ds;
  mi_in : forall u k, u <> t -> u ∈ Q ds k -> k ∈ keys_of ds u /\ executed ds u = false;
  mi_cur : forall k, t ∈ Q ds k -> k ∈ keys_of ds t /\ head (Q ds k) = Some t;
  mi_count : forall u, u ∈ order -> u <> t -> executed ds u = false -> count ds u = blockers ds u;
  mi_zero : count ds t = 0%Z;
  mi_lists : sched_lists order R [t] ds }.

Lemma Q_nodup order ds k : sched_static order ds -> NoDup (Q ds k).
Proof. intros Hs. eapply sublist_NoDup; [apply (ss_nodup _ _ Hs)|apply (ss_sub _ _ Hs)]. Qed.

Lemma Q_order order ds k t : sched_static order ds -> t ∈ Q ds k -> t ∈ order.
Proof. intros Hs Ht. eapply elem_of_sublist; [exact Ht|apply (ss_sub _ _ Hs)]. Qed.

Lemma Q_set_queue ds k q k' : Q (set_queue ds k q) k' = if decide (k' = k) then contents q else Q ds k'.
Proof.
  unfold Q. cbn [keyQueues set_queue]. destruct (decide (k' = k)) as [->|Hne].
  - by rewrite lookup_insert_eq.
  - by rewrite lookup_insert_ne.
Qed.

Lemma queue_of_eq order ds t k :
  sched_static order ds -> t ∈ order -> k ∈ keys_of ds t ->
  exists q, queue_of ds k = Ret q /\ tq_ok q /\ Q ds k = contents q /\ keyQueues ds !! k = Some q.
Proof.
  intros Hs Ht Hk. destruct (ss_exists _ _ Hs t k Ht Hk) as [q Hq]. exists q. unfold queue_of, Q. rewrite Hq.
  split; [done|]. split; [by eapply ss_queue|done].
Qed.

Lemma front_eq order ds k q t :
  sched_static order ds -> Q ds k = contents q -> t ∈ order -> front q = t <-> head (Q ds k) = Some t.
Proof.
  intros Hs HQ Ht. rewrite front_spec, HQ. destruct (contents q) as [|u l]; cbn; [|split; congruence].
  split; [|done]. intros <-. by apply (ss_nonempty _ _ Hs) in Ht.
Qed.

(** Taking the front transaction off a queue unblocks exactly the next one. *)
Lemma blockers_tail ds ds' k t rest u :
  Q ds k = t :: rest -> NoDup (t :: rest) -> (forall k', Q ds' k' = if decide (k' = k) then rest else Q ds k') ->
  keys_of ds' u = keys_of ds u -> NoDup (keys_of ds u) -> (u ∈ rest -> k ∈ keys_of ds u) -> u <> t ->
  blockers ds' u = (blockers ds u - if decide (head rest = Some u) then 1 else 0)%Z.
Proof.
  intros Hk Hnd HQ Hkeys Hndk Hin Hne. unfold blockers. rewrite Hkeys.
  assert (forall k', k' <> k -> blocked ds' u k' = blocked ds u k') as Hother.
  { intros k' Hk'. unfold blocked. by rewrite HQ, decide_False. }
  assert (blocked ds u k = bool_decide (u ∈ rest)) as Hb.
  { unfold blocked. rewrite Hk. cbn [head]. rewrite (bool_decide_eq_false_2 (Some t = Some u)) by congruence.
    rewrite andb_true_r. apply bool_decide_ext. set_solver. }
  assert (blocked ds' u k = bool_decide (u ∈ rest) && negb (bool_decide (head rest = Some u))) as Hb'.
  { unfold blocked. by rewrite HQ, decide_True. }
  destruct (decide (k ∈ keys_of ds u)) as [Hku|Hku].
  - apply list_elem_of_split in Hku as (l1 & l2 & Ek). rewrite Ek in *. rewrite !countb_app, !countb_cons, Hb, Hb'.
    assert (k ∉ l1 /\ k ∉ l2) as [Hl1 Hl2].
    { apply NoDup_app in Hndk as (_ & Hd & Hndk). apply NoDup_cons in Hndk as [? _]. set_solver. }
    rewrite (countb_ext _ (blocked ds u) l1) by (intros k' Hk'; apply Hother; congruence).
    rewrite (countb_ext _ (blocked ds u) l2) by (intros k' Hk'; apply Hother; congruence).
    destruct (decide (head rest = Some u)) as [Eh|Eh].
    + assert (u ∈ rest) by (destruct rest; [done|]; injection Eh as ->; left).
      rewrite !(bool_decide_eq_true_2 (u ∈ rest)), (bool_decide_eq_true_2 (head rest = Some u)) by done. cbn. lia.
    + rewrite (bool_decide_eq_false_2 (head rest = Some u)) by done. rewrite andb_true_r. lia.
  - rewrite (countb_ext _ (blocked ds u)) by (intros k' Hk'; apply Hother; congruence).
    rewrite decide_False; [lia|]. intros Eh. apply Hku, Hin. destruct rest; [done|]. injection Eh as ->. left.
Qed.

(** ** One queue gives up its front *)
Definition same_core (ds ds' : DepurgeScheduler) : Prop :=
  keyQueues ds' = keyQueues ds /\ txKeyMap ds' = txKeyMap ds /\ txExecuted ds' = txExecuted ds.

Lemma same_core_facts ds ds' :
  same_core ds ds' ->
  (forall k, Q ds' k = Q ds k) /\ (forall t, keys_of ds' t = keys_of ds t) /\ (forall t, executed ds' t = executed ds t) /\
  (forall t, blockers ds' t = blockers ds t) /\ (forall order, sched_static order ds -> sched_static order ds').
Proof.
  intros (HQ & HK & HE). unfold blockers, blocked, Q, keys_of, executed. rewrite HQ, HK, HE. split_and!; try done.
  intros order []. split; try done; unfold Q, keys_of in *; by rewrite ?HQ, ?HK.
Qed.

(** What [release] does to the counts and the ready lists. *)
Lemma release_lists order R t ds to_ready u :
  sched_lists order R [t] ds -> u ∈ order -> u <> t -> u <> EmptyString -> executed ds u = false -> (0 < count ds u)%Z ->
  same_core ds (release to_ready ds u) /\ sched_lists order R [t] (release to_ready ds u) /\
  (forall v, count (release to_ready ds u) v = (count ds v - if decide (v = u) then 1 else 0)%Z).
Proof.
  intros [Hnd Hel Hr Hp] Hu Hut Hue Hex Hpos. unfold release.
  rewrite bool_decide_eq_false_2 by done. unfold executed in Hex. rewrite Hex. cbn [orb].
  assert (forall v, count (set_count ds u (count ds u - 1)) v = (count ds v - if decide (v = u) then 1 else 0)%Z) as Hc.
  { intros v. unfold count, set_count. cbn [txReadyCount]. destruct (decide (v = u)) as [->|Hne].
    - by rewrite lookup_insert_eq.
    - rewrite lookup_insert_ne by done. lia. }
  assert (u ∉ readyQueue ds ++ pruneReadyQueue ds ++ R) as Hnu.
  { rewrite Hel. intros (_ & _ & _ & ?). lia. }
  rewrite !elem_of_app in Hnu.
  assert (count (set_count ds u (count ds u - 1)) u = (count ds u - 1)%Z) as Hcu.
  { rewrite Hc, decide_True by done. lia. }
  rewrite Hcu. cbn [inReady inPruneReady set_count].
  rewrite Hr, Hp, (bool_decide_eq_false_2 (u ∈ readyQueue ds)), (bool_decide_eq_false_2 (u ∈ pruneReadyQueue ds)) by tauto.
  cbn [negb]. rewrite !andb_true_r.
  destruct (decide (count ds u - 1 = 0)%Z) as [Hz|Hz].
  - rewrite bool_decide_eq_true_2 by done.
    assert (forall v, v ∈ order /\ v ∉ [t] /\ executed ds v = false /\ (count ds v - if decide (v = u) then 1 else 0)%Z = 0%Z
      <-> v ∈ readyQueue ds ++ pruneReadyQueue ds ++ R \/ v = u) as Hel'.
    { intros v. rewrite Hel. destruct (decide (v = u)) as [->|Hne]; [|naive_solver lia].
      split; [by right|]. intros _. split; [done|]. split; [set_solver|]. split; [done|lia]. }
    destruct to_ready; (split; [done|]); (split; [split|exact Hc]); cbn [readyQueue pruneReadyQueue inReady inPruneReady PushReady push_prune_ready].
    + rewrite <- app_assoc. cbn. rewrite <- Permutation_middle. constructor; [rewrite !elem_of_app; tauto|done].
    + intros v. change (count (PushReady ?d u) v) with (count d v). change (executed (PushReady ?d u) v) with (executed ds v).
      rewrite Hc, Hel'. rewrite !elem_of_app, list_elem_of_singleton. tauto.
    + intros v. unfold flag. destruct (decide (v = u)) as [->|Hne].
      * rewrite lookup_insert_eq. cbn. symmetry. apply bool_decide_eq_true_2. set_solver.
      * rewrite lookup_insert_ne by done. cbn [inReady set_count]. fold (flag (inReady ds) v). rewrite Hr.
        apply bool_decide_ext. cbn [readyQueue set_count]. set_solver.
    + done.
    + cbn [readyQueue pruneReadyQueue set_count]. rewrite <- app_assoc. cbn.
      rewrite app_assoc, <- Permutation_middle, <- app_assoc. constructor; [rewrite !elem_of_app; tauto|done].
    + intros v. change (count (push_prune_ready ?d u) v) with (count d v).
      change (executed (push_prune_ready ?d u) v) with (executed ds v).
      rewrite Hc, Hel'. cbn [readyQueue pruneReadyQueue set_count]. rewrite !elem_of_app, list_elem_of_singleton. tauto.
    + done.
    + intros v. unfold flag. destruct (decide (v = u)) as [->|Hne].
      * rewrite lookup_insert_eq. cbn. symmetry. apply bool_decide_eq_true_2. set_solver.
      * rewrite lookup_insert_ne by done. cbn [inPruneReady set_count]. fold (flag (inPruneReady ds) v). rewrite Hp.
        apply bool_decide_ext. cbn [pruneReadyQueue set_count]. set_solver.
  - rewrite bool_decide_eq_false_2 by done. cbn [andb].
    replace (if to_ready then set_count ds u (count ds u - 1) else set_count ds u (count ds u - 1))
      with (set_count ds u (count ds u - 1)) by (by destruct to_ready).
    split; [done|]. split; [split|exact Hc]; cbn [readyQueue pruneReadyQueue inReady inPruneReady set_count]; [done| |done|done].
    intros v. change (executed (set_count ds u ?c) v) with (executed ds v). rewrite Hc, Hel.
    destruct (decide (v = u)) as [->|]; naive_solver lia.
Qed.

Lemma set_queue_static order ds k q :
  sched_static order ds -> tq_ok q -> sublist (contents q) (Q ds k) -> sched_static order (set_queue ds k q).
Proof.
  intros [Ho He Hk Hq Hx Hs] Hok Hsub. split; try done.
  - intros k' q'. cbn [keyQueues set_queue]. rewrite lookup_insert_Some. intros [[_ <-]|[_ ?]]; [done|by eapply Hq].
  - intros t k' Ht Hin. cbn [keyQueues set_queue]. destruct (decide (k = k')) as [->|Hne].
    + rewrite lookup_insert_eq. eauto.
    + rewrite lookup_insert_ne by done. by eapply Hx.
  - intros k'. rewrite Q_set_queue. destruct (decide (k' = k)) as [->|]; [|apply Hs]. etrans; [exact Hsub|apply Hs].
Qed.

(** The transaction [t] being processed leaves the front of the queue of [k]. *)
Definition left_queue (t k : string) (ds ds' : DepurgeScheduler) : Prop :=
  (forall k', Q ds' k' = if decide (k' = k) then filter (fun u => u <> t) (Q ds k') else Q ds k') /\
  (forall u, keys_of ds' u = keys_of ds u) /\ (forall u, executed ds' u = executed ds u).

Lemma filter_front (t : string) rest : NoDup (t :: rest) -> filter (fun u => u <> t) (t :: rest) = rest.
Proof.
  intros [Ht _]%NoDup_cons. rewrite filter_cons_False by tauto. apply filter_all_True. intros u Hu ->. done.
Qed.

Lemma drop_front order R t ds k rest q to_ready :
  mid_inv order R t ds -> Q ds k = t :: rest -> tq_ok q -> contents q = rest ->
  let ds' := release to_ready (set_queue ds k q) (front q) in
  mid_inv order R t ds' /\ left_queue t k ds ds'.
Proof.
  intros [Hs Hin Hcur Hcnt Hz Hl] Hk Hq Eq. cbn zeta.
  pose proof (Q_nodup _ _ k Hs) as Hnd. rewrite Hk in Hnd.
  assert (sublist rest (Q ds k)) as Hsub by (rewrite Hk; by constructor).
  set (ds1 := set_queue ds k q).
  assert (sched_static order ds1) as Hs1 by (apply set_queue_static; [done|done|by rewrite Eq]).
  assert (forall k', Q ds1 k' = if decide (k' = k) then rest else Q ds k') as HQ1.
  { intros k'. unfold ds1. by rewrite Q_set_queue, Eq. }
  assert (left_queue t k ds ds1) as Hleft.
  { split; [|done]. intros k'. rewrite HQ1. destruct (decide (k' = k)) as [->|]; [|done]. by rewrite Hk, filter_front. }
  assert (forall u, u <> t -> blockers ds1 u = (blockers ds u - if decide (head rest = Some u) then 1 else 0)%Z) as Hb.
  { intros u Hu. apply (blockers_tail ds ds1 k t rest); try done.
    - apply (ss_keys _ _ Hs).
    - intros Hr. apply (Hin u k Hu). rewrite Hk. by right. }
  assert (forall u k', u ∈ Q ds1 k' -> u ∈ Q ds k') as Hmono.
  { intros u k'. rewrite HQ1. destruct (decide (k' = k)) as [->|]; [|done]. rewrite Hk. by right. }
  assert (forall k', t ∈ Q ds1 k' -> k' ∈ keys_of ds t /\ head (Q ds1 k') = Some t) as Hcur1.
  { intros k' Ht. destruct (Hcur k' (Hmono _ _ Ht)) as [? Hh]. split; [done|]. rewrite HQ1 in Ht |- *.
    destruct (decide (k' = k)); [|done]. apply NoDup_cons in Hnd as [? _]. done. }
  assert (sched_lists order R [t] ds1) as Hl1 by (destruct Hl; by split).
  rewrite front_spec, Eq. destruct rest as [|u l]; cbn [head default].
  { split; [|done]. split; try done; [naive_solver|].
    intros u Hu Hne Hex. rewrite Hb, decide_False by done. etrans; [by apply Hcnt|lia]. }
  assert (u ∈ Q ds k) as HuQ by (rewrite Hk; right; left).
  assert (u <> t) as Hut by (intros ->; apply NoDup_cons in Hnd as [[] _]; left).
  destruct (Hin u k Hut HuQ) as [Huk Hux].
  pose proof (Q_order _ _ _ _ Hs HuQ) as Huo.
  assert (u <> EmptyString) as Hue by (intros ->; by apply (ss_nonempty _ _ Hs)).
  assert (0 < count ds u)%Z as Hpos.
  { rewrite Hcnt by done. specialize (Hb u Hut). rewrite decide_True in Hb by done. assert (0 <= blockers ds1 u)%Z by (unfold blockers; lia). lia. }
  cbn [default from_option].
  destruct (release_lists order R t ds1 to_ready u Hl1 Huo Hut Hue Hux Hpos) as (Hcore & Hl2 & Hc2).
  destruct (same_core_facts _ _ Hcore) as (F1 & F2 & F3 & F4 & F5). destruct Hleft as (L1 & L2 & L3).
  split; [split|split_and!].
  - by apply F5.
  - intros v k' Hv. rewrite F1, F2, F3. intros ?%Hmono. by apply Hin.
  - intros k'. rewrite F1, F2. apply Hcur1.
  - intros v Hv Hne. rewrite F3, F4, Hc2, Hb by done. intros Hex. change (count ds1 v) with (count ds v).
    rewrite Hcnt by done. cbn [head]. destruct (decide (v = u)) as [->|Hvu]; [by rewrite decide_True|].
    rewrite decide_False by congruence. done.
  - rewrite Hc2, decide_False by done. change (count ds1 t) with (count ds t). lia.
  - done.
  - intros k'. by rewrite F1, L1.
  - intros v. by rewrite F2, L2.
  - intros v. by rewrite F3, L3.
Qed.

(** [t] leaves the queues of the keys in [gone]. *)
Definition left_queues (t : string) (gone : list string) (ds ds' : DepurgeScheduler) : Prop :=
  (forall k, Q ds' k = if decide (k ∈ gone) then filter (fun u => u <> t) (Q ds k) else Q ds k) /\
  (forall u, keys_of ds' u = keys_of ds u) /\ (forall u, executed ds' u = executed ds u).

Lemma left_queues_nil t ds : left_queues t [] ds ds.
Proof. split; [|done]. intros k. by rewrite decide_False by apply not_elem_of_nil. Qed.

Lemma left_queues_snoc t gone k ds1 ds2 ds3 :
  left_queues t gone ds1 ds2 -> left_queue t k ds2 ds3 -> left_queues t (gone ++ [k]) ds1 ds3.
Proof.
  intros (A1 & A2 & A3) (B1 & B2 & B3). split; [|split; [congruence|congruence]].
  intros k'. rewrite B1, A1. destruct (decide (k' = k)) as [->|Hne], (decide (_ ∈ gone)) as [Hg|Hg].
  - rewrite decide_True by set_solver. apply filter_all_True. intros u Hu. by apply list_elem_of_filter in Hu as [? _].
  - rewrite decide_True by set_solver. done.
  - rewrite decide_True by set_solver. done.
  - rewrite decide_False by set_solver. done.
Qed.

Lemma left_queue_absent t k ds : t ∉ Q ds k -> left_queue t k ds ds.
Proof.
  intros Ht. split; [|done]. intros k'. destruct (decide (k' = k)) as [->|]; [|done].
  symmetry. apply filter_all_True. by intros u Hu ->.
Qed.

Lemma finish_key_spec order R t ds k to_ready :
  mid_inv order R t ds -> t ∈ order -> k ∈ keys_of ds t ->
  exists ds', finish_key to_ready t ds k = Ret ds' /\ mid_inv order R t ds' /\ left_queue t k ds ds'.
Proof.
  intros Hm Ht Hk. pose proof (mi_static _ _ _ _ Hm) as Hs.
  destruct (queue_of_eq _ _ _ _ Hs Ht Hk) as (q & Hq & Hok & HQ & _). unfold finish_key. rewrite Hq. cbn [mbind outcome_bind].
  destruct (decide (front q = t)) as [Hf|Hf].
  - pose proof (pop_spec q Hok) as (Hok' & Hc' & _). destruct (pop q) as [q' v]. cbn [fst] in *.
    apply (front_eq _ _ _ _ _ Hs HQ Ht) in Hf. destruct (Q ds k) as [|u rest] eqn:EQ; [done|]. injection Hf as ->.
    eexists. split; [done|]. apply (drop_front order R t ds k rest); [done|done|done|]. by rewrite Hc', <- HQ.
  - exists ds. split; [done|]. split; [done|]. apply left_queue_absent. intros Hin.
    apply Hf, (front_eq _ _ _ _ _ Hs HQ Ht). by apply (mi_cur _ _ _ _ Hm).
Qed.

Lemma prune_key_spec order R t real ds k :
  mid_inv order R t ds -> t ∈ order -> k ∈ keys_of ds t ->
  exists ds', prune_key t real ds k = Ret ds' /\ mid_inv order R t ds' /\
    (if bool_decide (k ∈ real) then ds' = ds else left_queue t k ds ds').
Proof.
  intros Hm Ht Hk. pose proof (mi_static _ _ _ _ Hm) as Hs. unfold prune_key.
  destruct (bool_decide (k ∈ real)); [by eexists|].
  destruct (queue_of_eq _ _ _ _ Hs Ht Hk) as (q & Hq & Hok & HQ & _). rewrite Hq. cbn [mbind outcome_bind].
  rewrite (tq_contains q t Hok), <- HQ. destruct (bool_decide (t ∈ Q ds k)) eqn:Eb.
  - apply bool_decide_eq_true in Eb. destruct (mi_cur _ _ _ _ Hm k Eb) as [_ Hh].
    rewrite (bool_decide_eq_true_2 (front q = t)) by (by apply (front_eq _ _ _ _ _ Hs HQ Ht)).
    pose proof (remove_spec q t Hok) as (Hok' & Hc' & _). destruct (remove q t) as [q' v]. cbn [fst] in *.
    pose proof (Q_nodup _ _ k Hs) as Hnd. destruct (Q ds k) as [|u rest] eqn:EQ; [done|]. injection Hh as ->.
    eexists. split; [done|]. apply (drop_front order R t ds k rest); [done|done|done|].
    by rewrite Hc', <- HQ, filter_front.
  - apply bool_decide_eq_false in Eb. exists ds. split; [done|]. split; [done|]. by apply left_queue_absent.
Qed.

(** ** The operations *)
Lemma countb_zero {A} (p : A -> bool) (l : list A) : countb p l = 0 -> forall x, x ∈ l -> p x = false.
Proof.
  induction l as [|y l IH]; intros H x Hx; [by apply not_elem_of_nil in Hx|]. rewrite countb_cons in H.
  apply elem_of_cons in Hx as [->|Hx]; [by destruct (p y)|]. apply IH; [lia|done].
Qed.

Lemma countb_false {A} (p : A -> bool) (l : list A) : (forall x, x ∈ l -> p x = false) -> countb p l = 0.
Proof.
  induction l as [|y l IH]; intros H; [done|]. rewrite countb_cons, (H y), IH by set_solver. done.
Qed.

(** A transaction that nothing blocks is in front of every queue it is in. *)
Lemma inv_front order R ds t k :
  sched_inv order R ds -> t ∈ readyQueue ds ++ pruneReadyQueue ds ++ R -> t ∈ Q ds k -> head (Q ds k) = Some t.
Proof.
  intros [Hs Hin Hc Hl] Ht Hk. apply (sl_elem _ _ _ _ Hl) in Ht as (Ho & _ & Hex & Hz).
  rewrite Hc in Hz by done. unfold blockers in Hz.
  assert (blocked ds t k = false) as Hb by (apply (countb_zero (blocked ds t) (keys_of ds t)); [lia|by apply Hin]).
  unfold blocked in Hb. rewrite bool_decide_eq_true_2 in Hb by done. cbn [andb] in Hb.
  apply negb_false_iff, bool_decide_eq_true in Hb. done.
Qed.

Lemma lists_perm order R R' X ds : R ≡ₚ R' -> sched_lists order R X ds -> sched_lists order R' X ds.
Proof. intros HR [Hnd Hel Hr Hp]. split; [by rewrite <- HR| |done|done]. intros t. by rewrite <- HR. Qed.

Lemma inv_perm order R R' ds : R ≡ₚ R' -> sched_inv order R ds -> sched_inv order R' ds.
Proof. intros HR []. split; try done. by eapply lists_perm. Qed.

Lemma lists_out order R t ds : sched_lists order (t :: R) [] ds -> sched_lists order R [t] ds.
Proof.
  intros [Hnd Hel Hr Hp]. rewrite app_assoc, <- Permutation_middle, <- app_assoc in Hnd. apply NoDup_cons in Hnd as [Ht Hnd].
  split; [done| |done|done]. intros u. specialize (Hel u). rewrite !elem_of_app, elem_of_cons in Hel.
  rewrite !elem_of_app in Ht |- *. rewrite list_elem_of_singleton. split.
  - intros Hu. assert (u <> t) by (intros ->; tauto). tauto.
  - intros (Ho & Hu & Hx & Hc). assert (u ∉ []) by apply not_elem_of_nil. tauto.
Qed.

Lemma lists_executed order R t ds ds' :
  sched_lists order R [t] ds ->
  readyQueue ds' = readyQueue ds -> pruneReadyQueue ds' = pruneReadyQueue ds -> inReady ds' = inReady ds ->
  inPruneReady ds' = inPruneReady ds -> (forall u, count ds' u = count ds u) ->
  (forall u, u <> t -> executed ds' u = executed ds u) -> sched_lists order R [t] ds'.
Proof.
  intros [Hnd Hel Hr Hp] E1 E2 E3 E4 E5 E6. split; rewrite ?E1, ?E2, ?E3, ?E4; try done.
  intros u. rewrite Hel, E5, list_elem_of_singleton. split.
  - intros (? & ? & ? & ?). rewrite E6 by done. done.
  - intros (? & ? & Hx & ?). rewrite E6 in Hx by done. done.
Qed.

Lemma enter_mid order R t ds : sched_inv order (t :: R) ds -> mid_inv order R t ds.
Proof.
  intros Hi. assert (t ∈ readyQueue ds ++ pruneReadyQueue ds ++ t :: R) as Ht by set_solver.
  pose proof (fun k => inv_front order _ ds t k Hi Ht) as Hf. destruct Hi as [Hs Hin Hc Hl].
  split; [done| | | | |by apply lists_out].
  - intros u k _. apply Hin.
  - intros k Hk. split; [by apply Hin|by apply Hf].
  - intros u Hu _. by apply Hc.
  - apply (sl_elem _ _ _ _ Hl) in Ht. tauto.
Qed.

Lemma mid_executed order R t ds : mid_inv order R t ds -> mid_inv order R t (set_executed ds t).
Proof.
  intros [Hs Hin Hcur Hc Hz Hl].
  assert (forall u, u <> t -> executed (set_executed ds t) u = executed ds u) as He.
  { intros u Hu. unfold executed, flag, set_executed. cbn [txExecuted]. by rewrite lookup_insert_ne. }
  split; [by destruct Hs| |done| |done|by eapply lists_executed].
  - intros u k Hu Hk. rewrite He by done. by apply Hin.
  - intros u Ho Hu. rewrite He by done. by apply Hc.
Qed.

Lemma leave_mid_executed order R t ds :
  mid_inv order R t ds -> (forall k, t ∉ Q ds k) -> executed ds t = true -> sched_inv order R ds.
Proof.
  intros [Hs Hin Hcur Hc Hz Hl] Ht Hx. split; [done| | |].
  - intros u k Hk. apply Hin; [|done]. intros ->. by apply (Ht k).
  - intros u Ho Hu. apply Hc; [done| |done]. intros ->. congruence.
  - destruct Hl as [Hnd Hel Hr Hp]. split; [done| |done|done]. intros u. rewrite Hel, list_elem_of_singleton.
    split; [intros (? & ? & ? & ?); split_and!; set_solver|]. intros (? & _ & Hu & ?). split_and!; try done. intros ->. congruence.
Qed.

Lemma leave_mid_pruned order R t ds :
  mid_inv order R t ds -> t ∈ order -> executed ds t = false -> sched_inv order (t :: R) ds.
Proof.
  intros [Hs Hin Hcur Hc Hz Hl] Ht Hx. split; [done| | |].
  - intros u k Hk. destruct (decide (u = t)) as [->|Hu]; [|by apply Hin]. split; [by apply Hcur|done].
  - intros u Ho Hu. destruct (decide (u = t)) as [->|Hne]; [|by apply Hc]. rewrite Hz. unfold blockers.
    rewrite countb_false; [done|]. intros k _. unfold blocked. destruct (bool_decide (t ∈ Q ds k)) eqn:E; [|done].
    apply bool_decide_eq_true in E. rewrite bool_decide_eq_true_2 by (by apply Hcur). done.
  - destruct Hl as [Hnd Hel Hr Hp].
    assert (t ∉ readyQueue ds ++ pruneReadyQueue ds ++ R) as Hnt by (rewrite Hel; set_solver).
    split; [| |done|done].
    + rewrite app_assoc, <- Permutation_middle, <- app_assoc. by constructor.
    + intros u. rewrite app_assoc, <- Permutation_middle, <- app_assoc, elem_of_cons, Hel, list_elem_of_singleton.
      destruct (decide (u = t)) as [->|]; [|set_solver]. split; [|by left]. intros _. split_and!; try done. set_solver.
Qed.

Lemma finish_fold order R t ds to_ready :
  mid_inv order R t ds -> t ∈ order ->
  exists ds', foldM (finish_key to_ready t) ds (keys_of ds t) = Ret ds' /\ mid_inv order R t ds' /\
    left_queues t (keys_of ds t) ds ds'.
Proof.
  intros Hm Ht.
  apply (foldM_inv (finish_key to_ready t) (fun pre s => mid_inv order R t s /\ left_queues t pre ds s)).
  - split; [done|apply left_queues_nil].
  - intros pre k post s Hkeys [Hms Hls].
    destruct (finish_key_spec order R t s k to_ready Hms Ht) as (s' & Hf & Hm' & Hl').
    { destruct Hls as (_ & Hk & _). rewrite Hk, Hkeys. set_solver. }
    exists s'. split; [done|]. split; [done|]. by eapply left_queues_snoc.
Qed.

(** [Execute] and [Abort] retire the transaction from all its queues. *)
Lemma finish_spec order R t ds to_ready :
  sched_inv order (t :: R) ds ->
  exists ds', finish to_ready ds t = Ret ds' /\ sched_inv order R ds' /\
    (forall k, Q ds' k = filter (fun u => u <> t) (Q ds k)) /\ (forall u, keys_of ds' u = keys_of ds u) /\
    (forall u, executed ds' u = bool_decide (u = t) || executed ds u).
Proof.
  intros Hi. assert (t ∈ readyQueue ds ++ pruneReadyQueue ds ++ t :: R) as Ht by set_solver.
  apply (sl_elem _ _ _ _ (si_lists _ _ _ Hi)) in Ht as (Ho & _ & Hx & _).
  pose proof (mid_executed _ _ _ _ (enter_mid _ _ _ _ Hi)) as Hm.
  destruct (finish_fold order R t _ to_ready Hm Ho) as (ds' & Hf & Hm' & HQ & HK & HE).
  assert (forall u, executed ds' u = bool_decide (u = t) || executed ds u) as HE'.
  { intros u. rewrite HE. unfold executed, flag, set_executed. cbn [txExecuted]. destruct (decide (u = t)) as [->|Hne].
    - by rewrite lookup_insert_eq, bool_decide_eq_true_2.
    - by rewrite lookup_insert_ne, bool_decide_eq_false_2. }
  assert (forall k, Q ds' k = filter (fun u => u <> t) (Q ds k)) as HQ'.
  { intros k. rewrite HQ. change (Q (set_executed ds t) k) with (Q ds k). change (keys_of (set_executed ds t) t) with (keys_of ds t).
    destruct (decide (k ∈ keys_of ds t)); [done|]. symmetry. apply filter_all_True. intros u Hu ->.
    apply (si_in _ _ _ Hi) in Hu as [? _]. done. }
  exists ds'. unfold finish. unfold executed in Hx. rewrite Hx. split; [exact Hf|]. split; [|done].
  apply (leave_mid_executed order R t); [done| |].
  - intros k. rewrite HQ', list_elem_of_filter. tauto.
  - by rewrite HE', bool_decide_eq_true_2.
Qed.

(** [Prune] takes it out of the queues of the keys it does not really use. *)
Lemma Prune_spec order R t real ds :
  sched_inv order (t :: R) ds ->
  exists ds', Prune ds t real = Ret ds' /\ sched_inv order (t :: R) ds' /\
    (forall k, Q ds' k = if decide (k ∈ keys_of ds t /\ k ∉ real) then filter (fun u => u <> t) (Q ds k) else Q ds k) /\
    (forall u, keys_of ds' u = keys_of ds u) /\ (forall u, executed ds' u = executed ds u).
Proof.
  intros Hi. assert (t ∈ readyQueue ds ++ pruneReadyQueue ds ++ t :: R) as Ht by set_solver.
  apply (sl_elem _ _ _ _ (si_lists _ _ _ Hi)) in Ht as (Ho & _ & Hx & _).
  destruct (foldM_inv (prune_key t real) (fun pre s => mid_inv order R t s /\ left_queues t (filter (fun k => k ∉ real) pre) ds s)
    (keys_of ds t) ds) as (ds' & Hf & Hm & HQ & HK & HE).
  - split; [by apply enter_mid|]. apply left_queues_nil.
  - intros pre k post s Hkeys [Hms Hls].
    destruct (prune_key_spec order R t real s k Hms Ho) as (s' & Hf & Hm' & Hl').
    { destruct Hls as (_ & Hk & _). rewrite Hk, Hkeys. set_solver. }
    exists s'. split; [done|]. split; [done|]. rewrite filter_app, filter_cons. destruct (decide (k ∉ real)) as [Hk|Hk].
    + rewrite bool_decide_eq_false_2 in Hl' by done. by eapply left_queues_snoc.
    + rewrite bool_decide_eq_true_2 in Hl' by (destruct (decide (k ∈ real)); tauto). subst s'.
      change (filter (fun k => k ∉ real) []) with (@nil string). by rewrite app_nil_r.
  - exists ds'. split; [exact Hf|]. split; [|split; [|done]].
    + apply leave_mid_pruned; [done|done|by rewrite HE].
    + intros k. rewrite HQ. destruct (decide (k ∈ keys_of ds t /\ k ∉ real)) as [H|H].
      * rewrite decide_True; [done|]. apply list_elem_of_filter. tauto.
      * rewrite decide_False; [done|]. rewrite list_elem_of_filter. tauto.
Qed.

Lemma PopReady_inv order R ds ds' t :
  sched_inv order R ds -> PopReady ds = (ds', t) -> t <> EmptyString ->
  sched_inv order (t :: R) ds' /\ same_core ds ds'.
Proof.
  intros [Hs Hin Hc [Hnd Hel Hr Hp]] HP Hne. unfold PopReady in HP. destruct (readyQueue ds) as [|u rest] eqn:E; [by injection HP as <- <-|].
  injection HP as <- <-. split; [|done]. split; [by destruct Hs|done|done|]. split; cbn [readyQueue pruneReadyQueue inReady inPruneReady].
  - rewrite app_assoc, <- Permutation_middle, <- app_assoc. done.
  - intros v. rewrite <- Hel. rewrite app_assoc, <- Permutation_middle, <- app_assoc. done.
  - cbn in Hnd. apply NoDup_cons in Hnd as [Hu _]. intros v. unfold flag. destruct (decide (v = u)) as [->|Hv].
    + rewrite lookup_delete_eq. symmetry. apply bool_decide_eq_false_2. set_solver.
    + rewrite lookup_delete_ne by done. fold (flag (inReady ds) v). rewrite Hr. apply bool_decide_ext. set_solver.
  - done.
Qed.

Lemma PopPruneReady_inv order R ds ds' t :
  sched_inv order R ds -> PopPruneReady ds = (ds', t) -> t <> EmptyString ->
  sched_inv order (t :: R) ds' /\ same_core ds ds'.
Proof.
  intros [Hs Hin Hc [Hnd Hel Hr Hp]] HP Hne. unfold PopPruneReady in HP.
  destruct (pruneReadyQueue ds) as [|u rest] eqn:E; [by injection HP as <- <-|].
  injection HP as <- <-. split; [|done]. split; [by destruct Hs|done|done|].
  assert (readyQueue ds ++ (u :: rest) ++ R ≡ₚ readyQueue ds ++ rest ++ u :: R) as HP.
  { apply Permutation_app_head. apply (Permutation_middle rest R u). }
  split; cbn [readyQueue pruneReadyQueue inReady inPruneReady].
  - by rewrite <- HP.
  - intros v. rewrite <- Hel. by rewrite <- HP.
  - done.
  - apply NoDup_app in Hnd as (_ & _ & Hnd). cbn in Hnd. apply NoDup_cons in Hnd as [Hu _].
    intros v. unfold flag. destruct (decide (v = u)) as [->|Hv].
    + rewrite lookup_delete_eq. symmetry. apply bool_decide_eq_false_2. set_solver.
    + rewrite lookup_delete_ne by done. fold (flag (inPruneReady ds) v). rewrite Hp. apply bool_decide_ext. set_solver.
Qed.

(** [PushReady] gives a popped transaction back. *)
Lemma PushReady_inv order R ds t : sched_inv order (t :: R) ds -> sched_inv order R (PushReady ds t) /\ same_core ds (PushReady ds t).
Proof.
  intros [Hs Hin Hc [Hnd Hel Hr Hp]]. split; [|done]. split; [by destruct Hs|done|done|].
  assert (readyQueue ds ++ pruneReadyQueue ds ++ t :: R ≡ₚ (readyQueue ds ++ [t]) ++ pruneReadyQueue ds ++ R) as HP.
  { rewrite <- app_assoc. cbn. apply Permutation_app_head. symmetry. apply Permutation_middle. }
  split; cbn [readyQueue pruneReadyQueue inReady inPruneReady PushReady].
  - by rewrite <- HP.
  - intros v. rewrite <- Hel. by rewrite <- HP.
  - intros v. unfold flag. destruct (decide (v = t)) as [->|Hv].
    + rewrite lookup_insert_eq. symmetry. apply bool_decide_eq_true_2. set_solver.
    + rewrite lookup_insert_ne by done. fold (flag (inReady ds) v). rewrite Hr. apply bool_decide_ext. set_solver.
  - done.
Qed.

(** *** addTransaction *)
Record added (t : string) (keys : list string) (ds ds' : DepurgeScheduler) : Prop := {
  ad_Q : forall k, Q ds' k = if decide (k ∈ keys) then Q ds k ++ [t] else Q ds k;
  ad_ok : forall k q, keyQueues ds' !! k = Some q -> tq_ok q;
  ad_some : forall k, k ∈ keys \/ is_Some (keyQueues ds !! k) -> is_Some (keyQueues ds' !! k);
  ad_count : forall u, count ds' u = (count ds u - if decide (u = t) then Z.of_nat (countb (fun k => bool_decide (Q ds k = [])) keys) else 0)%Z;
  ad_same : txKeyMap ds' = txKeyMap ds /\ txExecuted ds' = txExecuted ds /\ readyQueue ds' = readyQueue ds /\
    pruneReadyQueue ds' = pruneReadyQueue ds /\ inReady ds' = inReady ds /\ inPruneReady ds' = inPruneReady ds }.

Lemma add_key_spec t k ds :
  (forall k q, keyQueues ds !! k = Some q -> tq_ok q) -> t ∉ Q ds k -> t <> EmptyString -> added t [k] ds (add_key t ds k).
Proof.
  intros Hok Ht Hne. unfold add_key.
  set (q0 := default newTransactionQueue (keyQueues ds !! k)).
  assert (tq_ok q0 /\ contents q0 = Q ds k) as [Hq0 Hc0].
  { unfold q0, Q. destruct (keyQueues ds !! k) as [q|] eqn:E; cbn; [by eauto|]. split; [|done].
    split; cbn; try constructor; intros; set_solver. }
  destruct (push_spec q0 t Hq0) as [Hok1 Hc1]. rewrite Hc0, decide_False in Hc1 by done.
  assert (front (push q0 t) = t <-> Q ds k = []) as Hf.
  { rewrite front_spec, Hc1. destruct (Q ds k) as [|u l]; cbn; [done|]. split; [|done]. intros ->. set_solver. }
  set (ds1 := set_queue ds k (push q0 t)).
  assert (forall k', Q ds1 k' = if decide (k' ∈ [k]) then Q ds k' ++ [t] else Q ds k') as HQ1.
  { intros k'. unfold ds1. rewrite Q_set_queue, Hc1. destruct (decide (k' = k)) as [->|];
      [rewrite decide_True by set_solver|rewrite decide_False by set_solver]; done. }
  assert (forall k' q, keyQueues ds1 !! k' = Some q -> tq_ok q) as Hok'.
  { intros k' q. unfold ds1. cbn [keyQueues set_queue]. rewrite lookup_insert_Some. intros [[_ <-]|[_ ?]]; [done|by eapply Hok]. }
  assert (forall k', k' ∈ [k] \/ is_Some (keyQueues ds !! k') -> is_Some (keyQueues ds1 !! k')) as Hsome.
  { intros k'. unfold ds1. cbn [keyQueues set_queue]. rewrite lookup_insert_is_Some. rewrite list_elem_of_singleton.
    destruct (decide (k = k')); naive_solver. }
  destruct (decide (front (push q0 t) = t)) as [Hd|Hd].
  - split; [exact HQ1|exact Hok'|exact Hsome| |done]. intros u. unfold count at 1. cbn [txReadyCount set_count].
    rewrite countb_cons, countb_nil, (bool_decide_eq_true_2 (Q ds k = [])) by tauto.
    destruct (decide (u = t)) as [->|Hu]; [by rewrite lookup_insert_eq|].
    rewrite lookup_insert_ne by done. change (default 0%Z (txReadyCount ds1 !! u)) with (count ds u). lia.
  - split; [exact HQ1|exact Hok'|exact Hsome| |done]. intros u. change (count ds1 u) with (count ds u).
    rewrite countb_cons, countb_nil, (bool_decide_eq_false_2 (Q ds k = [])) by tauto. destruct (decide (u = t)); lia.
Qed.

Lemma added_trans t k keys ds1 ds2 ds3 :
  k ∉ keys -> added t [k] ds1 ds2 -> added t keys ds2 ds3 -> added t (k :: keys) ds1 ds3.
Proof.
  intros Hk [Q1 O1 S1 C1 M1] [Q2 O2 S2 C2 M2]. split; [|done| | |].
  - intros k'. rewrite Q2, Q1. destruct (decide (k' = k)) as [->|Hne].
    + rewrite decide_False, !decide_True by set_solver. done.
    + rewrite (decide_False (P := k' ∈ [k])) by set_solver.
      destruct (decide (k' ∈ keys)); [rewrite decide_True by set_solver|rewrite decide_False by set_solver]; done.
  - intros k' H. apply S2. rewrite elem_of_cons in H. destruct H as [[->|H]|H]; [right; apply S1; set_solver|by left|].
    right. apply S1. by right.
  - intros u. rewrite C2, C1. destruct (decide (u = t)); [|lia]. rewrite !countb_cons, countb_nil.
    rewrite (countb_ext (fun k0 => bool_decide (Q ds2 k0 = [])) (fun k0 => bool_decide (Q ds1 k0 = [])) keys); [lia|].
    intros k' Hk'. rewrite Q1, decide_False; [done|]. set_solver.
  - destruct M1 as (? & ? & ? & ? & ? & ?), M2 as (? & ? & ? & ? & ? & ?). split_and!; congruence.
Qed.

Lemma add_keys_spec t keys : forall ds,
  (forall k q, keyQueues ds !! k = Some q -> tq_ok q) -> (forall k, k ∈ keys -> t ∉ Q ds k) -> t <> EmptyString -> NoDup keys ->
  added t keys ds (foldl (add_key t) ds keys).
Proof.
  induction keys as [|k keys IH]; intros ds Hok Ht Hne Hnd; cbn [foldl].
  { split; [|done| | |done].
    - intros k. by rewrite decide_False by apply not_elem_of_nil.
    - intros k [Hk|?]; [by apply not_elem_of_nil in Hk|done].
    - intros u. rewrite countb_nil. destruct (decide (u = t)); lia. }
  apply NoDup_cons in Hnd as [Hk Hnd].
  pose proof (add_key_spec t k ds Hok (Ht k ltac:(left)) Hne) as Ha. apply (added_trans t k keys ds (add_key t ds k)); [done|done|].
  destruct Ha as [HQ1 Hok1 _ _ _]. apply IH; [done| |done|done].
  intros k' Hk'. rewrite HQ1, decide_False by set_solver. apply Ht. by right.
Qed.

Lemma countb_negb {A} (p q : A -> bool) l : (forall x, x ∈ l -> q x = negb (p x)) -> countb p l + countb q l = length l.
Proof.
  induction l as [|x l IH]; intros H; [done|]. rewrite !countb_cons. cbn [length].
  specialize (IH ltac:(set_solver)). rewrite (H x) by set_solver. destruct (p x); cbn [negb]; lia.
Qed.

(** The state once the transaction [t] is in the queues of its keys [ks]. *)
Record queued (order : list string) (t : string) (ks : list string) (ds ds1 : DepurgeScheduler) : Prop := {
  qu_Q : forall k, Q ds1 k = if decide (k ∈ ks) then Q ds k ++ [t] else Q ds k;
  qu_keys : forall u, keys_of ds1 u = if decide (u = t) then ks else keys_of ds u;
  qu_executed : forall u, executed ds1 u = if decide (u = t) then false else executed ds u;
  qu_count : forall u, u <> t -> count ds1 u = count ds u;
  qu_own : count ds1 t = Z.of_nat (countb (fun k => negb (bool_decide (Q ds k = []))) ks);
  qu_lists : readyQueue ds1 = readyQueue ds /\ pruneReadyQueue ds1 = pruneReadyQueue ds /\
    inReady ds1 = inReady ds /\ inPruneReady ds1 = inPruneReady ds;
  qu_static : sched_static (order ++ [t]) ds1 }.

Lemma queued_blockers order t ks ds ds1 u :
  queued order t ks ds ds1 -> (forall k, t ∉ Q ds k) -> u <> t -> blockers ds1 u = blockers ds u.
Proof.
  intros Hq Ht Hu. unfold blockers. rewrite (qu_keys _ _ _ _ _ Hq), decide_False by done. f_equal. apply countb_ext.
  intros k _. unfold blocked. rewrite (qu_Q _ _ _ _ _ Hq). destruct (decide (k ∈ ks)) as [Hk|Hk]; [|done].
  destruct (Q ds k) as [|v l]; cbn [app head].
  - rewrite (bool_decide_eq_false_2 (u ∈ [t])), (bool_decide_eq_false_2 (u ∈ [])) by set_solver. done.
  - f_equal. apply bool_decide_ext. set_solver.
Qed.

Lemma queued_own order t ks ds ds1 :
  queued order t ks ds ds1 -> (forall k, t ∉ Q ds k) -> count ds1 t = blockers ds1 t.
Proof.
  intros Hq Ht. rewrite (qu_own _ _ _ _ _ Hq). unfold blockers. rewrite (qu_keys _ _ _ _ _ Hq), decide_True by done.
  f_equal. apply countb_ext. intros k Hk. unfold blocked. rewrite (qu_Q _ _ _ _ _ Hq), decide_True by done.
  rewrite (bool_decide_eq_true_2 (t ∈ Q ds k ++ [t])) by set_solver. cbn [andb]. f_equal. apply bool_decide_ext.
  specialize (Ht k). destruct (Q ds k) as [|v l]; cbn; [done|]. split; [done|]. intros [= ->]. set_solver.
Qed.

Lemma queued_lists order R t ks ds ds1 :
  queued order t ks ds ds1 -> sched_lists order R [] ds -> t ∉ order -> sched_lists (order ++ [t]) R [t] ds1.
Proof.
  intros Hq [Hnd Hel Hr Hp] Ht. destruct (qu_lists _ _ _ _ _ Hq) as (E1 & E2 & E3 & E4).
  split; rewrite ?E1, ?E2, ?E3, ?E4; try done. intros u. rewrite Hel, elem_of_app, list_elem_of_singleton.
  rewrite (qu_executed _ _ _ _ _ Hq). destruct (decide (u = t)) as [->|Hu]; [tauto|].
  rewrite (qu_count _ _ _ _ _ Hq) by done. assert (u ∉ []) by apply not_elem_of_nil. tauto.
Qed.

Lemma queued_inv order R t ks ds ds1 :
  queued order t ks ds ds1 -> sched_inv order R ds -> t ∉ order ->
  sched_inv (order ++ [t]) R (if decide (count ds1 t = 0%Z) then PushReady ds1 t else ds1).
Proof.
  intros Hq [Hs Hin Hc Hl] Ht.
  assert (forall k, t ∉ Q ds k) as HtQ by (intros k Hk; by apply Ht, (Q_order _ ds k)).
  pose proof (queued_lists _ _ _ _ _ _ Hq Hl Ht) as Hl1. pose proof (qu_static _ _ _ _ _ Hq) as Hs1.
  assert (forall u k, u ∈ Q ds1 k -> k ∈ keys_of ds1 u /\ executed ds1 u = false) as Hin1.
  { intros u k. rewrite (qu_Q _ _ _ _ _ Hq), (qu_keys _ _ _ _ _ Hq), (qu_executed _ _ _ _ _ Hq).
    destruct (decide (u = t)) as [->|Hu]; (destruct (decide (k ∈ ks)); [|by intros ?%HtQ || apply Hin]); [done|].
    rewrite elem_of_app, list_elem_of_singleton. intros [?|?]; [by apply Hin|done]. }
  assert (forall u, u ∈ order ++ [t] -> executed ds1 u = false -> count ds1 u = blockers ds1 u) as Hc1.
  { intros u. destruct (decide (u = t)) as [->|Hu]; [intros _ _; by eapply queued_own|].
    rewrite (qu_executed _ _ _ _ _ Hq), decide_False, (qu_count _ _ _ _ _ Hq), elem_of_app, list_elem_of_singleton by done.
    intros [Ho|?] Hx; [|done]. rewrite (queued_blockers _ _ _ _ _ _ Hq) by done. by apply Hc. }
  assert (executed ds1 t = false) as Hx by (rewrite (qu_executed _ _ _ _ _ Hq); by rewrite decide_True).
  destruct (decide (count ds1 t = 0%Z)) as [Hz|Hz].
  - apply (PushReady_inv (order ++ [t]) R ds1 t), leave_mid_pruned; [|set_solver|done].
    split; [done| | | |done|done].
    + intros u k _. apply Hin1.
    + intros k Hk. split; [by apply Hin1|]. rewrite (queued_own _ _ _ _ _ Hq) in Hz by done. unfold blockers in Hz.
      assert (blocked ds1 t k = false) as Hb by (apply (countb_zero _ (keys_of ds1 t)); [lia|by apply Hin1]).
      unfold blocked in Hb. rewrite bool_decide_eq_true_2 in Hb by done. cbn [andb] in Hb.
      by apply negb_false_iff, bool_decide_eq_true in Hb.
    + intros u Ho _. by apply Hc1.
  - split; [done|done|done|]. destruct Hl1 as [Hnd Hel Hr Hp]. split; [done| |done|done]. intros u.
    rewrite Hel, list_elem_of_singleton. assert (u ∉ []) by apply not_elem_of_nil.
    destruct (decide (u = t)) as [->|]; tauto.
Qed.

(** The entries [addTransaction] writes before it visits the queues. *)
Definition registered (ds : DepurgeScheduler) (t : string) (ks : list string) : DepurgeScheduler :=
  mkDS (keyQueues ds) (<[t := ks]> (txKeyMap ds)) (<[t := false]> (txExecuted ds)) (readyQueue ds) (pruneReadyQueue ds)
    (<[t := Z.of_nat (length ks)]> (txReadyCount ds)) (inReady ds) (inPruneReady ds).

Lemma added_static order ds t ks ds1 :
  sched_static order ds -> t ∉ order -> t <> EmptyString -> NoDup ks -> added t ks (registered ds t ks) ds1 ->
  sched_static (order ++ [t]) ds1.
Proof.
  intros [H1 H2 H3 H4 H5 H6] Ht Hne Hnd [HQ Hok Hsome Hcnt (E1 & _)].
  assert (forall u, keys_of ds1 u = if decide (u = t) then ks else keys_of ds u) as HK.
  { intros u. unfold keys_of. rewrite E1. cbn [txKeyMap registered]. destruct (decide (u = t)) as [->|];
      [by rewrite lookup_insert_eq|by rewrite lookup_insert_ne]. }
  split.
  - apply NoDup_app. split; [done|]. split; [set_solver|apply NoDup_singleton].
  - set_solver.
  - intros u. rewrite HK. destruct (decide (u = t)); [done|apply H3].
  - done.
  - intros u k Hu Hk. apply Hsome. rewrite HK in Hk. destruct (decide (u = t)); [by left|].
    right. apply (H5 u); [set_solver|done].
  - intros k. rewrite HQ. destruct (decide (k ∈ ks)); [apply sublist_app; [apply H6|done]|apply sublist_inserts_r, H6].
Qed.

Lemma added_queued order ds t ks ds1 :
  sched_static order ds -> t ∉ order -> t <> EmptyString -> NoDup ks -> added t ks (registered ds t ks) ds1 ->
  queued order t ks ds ds1.
Proof.
  intros Hs Ht Hne Hnd Ha. pose proof (added_static _ _ _ _ _ Hs Ht Hne Hnd Ha) as Hs1.
  destruct Ha as [HQ Hok Hsome Hcnt (E1 & E2 & E3 & E4 & E5 & E6)]. split; [exact HQ| | | | |done|done].
  - intros u. unfold keys_of. rewrite E1. cbn [txKeyMap registered]. destruct (decide (u = t)) as [->|];
      [by rewrite lookup_insert_eq|by rewrite lookup_insert_ne].
  - intros u. unfold executed, flag. rewrite E2. cbn [txExecuted registered]. destruct (decide (u = t)) as [->|];
      [by rewrite lookup_insert_eq|by rewrite lookup_insert_ne].
  - intros u Hu. rewrite Hcnt, decide_False by done. unfold count. cbn [txReadyCount registered].
    rewrite lookup_insert_ne by done. lia.
  - rewrite Hcnt, decide_True by done. unfold count. cbn [txReadyCount registered]. rewrite lookup_insert_eq.
    change (Q (registered ds t ks)) with (Q ds).
    pose proof (countb_negb (fun k => bool_decide (Q ds k = [])) (fun k => negb (bool_decide (Q ds k = []))) ks ltac:(done)).
    cbn [default from_option id]. lia.
Qed.

Lemma addTransaction_inv order R ds t keys :
  sched_inv order R ds -> t ∉ order -> t <> EmptyString ->
  sched_inv (order ++ [t]) R (addTransaction ds t keys) /\
  (forall k, Q (addTransaction ds t keys) k = if decide (k ∈ keys) then Q ds k ++ [t] else Q ds k) /\
  (forall u, keys_of (addTransaction ds t keys) u = if decide (u = t) then sort_strings (dedup_go ∅ keys) else keys_of ds u) /\
  (forall u, executed (addTransaction ds t keys) u = if decide (u = t) then false else executed ds u).
Proof.
  intros Hi Ht Hne. pose proof (si_static _ _ _ Hi) as Hs. unfold addTransaction.
  set (ks := sort_strings (dedup_go ∅ keys)).
  assert (forall k, k ∈ ks <-> k ∈ keys) as Hks.
  { intros k. unfold ks. rewrite sort_strings_perm, elem_of_dedup_go. set_solver. }
  assert (NoDup ks) as Hnd by (unfold ks; rewrite sort_strings_perm; apply NoDup_dedup_go).
  fold (registered ds t ks). set (ds1 := foldl (add_key t) (registered ds t ks) ks).
  assert (queued order t ks ds ds1) as Hq.
  { apply added_queued; [done..|]. apply add_keys_spec; [apply Hs| |done|done].
    intros k _ Hk. by apply Ht, (Q_order _ ds k). }
  pose proof (queued_inv _ R _ _ _ _ Hq Hi Ht) as Hi'. split; [exact Hi'|].
  destruct Hq as [HQ' HK' HE' _ _ _ _].
  assert (same_core ds1 (if decide (count ds1 t = 0%Z) then PushReady ds1 t else ds1)) as Hcore by (by destruct (decide _)).
  destruct (same_core_facts _ _ Hcore) as (F1 & F2 & F3 & _ & _).
  split; [intros k; rewrite F1, HQ'; apply decide_ext, Hks|]. split; intros u; [by rewrite F2, HK'|by rewrite F3, HE'].
Qed.
