(* ===== verification/DepurgeRuns.v ===== *)
(** * Runs of the Depurge scheduler

    A run is a sequence of the atomic methods of [core/Depurge.go] issued by
    workers: a worker pops a transaction, may narrow its keys with [Prune],
    and finishes it with [Execute] or [Abort] or hands it back with
    [PushReady].  The run records what no field of the scheduler does: the
    order of arrival, who is being processed, and which keys were given up.
    Against that history every queue, count and ready list is determined. *)
From stdpp Require Import base list list_numbers gmap strings sorting relations.
From Stdlib Require Import ZArith Lia.
From S2P Require Import Prelude RWSet Depurge DepurgeInv.

Set Default Goal Selector "!".
Local Open Scope string_scope.
Local Open Scope list_scope.

Record run := mkRun {
  arrived : list string;            (* transactions in order of arrival *)
  working : list string;            (* popped and not finished *)
  shed : list (string * string);    (* keys given up by [Prune] *)
  sched : DepurgeScheduler }.

Definition initial : run := mkRun [] [] [] NewDepurgeScheduler.

Inductive run_step : run -> run -> Prop :=
| step_add o R P ds t keys :
    t ∉ o -> t <> EmptyString -> run_step (mkRun o R P ds) (mkRun (o ++ [t]) R P (addTransaction ds t keys))
| step_pop o R P ds ds' t :
    PopReady ds = (ds', t) -> t <> EmptyString -> run_step (mkRun o R P ds) (mkRun o (t :: R) P ds')
| step_pop_prune o R P ds ds' t :
    PopPruneReady ds = (ds', t) -> t <> EmptyString -> run_step (mkRun o R P ds) (mkRun o (t :: R) P ds')
| step_push o R1 R2 P ds t :
    run_step (mkRun o (R1 ++ t :: R2) P ds) (mkRun o (R1 ++ R2) P (PushReady ds t))
| step_execute o R1 R2 P ds ds' t :
    Execute ds t = Ret ds' -> run_step (mkRun o (R1 ++ t :: R2) P ds) (mkRun o (R1 ++ R2) P ds')
| step_abort o R1 R2 P ds ds' t :
    Abort ds t = Ret ds' -> run_step (mkRun o (R1 ++ t :: R2) P ds) (mkRun o (R1 ++ R2) P ds')
| step_prune o R1 R2 P ds ds' t real :
    Prune ds t real = Ret ds' ->
    run_step (mkRun o (R1 ++ t :: R2) P ds)
      (mkRun o (R1 ++ t :: R2) (((fun k => (t, k)) <$> filter (fun k => k ∉ real) (keys_of ds t)) ++ P) ds').

Definition reachable (r : run) : Prop := rtc run_step initial r.

(** The transactions a worker may process now. *)
Definition runnable (r : run) : list string := readyQueue (sched r) ++ pruneReadyQueue (sched r) ++ working r.

(** [t] is pending and still claims the key [k]. *)
Definition claims (r : run) (k t : string) : Prop :=
  IsExecuted (sched r) t = false /\ k ∈ GetConservativeKeys (sched r) t /\ (t, k) ∉ shed r.
#[global] Instance claims_dec r k t : Decision (claims r k t).
Proof. unfold claims. apply _. Defined.

(** The pending claimants of [k], first come first. *)
Definition claimants (r : run) (k : string) : list string := filter (claims r k) (arrived r).

Record run_inv (r : run) : Prop := {
  ri_sched : sched_inv (arrived r) (working r) (sched r);
  ri_queue : forall k t, t ∈ Q (sched r) k <-> t ∈ arrived r /\ claims r k t;
  ri_shed : forall t k, (t, k) ∈ shed r -> t ∈ arrived r }.

Lemma initial_inv : run_inv initial.
Proof.
  split; cbn; [|set_solver|set_solver]. split; [split| | |split]; cbn; try done; try set_solver; try constructor.
Qed.

Lemma core_inv o R R' P ds ds' :
  run_inv (mkRun o R P ds) -> sched_inv o R' ds' -> same_core ds ds' -> run_inv (mkRun o R' P ds').
Proof.
  intros [Hi Hq Hs] Hi' (E1 & E2 & E3). split; cbn in *; [done| |done].
  intros k t. specialize (Hq k t). unfold claims, IsExecuted, GetConservativeKeys, keys_of, Q in *. cbn in *. by rewrite E1, E2, E3.
Qed.

Lemma finish_inv o R1 R2 P ds ds' t to_ready :
  run_inv (mkRun o (R1 ++ t :: R2) P ds) -> finish to_ready ds t = Ret ds' -> run_inv (mkRun o (R1 ++ R2) P ds').
Proof.
  intros [Hi Hq Hs] Hf. cbn in *. apply (inv_perm _ _ (t :: R1 ++ R2)) in Hi; [|symmetry; apply Permutation_middle].
  destruct (finish_spec _ _ _ _ to_ready Hi) as (ds'' & Hf' & Hi' & HQ & HK & HE). rewrite Hf in Hf'. injection Hf' as <-.
  split; cbn; [done| |done]. intros k u. rewrite HQ, list_elem_of_filter, Hq. unfold claims, IsExecuted, GetConservativeKeys. cbn.
  fold (executed ds' u) (executed ds u). rewrite HE, HK. destruct (decide (u = t)) as [->|Hu].
  - rewrite bool_decide_eq_true_2 by done. cbn. naive_solver.
  - rewrite bool_decide_eq_false_2 by done. cbn. naive_solver.
Qed.

Lemma prune_inv o R1 R2 P ds ds' t real :
  run_inv (mkRun o (R1 ++ t :: R2) P ds) -> Prune ds t real = Ret ds' ->
  run_inv (mkRun o (R1 ++ t :: R2) (((fun k => (t, k)) <$> filter (fun k => k ∉ real) (keys_of ds t)) ++ P) ds').
Proof.
  intros [Hi Hq Hs] Hf. cbn in *.
  assert (t ∈ o) as Hto.
  { assert (t ∈ readyQueue ds ++ pruneReadyQueue ds ++ R1 ++ t :: R2) as Ht by set_solver.
    by apply (sl_elem _ _ _ _ (si_lists _ _ _ Hi)) in Ht as (? & _). }
  apply (inv_perm _ _ (t :: R1 ++ R2)) in Hi; [|symmetry; apply Permutation_middle].
  destruct (Prune_spec _ _ _ real _ Hi) as (ds'' & Hf' & Hi' & HQ & HK & HE). rewrite Hf in Hf'. injection Hf' as <-.
  split; cbn.
  - apply (inv_perm _ (t :: R1 ++ R2)); [apply Permutation_middle|done].
  - intros k u. rewrite HQ. unfold claims, IsExecuted, GetConservativeKeys in *. cbn in *.
    fold (executed ds' u) (executed ds u). rewrite HE, HK. fold (executed ds u) in *.
    assert ((u, k) ∈ (fun k => (t, k)) <$> filter (fun k => k ∉ real) (keys_of ds t) <-> u = t /\ k ∈ keys_of ds t /\ k ∉ real) as Hshed.
    { rewrite list_elem_of_fmap. setoid_rewrite list_elem_of_filter. naive_solver. }
    rewrite elem_of_app, Hshed. destruct (decide (k ∈ keys_of ds t /\ k ∉ real)) as [Hd|Hd].
    + rewrite list_elem_of_filter, Hq. unfold executed. naive_solver.
    + rewrite Hq. unfold executed. naive_solver.
  - intros u k. rewrite elem_of_app, list_elem_of_fmap. intros [(k' & [= -> ->] & _)|?]; [done|by eapply Hs].
Qed.

Lemma step_inv r r' : run_inv r -> run_step r r' -> run_inv r'.
Proof.
  intros Hi Hs. destruct Hs as [o R P ds t keys Ht Hne|o R P ds ds' t Hp Hne|o R P ds ds' t Hp Hne|o R1 R2 P ds t| | |].
  - destruct Hi as [Hi Hq Hs]. cbn in *. destruct (addTransaction_inv _ _ _ _ keys Hi Ht Hne) as (Hi' & HQ & HK & HE).
    split; cbn; [done| |set_solver]. intros k u. rewrite HQ, elem_of_app, list_elem_of_singleton.
    unfold claims, IsExecuted, GetConservativeKeys in *. cbn in *. fold (executed (addTransaction ds t keys) u) (executed ds u).
    rewrite HK, HE. destruct (decide (u = t)) as [->|Hu].
    + rewrite sort_strings_perm, elem_of_dedup_go. assert ((t, k) ∉ P) by (intros ?%Hs; done).
      assert (t ∉ Q ds k) by (rewrite Hq; tauto). destruct (decide (k ∈ keys)); set_solver.
    + destruct (decide (k ∈ keys)); rewrite ?elem_of_app, ?list_elem_of_singleton, Hq; unfold executed; naive_solver.
  - eapply core_inv; [exact Hi|by eapply PopReady_inv, Hne; [apply Hi|]..].
  - eapply core_inv; [exact Hi|by eapply PopPruneReady_inv, Hne; [apply Hi|]..].
  - pose proof (ri_sched _ Hi) as Hi'. apply (inv_perm _ _ (t :: R1 ++ R2)) in Hi'; [|symmetry; apply Permutation_middle].
    eapply core_inv; [exact Hi|by apply PushReady_inv|done].
  - by eapply finish_inv.
  - by eapply finish_inv.
  - by apply prune_inv.
Qed.

Lemma reachable_inv r : reachable r -> run_inv r.
Proof.
  unfold reachable. intros H. pose proof initial_inv as H0. revert H0. induction H as [|x y z Hxy _ IH]; [done|].
  intros Hx. apply IH. by eapply step_inv.
Qed.

(** ** What the history determines *)
Lemma sublist_filter_eq {A} (P : A -> Prop) `{!forall x, Decision (P x)} (l order : list A) :
  sublist l order -> NoDup order -> (forall x, x ∈ l <-> x ∈ order /\ P x) -> l = filter P order.
Proof.
  induction 1 as [|x l order Hs IH|x l order Hs IH]; intros Hnd Hel.
  - done.
  - apply NoDup_cons in Hnd as [Hx Hnd]. rewrite filter_cons, decide_True by (apply Hel; left).
    f_equal. apply IH; [done|]. assert (x ∉ l) by (intros Hl; apply Hx; by eapply elem_of_sublist).
    intros y. specialize (Hel y). rewrite !elem_of_cons in Hel. split; [|set_solver].
    intros Hy. assert (y <> x) by congruence. tauto.
  - apply NoDup_cons in Hnd as [Hx Hnd]. assert (~ P x) as Hp.
    { intros Hp. apply Hx. eapply elem_of_sublist; [|exact Hs]. apply Hel. split; [left|done]. }
    rewrite filter_cons, decide_False by done. apply IH; [done|]. intros y. rewrite Hel, elem_of_cons. naive_solver.
Qed.

Lemma run_queue r k : run_inv r -> Q (sched r) k = claimants r k.
Proof.
  intros Hi. apply sublist_filter_eq; [|apply (ss_nodup _ _ (si_static _ _ _ (ri_sched _ Hi)))|apply Hi].
  apply (ss_sub _ _ (si_static _ _ _ (ri_sched _ Hi))).
Qed.

(** The keys for which [t] waits: an earlier claimant is still pending. *)
Definition waits (r : run) (t k : string) : bool := bool_decide (t ∈ tail (claimants r k)).

Lemma tail_blocked (l : list string) t :
  NoDup l -> bool_decide (t ∈ tail l) = bool_decide (t ∈ l) && negb (bool_decide (head l = Some t)).
Proof.
  intros Hnd. destruct l as [|u l]; cbn [tail head]; [by rewrite bool_decide_eq_false_2 by apply not_elem_of_nil|].
  apply NoDup_cons in Hnd as [Hu _]. destruct (decide (u = t)) as [->|Hne].
  - rewrite (bool_decide_eq_false_2 (t ∈ l)), (bool_decide_eq_true_2 (Some t = Some t)), andb_false_r by done. done.
  - rewrite (bool_decide_eq_false_2 (Some u = Some t)), andb_true_r by congruence. apply bool_decide_ext. set_solver.
Qed.

Lemma run_blocked r t k : run_inv r -> blocked (sched r) t k = waits r t k.
Proof.
  intros Hi. unfold blocked, waits. rewrite (run_queue _ _ Hi). symmetry. apply tail_blocked.
  rewrite <- run_queue by done. eapply Q_nodup, Hi.
Qed.

(** C2: refinement of the scheduler by its history: after any run, each queue
    is exactly the list of pending claimants of its key in order of arrival;
    the ready count of a pending transaction is the number of its keys for
    which an earlier claimant is pending; and the transactions offered to the
    workers, each of them once, are exactly the pending ones that wait for no key. *)
Theorem Depurge_refines_history r :
  reachable r ->
  (forall k, from_option contents [] (keyQueues (sched r) !! k) = claimants r k) /\
  (forall t, t ∈ arrived r -> IsExecuted (sched r) t = false ->
     GetReadyCount (sched r) t = Z.of_nat (countb (waits r t) (GetConservativeKeys (sched r) t))) /\
  NoDup (runnable r) /\
  (forall t, t ∈ runnable r <->
     t ∈ arrived r /\ IsExecuted (sched r) t = false /\ forall k, k ∈ GetConservativeKeys (sched r) t -> waits r t k = false).
Proof.
  intros Hi%reachable_inv. pose proof (ri_sched _ Hi) as Hs.
  assert (forall t, t ∈ arrived r -> IsExecuted (sched r) t = false ->
     GetReadyCount (sched r) t = Z.of_nat (countb (waits r t) (GetConservativeKeys (sched r) t))) as Hc.
  { intros t Ht Hx. unfold GetReadyCount. rewrite (si_count _ _ _ Hs) by done. unfold blockers. f_equal.
    apply countb_ext. intros k _. by apply run_blocked. }
  split; [intros k; by apply (run_queue r k)|]. split; [exact Hc|]. split; [apply (sl_nodup _ _ _ _ (si_lists _ _ _ Hs))|].
  intros t. unfold runnable. rewrite (sl_elem _ _ _ _ (si_lists _ _ _ Hs)). split.
  - intros (Ho & _ & Hx & Hz). split; [done|]. split; [done|]. apply countb_zero. specialize (Hc t Ho Hx).
    unfold GetReadyCount in Hc. lia.
  - intros (Ho & Hx & Hw). split; [done|]. split; [apply not_elem_of_nil|]. split; [done|].
    specialize (Hc t Ho Hx). unfold GetReadyCount in Hc. rewrite Hc, countb_false by done. done.
Qed.

Lemma sublist_positions {A} (x y : A) l order :
  sublist (x :: l) order -> y ∈ l -> exists i j, order !! i = Some x /\ order !! j = Some y /\ i < j.
Proof.
  remember (x :: l) as xl eqn:E. intros Hs. revert E. induction Hs as [|z l' order Hs IH|z l' order Hs IH]; intros E Hy.
  - done.
  - injection E as -> ->. assert (y ∈ order) as Hyo by (by eapply elem_of_sublist). apply list_elem_of_lookup in Hyo as [j Hj].
    exists 0, (S j). split; [done|]. split; [done|lia].
  - destruct (IH E Hy) as (i & j & Hi & Hj & Hij). exists (S i), (S j). split; [done|]. split; [done|lia].
Qed.

(** Of the pending claimants of a key only the earliest can be runnable. *)
Lemma run_in_order r k t u :
  run_inv r -> t ∈ runnable r -> claims r k t -> u ∈ arrived r -> claims r k u -> u <> t ->
  u ∉ runnable r /\ exists i j, arrived r !! i = Some t /\ arrived r !! j = Some u /\ i < j.
Proof.
  intros Hi Ht Hct Hu Hcu Hne. pose proof (ri_sched _ Hi) as Hs.
  assert (t ∈ arrived r) as Hto by (by apply (sl_elem _ _ _ _ (si_lists _ _ _ Hs)) in Ht as (? & _)).
  assert (head (Q (sched r) k) = Some t) as Hh by (eapply inv_front; [exact Hs|exact Ht|by apply Hi]).
  assert (u ∈ Q (sched r) k) as HuQ by (by apply Hi). split.
  - intros Hur. pose proof (inv_front _ _ _ _ k Hs Hur HuQ). congruence.
  - pose proof (ss_sub _ _ (si_static _ _ _ Hs) k) as Hsub. destruct (Q (sched r) k) as [|v l]; [done|].
    injection Hh as ->. apply (sublist_positions t u l); [done|]. set_solver.
Qed.

(** C26: conflicting transactions run one at a time and in order of arrival:
    of all pending transactions that claim a key, the only one a worker can
    hold or pop is the one that arrived first. *)
Theorem Depurge_in_order r k t u :
  reachable r -> t ∈ runnable r -> claims r k t -> u ∈ arrived r -> claims r k u -> u <> t ->
  u ∉ runnable r /\ exists i j, arrived r !! i = Some t /\ arrived r !! j = Some u /\ i < j.
Proof. intros Hi%reachable_inv. by apply run_in_order. Qed.

Lemma filter_first {A} (P : A -> Prop) `{!forall x, Decision (P x)} (l : list A) x :
  x ∈ l -> P x -> exists y l', filter P l = y :: l'.
Proof.
  intros Hx Hp. assert (x ∈ filter P l) as Hin by (by apply list_elem_of_filter).
  destruct (filter P l) as [|y l']; [by apply not_elem_of_nil in Hin|]. eauto.
Qed.

(** The pending transaction that arrived first waits for nobody. *)
Lemma first_pending_runnable r u l :
  run_inv r -> filter (fun t => IsExecuted (sched r) t = false) (arrived r) = u :: l -> u ∈ runnable r.
Proof.
  intros Hi Hf. pose proof (ri_sched _ Hi) as Hs.
  assert (u ∈ arrived r /\ IsExecuted (sched r) u = false) as [Ho Hx].
  { assert (u ∈ u :: l) as Hu by left. rewrite <- Hf in Hu. apply list_elem_of_filter in Hu. tauto. }
  apply (sl_elem _ _ _ _ (si_lists _ _ _ Hs)). split; [done|]. split; [apply not_elem_of_nil|]. split; [done|].
  rewrite (si_count _ _ _ Hs) by done. unfold blockers. rewrite countb_false; [done|]. intros k _.
  rewrite run_blocked by done. unfold waits. apply bool_decide_eq_false_2.
  assert (claimants r k = filter (claims r k) (u :: l)) as ->.
  { rewrite <- Hf. unfold claimants. rewrite list_filter_filter. apply list_filter_iff. intros t. unfold claims. tauto. }
  assert (NoDup (u :: l)) as Hnd by (rewrite <- Hf; apply NoDup_filter, (ss_nodup _ _ (si_static _ _ _ Hs))).
  apply NoDup_cons in Hnd as [Hu _]. rewrite filter_cons. destruct (decide (claims r k u)); cbn [tail].
  - rewrite list_elem_of_filter. tauto.
  - intros Hin. assert (u ∈ filter (claims r k) l) as H by (by destruct (filter _ l); [|right]).
    apply list_elem_of_filter in H. tauto.
Qed.

(** C27: the scheduler never stalls: while a transaction is pending, some
    transaction is in a ready list or with a worker; and every operation a
    worker issues on a transaction it holds returns, none panics. *)
Theorem Depurge_progress r :
  reachable r ->
  (forall t, t ∈ arrived r -> IsExecuted (sched r) t = false -> exists u, u ∈ runnable r) /\
  (forall t, t ∈ working r -> is_Ret (Execute (sched r) t) /\ is_Ret (Abort (sched r) t) /\
     forall real, is_Ret (Prune (sched r) t real)).
Proof.
  intros Hi%reachable_inv. split.
  - intros t Ht Hx. destruct (filter_first (fun t => IsExecuted (sched r) t = false) _ t Ht Hx) as (u & l & Hf).
    exists u. by eapply first_pending_runnable.
  - intros t (R1 & R2 & HR)%list_elem_of_split. pose proof (ri_sched _ Hi) as Hs. rewrite HR in Hs.
    apply (inv_perm _ _ (t :: R1 ++ R2)) in Hs; [|symmetry; apply Permutation_middle].
    destruct (finish_spec _ _ _ _ true Hs) as (d1 & H1 & _), (finish_spec _ _ _ _ false Hs) as (d2 & H2 & _).
    unfold Execute, Abort. rewrite H1, H2. split; [by eexists|]. split; [by eexists|]. intros real.
    destruct (Prune_spec _ _ _ real _ Hs) as (d3 & H3 & _). rewrite H3. by eexists.
Qed.

(** A run for the witnesses: [a] and [b] arrive, a worker pops [a] and
    narrows it to the key [k], which [b] also claims. *)
Definition demo_added : DepurgeScheduler :=
  addTransaction (addTransaction NewDepurgeScheduler "a" ["l"; "k"]) "b" ["k"; "l"].
Definition demo_pruned : DepurgeScheduler :=
  match Prune (PopReady demo_added).1 "a" ["k"] with Ret ds => ds | _ => demo_added end.
Definition demo_run : run := mkRun ["a"; "b"] ["a"] [("a", "l")] demo_pruned.

Lemma demo_reachable : reachable demo_run.
Proof.
  eapply rtc_l; [apply (step_add [] [] [] _ "a" ["l"; "k"]); [set_solver|done]|].
  eapply rtc_l; [apply (step_add ["a"] [] [] _ "b" ["k"; "l"]); [set_solver|done]|].
  eapply rtc_l; [apply (step_pop _ _ _ _ (PopReady demo_added).1 "a"); [vm_compute; reflexivity|done]|].
  apply rtc_once. set (ds := (PopReady demo_added).1).
  replace demo_run with (mkRun ["a"; "b"] ([] ++ ["a"]) (((fun k => ("a", k)) <$> filter (fun k => k ∉ ["k"]) (keys_of ds "a")) ++ [])
    demo_pruned) by (vm_compute; reflexivity).
  apply (step_prune ["a"; "b"] [] [] [] ds demo_pruned "a" ["k"]). vm_compute. reflexivity.
Qed.

Lemma Depurge_refines_history_witness :
  NoDup (runnable demo_run) /\ claimants demo_run "k" = ["a"; "b"] /\ claimants demo_run "l" = ["b"].
Proof.
  destruct (Depurge_refines_history demo_run demo_reachable) as (_ & _ & H & _).
  split; [exact H|]. split; vm_compute; reflexivity.
Defined.

Lemma Depurge_in_order_witness : "b" ∉ runnable demo_run.
Proof.
  assert (forall t, t ∈ ["a"; "b"] -> claims demo_run "k" t) as Hc.
  { intros t Ht. assert (bool_decide (Forall (claims demo_run "k") ["a"; "b"]) = true) as H by (vm_compute; reflexivity).
    apply bool_decide_eq_true in H. rewrite Forall_forall in H. by apply H. }
  apply (Depurge_in_order demo_run "k" "a" "b" demo_reachable).
  - unfold runnable. rewrite !elem_of_app. right. right. change (working demo_run) with ["a"]. left.
  - apply Hc. left.
  - change (arrived demo_run) with ["a"; "b"]. right. left.
  - apply Hc. right. left.
  - discriminate.
Defined.

Lemma Depurge_progress_witness : (exists u, u ∈ runnable demo_run) /\ is_Ret (Execute (sched demo_run) "a").
Proof.
  destruct (Depurge_progress demo_run demo_reachable) as [H1 H2]. split.
  - apply (H1 "b"); [change (arrived demo_run) with ["a"; "b"]; right; left|vm_compute; reflexivity].
  - assert ("a" ∈ working demo_run) as Ha by (change (working demo_run) with ["a"]; left).
    exact (proj1 (H2 "a" Ha)).
Defined.
