(* ===== verification/DepurgeSchedule.v ===== *)
(** * The level schedules of [core/Depurge.go]: [schedule], [buildLevels] *)
From stdpp Require Import base list list_numbers gmap strings sorting relations.
From Stdlib Require Import ZArith Lia.
From S2P Require Import Prelude RWSet Depurge DepurgeInv DepurgeRuns.

Set Default Goal Selector "!".
Local Open Scope string_scope.
Local Open Scope list_scope.

(** ** What [Execute] leaves alone *)
Definition grows (ds ds' : DepurgeScheduler) : Prop :=
  txKeyMap ds' = txKeyMap ds /\ pruneReadyQueue ds' = pruneReadyQueue ds /\
  exists new, readyQueue ds' = readyQueue ds ++ new.

#[global] Instance grows_po : PreOrder grows.
Proof.
  split.
  - intros ds. split; [done|]. split; [done|]. exists []. by rewrite app_nil_r.
  - intros d1 d2 d3 (E1 & E2 & n1 & E3) (F1 & F2 & n2 & F3). split; [congruence|]. split; [congruence|].
    exists (n1 ++ n2). by rewrite F3, E3, app_assoc.
Qed.

Lemma release_grows ds t : grows ds (release true ds t).
Proof.
  unfold release. destruct (_ || _); [reflexivity|]. destruct (_ && _).
  - split; [done|]. split; [done|]. by exists [t].
  - split; [done|]. split; [done|]. exists []. by rewrite app_nil_r.
Qed.

Lemma Execute_grows ds t ds' : Execute ds t = Ret ds' -> grows ds ds'.
Proof.
  unfold Execute, finish. destruct (flag _ _); [intros [= <-]; reflexivity|].
  apply (foldM_preserves _ (grows ds)); [|split; [done|split; [done|exists []; by rewrite app_nil_r]]].
  intros s k s' Hg. unfold finish_key. destruct (queue_of s k) as [q| |]; [|done|done]. rewrite bind_ret.
  destruct (decide (front q = t)); [|by intros [= <-]]. destruct (pop q) as [q' v]. intros [= <-].
  etrans; [exact Hg|]. etrans; [|apply release_grows]. split; [done|]. split; [done|]. exists []. by rewrite app_nil_r.
Qed.

(** ** One level *)

(** The scheduler between two transactions of a level: nobody is working, and
    only [Execute] retires transactions. *)
Record level_inv (o : list string) (P : list (string * string)) (ds ds' : DepurgeScheduler) (finished : list string) : Prop := {
  li_run : run_inv (mkRun o [] P ds');
  li_keys : forall u, keys_of ds' u = keys_of ds u;
  li_map : txKeyMap ds' = txKeyMap ds;
  li_prune : pruneReadyQueue ds' = [];
  li_executed : forall u, executed ds' u = bool_decide (u ∈ finished) || executed ds u }.

Lemma level_step o P ds ds1 finished t rest :
  level_inv o P ds ds1 finished -> readyQueue ds1 = t :: rest ->
  t ∈ o /\ executed ds1 t = false /\
  exists ds2, Execute (PopReady ds1).1 t = Ret ds2 /\ level_inv o P ds ds2 (finished ++ [t]) /\
    exists new, readyQueue ds2 = rest ++ new.
Proof.
  intros [Hi HK HM HP HE] Hr.
  assert (t ∈ o /\ executed ds1 t = false) as [Ho Hx].
  { assert (t ∈ readyQueue ds1 ++ pruneReadyQueue ds1 ++ []) as Ht by (rewrite Hr; set_solver).
    apply (sl_elem _ _ _ _ (si_lists _ _ _ (ri_sched _ Hi))) in Ht. tauto. }
  split; [done|]. split; [done|].
  assert (t <> EmptyString) as Hne by (intros ->; by apply (ss_nonempty _ _ (si_static _ _ _ (ri_sched _ Hi)))).
  assert (PopReady ds1 = ((PopReady ds1).1, t)) as Hpop by (unfold PopReady; by rewrite Hr).
  pose proof (step_inv _ _ Hi (step_pop _ _ _ _ _ _ Hpop Hne)) as Hi1.
  destruct (finish_spec _ _ _ _ true (ri_sched _ Hi1)) as (ds2 & Hf & _ & HQ2 & HK2 & HE2). cbn [sched] in *.
  exists ds2. split; [exact Hf|].
  pose proof (Execute_grows _ _ _ Hf) as (G1 & G2 & new & G3). unfold PopReady in G1, G2, G3, HK2, HE2. rewrite Hr in G1, G2, G3, HK2, HE2.
  cbn [fst txKeyMap pruneReadyQueue readyQueue] in G1, G2, G3. split; [split|by exists new].
  - apply (step_inv _ _ Hi1 (step_execute o [] [] P _ _ _ Hf)).
  - intros u. rewrite HK2. apply HK.
  - congruence.
  - congruence.
  - intros u. rewrite HE2. etrans; [apply (f_equal (orb _)), HE|]. rewrite orb_assoc. f_equal.
    rewrite (bool_decide_ext (u ∈ finished ++ [t]) (u = t \/ u ∈ finished)) by set_solver. by rewrite bool_decide_or.
Qed.

Lemma run_level_spec o P ds l : forall ds1 finished level new,
  level_inv o P ds ds1 finished -> readyQueue ds1 = l ++ new ->
  exists ds2, run_level (length l) ds1 level = Ret (ds2, level ++ l) /\ level_inv o P ds ds2 (finished ++ l) /\
    exists new', readyQueue ds2 = new ++ new'.
Proof.
  induction l as [|t l IH]; intros ds1 finished level new Hi Hr; cbn [length run_level].
  - exists ds1. rewrite !app_nil_r. split; [done|]. split; [done|]. exists []. by rewrite app_nil_r.
  - rewrite Hr. cbn [app]. destruct (level_step _ _ _ _ _ _ _ Hi Hr) as (_ & _ & ds2 & He & Hi2 & n2 & Hr2).
    rewrite He, bind_ret. rewrite <- app_assoc in Hr2.
    destruct (IH ds2 (finished ++ [t]) (level ++ [t]) (new ++ n2) Hi2 Hr2) as (ds3 & Hl & Hi3 & n3 & Hr3).
    exists ds3. rewrite Hl, <- !app_assoc. rewrite <- app_assoc in Hi3. split; [done|]. split; [done|].
    exists (n2 ++ n3). by rewrite Hr3, app_assoc.
Qed.

(** ** All levels *)
Definition earlier (o : list string) (t u : string) : Prop := exists i j, o !! i = Some t /\ o !! j = Some u /\ i < j.

Lemma earlier_asym o t u : NoDup o -> earlier o t u -> earlier o u t -> False.
Proof.
  intros Hnd (i & j & Hi & Hj & Hij) (i' & j' & Hi' & Hj' & Hij').
  rewrite (NoDup_lookup _ _ _ _ Hnd Hi Hj') in *. rewrite (NoDup_lookup _ _ _ _ Hnd Hj Hi') in *. lia.
Qed.

Definition pending (o : list string) (ds : DepurgeScheduler) : list string := filter (fun t => executed ds t = false) o.

(** A transaction is placed after every earlier one it shares a key with. *)
Definition levels_ordered (r : run) (levels : list (list string)) : Prop :=
  forall A L B k t u, levels = A ++ L :: B -> u ∈ L -> t ∈ arrived r -> claims r k t -> claims r k u ->
    earlier (arrived r) t u -> t ∈ concat A.

Lemma level_inv_refl o P ds : run_inv (mkRun o [] P ds) -> pruneReadyQueue ds = [] -> level_inv o P ds ds [].
Proof.
  intros Hi Hp. by split.
Qed.

Lemma level_pending o P ds ds' l :
  level_inv o P ds ds' l -> NoDup l -> (forall t, t ∈ l -> t ∈ o /\ executed ds t = false) ->
  pending o ds ≡ₚ l ++ pending o ds'.
Proof.
  intros Hi Hnd Hl. pose proof (ss_nodup _ _ (si_static _ _ _ (ri_sched _ (li_run _ _ _ _ _ Hi)))) as Ho. cbn in Ho.
  apply NoDup_Permutation; [by apply NoDup_filter| |].
  - apply NoDup_app. split; [done|]. split; [|by apply NoDup_filter]. intros t Ht (Hx & _)%list_elem_of_filter.
    rewrite (li_executed _ _ _ _ _ Hi), bool_decide_eq_true_2 in Hx by done. done.
  - intros t. unfold pending. rewrite elem_of_app, !list_elem_of_filter, (li_executed _ _ _ _ _ Hi), orb_false_iff, bool_decide_eq_false.
    specialize (Hl t). destruct (decide (t ∈ l)); tauto.
Qed.

Lemma ready_facts o P ds t :
  run_inv (mkRun o [] P ds) -> t ∈ readyQueue ds -> t ∈ o /\ executed ds t = false /\ t ∈ runnable (mkRun o [] P ds).
Proof.
  intros Hi Ht. assert (t ∈ runnable (mkRun o [] P ds)) as Hr by (unfold runnable; cbn; set_solver).
  split_and!; [..|done]; by apply (sl_elem _ _ _ _ (si_lists _ _ _ (ri_sched _ Hi))) in Hr as (? & _ & ? & _).
Qed.

(** When no transaction is ready, none is pending. *)
Lemma idle_finished o P ds :
  run_inv (mkRun o [] P ds) -> readyQueue ds = [] -> pruneReadyQueue ds = [] -> pending o ds = [].
Proof.
  intros Hi Hr Hp. destruct (pending o ds) as [|u l] eqn:E; [done|].
  pose proof (first_pending_runnable _ _ _ Hi E) as Hu. unfold runnable in Hu. cbn in Hu. rewrite Hr, Hp in Hu.
  by apply not_elem_of_nil in Hu.
Qed.

Lemma levels_ordered_cons o P ds ds1 levels :
  level_inv o P ds ds1 (readyQueue ds) -> run_inv (mkRun o [] P ds) -> (forall u, u ∈ concat levels -> u ∈ pending o ds1) ->
  levels_ordered (mkRun o [] P ds1) levels -> levels_ordered (mkRun o [] P ds) (sort_strings (readyQueue ds) :: levels).
Proof.
  intros Hl Hi Hpend Hord A L B k t u HL Hu Ht Hct Hcu He. cbn [arrived] in *.
  destruct A as [|L0 A]; cbn [app] in HL; injection HL as HL0 HL.
  - subst L. rewrite sort_strings_perm in Hu. destruct (ready_facts _ _ _ _ Hi Hu) as (Huo & _ & Hur).
    pose proof (ss_nodup _ _ (si_static _ _ _ (ri_sched _ Hi))) as Hnd. cbn in Hnd.
    assert (t <> u) as Hne.
    { intros ->. by apply (earlier_asym o u u). }
    destruct (run_in_order _ k u t Hi Hur Hcu Ht Hct Hne) as [_ He']. by destruct (earlier_asym o t u).
  - subst L0. cbn [concat]. rewrite elem_of_app, sort_strings_perm. destruct (decide (t ∈ readyQueue ds)) as [|Hnt]; [by left|].
    right. assert (u ∈ pending o ds1) as Hup.
    { apply Hpend. rewrite HL, concat_app. cbn [concat]. set_solver. }
    apply list_elem_of_filter in Hup as [Hux _].
    assert (forall v, executed ds1 v = false -> claims (mkRun o [] P ds) k v -> claims (mkRun o [] P ds1) k v) as Hcl.
    { intros v Hx (_ & Hk & Hs). split; [exact Hx|]. split; [|done]. unfold GetConservativeKeys in *. cbn in *.
      by rewrite (li_keys _ _ _ _ _ Hl). }
    apply (Hord A L B k t u HL Hu Ht); [|by apply Hcl|done]. apply Hcl; [|done].
    rewrite (li_executed _ _ _ _ _ Hl), bool_decide_eq_false_2 by done. apply Hct.
Qed.

Lemma schedule_loop_spec o P n : forall fuel ds levels,
  run_inv (mkRun o [] P ds) -> pruneReadyQueue ds = [] -> length (pending o ds) <= n -> n < fuel ->
  exists ds' levels', schedule_loop fuel ds levels = Ret (ds', levels ++ levels') /\
    run_inv (mkRun o [] P ds') /\ pending o ds' = [] /\ concat levels' ≡ₚ pending o ds /\
    levels_ordered (mkRun o [] P ds) levels'.
Proof.
  induction n as [n IH] using lt_wf_ind. intros fuel ds levels Hi Hp Hn Hfuel. destruct fuel as [|fuel]; [lia|].
  cbn [schedule_loop]. destruct (decide (length (readyQueue ds) = 0)) as [Hz|Hz].
  { apply length_zero_iff_nil in Hz. pose proof (idle_finished _ _ _ Hi Hz Hp) as He. exists ds, [].
    rewrite app_nil_r, He. split; [done|]. split; [done|]. split; [done|]. split; [done|]. intros A L B ? ? ? HL.
    by destruct A. }
  destruct (run_level_spec o P ds (readyQueue ds) ds [] [] [] (level_inv_refl _ _ _ Hi Hp)) as (ds1 & Hr & Hl & _).
  { by rewrite app_nil_r. }
  cbn [app] in Hr, Hl. rewrite Hr, bind_ret.
  assert (pending o ds ≡ₚ readyQueue ds ++ pending o ds1) as Hpd.
  { apply (level_pending o P); [done| |].
    - pose proof (sl_nodup _ _ _ _ (si_lists _ _ _ (ri_sched _ Hi))) as Hnd. by apply NoDup_app in Hnd as [? _].
    - intros t Ht. destruct (ready_facts _ _ _ _ Hi Ht) as (? & ? & _). done. }
  pose proof (Permutation_length Hpd) as Hlen. rewrite length_app in Hlen.
  destruct (IH (length (pending o ds1)) ltac:(lia) fuel ds1 (levels ++ [sort_strings (readyQueue ds)]))
    as (ds2 & levels' & He & Hi2 & Hz2 & Hc & Hord); [apply Hl|apply Hl|lia|lia|].
  exists ds2, (sort_strings (readyQueue ds) :: levels'). rewrite He, <- app_assoc. split; [done|].
  split; [done|]. split; [done|]. split.
  - cbn [concat]. rewrite sort_strings_perm, Hc. by rewrite Hpd.
  - apply (levels_ordered_cons o P ds ds1); [done|done| |done]. intros u. by rewrite Hc.
Qed.

(** ** The fuel of [schedule] *)
Lemma release_keys b ds t : txKeyMap (release b ds t) = txKeyMap ds.
Proof. unfold release. destruct b; repeat case_match; done. Qed.

Lemma finish_keys b ds t ds' : finish b ds t = Ret ds' -> txKeyMap ds' = txKeyMap ds.
Proof.
  unfold finish. destruct (flag _ _); [by intros [= <-]|].
  apply (foldM_preserves _ (fun s => txKeyMap s = txKeyMap ds)); [|done].
  intros s k s' Hg. unfold finish_key. destruct (queue_of s k) as [q| |]; [|done|done]. rewrite bind_ret.
  destruct (decide (front q = t)); [|by intros [= <-]]. destruct (pop q) as [q' v]. intros [= <-]. by rewrite release_keys.
Qed.

Lemma prune_keys ds t real ds' : Prune ds t real = Ret ds' -> txKeyMap ds' = txKeyMap ds.
Proof.
  unfold Prune. apply (foldM_preserves _ (fun s => txKeyMap s = txKeyMap ds)); [|done].
  intros s k s' Hg. unfold prune_key. destruct (bool_decide (k ∈ real)); [by intros [= <-]|].
  destruct (queue_of s k) as [q| |]; [|done|done]. rewrite bind_ret. destruct (contains q t); [|by intros [= <-]].
  destruct (remove q t) as [q' v]. intros [= <-]. destruct (bool_decide _); [by rewrite release_keys|done].
Qed.

Lemma addTransaction_keys ds t keys :
  txKeyMap (addTransaction ds t keys) = <[t := sort_strings (dedup_go ∅ keys)]> (txKeyMap ds).
Proof.
  assert (forall ks ds, txKeyMap (foldl (add_key t) ds ks) = txKeyMap ds) as H.
  { induction ks as [|k ks IH]; intros d; [done|]. cbn [foldl]. rewrite IH. unfold add_key. by destruct (decide _). }
  unfold addTransaction. destruct (decide _); cbn [txKeyMap PushReady]; by rewrite H.
Qed.

Lemma reachable_registered r : reachable r -> forall t, t ∈ arrived r -> t ∈ dom (txKeyMap (sched r)).
Proof.
  unfold reachable. assert (forall t, t ∈ arrived initial -> t ∈ dom (txKeyMap (sched initial))) as H0.
  { intros t Ht. by apply not_elem_of_nil in Ht. }
  intros H. revert H0. induction H as [|x y z Hxy _ IH]; [done|]. intros Hx. apply IH. clear IH.
  destruct Hxy as [o R P ds t keys|o R P ds ds' t Hp|o R P ds ds' t Hp| |? ? ? ? ? ? ? He|? ? ? ? ? ? ? He|? ? ? ? ? ? ? ? He];
    cbn in *.
  - intros u. rewrite addTransaction_keys, dom_insert. set_solver.
  - unfold PopReady in Hp. destruct (readyQueue ds); injection Hp as <- <-; done.
  - unfold PopPruneReady in Hp. destruct (pruneReadyQueue ds); injection Hp as <- <-; done.
  - done.
  - by rewrite (finish_keys _ _ _ _ He).
  - by rewrite (finish_keys _ _ _ _ He).
  - by rewrite (prune_keys _ _ _ _ He).
Qed.

Lemma NoDup_length_size {A} (l : list string) (m : gmap string A) : NoDup l -> (forall t, t ∈ l -> t ∈ dom m) -> length l <= size m.
Proof.
  intros Hnd Hl. rewrite <- size_dom. etrans; [|apply subseteq_size; transitivity (list_to_set (C := gset string) l)].
  - rewrite size_list_to_set by done. done.
  - done.
  - intros t. rewrite elem_of_list_to_set. apply Hl.
Qed.

(** C25: [schedule] empties the scheduler: from any reachable state in which
    no worker holds a transaction and none is waiting after a prune, it
    returns; every pending transaction is executed in exactly one level; and a
    transaction is in a later level than every earlier one it shares a key with. *)
Theorem schedule_correct r :
  reachable r -> working r = [] -> pruneReadyQueue (sched r) = [] ->
  exists ds levels, schedule (sched r) = Ret (ds, levels) /\
    (forall t, t ∈ arrived r -> IsExecuted ds t = true) /\
    concat levels ≡ₚ filter (fun t => IsExecuted (sched r) t = false) (arrived r) /\
    levels_ordered r levels.
Proof.
  intros Hr HR HP. pose proof (reachable_inv _ Hr) as Hi. pose proof (reachable_registered _ Hr) as Hd.
  destruct r as [o R P ds]. cbn in HR, HP, Hd. subst R. pose proof (ss_nodup _ _ (si_static _ _ _ (ri_sched _ Hi))) as Hnd. cbn in Hnd.
  pose proof (NoDup_length_size _ _ Hnd Hd) as Hsize.
  assert (length (pending o ds) <= length o) as Hle by apply length_filter.
  destruct (schedule_loop_spec o P (length (pending o ds)) (S (size (txKeyMap ds))) ds [] Hi HP) as (ds' & levels & He & Hi' & Hz & Hc & Ho);
    [lia|lia|].
  exists ds', levels. split; [exact He|]. split; [|done]. intros t Ht. destruct (IsExecuted ds' t) eqn:E; [done|].
  assert (t ∈ pending o ds') as Hp by (by apply list_elem_of_filter). rewrite Hz in Hp. by apply not_elem_of_nil in Hp.
Qed.

(** ** buildLevels *)

(** The simulation of a level pass: [placed] are the transactions already in
    a level. *)
Record build_inv (o : list string) (placed : list string) (st : level_state) : Prop := {
  bi_nodup : NoDup (placed ++ tempReady st);
  bi_sub : forall t, t ∈ placed ++ tempReady st -> t ∈ o;
  bi_executed : forall t, flag (tempExecuted st) t = bool_decide (t ∈ placed);
  bi_ready : forall t, flag (inTempReady st) t = bool_decide (t ∈ tempReady st) }.

Lemma flag_insert m t b u : flag (<[t := b]> m) u = if decide (u = t) then b else flag m u.
Proof. unfold flag. destruct (decide (u = t)) as [->|]; [by rewrite lookup_insert_eq|by rewrite lookup_insert_ne]. Qed.

Lemma push_next_inv o placed t q st :
  build_inv o placed st -> (forall u, u ∈ contents q -> u ∈ o) -> build_inv o placed (push_next t q st).
Proof.
  intros Hi Hq. unfold push_next. destruct (filter _ _) as [|u l] eqn:E; [done|].
  assert (u ∈ contents q /\ flag (tempExecuted st) u = false) as [Hu Hx].
  { assert (u ∈ u :: l) as H by left. rewrite <- E in H. apply list_elem_of_filter in H. tauto. }
  destruct (flag (inTempReady st) u) eqn:Er; [by rewrite orb_true_r|]. rewrite orb_false_r.
  destruct (bool_decide (u = EmptyString)); [done|]. destruct Hi as [Hnd Hsub He Hr].
  rewrite He in Hx. rewrite Hr in Er. apply bool_decide_eq_false in Hx, Er.
  split; cbn [tempReady tempExecuted inTempReady].
  - rewrite app_assoc. apply NoDup_app. split; [done|]. split; [set_solver|apply NoDup_singleton].
  - intros v. rewrite app_assoc, elem_of_app, list_elem_of_singleton. intros [?| ->]; [by apply Hsub|by apply Hq].
  - intros v. rewrite flag_insert, He. destruct (decide (v = u)) as [->|]; [|done]. by rewrite bool_decide_eq_false_2.
  - intros v. rewrite flag_insert, Hr. destruct (decide (v = u)) as [->|].
    + symmetry. apply bool_decide_eq_true_2. set_solver.
    + apply bool_decide_ext. set_solver.
Qed.

Lemma place_inv o placed t rest ex inr :
  build_inv o placed (mkLevel (t :: rest) ex inr) ->
  build_inv o (placed ++ [t]) (mkLevel rest (<[t := true]> ex) (<[t := false]> inr)).
Proof.
  intros [Hnd Hsub He Hr]. cbn [tempReady tempExecuted inTempReady] in *.
  assert (placed ++ t :: rest = (placed ++ [t]) ++ rest) as E by (by rewrite <- app_assoc).
  split; cbn [tempReady tempExecuted inTempReady].
  - by rewrite <- E.
  - intros u. rewrite <- E. apply Hsub.
  - intros u. rewrite flag_insert, He. destruct (decide (u = t)) as [->|].
    + symmetry. apply bool_decide_eq_true_2. set_solver.
    + apply bool_decide_ext. set_solver.
  - apply NoDup_app in Hnd as (_ & _ & Hnd). apply NoDup_cons in Hnd as [Ht _].
    intros u. rewrite flag_insert, Hr. destruct (decide (u = t)) as [->|].
    + by rewrite bool_decide_eq_false_2.
    + apply bool_decide_ext. set_solver.
Qed.

Section build.
Context (o : list string) (ds : DepurgeScheduler) (Hs : sched_static o ds).

Lemma build_keys_inv placed t st :
  build_inv o placed st -> t ∈ o ->
  exists st', foldM (fun st key => queue_of ds key ≫= fun q =>
      Ret (if decide (front q = t) then push_next t q st else st)) st (keys_of ds t) = Ret st' /\ build_inv o placed st'.
Proof.
  intros Hi Ht. apply (foldM_inv _ (fun _ => build_inv o placed)); [done|]. intros pre k post s Hk Hi'.
  destruct (queue_of_eq o ds t k Hs Ht) as (q & Hq & _ & HQ & _); [rewrite Hk; set_solver|]. rewrite Hq, bind_ret.
  eexists. split; [done|]. destruct (decide (front q = t)); [|done]. apply push_next_inv; [done|].
  intros u. rewrite <- HQ. by apply Q_order.
Qed.

Lemma build_level_spec n : forall placed st level,
  build_inv o placed st ->
  exists st' l, build_level ds n st level = Ret (st', level ++ l) /\ build_inv o (placed ++ l) st' /\
    (n <> 0 -> tempReady st <> [] -> l <> []).
Proof.
  induction n as [|n IH]; intros placed st level Hi; cbn [build_level].
  - exists st, []. by rewrite !app_nil_r.
  - destruct st as [[|t rest] ex inr]; cbn [tempReady tempExecuted inTempReady].
    { eexists _, []. rewrite !app_nil_r. split; [done|]. by split. }
    assert (t ∈ o) as Ht by (apply (bi_sub _ _ _ Hi); cbn; set_solver).
    destruct (build_keys_inv _ t _ (place_inv _ _ _ _ _ _ Hi) Ht) as (st1 & Hf & Hi1). rewrite Hf, bind_ret.
    destruct (IH (placed ++ [t]) st1 (level ++ [t]) Hi1) as (st2 & l & Hb & Hi2 & _).
    exists st2, (t :: l). rewrite Hb, <- app_assoc. rewrite <- app_assoc in Hi2. done.
Qed.

Lemma build_loop_spec n : forall fuel placed st levels,
  build_inv o placed st -> length o <= n + length placed -> n < fuel ->
  exists levels', build_loop fuel ds st levels = Ret (levels ++ levels') /\
    NoDup (placed ++ concat levels') /\ forall t, t ∈ concat levels' -> t ∈ o.
Proof.
  induction n as [n IH] using lt_wf_ind. intros fuel placed st levels Hi Hn Hfuel. destruct fuel as [|fuel]; [lia|].
  cbn [build_loop]. destruct (decide (length (tempReady st) = 0)) as [Hz|Hz].
  { exists []. rewrite !app_nil_r. split; [done|]. split; [|intros t Ht; by apply not_elem_of_nil in Ht].
    pose proof (bi_nodup _ _ _ Hi) as Hnd. by apply NoDup_app in Hnd as [? _]. }
  destruct (build_level_spec (length (tempReady st)) placed st [] Hi) as (st1 & l & Hb & Hi1 & Hl).
  cbn [app] in Hb. rewrite Hb, bind_ret. specialize (Hl Hz ltac:(by intros E; rewrite E in Hz)).
  assert (length (placed ++ l) <= length o) as Hle.
  { apply (submseteq_length (placed ++ l) o), NoDup_submseteq.
    - pose proof (bi_nodup _ _ _ Hi1) as Hnd. by apply NoDup_app in Hnd as [? _].
    - intros t Ht. apply (bi_sub _ _ _ Hi1). set_solver. }
  assert (0 < length l) as Hpos by (destruct l; [done|cbn; lia]). rewrite length_app in Hle.
  destruct (IH (n - length l) ltac:(lia) fuel (placed ++ l) st1 (levels ++ [sort_strings l]) Hi1) as (ls & He & Hnd & Hsub);
    [rewrite length_app; lia|lia|].
  exists (sort_strings l :: ls). rewrite He, <- app_assoc. split; [done|]. cbn [concat]. rewrite sort_strings_perm. split.
  - by rewrite app_assoc.
  - intros t. rewrite elem_of_app, ?sort_strings_perm. intros [Ht|Ht]; [|by apply Hsub]. apply (bi_sub _ _ _ Hi1). rewrite !elem_of_app; tauto.
Qed.
End build.

Lemma load_ready_inv o l st placed :
  build_inv o placed st -> NoDup (placed ++ tempReady st ++ l) -> (forall t, t ∈ l -> t ∈ o) ->
  build_inv o placed (foldl (fun st t => mkLevel (tempReady st ++ [t]) (<[t := false]> (tempExecuted st))
    (<[t := true]> (inTempReady st))) st l).
Proof.
  revert st. induction l as [|t l IH]; intros st Hi Hnd Hl; [done|]. cbn [foldl].
  assert (NoDup (placed ++ (tempReady st ++ [t]) ++ l)) as Hnd' by (by rewrite <- app_assoc).
  apply IH; [|done|set_solver]. destruct Hi as [_ Hsub He Hr]. split; cbn [tempReady tempExecuted inTempReady].
  - rewrite app_assoc in Hnd'. by apply NoDup_app in Hnd' as [? _].
  - set_solver.
  - intros u. rewrite flag_insert, He. destruct (decide (u = t)) as [->|]; [|done]. symmetry. apply bool_decide_eq_false_2.
    apply NoDup_app in Hnd as (_ & Hd & _). intros Ht%Hd. set_solver.
  - intros u. rewrite flag_insert, Hr. destruct (decide (u = t)) as [->|].
    + symmetry. apply bool_decide_eq_true_2. set_solver.
    + apply bool_decide_ext. set_solver.
Qed.

Lemma buildLevels_returns r :
  reachable r ->
  exists levels, buildLevels (sched r) = Ret levels /\ NoDup (concat levels) /\
    (forall t, t ∈ concat levels -> t ∈ arrived r).
Proof.
  intros Hr. pose proof (ri_sched _ (reachable_inv _ Hr)) as Hi. pose proof (si_static _ _ _ Hi) as Hs.
  pose proof (NoDup_length_size _ _ (ss_nodup _ _ Hs) (reachable_registered _ Hr)) as Hsize.
  unfold buildLevels. eapply (build_loop_spec _ _ Hs (length (arrived r)) _ []); [|cbn; lia|lia].
  apply load_ready_inv.
  - split; cbn; [constructor|intros t Ht; by apply not_elem_of_nil in Ht|done|done].
  - cbn [tempReady app]. pose proof (sl_nodup _ _ _ _ (si_lists _ _ _ Hi)) as Hnd. by apply NoDup_app in Hnd as [? _].
  - intros t Ht. assert (t ∈ readyQueue (sched r) ++ pruneReadyQueue (sched r) ++ working r) as H by set_solver.
    by apply (sl_elem _ _ _ _ (si_lists _ _ _ Hi)) in H as (? & _).
Qed.

(** [buildLevels] ends on every reachable scheduler, whatever is pending,
    and no transaction appears twice in its levels. *)
Theorem buildLevels_terminates r :
  reachable r ->
  exists levels, buildLevels (sched r) = Ret levels /\ NoDup (concat levels) /\
    (forall t, t ∈ concat levels -> t ∈ arrived r).
Proof. apply buildLevels_returns. Qed.

Lemma buildLevels_terminates_witness : exists levels, buildLevels demo_pruned = Ret levels /\ NoDup (concat levels).
Proof. destruct (buildLevels_terminates demo_run demo_reachable) as (levels & H & Hnd & _). exists levels. by split. Defined.

Lemma demo_added_reachable : reachable (mkRun ["a"; "b"] [] [] demo_added).
Proof.
  eapply rtc_l; [apply (step_add [] [] [] _ "a" ["l"; "k"]); [set_solver|done]|].
  apply rtc_once, (step_add ["a"] [] [] _ "b" ["k"; "l"]); [set_solver|done].
Qed.

Lemma schedule_correct_witness :
  exists ds levels, schedule demo_added = Ret (ds, levels) /\ concat levels ≡ₚ ["a"; "b"].
Proof.
  destruct (schedule_correct (mkRun ["a"; "b"] [] [] demo_added) demo_added_reachable eq_refl ltac:(vm_compute; reflexivity))
    as (ds & levels & H & _ & Hp & _).
  exists ds, levels. split; [exact H|]. rewrite Hp. vm_compute. reflexivity.
Defined.

(** [x] is ahead of [t] on [k1]; [w] is ahead of [y] on [m] and [y] ahead of [t] on [k2]. *)
Definition two_paths : DepurgeScheduler :=
  addTransaction (addTransaction (addTransaction (addTransaction NewDepurgeScheduler "x" ["k1"]) "w" ["m"])
    "y" ["m"; "k2"]) "t" ["k1"; "k2"].

(** The levels of [buildLevels] are not a schedule.  With three
    transactions on one key the third is in no level, and with two paths into
    a transaction it shares a level with [y], with which it conflicts on the
    key [k2]; [schedule] orders both inputs correctly. *)
Theorem buildLevels_unsound :
  buildLevels three_on_one = Ret [["a"]; ["b"]] /\
  buildLevels two_paths = Ret [["w"; "x"]; ["t"; "y"]] /\
  (schedule three_on_one ≫= fun r => Ret r.2) = Ret [["a"]; ["b"]; ["c"]] /\
  (schedule two_paths ≫= fun r => Ret r.2) = Ret [["w"; "x"]; ["y"]; ["t"]].
Proof. split_and!; vm_compute; reflexivity. Qed.

(** ** Depurge_schedule *)
Lemma load_reachable l : forall o ds,
  reachable (mkRun o [] [] ds) -> NoDup (o ++ (TxID <$> l)) -> EmptyString ∉ TxID <$> l ->
  let ds' := foldl (fun ds ctx => addTransaction ds (TxID ctx) (context_keys ctx)) ds l in
  reachable (mkRun (o ++ (TxID <$> l)) [] [] ds') /\
  (forall t, t ∉ TxID <$> l -> keys_of ds' t = keys_of ds t) /\
  (forall ctx k, ctx ∈ l -> k ∈ keys_of ds' (TxID ctx) <-> k ∈ context_keys ctx).
Proof.
  induction l as [|c l IH]; intros o ds Hr Hnd Hne; cbn [foldl fmap list_fmap].
  - rewrite app_nil_r. split; [done|]. split; [done|]. intros ctx k H. by apply not_elem_of_nil in H.
  - cbn [fmap list_fmap] in Hnd, Hne. apply not_elem_of_cons in Hne as [Hc Hne].
    assert (TxID c ∉ o) as Hco by (intros H; apply NoDup_app in Hnd as (_ & Hd & _); apply (Hd _ H); left).
    assert (TxID c ∉ TxID <$> l) as Hcl.
    { apply NoDup_app in Hnd as (_ & _ & Hnd). by apply NoDup_cons in Hnd as [? _]. }
    destruct (IH (o ++ [TxID c]) (addTransaction ds (TxID c) (context_keys c))) as (Hr' & Hk & Hin).
    + eapply rtc_r; [exact Hr|]. by apply step_add.
    + by rewrite <- app_assoc.
    + done.
    + rewrite <- app_assoc in Hr'. split; [exact Hr'|]. split.
      * intros t [Ht1 Ht2]%not_elem_of_cons. rewrite Hk by done. unfold keys_of. by rewrite addTransaction_keys, lookup_insert_ne.
      * intros ctx k [->|Hctx]%elem_of_cons; [|by apply Hin]. rewrite Hk by done. unfold keys_of.
        rewrite addTransaction_keys, lookup_insert_eq. cbn [default from_option id].
        rewrite sort_strings_perm, elem_of_dedup_go. set_solver.
Qed.

Lemma sorted_ids (l : list TransactionContext) : TxID <$> merge_sort ctx_le l = sort_strings (TxID <$> l).
Proof.
  apply (Sorted_unique String.le); [|apply sort_strings_sorted|].
  - assert (Sorted ctx_le (merge_sort ctx_le l)) as Hs.
    { apply Sorted_merge_sort. intros a b. unfold ctx_le. apply String.le_total. }
    induction Hs as [|c l' Hs IH Hh]; [constructor|]. cbn. constructor; [done|].
    destruct Hh as [|d l' Hcd]; [constructor|by constructor].
  - rewrite sort_strings_perm. apply fmap_Permutation, merge_sort_Permutation.
Qed.

Lemma map_ids (contexts : gmap string TransactionContext) :
  (forall id ctx, contexts !! id = Some ctx -> TxID ctx = id) ->
  TxID <$> (map_to_list contexts).*2 ≡ₚ elements (dom contexts).
Proof.
  intros Hc. assert (TxID <$> (map_to_list contexts).*2 = (map_to_list contexts).*1) as ->.
  { rewrite <- list_fmap_compose. apply list_fmap_ext. intros i [id ctx] Hi. cbn. apply Hc, elem_of_map_to_list.
    by eapply list_elem_of_lookup_2. }
  apply NoDup_Permutation; [apply NoDup_fst_map_to_list|apply NoDup_elements|].
  intros id. rewrite elem_of_elements, elem_of_dom, list_elem_of_fmap. split.
  - intros ([id' ctx] & -> & H). apply elem_of_map_to_list in H. by exists ctx.
  - intros [ctx H]. exists (id, ctx). by rewrite elem_of_map_to_list.
Qed.

Lemma addTransaction_executed ds t keys : txExecuted (addTransaction ds t keys) = <[t := false]> (txExecuted ds).
Proof.
  assert (forall ks ds, txExecuted (foldl (add_key t) ds ks) = txExecuted ds) as H.
  { induction ks as [|k ks IH]; intros d; [done|]. cbn [foldl]. rewrite IH. unfold add_key. by destruct (decide _). }
  unfold addTransaction. destruct (decide _); cbn [txExecuted PushReady]; by rewrite H.
Qed.

Lemma load_fresh contexts t : executed (load_contexts contexts) t = false.
Proof.
  unfold load_contexts. generalize (merge_sort ctx_le (map_to_list contexts).*2) as l. intros l.
  assert (forall ds, executed ds t = false -> executed (foldl (fun ds ctx => addTransaction ds (TxID ctx) (context_keys ctx)) ds l) t = false) as H.
  { induction l as [|c l IH]; intros ds Hd; [done|]. cbn [foldl]. apply IH. unfold executed, flag in *. rewrite addTransaction_executed.
    destruct (decide (TxID c = t)) as [->|]; [by rewrite lookup_insert_eq|by rewrite lookup_insert_ne]. }
  by apply H.
Qed.

Lemma Depurge_schedule_spec contexts :
  (forall id ctx, contexts !! id = Some ctx -> TxID ctx = id /\ id <> EmptyString) ->
  exists ds levels, Depurge_schedule contexts = Ret (ds, levels) /\
    reachable (mkRun (sort_strings (elements (dom contexts))) [] [] ds) /\ (forall t, executed ds t = false) /\
    (forall id ctx k, contexts !! id = Some ctx ->
       k ∈ GetConservativeKeys ds id <-> k ∈ dom (PreReadSet ctx) ∪ dom (PreWriteSet ctx)).
Proof.
  intros Hc. set (l := merge_sort ctx_le (map_to_list contexts).*2).
  assert (TxID <$> l = sort_strings (elements (dom contexts))) as Hids.
  { unfold l. rewrite sorted_ids. apply sort_strings_proper, map_ids. intros id ctx H. by apply Hc. }
  destruct (load_reachable l [] NewDepurgeScheduler) as (Hr & _ & Hk).
  - apply rtc_refl.
  - cbn [app]. rewrite Hids, sort_strings_perm. apply NoDup_elements.
  - rewrite Hids, sort_strings_perm, elem_of_elements, elem_of_dom. intros [ctx H]. by apply Hc in H as [_ ?].
  - cbn [app] in Hr. rewrite Hids in Hr. destruct (buildLevels_returns _ Hr) as (levels & Hb & _).
    change (buildLevels (load_contexts contexts) = Ret levels) in Hb.
    exists (load_contexts contexts), levels. unfold Depurge_schedule. rewrite Hb. split; [done|]. split; [exact Hr|]. split; [apply load_fresh|]. intros id ctx k H.
    destruct (Hc id ctx H) as [<- _]. unfold GetConservativeKeys, load_contexts. fold l. rewrite Hk.
    + unfold context_keys. by rewrite sort_strings_perm, elem_of_elements.
    + unfold l. rewrite merge_sort_Permutation. apply list_elem_of_fmap. exists (TxID ctx, ctx).
      by rewrite elem_of_map_to_list.
Qed.

(** [Depurge_schedule] on contexts stored under their own non-empty
    identifiers returns; the scheduler it hands to the workers is a freshly
    loaded one in which the transactions arrived in the order of their
    identifiers, each claiming exactly the keys of its predicted read and
    write sets, whatever the iteration order of the map. *)
Theorem Depurge_schedule_loads contexts :
  (forall id ctx, contexts !! id = Some ctx -> TxID ctx = id /\ id <> EmptyString) ->
  exists ds levels, Depurge_schedule contexts = Ret (ds, levels) /\
    reachable (mkRun (sort_strings (elements (dom contexts))) [] [] ds) /\
    (forall id ctx k, contexts !! id = Some ctx ->
       k ∈ GetConservativeKeys ds id <-> k ∈ dom (PreReadSet ctx) ∪ dom (PreWriteSet ctx)).
Proof. intros Hc. destruct (Depurge_schedule_spec contexts Hc) as (ds & levels & H1 & H2 & _ & H3). eauto. Qed.

Definition demo_context (id : string) (reads writes : gmap string string) : TransactionContext :=
  mkTransactionContext id EmptyString EmptyString 0 0 reads writes ∅ EmptyString EmptyString [] [].
Definition demo_contexts : gmap string TransactionContext :=
  <["t1" := demo_context "t1" {[ "k" := "1" ]} {[ "l" := "2" ]}]> {[ "t2" := demo_context "t2" ∅ {[ "k" := "3" ]} ]}.

Lemma Depurge_schedule_loads_witness :
  exists ds levels, Depurge_schedule demo_contexts = Ret (ds, levels) /\ "l" ∈ GetConservativeKeys ds "t1".
Proof.
  destruct (Depurge_schedule_loads demo_contexts) as (ds & levels & H & _ & Hk).
  - intros id ctx. unfold demo_contexts. rewrite lookup_insert_Some, lookup_singleton_Some.
    intros [[<- <-]|[_ [<- <-]]]; done.
  - exists ds, levels. split; [exact H|]. apply (Hk "t1" (demo_context "t1" {[ "k" := "1" ]} {[ "l" := "2" ]})).
    + reflexivity.
    + cbn. set_solver.
Defined.
