(* ===== verification/ReplayDepurge.v ===== *)
(** * The Depurge replay of a block: [runReplayDepurgeMode] of [test_replay.go]

    The main loop pops ready transactions and hands each to a worker.  A
    worker takes a copy of the committed writes it may see, executes the
    transaction on it, compares the real keys with the predicted ones, and
    aborts the transaction or prunes its keys, releases its successors
    ([Execute]) and only then merges its writes.  Locks make each of these
    actions atomic, but not their sequence: a run is an interleaving of the
    steps below.

    [inProgress] is the number of transactions with a worker, the size of
    [phases]. *)
From stdpp Require Import base list list_numbers gmap sets strings sorting relations.
From Stdlib Require Import ZArith Lia.
From S2P Require Import Prelude RWSet Execution ReplayAdapter Depurge DepurgeInv DepurgeRuns DepurgeSchedule.

Set Default Goal Selector "!".
Local Open Scope string_scope.
Local Open Scope list_scope.

(** Where the worker of a transaction is: just invoked, executing on an
    overlay, validated and pruned, or past [Execute] with the merge to come. *)
Inductive phase :=
| Started
| Running (overlay : gmap string string)
| Validated (result : ReExecuteResult)
| Merging (result : ReExecuteResult).

(** [history] holds the scheduler, and the order of arrival, the popped
    transactions and the pruned keys, which only the proofs use; [commits] is
    the order of the merges. *)
Record replay := mkReplay {
  history : run; phases : gmap string phase; committedDelta : gmap string string;
  serialReplayList : list string; noContext : list string; commits : list string }.

Definition scheduler (s : replay) : DepurgeScheduler := sched (history s).
Definition inProgress (s : replay) : nat := size (phases s).

(** [filterOverlayByKeys]; a nil map and an empty one behave alike. *)
Definition filterOverlayByKeys (m : gmap string string) (allowed : list string) : gmap string string :=
  filter (fun e => e.1 ∈ allowed) m.

Definition real_keys (r : ReExecuteResult) : list string := RealReadKeys r ++ RealWriteKeys r.

Definition exceeds (conservativeKeys : list string) (r : ReExecuteResult) : bool :=
  existsb (fun k => negb (bool_decide (k ∈ conservativeKeys))) (real_keys r).

Definition pruned (conservativeKeys : list string) (r : ReExecuteResult) : nat :=
  length (filter (fun k => k ∉ real_keys r) conservativeKeys).

(** What a worker does with the scheduler. *)
Definition prune_spurious (ds : DepurgeScheduler) (txID : string) (r : ReExecuteResult) : outcome DepurgeScheduler :=
  if decide (0 < pruned (GetConservativeKeys ds txID) r) then Prune ds txID (real_keys r) else Ret ds.

(** The history of a step of the scheduler. *)
Definition popped (h : run) (t : string) (ds : DepurgeScheduler) : run := mkRun (arrived h) (t :: working h) (shed h) ds.
Definition finished (h : run) (t : string) (ds : DepurgeScheduler) : run :=
  mkRun (arrived h) (filter (fun u => u <> t) (working h)) (shed h) ds.
Definition narrowed (h : run) (t : string) (real : list string) (ds : DepurgeScheduler) : run :=
  mkRun (arrived h) (working h) (((fun k => (t, k)) <$> filter (fun k => k ∉ real) (keys_of (sched h) t)) ++ shed h) ds.

Inductive event := EPop | ENoContext | ESnapshot | EAbort | EValidate | EExecute | EMerge.

Inductive replay_step (ReExecute : executor) (txIDToIdx : gmap string nat) : replay -> event -> string -> replay -> Prop :=
| rs_pop h P delta sl nc cm ds t :
    PopReady (sched h) = (ds, t) -> t <> EmptyString ->
    replay_step ReExecute txIDToIdx (mkReplay h P delta sl nc cm) EPop t
      (mkReplay (popped h t ds) (<[t := Started]> P) delta sl nc cm)
| rs_pop_prune h P delta sl nc cm ds t :
    PopPruneReady (sched h) = (ds, t) -> t <> EmptyString ->
    replay_step ReExecute txIDToIdx (mkReplay h P delta sl nc cm) EPop t
      (mkReplay (popped h t ds) (<[t := Started]> P) delta sl nc cm)
| rs_no_context h P delta sl nc cm ds t :
    P !! t = Some Started -> txIDToIdx !! t = None -> Abort (sched h) t = Ret ds ->
    replay_step ReExecute txIDToIdx (mkReplay h P delta sl nc cm) ENoContext t
      (mkReplay (finished h t ds) (delete t P) delta sl (nc ++ [t]) cm)
| rs_snapshot h P delta sl nc cm t i :
    P !! t = Some Started -> txIDToIdx !! t = Some i ->
    replay_step ReExecute txIDToIdx (mkReplay h P delta sl nc cm) ESnapshot t
      (mkReplay h (<[t := Running (filterOverlayByKeys delta (GetConservativeKeys (sched h) t))]> P) delta sl nc cm)
| rs_error h P delta sl nc cm t i o ds :
    P !! t = Some (Running o) -> txIDToIdx !! t = Some i -> ReExecute i o = None -> Abort (sched h) t = Ret ds ->
    replay_step ReExecute txIDToIdx (mkReplay h P delta sl nc cm) EAbort t
      (mkReplay (finished h t ds) (delete t P) delta (sl ++ [t]) nc cm)
| rs_exceed h P delta sl nc cm t i o r ds :
    P !! t = Some (Running o) -> txIDToIdx !! t = Some i -> ReExecute i o = Some r ->
    exceeds (GetConservativeKeys (sched h) t) r = true -> Abort (sched h) t = Ret ds ->
    replay_step ReExecute txIDToIdx (mkReplay h P delta sl nc cm) EAbort t
      (mkReplay (finished h t ds) (delete t P) delta (sl ++ [t]) nc cm)
| rs_validate h P delta sl nc cm t i o r ds :
    P !! t = Some (Running o) -> txIDToIdx !! t = Some i -> ReExecute i o = Some r ->
    exceeds (GetConservativeKeys (sched h) t) r = false -> prune_spurious (sched h) t r = Ret ds ->
    replay_step ReExecute txIDToIdx (mkReplay h P delta sl nc cm) EValidate t
      (mkReplay (narrowed h t (real_keys r) ds) (<[t := Validated r]> P) delta sl nc cm)
| rs_execute h P delta sl nc cm t r ds :
    P !! t = Some (Validated r) -> Execute (sched h) t = Ret ds ->
    replay_step ReExecute txIDToIdx (mkReplay h P delta sl nc cm) EExecute t
      (mkReplay (finished h t ds) (<[t := Merging r]> P) delta sl nc cm)
| rs_merge h P delta sl nc cm t r :
    P !! t = Some (Merging r) ->
    replay_step ReExecute txIDToIdx (mkReplay h P delta sl nc cm) EMerge t
      (mkReplay h (delete t P) (WriteValues r ∪ delta) sl nc (cm ++ [t])).

(** The loop of [test_replay.go] leaves when it reads, in this order, no
    worker in progress and two empty queues. *)
Definition queues_empty (s : replay) : Prop :=
  GetReadyQueueLen (scheduler s) = 0 /\ GetPruneReadyQueueLen (scheduler s) = 0.

(** A freshly loaded scheduler, on the writes committed by earlier blocks. *)
Definition start_block (h : run) (delta : gmap string string) (sl : list string) : replay := mkReplay h ∅ delta sl [] [].

(** ** What the steps do to the history *)
Lemma working_facts h t : run_inv h -> t ∈ working h ->
  t ∈ arrived h /\ executed (sched h) t = false /\ t ∈ runnable h /\
  exists R1 R2, working h = R1 ++ t :: R2 /\ filter (fun u => u <> t) (working h) = R1 ++ R2.
Proof.
  intros Hi Ht. pose proof (si_lists _ _ _ (ri_sched _ Hi)) as Hl.
  assert (t ∈ runnable h) as Hr by (unfold runnable; rewrite !elem_of_app; auto).
  apply (sl_elem _ _ _ _ Hl) in Hr as Hr'. destruct Hr' as (Ho & _ & Hx & _). split_and!; try done.
  apply list_elem_of_split in Ht as (R1 & R2 & E). exists R1, R2. split; [done|].
  pose proof (sl_nodup _ _ _ _ Hl) as Hnd. rewrite E in Hnd |- *. apply NoDup_app in Hnd as (_ & _ & Hnd).
  apply NoDup_app in Hnd as (_ & _ & Hnd). rewrite <- Permutation_middle in Hnd. apply NoDup_cons in Hnd as [Hn _].
  rewrite filter_app, filter_cons_False by tauto. rewrite !filter_all_True; [done|..]; intros u Hu ->; apply Hn, elem_of_app; auto.
Qed.

Lemma pop_effect h ds t :
  run_inv h -> PopReady (sched h) = (ds, t) \/ PopPruneReady (sched h) = (ds, t) -> t <> EmptyString ->
  run_inv (popped h t ds) /\ (forall u, keys_of ds u = keys_of (sched h) u) /\ (forall u, executed ds u = executed (sched h) u) /\
  t ∉ working h /\ t ∈ arrived h /\ executed ds t = false.
Proof.
  intros Hi Hp Hne.
  assert (sched_inv (arrived h) (t :: working h) ds /\ same_core (sched h) ds) as [Hs Hc].
  { destruct Hp as [Hp|Hp]; [eapply PopReady_inv|eapply PopPruneReady_inv]; eauto; apply Hi. }
  assert (run_inv (popped h t ds)) as Hi'.
  { destruct h as [o R P d]. by apply (core_inv o R (t :: R) P d ds). }
  destruct (same_core_facts _ _ Hc) as (_ & HK & HE & _). split; [done|]. split; [done|]. split; [done|]. split.
  - pose proof (sl_nodup _ _ _ _ (si_lists _ _ _ Hs)) as Hnd. apply NoDup_app in Hnd as (_ & _ & Hnd).
    apply NoDup_app in Hnd as (_ & _ & Hnd). by apply NoDup_cons in Hnd as [? _].
  - destruct (working_facts (popped h t ds) t Hi' ltac:(left)) as (? & ? & _). done.
Qed.

Lemma finish_effect to_ready h t ds :
  run_inv h -> t ∈ working h -> finish to_ready (sched h) t = Ret ds ->
  run_inv (finished h t ds) /\ (forall u, keys_of ds u = keys_of (sched h) u) /\
  (forall u, executed ds u = bool_decide (u = t) || executed (sched h) u).
Proof.
  intros Hi Ht Hf. destruct (working_facts h t Hi Ht) as (_ & _ & _ & R1 & R2 & E & Ef).
  unfold finished. rewrite Ef. destruct h as [o R P d]. cbn in *. subst R. split; [by eapply finish_inv|].
  pose proof (ri_sched _ Hi) as Hs. cbn in Hs. apply (inv_perm _ _ (t :: R1 ++ R2)) in Hs; [|symmetry; apply Permutation_middle].
  destruct (finish_spec _ _ _ _ to_ready Hs) as (ds' & Hf' & _ & _ & HK & HE). rewrite Hf in Hf'. by injection Hf' as <-.
Qed.

Lemma prune_effect h t r ds :
  run_inv h -> t ∈ working h -> prune_spurious (sched h) t r = Ret ds ->
  run_inv (narrowed h t (real_keys r) ds) /\ (forall u, keys_of ds u = keys_of (sched h) u) /\
  (forall u, executed ds u = executed (sched h) u).
Proof.
  intros Hi Ht Hf. destruct (working_facts h t Hi Ht) as (_ & _ & _ & R1 & R2 & E & _).
  unfold prune_spurious, pruned, GetConservativeKeys in Hf. unfold narrowed. destruct h as [o R P d]. cbn in *. subst R.
  destruct (decide (0 < length (filter (fun k => k ∉ real_keys r) (keys_of d t)))) as [Hp|Hp].
  - split; [by eapply prune_inv|]. pose proof (ri_sched _ Hi) as Hs. cbn in Hs.
    apply (inv_perm _ _ (t :: R1 ++ R2)) in Hs; [|symmetry; apply Permutation_middle].
    destruct (Prune_spec _ _ _ (real_keys r) _ Hs) as (ds' & Hf' & _ & _ & HK & HE). rewrite Hf in Hf'. by injection Hf' as <-.
  - injection Hf as <-. destruct (filter (fun k => k ∉ real_keys r) (keys_of d t)); [done|cbn in Hp; lia].
Qed.

Lemma exceeds_false keys r : exceeds keys r = false <-> forall k, k ∈ real_keys r -> k ∈ keys.
Proof.
  unfold exceeds. rewrite <- not_true_iff_false, existsb_exists. split.
  - intros H k Hk. destruct (decide (k ∈ keys)) as [|Hn]; [done|]. destruct H. exists k. rewrite <- list_elem_of_In.
    split; [done|]. by rewrite bool_decide_eq_false_2.
  - intros H (k & Hk & Hn). rewrite <- list_elem_of_In in Hk. rewrite bool_decide_eq_true_2 in Hn by auto. done.
Qed.

(** ** Runs that keep snapshots and merges apart *)
Section calm.
Context (ReExecute : executor) `{!ReExecutor ReExecute} (txIDToIdx : gmap string nat).

(** No worker is between its [Execute] and its merge. *)
Definition quiet (s : replay) : Prop := forall t r, phases s !! t <> Some (Merging r).

Definition calm_step (s s' : replay) : Prop :=
  exists e t, replay_step ReExecute txIDToIdx s e t s' /\ (e = ESnapshot -> quiet s).

(** The keys a worker past its snapshot may still read or write. *)
Definition touches (s : replay) (t k : string) : Prop :=
  match phases s !! t with
  | Some (Running _) => k ∈ keys_of (scheduler s) t
  | Some (Validated r) | Some (Merging r) => k ∈ real_keys r
  | _ => False
  end.

Record rinv (delta0 : gmap string string) (s : replay) : Prop := {
  rv_run : run_inv (history s);
  rv_work : forall t, t ∈ working (history s) <-> exists p, phases s !! t = Some p /\ forall r, p <> Merging r;
  rv_shed : forall t k, (t, k) ∈ shed (history s) ->
    executed (scheduler s) t = true \/ exists r, phases s !! t = Some (Validated r) /\ k ∉ real_keys r;
  rv_running : forall t o k, phases s !! t = Some (Running o) -> k ∈ keys_of (scheduler s) t -> o !! k = committedDelta s !! k;
  rv_result : forall t r, phases s !! t = Some (Validated r) \/ phases s !! t = Some (Merging r) ->
    exists i, txIDToIdx !! t = Some i /\ ReExecute i (committedDelta s) = Some r;
  rv_valid : forall t r k, phases s !! t = Some (Validated r) -> k ∈ real_keys r -> k ∈ keys_of (scheduler s) t;
  rv_merging : forall t r u k, phases s !! t = Some (Merging r) -> u <> t -> k ∈ real_keys r -> ~ touches s u k;
  rv_executed : forall t r, phases s !! t = Some (Merging r) -> executed (scheduler s) t = true;
  rv_serial : serial ReExecute txIDToIdx delta0 (commits s) = Some (committedDelta s) }.

(** A worker that is not merging holds a claim on every key it may touch. *)
Lemma touches_claims delta0 s t k :
  rinv delta0 s -> touches s t k -> (forall r, phases s !! t <> Some (Merging r)) -> t ∈ working (history s) /\ claims (history s) k t.
Proof.
  intros Hi Ht Hm. unfold touches in Ht. destruct (phases s !! t) as [p|] eqn:Hp; [|done].
  assert (t ∈ working (history s)) as Hw.
  { apply (rv_work _ _ Hi). exists p. split; [done|]. intros r ->. by apply (Hm r). }
  split; [done|]. destruct (working_facts _ _ (rv_run _ _ Hi) Hw) as (_ & Hx & _). split; [exact Hx|].
  assert (forall r, p = Validated r -> k ∈ real_keys r) as Hr by (intros r ->; done). split.
  - destruct p; [done|done|by apply (rv_valid _ _ Hi _ _ _ Hp)|by destruct (Hm result)].
  - intros [He|(r & Hv & Hk)]%(rv_shed _ _ Hi); [unfold scheduler in He; congruence|].
    rewrite Hp in Hv. injection Hv as ->. by apply Hk, Hr.
Qed.

Lemma touches_disjoint delta0 s t u k : rinv delta0 s -> touches s t k -> touches s u k -> t = u.
Proof.
  intros Hi Ht Hu. destruct (decide (t = u)) as [|Hne]; [done|]. exfalso.
  destruct (phases s !! t) as [p|] eqn:Hp; [|by unfold touches in Ht; rewrite Hp in Ht].
  destruct (phases s !! u) as [q|] eqn:Hq; [|by unfold touches in Hu; rewrite Hq in Hu].
  assert (forall r, p <> Merging r) as Hpm.
  { intros r ->. unfold touches in Ht. rewrite Hp in Ht. by apply (rv_merging _ _ Hi t r u k). }
  assert (forall r, q <> Merging r) as Hqm.
  { intros r ->. unfold touches in Hu. rewrite Hq in Hu. by apply (rv_merging _ _ Hi u r t k). }
  destruct (touches_claims _ _ _ _ Hi Ht) as [Htw Htc]; [intros r; rewrite Hp; intros [= ->]; by apply (Hpm r)|].
  destruct (touches_claims _ _ _ _ Hi Hu) as [Huw Huc]; [intros r; rewrite Hq; intros [= ->]; by apply (Hqm r)|].
  destruct (working_facts _ _ (rv_run _ _ Hi) Htw) as (_ & _ & Htr & _).
  destruct (working_facts _ _ (rv_run _ _ Hi) Huw) as (Hua & _ & Hur & _).
  by destruct (run_in_order _ k t u (rv_run _ _ Hi) Htr Htc Hua Huc) as [Hn _].
Qed.

Lemma rinv_start delta0 h sl : run_inv h -> working h = [] -> shed h = [] -> rinv delta0 (start_block h delta0 sl).
Proof.
  intros Hi Hw Hs. split; cbn; try done.
  - intros t. rewrite Hw, elem_of_nil. split; [done|]. intros (p & Hp & _). by rewrite lookup_empty in Hp.
  - intros t k. rewrite Hs. by intros ?%elem_of_nil.
  - intros t r [H|H]; by rewrite lookup_empty in H.
Qed.

Lemma rinv_pop delta0 h P delta sl nc cm ds t :
  rinv delta0 (mkReplay h P delta sl nc cm) ->
  PopReady (sched h) = (ds, t) \/ PopPruneReady (sched h) = (ds, t) -> t <> EmptyString ->
  rinv delta0 (mkReplay (popped h t ds) (<[t := Started]> P) delta sl nc cm).
Proof.
  intros Hi Hp Hne. destruct (pop_effect h ds t (rv_run _ _ Hi) Hp Hne) as (Hr & HK & HE & Hw & Ho & Hx).
  assert (P !! t = None) as HP.
  { destruct (P !! t) as [p|] eqn:E; [|done]. destruct p as [|o|r|r]; [..|exfalso;
      pose proof (rv_executed _ _ Hi t r E) as Hex; unfold scheduler in Hex; cbn in Hex; rewrite HE in Hx; congruence].
    all: destruct Hw; apply (rv_work _ _ Hi); eexists; split; [exact E|done]. }
  assert (forall u p, <[t := Started]> P !! u = Some p -> p <> Started -> P !! u = Some p) as Hold.
  { intros u p Hu Hps. destruct (decide (t = u)) as [<-|]; [rewrite lookup_insert_eq in Hu; congruence|by rewrite lookup_insert_ne in Hu]. }
  assert (forall u k, touches (mkReplay (popped h t ds) (<[t := Started]> P) delta sl nc cm) u k ->
    touches (mkReplay h P delta sl nc cm) u k) as Ht.
  { intros u k. unfold touches. cbn. destruct (decide (t = u)) as [<-|]; [by rewrite lookup_insert_eq|].
    rewrite lookup_insert_ne by done. by rewrite HK. }
  split; cbn; try done.
  - intros u. rewrite elem_of_cons. destruct (decide (t = u)) as [<-|Hu].
    + rewrite lookup_insert_eq. split; [|auto]. intros _. by eexists.
    + rewrite lookup_insert_ne by done. rewrite <- (rv_work _ _ Hi). cbn. split; [|auto]. by intros [->|?].
  - intros u k Hs. destruct (rv_shed _ _ Hi u k Hs) as [He|(r & Hv & Hk)].
    + left. unfold scheduler in *. cbn in *. by rewrite HE.
    + right. exists r. split; [|done]. rewrite lookup_insert_ne; [done|]. intros ->. cbn in Hv. congruence.
  - intros u o k Hu%Hold; [|done]. unfold scheduler. cbn. rewrite HK. by apply (rv_running _ _ Hi).
  - intros u r [Hu|Hu]; apply (rv_result _ _ Hi u r); [left|right]; by apply Hold.
  - intros u r k Hu%Hold; [|done]. unfold scheduler. cbn. rewrite HK. by apply (rv_valid _ _ Hi).
  - intros u r v k Hu%Hold Hv Hk Htch; [|done]. by apply (rv_merging _ _ Hi u r v k Hu Hv Hk), Ht.
  - intros u r Hu%Hold; [|done]. unfold scheduler. cbn. rewrite HE. by apply (rv_executed _ _ Hi u r).
  - apply (rv_serial _ _ Hi).
Qed.

(** A worker leaves without committing. *)
Lemma rinv_abort delta0 h P delta sl nc cm ds t p sl' nc' :
  rinv delta0 (mkReplay h P delta sl nc cm) -> P !! t = Some p -> (forall r, p <> Merging r) -> Abort (sched h) t = Ret ds ->
  rinv delta0 (mkReplay (finished h t ds) (delete t P) delta sl' nc' cm).
Proof.
  intros Hi Hp Hm Ha. assert (t ∈ working h) as Hw by (apply (rv_work _ _ Hi); eauto).
  destruct (finish_effect false h t ds (rv_run _ _ Hi) Hw Ha) as (Hr & HK & HE).
  assert (forall u q, delete t P !! u = Some q -> P !! u = Some q) as Hold by (intros u q [_ ?]%lookup_delete_Some; done).
  assert (forall u k, touches (mkReplay (finished h t ds) (delete t P) delta sl' nc' cm) u k ->
    touches (mkReplay h P delta sl nc cm) u k) as Ht.
  { intros u k. unfold touches. cbn. destruct (decide (t = u)) as [<-|]; [by rewrite lookup_delete_eq|].
    rewrite lookup_delete_ne by done. by rewrite HK. }
  split; cbn; try done.
  - intros u. rewrite list_elem_of_filter. rewrite (rv_work _ _ Hi). cbn. setoid_rewrite lookup_delete_Some. naive_solver.
  - intros u k Hs. unfold scheduler. cbn. rewrite HE. destruct (decide (u = t)) as [->|Hu]; [left; by rewrite bool_decide_eq_true_2|].
    rewrite bool_decide_eq_false_2 by done. cbn. rewrite lookup_delete_ne by done. apply (rv_shed _ _ Hi u k Hs).
  - intros u o k Hu%Hold. unfold scheduler. cbn. rewrite HK. by apply (rv_running _ _ Hi).
  - intros u r [Hu|Hu]; apply (rv_result _ _ Hi u r); auto.
  - intros u r k Hu%Hold. unfold scheduler. cbn. rewrite HK. by apply (rv_valid _ _ Hi).
  - intros u r v k Hu%Hold Hv Hk Htch. by apply (rv_merging _ _ Hi u r v k Hu Hv Hk), Ht.
  - intros u r Hu%Hold. unfold scheduler. cbn. rewrite HE.
    pose proof (rv_executed _ _ Hi u r Hu) as Hex. unfold scheduler in Hex. cbn in Hex. rewrite Hex. apply orb_true_r.
  - apply (rv_serial _ _ Hi).
Qed.

Lemma rinv_snapshot delta0 h P delta sl nc cm t :
  rinv delta0 (mkReplay h P delta sl nc cm) -> quiet (mkReplay h P delta sl nc cm) -> P !! t = Some Started ->
  rinv delta0 (mkReplay h (<[t := Running (filterOverlayByKeys delta (GetConservativeKeys (sched h) t))]> P) delta sl nc cm).
Proof.
  intros Hi Hq Hp. set (o := filterOverlayByKeys _ _).
  assert (forall u p, <[t := Running o]> P !! u = Some p -> u = t /\ p = Running o \/ u <> t /\ P !! u = Some p) as Hold.
  { intros u p. destruct (decide (t = u)) as [<-|]; [rewrite lookup_insert_eq|rewrite lookup_insert_ne by done]; naive_solver. }
  split; cbn; try apply Hi; try done.
  - intros u. rewrite (rv_work _ _ Hi). cbn. destruct (decide (t = u)) as [<-|]; [|by rewrite lookup_insert_ne].
    rewrite lookup_insert_eq, Hp. split; intros (p & _ & _); eexists; (split; [reflexivity|done]).
  - intros u k Hs. destruct (rv_shed _ _ Hi u k Hs) as [?|(r & Hv & Hk)]; [auto|]. right. exists r. split; [|done].
    rewrite lookup_insert_ne; [done|]. intros ->. cbn in Hv. congruence.
  - intros u o' k [[-> [= ->]]|[_ Hu]]%Hold Hk; [|by apply (rv_running _ _ Hi u)].
    unfold o, filterOverlayByKeys, GetConservativeKeys. unfold scheduler in Hk. cbn in Hk.
    destruct (delta !! k) as [v|] eqn:Hv; [by apply map_lookup_filter_Some|]. apply map_lookup_filter_None. auto.
  - intros u r [[[_ ?]|[_ Hu]]%Hold|[[_ ?]|[_ Hu]]%Hold]; try done; apply (rv_result _ _ Hi u r); auto.
  - intros u r k [[_ ?]|[_ Hu]]%Hold; [done|]. by apply (rv_valid _ _ Hi).
  - intros u r v k [[_ ?]|[_ Hu]]%Hold; [done|]. by destruct (Hq u r).
  - intros u r [[_ ?]|[_ Hu]]%Hold; [done|]. by apply (rv_executed _ _ Hi u r).
Qed.

(** The execution does not see the writes of the others. *)
Lemma rinv_validate delta0 h P delta sl nc cm t i o r ds :
  rinv delta0 (mkReplay h P delta sl nc cm) -> P !! t = Some (Running o) -> txIDToIdx !! t = Some i -> ReExecute i o = Some r ->
  exceeds (GetConservativeKeys (sched h) t) r = false -> prune_spurious (sched h) t r = Ret ds ->
  rinv delta0 (mkReplay (narrowed h t (real_keys r) ds) (<[t := Validated r]> P) delta sl nc cm).
Proof.
  intros Hi Hp Hidx Hre Hex Hpr. rewrite exceeds_false in Hex. unfold GetConservativeKeys in Hex.
  assert (t ∈ working h) as Hw by (apply (rv_work _ _ Hi); eexists; split; [exact Hp|done]).
  destruct (prune_effect h t r ds (rv_run _ _ Hi) Hw Hpr) as (Hr & HK & HE).
  assert (forall u p, <[t := Validated r]> P !! u = Some p -> u = t /\ p = Validated r \/ u <> t /\ P !! u = Some p) as Hold.
  { intros u p. destruct (decide (t = u)) as [<-|]; [rewrite lookup_insert_eq|rewrite lookup_insert_ne by done]; naive_solver. }
  assert (forall u k, touches (mkReplay (narrowed h t (real_keys r) ds) (<[t := Validated r]> P) delta sl nc cm) u k ->
    touches (mkReplay h P delta sl nc cm) u k) as Ht.
  { intros u k. unfold touches. cbn. destruct (decide (t = u)) as [<-|]; [rewrite lookup_insert_eq, Hp; apply Hex|].
    rewrite lookup_insert_ne by done. by rewrite HK. }
  split; cbn; try done.
  - intros u. rewrite (rv_work _ _ Hi). cbn. destruct (decide (t = u)) as [<-|]; [|by rewrite lookup_insert_ne].
    rewrite lookup_insert_eq, Hp. split; intros (p & _ & _); eexists; (split; [reflexivity|done]).
  - intros u k [Hs|Hs]%elem_of_app; unfold scheduler; cbn; rewrite HE.
    + apply list_elem_of_fmap in Hs as (k' & [= -> ->] & [Hk _]%list_elem_of_filter). right. exists r.
      split; [by rewrite lookup_insert_eq|done].
    + destruct (rv_shed _ _ Hi u k Hs) as [?|(r' & Hv & Hk)]; [auto|]. right. exists r'. split; [|done].
      rewrite lookup_insert_ne; [done|]. intros ->. cbn in Hv. congruence.
  - intros u o' k [[_ ?]|[_ Hu]]%Hold; [done|]. unfold scheduler. cbn. rewrite HK. by apply (rv_running _ _ Hi u).
  - assert (ReExecute i delta = Some r) as Hres.
    { apply (reads_complete _ _ _ _ Hre). intros k Hk. apply (rv_running _ _ Hi t o k Hp). apply Hex.
      unfold real_keys. apply elem_of_app. auto. }
    intros u r' [[[-> [= ->]]|[_ Hu]]%Hold|[[_ ?]|[_ Hu]]%Hold]; try done; [eauto|apply (rv_result _ _ Hi u r'); auto..].
  - intros u r' k [[-> [= ->]]|[_ Hu]]%Hold Hk; unfold scheduler; cbn; rewrite HK; [by apply Hex|by apply (rv_valid _ _ Hi u r')].
  - intros u r' v k [[_ ?]|[_ Hu]]%Hold Hv Hk Htch; [done|]. by apply (rv_merging _ _ Hi u r' v k Hu Hv Hk), Ht.
  - intros u r' [[_ ?]|[_ Hu]]%Hold; [done|]. unfold scheduler. cbn. rewrite HE. by apply (rv_executed _ _ Hi u r').
  - apply (rv_serial _ _ Hi).
Qed.

Lemma rinv_execute delta0 h P delta sl nc cm t r ds :
  rinv delta0 (mkReplay h P delta sl nc cm) -> P !! t = Some (Validated r) -> Execute (sched h) t = Ret ds ->
  rinv delta0 (mkReplay (finished h t ds) (<[t := Merging r]> P) delta sl nc cm).
Proof.
  intros Hi Hp Hex. assert (t ∈ working h) as Hw by (apply (rv_work _ _ Hi); eexists; split; [exact Hp|done]).
  destruct (finish_effect true h t ds (rv_run _ _ Hi) Hw Hex) as (Hr & HK & HE).
  assert (forall u p, <[t := Merging r]> P !! u = Some p -> u = t /\ p = Merging r \/ u <> t /\ P !! u = Some p) as Hold.
  { intros u p. destruct (decide (t = u)) as [<-|]; [rewrite lookup_insert_eq|rewrite lookup_insert_ne by done]; naive_solver. }
  assert (forall u k, touches (mkReplay (finished h t ds) (<[t := Merging r]> P) delta sl nc cm) u k ->
    touches (mkReplay h P delta sl nc cm) u k) as Ht.
  { intros u k. unfold touches. cbn. destruct (decide (t = u)) as [<-|]; [by rewrite lookup_insert_eq, Hp|].
    rewrite lookup_insert_ne by done. by rewrite HK. }
  split; cbn; try done.
  - intros u. rewrite list_elem_of_filter, (rv_work _ _ Hi). cbn. destruct (decide (t = u)) as [<-|Hu].
    + rewrite lookup_insert_eq. split; [by intros [? _]|]. intros (p & [= <-] & Hm). by destruct (Hm r).
    + rewrite lookup_insert_ne by done. split; [by intros [_ ?]|]. intros ?. split; [congruence|done].
  - intros u k Hs. unfold scheduler. cbn. rewrite HE. destruct (decide (u = t)) as [->|Hu]; [left; by rewrite bool_decide_eq_true_2|].
    rewrite bool_decide_eq_false_2 by done. cbn. rewrite lookup_insert_ne by done. apply (rv_shed _ _ Hi u k Hs).
  - intros u o' k [[_ ?]|[_ Hu]]%Hold; [done|]. unfold scheduler. cbn. rewrite HK. by apply (rv_running _ _ Hi u).
  - intros u r' [[[_ ?]|[_ Hu]]%Hold|[[-> [= ->]]|[_ Hu]]%Hold]; try done; eapply (rv_result _ _ Hi); eauto.
  - intros u r' k [[_ ?]|[_ Hu]]%Hold; [done|]. unfold scheduler. cbn. rewrite HK. by apply (rv_valid _ _ Hi u r').
  - intros u r' v k [[-> [= ->]]|[_ Hu]]%Hold Hv Hk Htch.
    + apply Hv. symmetry. apply (touches_disjoint delta0 (mkReplay h P delta sl nc cm) t v k Hi); [|by apply Ht].
      unfold touches. cbn. by rewrite Hp.
    + by apply (rv_merging _ _ Hi u r' v k Hu Hv Hk), Ht.
  - intros u r' [[-> _]|[_ Hu]]%Hold; unfold scheduler; cbn; rewrite HE; [by rewrite bool_decide_eq_true_2|].
    pose proof (rv_executed _ _ Hi u r' Hu) as Hx. unfold scheduler in Hx. cbn in Hx. rewrite Hx. apply orb_true_r.
  - apply (rv_serial _ _ Hi).
Qed.

Lemma rinv_merge delta0 h P delta sl nc cm t r :
  rinv delta0 (mkReplay h P delta sl nc cm) -> P !! t = Some (Merging r) ->
  rinv delta0 (mkReplay h (delete t P) (WriteValues r ∪ delta) sl nc (cm ++ [t])).
Proof.
  intros Hi Hp. destruct (rv_result _ _ Hi t r (or_intror Hp)) as (i & Hidx & Hre). cbn in Hre.
  assert (forall u q, delete t P !! u = Some q -> u <> t /\ P !! u = Some q) as Hold by (intros u q [? ?]%lookup_delete_Some; done).
  assert (forall u k, u <> t -> touches (mkReplay h P delta sl nc cm) u k -> delta !! k = (WriteValues r ∪ delta) !! k) as Hsame.
  { intros u k Hu Htc. symmetry. apply lookup_union_r, eq_None_not_Some. intros Hs.
    apply (rv_merging _ _ Hi t r u k Hp Hu); [|done]. unfold real_keys. apply elem_of_app. right. by eapply writes_reported. }
  split; cbn; try apply Hi.
  - intros u. rewrite (rv_work _ _ Hi). cbn. destruct (decide (t = u)) as [<-|]; [|by rewrite lookup_delete_ne].
    rewrite lookup_delete_eq, Hp. split; [|by intros (? & ? & _)]. intros (p & [= <-] & Hm). by destruct (Hm r).
  - intros u k Hs. destruct (rv_shed _ _ Hi u k Hs) as [?|(r' & Hv & Hk)]; [auto|]. right. exists r'. split; [|done].
    rewrite lookup_delete_ne; [done|]. intros ->. cbn in Hv. congruence.
  - intros u o k [Hut Hu]%Hold Hk. rewrite (rv_running _ _ Hi u o k Hu Hk). cbn. apply (Hsame u); [done|].
    unfold touches. cbn. by rewrite Hu.
  - intros u r' Hu. assert (u <> t /\ (P !! u = Some (Validated r') \/ P !! u = Some (Merging r'))) as [Hut Hu'].
    { destruct Hu as [[? ?]%Hold|[? ?]%Hold]; auto. }
    destruct (rv_result _ _ Hi u r' Hu') as (j & Hj & Hr'). exists j. split; [done|]. apply (reads_complete _ _ _ _ Hr').
    intros k Hk. apply (Hsame u); [done|]. unfold touches. cbn.
    destruct Hu' as [-> | ->]; unfold real_keys; apply elem_of_app; auto.
  - intros u r' k [_ Hu]%Hold. by apply (rv_valid _ _ Hi).
  - intros u r' v k [Hut Hu]%Hold Hv Hk Htc. apply (rv_merging _ _ Hi u r' v k Hu Hv Hk). revert Htc. unfold touches. cbn.
    destruct (decide (t = v)) as [<-|]; [by rewrite lookup_delete_eq|by rewrite lookup_delete_ne].
  - intros u r' [_ Hu]%Hold. by apply (rv_executed _ _ Hi u r').
  - eapply serial_snoc; [apply (rv_serial _ _ Hi)|done..].
Qed.

Lemma calm_inv delta0 s s' : rinv delta0 s -> calm_step s s' -> rinv delta0 s'.
Proof.
  intros Hi (e & t & Hs & Hq). destruct Hs.
  - eapply rinv_pop; eauto.
  - eapply rinv_pop; eauto.
  - by eapply rinv_abort.
  - by apply rinv_snapshot; [|apply Hq|].
  - by eapply rinv_abort.
  - by eapply rinv_abort.
  - by eapply rinv_validate.
  - by eapply rinv_execute.
  - by eapply rinv_merge.
Qed.
End calm.

(** ** Bookkeeping of any run *)
Section books.
Context (ReExecute : executor) (txIDToIdx : gmap string nat).

Definition any_step (s s' : replay) : Prop := exists e t, replay_step ReExecute txIDToIdx s e t s'.
(** A step of a worker, not of the main loop. *)
Definition worker_step (s s' : replay) : Prop := exists e t, e <> EPop /\ replay_step ReExecute txIDToIdx s e t s'.

(** The transactions the run is done with. *)
Definition settled (sl0 : list string) (s : replay) (l : list string) : Prop :=
  exists sl, serialReplayList s = sl0 ++ sl /\ l = commits s ++ sl ++ noContext s.

Record books (o sl0 : list string) (s : replay) : Prop := {
  bk_run : run_inv (history s);
  bk_arrived : arrived (history s) = o;
  bk_work : forall t, t ∈ working (history s) <-> exists p, phases s !! t = Some p /\ forall r, p <> Merging r;
  bk_merging : forall t r, phases s !! t = Some (Merging r) -> t ∈ o /\ executed (scheduler s) t = true;
  bk_settled : exists l, settled sl0 s l /\ NoDup l /\
    forall t, t ∈ l <-> t ∈ o /\ executed (scheduler s) t = true /\ phases s !! t = None }.

Lemma books_start h delta sl :
  run_inv h -> working h = [] -> (forall t, t ∈ arrived h -> executed (sched h) t = false) -> books (arrived h) sl (start_block h delta sl).
Proof.
  intros Hi Hw Hx. split; cbn; try done.
  - intros t. rewrite Hw, elem_of_nil. split; [done|]. intros (p & Hp & _). by rewrite lookup_empty in Hp.
  - exists []. split; [exists []; by rewrite app_nil_r|]. split; [constructor|]. intros t. rewrite elem_of_nil. split; [done|].
    intros (Ht & He & _). unfold scheduler in He. cbn in He. rewrite Hx in He by done. done.
Qed.

(** A worker that is still with the scheduler, and no longer in [phases] or
    only for its merge, after [finish]. *)
Lemma books_finish o sl0 h P delta sl nc cm t p to_ready ds P' sl' nc' :
  books o sl0 (mkReplay h P delta sl nc cm) -> P !! t = Some p -> (forall r, p <> Merging r) -> finish to_ready (sched h) t = Ret ds ->
  (P' = delete t P /\ (sl' = sl ++ [t] /\ nc' = nc \/ sl' = sl /\ nc' = nc ++ [t]) \/
   exists r, P' = <[t := Merging r]> P /\ sl' = sl /\ nc' = nc) ->
  books o sl0 (mkReplay (finished h t ds) P' delta sl' nc' cm).
Proof.
  intros Hb Hp Hm Hf HP. assert (t ∈ working h) as Hw by (apply (bk_work _ _ _ Hb); eauto).
  destruct (finish_effect to_ready h t ds (bk_run _ _ _ Hb) Hw Hf) as (Hr & HK & HE).
  destruct (working_facts h t (bk_run _ _ _ Hb) Hw) as (Hta & Htx & _). pose proof (bk_arrived _ _ _ Hb) as Ho. cbn in Ho. rewrite Ho in Hta.
  assert (forall u, u <> t -> P' !! u = P !! u) as Hother.
  { intros u Hu. destruct HP as [[-> _]|(r & -> & _)]; [by rewrite lookup_delete_ne|by rewrite lookup_insert_ne]. }
  assert (forall q, P' !! t = Some q -> exists r, q = Merging r) as Hself.
  { intros q. destruct HP as [[-> _]|(r & -> & _)]; [by rewrite lookup_delete_eq|]. rewrite lookup_insert_eq. intros [= <-]. eauto. }
  split; cbn; try done.
  - intros u. rewrite list_elem_of_filter, (bk_work _ _ _ Hb). cbn. destruct (decide (u = t)) as [->|Hu]; [|rewrite Hother by done; tauto].
    split; [tauto|]. intros (q & Hq & Hqm). destruct (Hself q Hq) as [r ->]. by destruct (Hqm r).
  - intros u r Hu. unfold scheduler. cbn. rewrite HE. destruct (decide (u = t)) as [->|Hne]; [by rewrite bool_decide_eq_true_2|].
    rewrite Hother in Hu by done. destruct (bk_merging _ _ _ Hb u r Hu) as [? Hx]. unfold scheduler in Hx. cbn in Hx.
    rewrite Hx, orb_true_r. done.
  - destruct (bk_settled _ _ _ Hb) as (l & (sl1 & Hsl & ->) & Hnd & Hl). cbn in Hsl, Hnd, Hl. unfold scheduler in *. cbn in *.
    assert (t ∉ cm ++ sl1 ++ nc) as Htl by (rewrite Hl; intros (_ & ? & _); congruence).
    assert (forall u, u <> t -> (u ∈ o /\ executed ds u = true /\ P' !! u = None) <-> u ∈ cm ++ sl1 ++ nc) as Hrest.
    { intros u Hu. rewrite Hl, HE, bool_decide_eq_false_2, Hother by done. done. }
    destruct HP as [[-> [[-> ->]|[-> ->]]]|(r & -> & -> & ->)].
    + exists (cm ++ (sl1 ++ [t]) ++ nc). assert (cm ++ (sl1 ++ [t]) ++ nc ≡ₚ t :: (cm ++ sl1 ++ nc)) as HP by solve_Permutation.
      split; [exists (sl1 ++ [t]); rewrite Hsl; by rewrite app_assoc|]. split; [rewrite HP; by apply NoDup_cons|].
      intros u. rewrite HP, elem_of_cons. destruct (decide (u = t)) as [->|Hu]; [|rewrite Hrest by done; tauto].
      rewrite HE, bool_decide_eq_true_2, lookup_delete_eq by done. tauto.
    + exists (cm ++ sl1 ++ nc ++ [t]). assert (cm ++ sl1 ++ nc ++ [t] ≡ₚ t :: (cm ++ sl1 ++ nc)) as HP by solve_Permutation.
      split; [by exists sl1|]. split; [rewrite HP; by apply NoDup_cons|].
      intros u. rewrite HP, elem_of_cons. destruct (decide (u = t)) as [->|Hu]; [|rewrite Hrest by done; tauto].
      rewrite HE, bool_decide_eq_true_2, lookup_delete_eq by done. tauto.
    + exists (cm ++ sl1 ++ nc). split; [by exists sl1|]. split; [done|].
      intros u. destruct (decide (u = t)) as [->|Hu]; [|by rewrite Hrest]. rewrite lookup_insert_eq. split; [done|by intros (_ & _ & ?)].
Qed.

(** A step that moves one worker from a phase before [Execute] to another. *)
Lemma books_move o sl0 h h' P delta sl nc cm t p q :
  books o sl0 (mkReplay h P delta sl nc cm) -> P !! t = Some p -> (forall r, p <> Merging r) -> (forall r, q <> Merging r) ->
  run_inv h' -> arrived h' = arrived h -> working h' = working h -> (forall u, executed (sched h') u = executed (sched h) u) ->
  books o sl0 (mkReplay h' (<[t := q]> P) delta sl nc cm).
Proof.
  intros Hb Hp Hpm Hqm Hi Ha Hw HE. split; cbn; [done|rewrite Ha; apply Hb|..].
  - intros u. rewrite Hw, (bk_work _ _ _ Hb). cbn. destruct (decide (t = u)) as [<-|]; [|by rewrite lookup_insert_ne].
    rewrite lookup_insert_eq, Hp. split; intros _; eauto.
  - intros u r. unfold scheduler. cbn. rewrite HE. destruct (decide (t = u)) as [<-|].
    + rewrite lookup_insert_eq. intros [= ->]. by destruct (Hqm r).
    + rewrite lookup_insert_ne by done. apply Hb.
  - destruct (bk_settled _ _ _ Hb) as (l & Hl & Hnd & Hin). exists l. split; [exact Hl|]. split; [done|]. intros u. rewrite Hin.
    unfold scheduler. cbn. rewrite HE. destruct (decide (t = u)) as [<-|]; [|by rewrite lookup_insert_ne].
    rewrite lookup_insert_eq, Hp. split; by intros (_ & _ & ?).
Qed.

Lemma books_pop o sl0 h P delta sl nc cm ds t :
  books o sl0 (mkReplay h P delta sl nc cm) ->
  PopReady (sched h) = (ds, t) \/ PopPruneReady (sched h) = (ds, t) -> t <> EmptyString ->
  books o sl0 (mkReplay (popped h t ds) (<[t := Started]> P) delta sl nc cm).
Proof.
  intros Hb Hp Hne. destruct (pop_effect h ds t (bk_run _ _ _ Hb) Hp Hne) as (Hr & _ & HE & Hw & Ho & Hx). rewrite HE in Hx.
  assert (P !! t = None) as HP.
  { destruct (P !! t) as [[|o'|r|r]|] eqn:E; [..|done]; exfalso.
    4: destruct (bk_merging _ _ _ Hb t r E) as [_ Hex]; unfold scheduler in Hex; cbn in Hex; congruence.
    all: apply Hw, (bk_work _ _ _ Hb); eexists; split; [exact E|done]. }
  split; cbn; [done|apply Hb|..].
  - intros u. rewrite elem_of_cons, (bk_work _ _ _ Hb). cbn. destruct (decide (t = u)) as [<-|Hu].
    + rewrite lookup_insert_eq. split; [|auto]. intros _. by eexists.
    + rewrite lookup_insert_ne by done. split; [|auto]. by intros [->|?].
  - intros u r. unfold scheduler. cbn. rewrite HE. destruct (decide (t = u)) as [<-|]; [by rewrite lookup_insert_eq|].
    rewrite lookup_insert_ne by done. apply Hb.
  - destruct (bk_settled _ _ _ Hb) as (l & Hl & Hnd & Hin). exists l. split; [exact Hl|]. split; [done|]. intros u. rewrite Hin.
    unfold scheduler. cbn. rewrite HE. destruct (decide (t = u)) as [<-|]; [|by rewrite lookup_insert_ne].
    rewrite lookup_insert_eq. split; intros (_ & Hex & Hn); congruence.
Qed.

Lemma books_merge o sl0 h P delta sl nc cm t r delta' :
  books o sl0 (mkReplay h P delta sl nc cm) -> P !! t = Some (Merging r) ->
  books o sl0 (mkReplay h (delete t P) delta' sl nc (cm ++ [t])).
Proof.
  intros Hb Hp. destruct (bk_merging _ _ _ Hb t r Hp) as [Hto Htx]. split; cbn; [apply Hb..| | |].
  - intros u. rewrite (bk_work _ _ _ Hb). cbn. destruct (decide (t = u)) as [<-|]; [|by rewrite lookup_delete_ne].
    rewrite lookup_delete_eq, Hp. split; [|by intros (? & ? & _)]. intros (q & [= <-] & Hm). by destruct (Hm r).
  - intros u r' [_ Hu]%lookup_delete_Some. by apply (bk_merging _ _ _ Hb u r').
  - destruct (bk_settled _ _ _ Hb) as (l & (sl1 & Hsl & ->) & Hnd & Hin). cbn in *.
    assert ((cm ++ [t]) ++ sl1 ++ nc ≡ₚ t :: (cm ++ sl1 ++ nc)) as HP by solve_Permutation.
    exists ((cm ++ [t]) ++ sl1 ++ nc). split; [by exists sl1|]. split.
    + rewrite HP. apply NoDup_cons. split; [|done]. rewrite Hin, Hp. by intros (_ & _ & ?).
    + intros u. rewrite HP, elem_of_cons, Hin. unfold scheduler in *. cbn in *.
      destruct (decide (u = t)) as [->|Hu]; [rewrite lookup_delete_eq; tauto|]. rewrite lookup_delete_ne by done. tauto.
Qed.

Lemma books_step o sl0 s s' : books o sl0 s -> any_step s s' -> books o sl0 s'.
Proof.
  intros Hb (e & t & Hs). destruct Hs as [h P ? ? ? ? ds t Hp Hne|h P ? ? ? ? ds t Hp Hne|h P ? ? ? ? ds t Hp _ Ha
    |h P ? ? ? ? t i Hp _|h P ? ? ? ? t i o' ds Hp _ _ Ha|h P ? ? ? ? t i o' r ds Hp _ _ _ Ha
    |h P ? ? ? ? t i o' r ds Hp _ _ _ Hpr|h P ? ? ? ? t r ds Hp Hx|h P ? ? ? ? t r Hp].
  - eapply books_pop; eauto.
  - eapply books_pop; eauto.
  - eapply books_finish; [done|exact Hp|done|exact Ha|]. auto.
  - eapply books_move; [done|exact Hp|done|done|apply Hb|done..].
  - eapply books_finish; [done|exact Hp|done|exact Ha|]. auto.
  - eapply books_finish; [done|exact Hp|done|exact Ha|]. auto.
  - assert (t ∈ working h) as Hw by (apply (bk_work _ _ _ Hb); eexists; split; [exact Hp|done]).
    destruct (prune_effect h t r ds (bk_run _ _ _ Hb) Hw Hpr) as (Hr & _ & HE).
    eapply books_move; [done|exact Hp|done|done|exact Hr|done..].
  - eapply books_finish; [done|exact Hp|done|exact Hx|]. right. eauto.
  - by eapply books_merge.
Qed.

Lemma books_run o sl0 s s' : books o sl0 s -> rtc any_step s s' -> books o sl0 s'.
Proof. intros Hb Hr. induction Hr; [done|]. by eapply IHHr, books_step. Qed.

(** With no worker in progress no worker can make a step. *)
Lemma idle_frozen s s' : inProgress s = 0 -> rtc worker_step s s' -> s' = s.
Proof.
  intros Hp Hr. assert (phases s = ∅) as He by (by apply map_size_empty_inv). clear Hp.
  destruct Hr as [|s s1 s' (e & t & Hne & Hs) _]; [done|]. exfalso.
  destruct Hs; cbn in He; subst; try done; by rewrite lookup_empty in *.
Qed.

Lemma idle_all_settled o sl0 s :
  books o sl0 s -> inProgress s = 0 -> queues_empty s -> exists l, settled sl0 s l /\ l ≡ₚ o.
Proof.
  intros Hb Hp [Hr Hpr]. assert (phases s = ∅) as He by (by apply map_size_empty_inv).
  destruct (bk_settled _ _ _ Hb) as (l & Hl & Hnd & Hin). exists l. split; [done|].
  pose proof (bk_run _ _ _ Hb) as Hi. pose proof (bk_arrived _ _ _ Hb) as Ho.
  apply NoDup_Permutation; [done|rewrite <- Ho; apply (ss_nodup _ _ (si_static _ _ _ (ri_sched _ Hi)))|].
  intros t. rewrite Hin, He, lookup_empty. split; [tauto|]. intros Ht. split; [done|]. split; [|done].
  apply not_false_is_true. intros Hx. rewrite <- Ho in Ht.
  destruct (filter_first (fun t => IsExecuted (sched (history s)) t = false) _ t Ht Hx) as (u & l' & Hf).
  assert (u ∈ runnable (history s)) as Hu by (by eapply first_pending_runnable).
  unfold runnable in Hu. apply nil_length_inv in Hr, Hpr. unfold scheduler in Hr, Hpr. rewrite Hr, Hpr in Hu. cbn in Hu.
  apply (bk_work _ _ _ Hb) in Hu as (p & Hu & _). by rewrite He, lookup_empty in Hu.
Qed.
End books.

(** ** The block of a set of contexts *)
Definition block_history (contexts : gmap string TransactionContext) (ds : DepurgeScheduler) : run :=
  mkRun (sort_strings (elements (dom contexts))) [] [] ds.

Lemma block_start contexts :
  (forall id ctx, contexts !! id = Some ctx -> TxID ctx = id /\ id <> EmptyString) ->
  exists ds levels, Depurge_schedule contexts = Ret (ds, levels) /\ run_inv (block_history contexts ds) /\
    forall t, executed ds t = false.
Proof.
  intros Hc. destruct (Depurge_schedule_spec contexts Hc) as (ds & levels & Hd & Hr & Hx & _).
  exists ds, levels. split; [done|]. split; [by apply reachable_inv|done].
Qed.


(** The exit test of the loop in [test_replay.go]: three reads in this order,
    between which the workers may go on. *)
Definition exits_replay RE idx (s1 s2 s3 : replay) : Prop :=
  inProgress s1 = 0 /\ rtc (worker_step RE idx) s1 s2 /\ GetReadyQueueLen (scheduler s2) = 0 /\
  rtc (worker_step RE idx) s2 s3 /\ GetPruneReadyQueueLen (scheduler s3) = 0.

(** The exit test of the loop in [TestDepurge] of [test.go]. *)
Definition exits_test RE idx (s1 s2 s3 : replay) : Prop :=
  GetReadyQueueLen (scheduler s1) = 0 /\ rtc (worker_step RE idx) s1 s2 /\ GetPruneReadyQueueLen (scheduler s2) = 0 /\
  rtc (worker_step RE idx) s2 s3 /\ inProgress s3 = 0.

(** C6: in every interleaving, when the loop of [test_replay.go] leaves, every
    transaction of the block was merged, or put on the serial replay list, or
    had no index: each exactly once, and nothing else. *)
Theorem depurge_loop_exit RE idx contexts delta sl :
  (forall id ctx, contexts !! id = Some ctx -> TxID ctx = id /\ id <> EmptyString) ->
  exists ds levels, Depurge_schedule contexts = Ret (ds, levels) /\
    forall s1 s2 s3, rtc (any_step RE idx) (start_block (block_history contexts ds) delta sl) s1 -> exits_replay RE idx s1 s2 s3 ->
      exists l, settled sl s3 l /\ l ≡ₚ elements (dom contexts).
Proof.
  intros Hc. destruct (block_start contexts Hc) as (ds & levels & Hd & Hi & Hx). exists ds, levels. split; [done|].
  intros s1 s2 s3 Hr (Hp & H12 & Hq & H23 & Hq'). pose proof (idle_frozen _ _ _ _ Hp H12) as ->.
  pose proof (idle_frozen _ _ _ _ Hp H23) as ->.
  destruct (idle_all_settled (sort_strings (elements (dom contexts))) sl s1) as (l & Hl & HP); [|done|done|].
  - eapply books_run; [|exact Hr]. by apply (books_start (block_history contexts ds)).
  - exists l. split; [done|]. by rewrite HP, sort_strings_perm.
Qed.

(** ** A block of two transactions that extend the same cell *)
Definition two_contexts : gmap string TransactionContext :=
  {["a" := demo_context "a" ∅ {["x" := EmptyString]}; "b" := demo_context "b" ∅ {["x" := EmptyString]}]}.
Definition two_idx : gmap string nat := {["a" := 0; "b" := 3]}.

Definition ds_loaded : DepurgeScheduler := load_contexts two_contexts.
Definition ds_a : DepurgeScheduler := (PopReady ds_loaded).1.
Definition ds_a_done : DepurgeScheduler := match Execute ds_a "a" with Ret ds => ds | _ => ds_a end.
Definition ds_b : DepurgeScheduler := (PopReady ds_a_done).1.
Definition ds_b_done : DepurgeScheduler := match Execute ds_b "b" with Ret ds => ds | _ => ds_b end.

Definition one_more : ReExecuteResult := mkResult ["x"] ["x"] {["x" := "1"]}.

Definition two_start : replay := start_block (block_history two_contexts ds_loaded) ∅ [].
Definition hist (R : list string) (ds : DepurgeScheduler) : run := mkRun ["a"; "b"] R [] ds.
(** The state in which [a] is validated, and later ones. *)
Definition s_valid : replay := mkReplay (hist ["a"] ds_a) {["a" := Validated one_more]} ∅ [] [] [].
Definition s_released : replay := mkReplay (hist [] ds_a_done) {["a" := Merging one_more]} ∅ [] [] [].
Definition s_merged : replay := mkReplay (hist [] ds_a_done) ∅ {["x" := "1"]} [] [] ["a"].
Definition s_lost : replay := mkReplay (hist [] ds_b_done) ∅ {["x" := "1"]} [] [] ["a"; "b"].

Lemma two_scheduled : exists levels, Depurge_schedule two_contexts = Ret (ds_loaded, levels).
Proof. eexists. vm_compute. reflexivity. Qed.

Lemma two_distinct id ctx : two_contexts !! id = Some ctx -> TxID ctx = id /\ id <> EmptyString.
Proof.
  unfold two_contexts. rewrite lookup_insert_Some, lookup_singleton_Some.
  intros [[<- <-]|[_ [<- <-]]]; done.
Qed.

Lemma two_ids : sort_strings (elements (dom two_contexts)) = ["a"; "b"].
Proof. vm_compute. reflexivity. Qed.

Definition s_popped : replay := mkReplay (hist ["a"] ds_a) {["a" := Started]} ∅ [] [] [].
Definition s_running : replay := mkReplay (hist ["a"] ds_a) {["a" := Running ∅]} ∅ [] [] [].

Lemma step_popped : replay_step demo_ReExecute two_idx two_start EPop "a" s_popped.
Proof. unfold two_start, start_block, block_history. rewrite two_ids. apply rs_pop; [vm_compute; reflexivity|done]. Qed.

Lemma step_running : replay_step demo_ReExecute two_idx s_popped ESnapshot "a" s_running.
Proof.
  replace s_running with (mkReplay (hist ["a"] ds_a)
    (<["a" := Running (filterOverlayByKeys ∅ (GetConservativeKeys ds_a "a"))]> {["a" := Started]}) ∅ [] [] []) by (vm_compute; reflexivity).
  by apply (rs_snapshot _ _ (hist ["a"] ds_a) {["a" := Started]} ∅ [] [] [] "a" 0).
Qed.

Lemma step_valid : replay_step demo_ReExecute two_idx s_running EValidate "a" s_valid.
Proof.
  replace s_valid with (mkReplay (narrowed (hist ["a"] ds_a) "a" (real_keys one_more) ds_a) (<["a" := Validated one_more]> {["a" := Running ∅]}) ∅ [] [] [])
    by (vm_compute; reflexivity).
  apply (rs_validate _ _ (hist ["a"] ds_a) {["a" := Running ∅]} ∅ [] [] [] "a" 0 ∅ one_more); vm_compute; reflexivity.
Qed.

Lemma step_released : replay_step demo_ReExecute two_idx s_valid EExecute "a" s_released.
Proof.
  replace s_released with (mkReplay (finished (hist ["a"] ds_a) "a" ds_a_done) (<["a" := Merging one_more]> {["a" := Validated one_more]}) ∅ [] [] [])
    by (vm_compute; reflexivity).
  apply (rs_execute _ _ (hist ["a"] ds_a) {["a" := Validated one_more]} ∅ [] [] [] "a" one_more); vm_compute; reflexivity.
Qed.

Lemma step_merged : replay_step demo_ReExecute two_idx s_released EMerge "a" s_merged.
Proof.
  replace s_merged with (mkReplay (hist [] ds_a_done) (delete "a" {["a" := Merging one_more]}) (WriteValues one_more ∪ ∅) [] [] ([] ++ ["a"]))
    by (vm_compute; reflexivity).
  by apply (rs_merge _ _ (hist [] ds_a_done) {["a" := Merging one_more]} ∅ [] [] [] "a" one_more).
Qed.

(** [b] starts between [Execute] and the merge of [a]. *)
Definition p_ab (p : phase) : gmap string phase := <["b" := p]> {["a" := Merging one_more]}.

Lemma lost_run : rtc (any_step demo_ReExecute two_idx) s_released s_lost.
Proof.
  eapply rtc_l.
  { exists EPop, "b". by apply (rs_pop _ _ (hist [] ds_a_done) {["a" := Merging one_more]} ∅ [] [] [] ds_b "b"); [vm_compute|]. }
  eapply rtc_l.
  { exists ESnapshot, "b". by apply (rs_snapshot _ _ (popped (hist [] ds_a_done) "b" ds_b) (p_ab Started) ∅ [] [] [] "b" 3). }
  replace (<["b" := _]> (p_ab Started)) with (p_ab (Running ∅)) by (vm_compute; reflexivity).
  eapply rtc_l.
  { exists EMerge, "a". by apply (rs_merge _ _ (popped (hist [] ds_a_done) "b" ds_b) (p_ab (Running ∅)) ∅ [] [] [] "a" one_more). }
  replace (delete "a" (p_ab (Running ∅))) with ({["b" := Running ∅]} : gmap string phase) by (vm_compute; reflexivity).
  eapply rtc_l.
  { exists EValidate, "b". apply (rs_validate _ _ (popped (hist [] ds_a_done) "b" ds_b) {["b" := Running ∅]} (WriteValues one_more ∪ ∅) [] [] ["a"] "b" 3 ∅ one_more ds_b);
      vm_compute; reflexivity. }
  replace (narrowed _ "b" _ ds_b) with (hist ["b"] ds_b) by (vm_compute; reflexivity).
  eapply rtc_l.
  { exists EExecute, "b". apply (rs_execute _ _ (hist ["b"] ds_b) (<["b" := Validated one_more]> {["b" := Running ∅]}) (WriteValues one_more ∪ ∅) [] [] ["a"] "b" one_more ds_b_done);
      vm_compute; reflexivity. }
  replace s_lost with (mkReplay (finished (hist ["b"] ds_b) "b" ds_b_done) (delete "b" (<["b" := Merging one_more]> (<["b" := Validated one_more]> {["b" := Running ∅]})))
    (WriteValues one_more ∪ (WriteValues one_more ∪ ∅)) [] [] (["a"] ++ ["b"])) by (vm_compute; reflexivity).
  apply rtc_once. exists EMerge, "b". by apply (rs_merge _ _ _ _ _ _ _ _ "b" one_more).
Qed.

(** The worker releases its successors before it merges its writes, so
    with two workers an update can be lost: both transactions that extend the
    cell are committed, and the result is that of no serial order. *)
Theorem depurge_replay_lost_update :
  exists s, rtc (any_step demo_ReExecute two_idx) two_start s /\ inProgress s = 0 /\ queues_empty s /\
    commits s = ["a"; "b"] /\ forall l, l ≡ₚ ["a"; "b"] -> serial demo_ReExecute two_idx ∅ l <> Some (committedDelta s).
Proof.
  exists s_lost. split; [|split; [done|split; [split; vm_compute; reflexivity|split; [done|]]]].
  - eapply rtc_l; [by exists EPop, "a"; apply step_popped|]. eapply rtc_l; [by exists ESnapshot, "a"; apply step_running|].
    eapply rtc_l; [by exists EValidate, "a"; apply step_valid|]. eapply rtc_l; [by exists EExecute, "a"; apply step_released|]. apply lost_run.
  - intros l Hl. symmetry in Hl. apply Permutation_length_2_inv in Hl as [-> | ->]; intros E;
      apply (f_equal (fun o => o ≫= fun m => m !! "x")) in E; vm_compute in E; discriminate.
Qed.

(** The loop of [TestDepurge] reads the queue lengths before the number of
    workers, so it can leave while a released transaction is in the ready
    queue: the transaction is never executed. *)
Theorem test_loop_drops_transaction :
  exists s1 s2 s3, rtc (any_step demo_ReExecute two_idx) two_start s1 /\ exits_test demo_ReExecute two_idx s1 s2 s3 /\
    "b" ∈ readyQueue (scheduler s3) /\ IsExecuted (scheduler s3) "b" = false /\ commits s3 = ["a"].
Proof.
  exists s_valid, s_valid, s_merged. split; [|split; [split; [vm_compute; reflexivity|split; [apply rtc_refl|split; [vm_compute; reflexivity|split]]]|]].
  - eapply rtc_l; [by exists EPop, "a"; apply step_popped|]. eapply rtc_l; [by exists ESnapshot, "a"; apply step_running|].
    apply rtc_once. exists EValidate, "a". apply step_valid.
  - eapply rtc_l; [exists EExecute, "a"; split; [done|apply step_released]|]. apply rtc_once. exists EMerge, "a". split; [done|apply step_merged].
  - done.
  - split; [|split; vm_compute; reflexivity]. replace (readyQueue (scheduler s_merged)) with ["b"] by (vm_compute; reflexivity). left.
Qed.


Lemma depurge_loop_exit_witness : exists l, settled [] s_lost l /\ l ≡ₚ ["a"; "b"].
Proof.
  destruct (depurge_loop_exit demo_ReExecute two_idx two_contexts ∅ [] two_distinct) as (ds & levels & Hd & H).
  destruct two_scheduled as [levels' Hd']. rewrite Hd in Hd'. injection Hd' as -> _.
  destruct (H s_lost s_lost s_lost) as (l & Hl & HP).
  - eapply rtc_l; [by exists EPop, "a"; apply step_popped|]. eapply rtc_l; [by exists ESnapshot, "a"; apply step_running|].
    eapply rtc_l; [by exists EValidate, "a"; apply step_valid|]. eapply rtc_l; [by exists EExecute, "a"; apply step_released|]. apply lost_run.
  - split; [done|]. split; [apply rtc_refl|]. split; [vm_compute; reflexivity|]. split; [apply rtc_refl|]. vm_compute. reflexivity.
  - exists l. split; [done|]. rewrite HP. rewrite <- sort_strings_perm, two_ids. done.
Defined.

(** ** From predictions to conservative keys *)

(** For predictions of distinct non-empty transaction hashes, building the
    contexts and loading the scheduler returns; every usable prediction is
    scheduled with exactly its read and write keys as conservative keys, every
    other transaction is on the serial replay list, and all are indexed. *)
Theorem predictions_scheduled refs specs :
  length specs <= length refs -> NoDup (TxHash <$> refs) -> EmptyString ∉ TxHash <$> refs ->
  exists st ds levels, build_contexts refs specs = Ret st /\ Depurge_schedule (in_contexts st) = Ret (ds, levels) /\
    forall i ref spec, refs !! i = Some ref -> specs !! i = Some spec ->
      txIDToIdx st !! TxHash ref = Some i /\
      match spec with
      | Some s => if Success s then forall k, k ∈ GetConservativeKeys ds (TxHash ref) <-> k ∈ ReadKeys s \/ k ∈ WriteKeys s
                  else TxHash ref ∈ in_serial st
      | None => TxHash ref ∈ in_serial st
      end.
Proof.
  intros Hlen Hnd Hne. destruct (build_contexts_spec refs specs Hlen Hnd) as (st & Hst & H1 & H2 & H3 & _).
  destruct (Depurge_schedule_spec (in_contexts st)) as (ds & levels & Hd & _ & _ & Hk).
  { intros id ctx Hc. destruct (H2 id ctx Hc) as (Ht & j & r & s & _ & Hr & <- & _). split; [done|]. intros E. apply Hne.
    rewrite <- E. apply list_elem_of_fmap. exists r. split; [done|]. by eapply list_elem_of_lookup_2. }
  exists st, ds, levels. split; [done|]. split; [done|]. intros i ref spec Href Hspec.
  assert (i < length specs) as Hi by (by apply lookup_lt_Some in Hspec). split; [by apply H1|].
  specialize (H3 i ref spec Hi Href Hspec). destruct spec as [s|]; [|done]. cbn [usable] in H3. destruct (Success s); [|done].
  destruct H3 as [ctx Hc]. intros k. rewrite (Hk _ _ k Hc).
  destruct (H2 _ _ Hc) as (_ & j & r & s' & _ & Hr & Eh & Hs' & _ & HW & HR).
  pose proof (hash_inj _ _ _ _ _ Hnd Hr Href Eh) as ->. rewrite Hspec in Hs'. injection Hs' as <-.
  rewrite HW, HR, elem_of_union, elem_of_difference, !elem_of_list_to_set. destruct (decide (k ∈ WriteKeys s)); tauto.
Qed.

Definition demo_refs : list ReplayRef := [mkRef 1 EmptyString 0 "a"; mkRef 1 EmptyString 1 "b"].
Definition demo_specs : list (option ReplayRWSet) :=
  [Some (mkReplayRWSet (mkRef 1 EmptyString 0 "a") true 0 ["x"; "y"] ["x"] EmptyString); None].

Lemma predictions_scheduled_witness :
  exists st ds levels, build_contexts demo_refs demo_specs = Ret st /\ Depurge_schedule (in_contexts st) = Ret (ds, levels) /\
    "y" ∈ GetConservativeKeys ds "a" /\ "b" ∈ in_serial st.
Proof.
  destruct (predictions_scheduled demo_refs demo_specs) as (st & ds & levels & H1 & H2 & H3).
  - cbn. lia.
  - apply (bool_decide_unpack _). vm_compute. exact I.
  - apply (bool_decide_unpack _). vm_compute. exact I.
  - exists st, ds, levels. split; [done|]. split; [done|].
    destruct (H3 0 _ _ eq_refl eq_refl) as [_ Ha]. destruct (H3 1 _ _ eq_refl eq_refl) as [_ Hb]. split; [|exact Hb].
    apply Ha. left. right. left.
Defined.
