(* ===== verification/StateDB.v ===== *)
(** * The journalled state database

    [core/state/state_object.go], [core/state/journal.go] and
    [core/state/statedb.go] of the go-ethereum copy under [src/ethereum], on
    which every pre-execution and re-execution of a transaction runs: state
    objects with their storage caches, the journal of undo entries, the
    operations of the EVM's [StateDB] interface, snapshots and reverts.

    The tries are finite maps: the account trie maps an address to its
    account, a storage trie a slot to its non-zero value, and the node database
    maps the root of a committed storage trie to its content.  Keccak-256 is an
    argument.  A pointer to a state object is the entry of [stateObjects] under
    its address, so a mutation through the pointer writes that entry; the
    previous object kept by a [resetObjectChange] is no longer reachable from
    the map and is kept by value.  Time measurements are left out. *)
From stdpp Require Import base gmap sets list strings.
From Stdlib Require Import ZArith Lia.
From S2P Require Import Prelude GoText.

Set Default Goal Selector "!".
Local Open Scope list_scope.
Local Notation len := String.length.

(** ** Hashes and addresses: byte strings *)
Notation Address := string (only parsing).
Notation Hash := string (only parsing).
Definition zero_hash : Hash := zeros 32.
Definition BytesToHash (b : string) : Hash :=
  let b := drop_bytes (len b - 32) b in zeros (32 - len b) +:+ b.
Definition emptyRoot : Hash := DecodeString "56e81f171bcc55a6ff8345e692c0f86e5b48e01b996cadc001622fb5e363b421".
Definition ripemd : Address := zeros 19 +:+ String (byte_of 3) EmptyString.

(** ** Accounts and state objects *)
Record Account := mkAccount { Nonce : Z; Balance : Z; Root : Hash; CodeHash : string }.

Notation Storage := (gmap string string) (only parsing).
Definition slot_value (m : Storage) (key : Hash) : Hash := default zero_hash (m !! key).

(** What a [StateDB] reads: the account trie it holds and, in the database,
    the committed storage tries by root and the code blobs by hash. *)
Record Database := mkDatabase {
  account_trie : gmap Address Account; storage_tries : gmap Hash Storage; blobs : gmap Hash string }.

Definition OpenStorageTrie (db : Database) (root : Hash) : option Storage :=
  if decide (root = zero_hash \/ root = emptyRoot) then Some ∅ else storage_tries db !! root.

Record stateObject := mkObject {
  address : Address; data : Account; obj_dbErr : bool; trie : option Storage; code : option string;
  originStorage : Storage; pendingStorage : Storage; dirtyStorage : Storage; fakeStorage : option Storage;
  dirtyCode : bool; suicided : bool; deleted : bool }.

Definition with_data (o : stateObject) (d : Account) : stateObject :=
  mkObject (address o) d (obj_dbErr o) (trie o) (code o) (originStorage o) (pendingStorage o) (dirtyStorage o) (fakeStorage o) (dirtyCode o) (suicided o) (deleted o).
Definition with_trie (o : stateObject) (err : bool) (t : Storage) : stateObject :=
  mkObject (address o) (data o) err (Some t) (code o) (originStorage o) (pendingStorage o) (dirtyStorage o) (fakeStorage o) (dirtyCode o) (suicided o) (deleted o).
Definition with_code (o : stateObject) (err : bool) (c : option string) : stateObject :=
  mkObject (address o) (data o) err (trie o) c (originStorage o) (pendingStorage o) (dirtyStorage o) (fakeStorage o) (dirtyCode o) (suicided o) (deleted o).
Definition with_storage (o : stateObject) (origin pending dirty : Storage) : stateObject :=
  mkObject (address o) (data o) (obj_dbErr o) (trie o) (code o) origin pending dirty (fakeStorage o) (dirtyCode o) (suicided o) (deleted o).
Definition with_fake (o : stateObject) (f : Storage) : stateObject :=
  mkObject (address o) (data o) (obj_dbErr o) (trie o) (code o) (originStorage o) (pendingStorage o) (dirtyStorage o) (Some f) (dirtyCode o) (suicided o) (deleted o).
Definition with_flags (o : stateObject) (dc su de : bool) : stateObject :=
  mkObject (address o) (data o) (obj_dbErr o) (trie o) (code o) (originStorage o) (pendingStorage o) (dirtyStorage o) (fakeStorage o) dc su de.

Definition setBalance (o : stateObject) (amount : Z) : stateObject :=
  with_data o (mkAccount (Nonce (data o)) amount (Root (data o)) (CodeHash (data o))).
Definition setNonce (o : stateObject) (nonce : Z) : stateObject :=
  with_data o (mkAccount nonce (Balance (data o)) (Root (data o)) (CodeHash (data o))).
Definition setRoot (o : stateObject) (root : Hash) : stateObject :=
  with_data o (mkAccount (Nonce (data o)) (Balance (data o)) root (CodeHash (data o))).
Definition setCode (o : stateObject) (codeHash : Hash) (c : option string) : stateObject :=
  with_flags (with_code (with_data o (mkAccount (Nonce (data o)) (Balance (data o)) (Root (data o)) codeHash)) (obj_dbErr o) c) true (suicided o) (deleted o).
Definition setState (o : stateObject) (key value : Hash) : stateObject :=
  with_storage o (originStorage o) (pendingStorage o) (<[key := value]> (dirtyStorage o)).

Definition getTrie (db : Database) (o : stateObject) : stateObject * Storage :=
  match trie o with
  | Some t => (o, t)
  | None =>
    match OpenStorageTrie db (Root (data o)) with
    | Some t => (with_trie o (obj_dbErr o) t, t)
    | None => (with_trie o true ∅, ∅)
    end
  end.

Definition obj_GetCommittedState (db : Database) (o : stateObject) (key : Hash) : stateObject * Hash :=
  match fakeStorage o with
  | Some f => (o, slot_value f key)
  | None =>
    match pendingStorage o !! key with
    | Some v => (o, v)
    | None =>
      match originStorage o !! key with
      | Some v => (o, v)
      | None =>
        let '(o, t) := getTrie db o in
        let v := slot_value t key in
        (with_storage o (<[key := v]> (originStorage o)) (pendingStorage o) (dirtyStorage o), v)
      end
    end
  end.

Definition obj_GetState (db : Database) (o : stateObject) (key : Hash) : stateObject * Hash :=
  match fakeStorage o with
  | Some f => (o, slot_value f key)
  | None =>
    match dirtyStorage o !! key with
    | Some v => (o, v)
    | None => obj_GetCommittedState db o key
    end
  end.

Definition obj_SetStorage (o : stateObject) (storage : Storage) : stateObject :=
  with_fake o (storage ∪ default ∅ (fakeStorage o)).

Definition obj_finalise (o : stateObject) : stateObject :=
  with_storage o (originStorage o) (dirtyStorage o ∪ pendingStorage o) ∅.

(** ** The journal *)
Inductive journalEntry :=
| createObjectChange (account : Address)
| resetObjectChange (prev : stateObject)
| suicideChange (account : Address) (prev : bool) (prevbalance : Z)
| balanceChange (account : Address) (prev : Z)
| nonceChange (account : Address) (prev : Z)
| storageChange (account : Address) (key prevalue : Hash)
| codeChange (account : Address) (prevcode : option string) (prevhash : string)
| refundChange (prev : Z)
| addLogChange (txhash : Hash)
| addPreimageChange (hash : Hash)
| touchChange (account : Address).

Definition dirtied (e : journalEntry) : option Address :=
  match e with
  | createObjectChange a | suicideChange a _ _ | balanceChange a _ | nonceChange a _ | storageChange a _ _
  | codeChange a _ _ | touchChange a => Some a
  | resetObjectChange _ | refundChange _ | addLogChange _ | addPreimageChange _ => None
  end.

Record journal := mkJournal { entries : list journalEntry; dirties : gmap Address Z }.
Definition newJournal : journal := mkJournal [] ∅.
Definition journal_dirty (j : journal) (a : Address) : journal :=
  mkJournal (entries j) (<[a := (default 0 (dirties j !! a) + 1)%Z]> (dirties j)).
Definition journal_append (j : journal) (e : journalEntry) : journal :=
  let j := mkJournal (entries j ++ [e]) (dirties j) in
  match dirtied e with Some a => journal_dirty j a | None => j end.
(** The tail of the loop body of [journal.revert]. *)
Definition journal_undirty (j : journal) (e : journalEntry) : journal :=
  match dirtied e with
  | Some a =>
    let n := (default 0 (dirties j !! a) - 1)%Z in
    mkJournal (entries j) (if decide (n = 0%Z) then delete a (dirties j) else <[a := n]> (dirties j))
  | None => j
  end.

(** ** The state database *)
Record Log := mkLog { log_address : Address; log_topics : list Hash; log_data : string;
  log_TxHash : Hash; log_BlockHash : Hash; log_TxIndex : Z; log_Index : Z }.

Record revision := mkRevision { rev_id : Z; journalIndex : nat }.

Record StateDB := mkStateDB {
  stateObjects : gmap Address stateObject;
  stateObjectsPending : gset Address; stateObjectsDirty : gset Address;
  refund : Z; thash : Hash; bhash : Hash; txIndex : Z;
  logs : gmap Hash (list Log); logSize : Z; preimages : gmap Hash string;
  jrnl : journal; validRevisions : list revision; nextRevisionId : Z }.

(** [state.New] and [state.NewWithTrie] on an account trie. *)
Definition NewWithTrie : StateDB := mkStateDB ∅ ∅ ∅ 0 zero_hash zero_hash 0 ∅ 0 ∅ newJournal [] 0.

Definition with_objects (s : StateDB) (m : gmap Address stateObject) : StateDB :=
  mkStateDB m (stateObjectsPending s) (stateObjectsDirty s) (refund s) (thash s) (bhash s) (txIndex s) (logs s) (logSize s) (preimages s) (jrnl s) (validRevisions s) (nextRevisionId s).
Definition with_sets (s : StateDB) (pending dirty : gset Address) : StateDB :=
  mkStateDB (stateObjects s) pending dirty (refund s) (thash s) (bhash s) (txIndex s) (logs s) (logSize s) (preimages s) (jrnl s) (validRevisions s) (nextRevisionId s).
Definition with_refund (s : StateDB) (r : Z) : StateDB :=
  mkStateDB (stateObjects s) (stateObjectsPending s) (stateObjectsDirty s) r (thash s) (bhash s) (txIndex s) (logs s) (logSize s) (preimages s) (jrnl s) (validRevisions s) (nextRevisionId s).
Definition with_logs (s : StateDB) (l : gmap Hash (list Log)) (n : Z) : StateDB :=
  mkStateDB (stateObjects s) (stateObjectsPending s) (stateObjectsDirty s) (refund s) (thash s) (bhash s) (txIndex s) l n (preimages s) (jrnl s) (validRevisions s) (nextRevisionId s).
Definition with_preimages (s : StateDB) (p : gmap Hash string) : StateDB :=
  mkStateDB (stateObjects s) (stateObjectsPending s) (stateObjectsDirty s) (refund s) (thash s) (bhash s) (txIndex s) (logs s) (logSize s) p (jrnl s) (validRevisions s) (nextRevisionId s).
Definition with_journal (s : StateDB) (j : journal) : StateDB :=
  mkStateDB (stateObjects s) (stateObjectsPending s) (stateObjectsDirty s) (refund s) (thash s) (bhash s) (txIndex s) (logs s) (logSize s) (preimages s) j (validRevisions s) (nextRevisionId s).
Definition with_revisions (s : StateDB) (v : list revision) (n : Z) : StateDB :=
  mkStateDB (stateObjects s) (stateObjectsPending s) (stateObjectsDirty s) (refund s) (thash s) (bhash s) (txIndex s) (logs s) (logSize s) (preimages s) (jrnl s) v n.
Definition Prepare (s : StateDB) (th bh : Hash) (ti : Z) : StateDB :=
  mkStateDB (stateObjects s) (stateObjectsPending s) (stateObjectsDirty s) (refund s) th bh ti (logs s) (logSize s) (preimages s) (jrnl s) (validRevisions s) (nextRevisionId s).

Definition setStateObject (s : StateDB) (o : stateObject) : StateDB := with_objects s (<[address o := o]> (stateObjects s)).
Definition add_entry (s : StateDB) (e : journalEntry) : StateDB := with_journal s (journal_append (jrnl s) e).

Definition AddLog (s : StateDB) (l : Log) : StateDB :=
  let s := add_entry s (addLogChange (thash s)) in
  let l := mkLog (log_address l) (log_topics l) (log_data l) (thash s) (bhash s) (txIndex s) (logSize s) in
  with_logs s (<[thash s := default [] (logs s !! thash s) ++ [l]]> (logs s)) (wrap_uint64 (logSize s + 1)).

Definition AddPreimage (s : StateDB) (hash : Hash) (preimage : string) : StateDB :=
  match preimages s !! hash with
  | Some _ => s
  | None => let s := add_entry s (addPreimageChange hash) in with_preimages s (<[hash := preimage]> (preimages s))
  end.

Definition AddRefund (s : StateDB) (gas : Z) : StateDB :=
  let s := add_entry s (refundChange (refund s)) in with_refund s (wrap_uint64 (refund s + gas)).
Definition SubRefund (s : StateDB) (gas : Z) : outcome StateDB :=
  let s := add_entry s (refundChange (refund s)) in
  if bool_decide (gas > refund s)%Z then Panics else Ret (with_refund s (wrap_uint64 (refund s - gas))).

Definition Snapshot (s : StateDB) : StateDB * Z :=
  (with_revisions s (validRevisions s ++ [mkRevision (nextRevisionId s) (length (entries (jrnl s)))]) (nextRevisionId s + 1)%Z, nextRevisionId s).

Section statedb.
Context (keccak256 : string -> Hash).

Definition emptyCodeHash : Hash := keccak256 EmptyString.

Definition newObject (a : Address) (d : Account) : stateObject :=
  let d := if decide (Root d = zero_hash) then mkAccount (Nonce d) (Balance d) emptyRoot (CodeHash d) else d in
  mkObject a d false None None ∅ ∅ ∅ None false false false.

(** [Account{}] after [newObject] has filled its nil fields. *)
Definition empty_account : Account := mkAccount 0 0 zero_hash emptyCodeHash.

Definition obj_empty (o : stateObject) : bool :=
  bool_decide (Nonce (data o) = 0%Z) && bool_decide (Balance (data o) = 0%Z) && bool_decide (CodeHash (data o) = emptyCodeHash).

(** [Code]: [None] is the nil slice. *)
Definition obj_Code (db : Database) (o : stateObject) : stateObject * option string :=
  match code o with
  | Some c => (o, Some c)
  | None =>
    if decide (CodeHash (data o) = emptyCodeHash) then (o, None)
    else let c := blobs db !! BytesToHash (CodeHash (data o)) in
         (with_code o (match c with Some _ => obj_dbErr o | None => true end) c, c)
  end.

Definition getDeletedStateObject (db : Database) (s : StateDB) (a : Address) : StateDB * option stateObject :=
  match stateObjects s !! a with
  | Some o => (s, Some o)
  | None =>
    match account_trie db !! a with
    | None => (s, None)
    | Some d => let o := newObject a d in (setStateObject s o, Some o)
    end
  end.

Definition getStateObject (db : Database) (s : StateDB) (a : Address) : StateDB * option stateObject :=
  match getDeletedStateObject db s a with
  | (s, Some o) => (s, if deleted o then None else Some o)
  | (s, None) => (s, None)
  end.

Definition createObject (db : Database) (s : StateDB) (a : Address) : StateDB * stateObject * option stateObject :=
  let '(s, prev) := getDeletedStateObject db s a in
  let newobj := setNonce (newObject a empty_account) 0 in
  let s := add_entry s (match prev with None => createObjectChange a | Some p => resetObjectChange p end) in
  (setStateObject s newobj, newobj, prev).

Definition GetOrNewStateObject (db : Database) (s : StateDB) (a : Address) : StateDB * stateObject :=
  match getStateObject db s a with
  | (s, Some o) => (s, o)
  | (s, None) => let '(s, o, _) := createObject db s a in (s, o)
  end.

Definition CreateAccount (db : Database) (s : StateDB) (a : Address) : StateDB :=
  let '(s, newObj, prev) := createObject db s a in
  match prev with Some p => setStateObject s (setBalance newObj (Balance (data p))) | None => s end.

(** *** Mutators of a live object, which journal the old value *)
Definition touch (s : StateDB) (o : stateObject) : StateDB :=
  let s := add_entry s (touchChange (address o)) in
  if decide (address o = ripemd) then with_journal s (journal_dirty (jrnl s) (address o)) else s.

Definition obj_SetBalance (s : StateDB) (o : stateObject) (amount : Z) : StateDB :=
  setStateObject (add_entry s (balanceChange (address o) (Balance (data o)))) (setBalance o amount).

Definition obj_AddBalance (s : StateDB) (o : stateObject) (amount : Z) : StateDB :=
  if decide (amount = 0%Z) then (if obj_empty o then touch s o else s)
  else obj_SetBalance s o (Balance (data o) + amount).

Definition obj_SubBalance (s : StateDB) (o : stateObject) (amount : Z) : StateDB :=
  if decide (amount = 0%Z) then s else obj_SetBalance s o (Balance (data o) - amount).

Definition obj_SetNonce (s : StateDB) (o : stateObject) (nonce : Z) : StateDB :=
  setStateObject (add_entry s (nonceChange (address o) (Nonce (data o)))) (setNonce o nonce).

Definition obj_SetCode (db : Database) (s : StateDB) (o : stateObject) (codeHash : Hash) (c : option string) : StateDB :=
  let '(o, prevcode) := obj_Code db o in
  setStateObject (add_entry s (codeChange (address o) prevcode (CodeHash (data o)))) (setCode o codeHash c).

Definition obj_SetState (db : Database) (s : StateDB) (o : stateObject) (key value : Hash) : StateDB :=
  match fakeStorage o with
  | Some f => setStateObject s (with_fake o (<[key := value]> f))
  | None =>
    let '(o, prev) := obj_GetState db o key in
    if decide (prev = value) then setStateObject s o
    else setStateObject (add_entry s (storageChange (address o) key prev)) (setState o key value)
  end.

(** *** The interface of the EVM *)
Definition AddBalance (db : Database) (s : StateDB) (a : Address) (amount : Z) : StateDB :=
  let '(s, o) := GetOrNewStateObject db s a in obj_AddBalance s o amount.
Definition SubBalance (db : Database) (s : StateDB) (a : Address) (amount : Z) : StateDB :=
  let '(s, o) := GetOrNewStateObject db s a in obj_SubBalance s o amount.
Definition SetBalance (db : Database) (s : StateDB) (a : Address) (amount : Z) : StateDB :=
  let '(s, o) := GetOrNewStateObject db s a in obj_SetBalance s o amount.
Definition SetNonce (db : Database) (s : StateDB) (a : Address) (nonce : Z) : StateDB :=
  let '(s, o) := GetOrNewStateObject db s a in obj_SetNonce s o nonce.
Definition SetCode (db : Database) (s : StateDB) (a : Address) (c : option string) : StateDB :=
  let '(s, o) := GetOrNewStateObject db s a in obj_SetCode db s o (keccak256 (default EmptyString c)) c.
Definition SetState (db : Database) (s : StateDB) (a : Address) (key value : Hash) : StateDB :=
  let '(s, o) := GetOrNewStateObject db s a in obj_SetState db s o key value.
Definition SetStorage (db : Database) (s : StateDB) (a : Address) (storage : Storage) : StateDB :=
  let '(s, o) := GetOrNewStateObject db s a in setStateObject s (obj_SetStorage o storage).

Definition Suicide (db : Database) (s : StateDB) (a : Address) : StateDB * bool :=
  match getStateObject db s a with
  | (s, None) => (s, false)
  | (s, Some o) =>
    let s := add_entry s (suicideChange a (suicided o) (Balance (data o))) in
    (setStateObject s (setBalance (with_flags o (dirtyCode o) true (deleted o)) 0), true)
  end.

Definition Exist (db : Database) (s : StateDB) (a : Address) : StateDB * bool :=
  match getStateObject db s a with (s, Some _) => (s, true) | (s, None) => (s, false) end.
Definition Empty (db : Database) (s : StateDB) (a : Address) : StateDB * bool :=
  match getStateObject db s a with (s, Some o) => (s, obj_empty o) | (s, None) => (s, true) end.
Definition GetBalance (db : Database) (s : StateDB) (a : Address) : StateDB * Z :=
  match getStateObject db s a with (s, Some o) => (s, Balance (data o)) | (s, None) => (s, 0%Z) end.
Definition GetNonce (db : Database) (s : StateDB) (a : Address) : StateDB * Z :=
  match getStateObject db s a with (s, Some o) => (s, Nonce (data o)) | (s, None) => (s, 0%Z) end.
Definition GetCode (db : Database) (s : StateDB) (a : Address) : StateDB * option string :=
  match getStateObject db s a with
  | (s, Some o) => let '(o, c) := obj_Code db o in (setStateObject s o, c)
  | (s, None) => (s, None)
  end.
Definition GetCodeSize (db : Database) (s : StateDB) (a : Address) : StateDB * nat :=
  match getStateObject db s a with
  | (s, Some o) =>
    (s, match code o with
        | Some c => len c
        | None => match blobs db !! BytesToHash (CodeHash (data o)) with Some c => len c | None => 0 end
        end)
  | (s, None) => (s, 0)
  end.
Definition GetCodeHash (db : Database) (s : StateDB) (a : Address) : StateDB * Hash :=
  match getStateObject db s a with (s, Some o) => (s, BytesToHash (CodeHash (data o))) | (s, None) => (s, zero_hash) end.
Definition GetState (db : Database) (s : StateDB) (a : Address) (key : Hash) : StateDB * Hash :=
  match getStateObject db s a with
  | (s, Some o) => let '(o, v) := obj_GetState db o key in (setStateObject s o, v)
  | (s, None) => (s, zero_hash)
  end.
Definition GetCommittedState (db : Database) (s : StateDB) (a : Address) (key : Hash) : StateDB * Hash :=
  match getStateObject db s a with
  | (s, Some o) => let '(o, v) := obj_GetCommittedState db o key in (setStateObject s o, v)
  | (s, None) => (s, zero_hash)
  end.
Definition HasSuicided (db : Database) (s : StateDB) (a : Address) : StateDB * bool :=
  match getStateObject db s a with (s, Some o) => (s, suicided o) | (s, None) => (s, false) end.

(** *** Undoing an entry; a change of an account that is gone dereferences nil *)
Definition on_object (db : Database) (s : StateDB) (a : Address) (f : stateObject -> stateObject) : outcome StateDB :=
  match getStateObject db s a with
  | (s, Some o) => Ret (setStateObject s (f o))
  | (s, None) => Panics
  end.

Definition revert_entry (db : Database) (s : StateDB) (e : journalEntry) : outcome StateDB :=
  match e with
  | createObjectChange a =>
    Ret (with_sets (with_objects s (delete a (stateObjects s))) (stateObjectsPending s) (stateObjectsDirty s ∖ {[a]}))
  | resetObjectChange prev => Ret (setStateObject s prev)
  | suicideChange a prev prevbalance =>
    match getStateObject db s a with
    | (s, Some o) => Ret (setStateObject s (setBalance (with_flags o (dirtyCode o) prev (deleted o)) prevbalance))
    | (s, None) => Ret s
    end
  | balanceChange a prev => on_object db s a (fun o => setBalance o prev)
  | nonceChange a prev => on_object db s a (fun o => setNonce o prev)
  | storageChange a key prevalue => on_object db s a (fun o => setState o key prevalue)
  | codeChange a prevcode prevhash => on_object db s a (fun o => setCode o (BytesToHash prevhash) prevcode)
  | refundChange prev => Ret (with_refund s prev)
  | addLogChange txhash =>
    let l := default [] (logs s !! txhash) in
    match l with
    | [] => Panics
    | [_] => Ret (with_logs s (delete txhash (logs s)) (wrap_uint64 (logSize s - 1)))
    | _ => Ret (with_logs s (<[txhash := take (length l - 1) l]> (logs s)) (wrap_uint64 (logSize s - 1)))
    end
  | addPreimageChange hash => Ret (with_preimages s (delete hash (preimages s)))
  | touchChange _ => Ret s
  end.

Definition undo (db : Database) (s : StateDB) (e : journalEntry) : outcome StateDB :=
  revert_entry db s e ≫= fun s => Ret (with_journal s (journal_undirty (jrnl s) e)).

(** [journal.revert]: the entries from the last one down to [snapshot]. *)
Definition journal_revert (db : Database) (s : StateDB) (snapshot : nat) : outcome StateDB :=
  foldM (undo db) s (reverse (drop snapshot (entries (jrnl s)))) ≫= fun s =>
  Ret (with_journal s (mkJournal (take snapshot (entries (jrnl s))) (dirties (jrnl s)))).

(** [sort.Search]: binary search for the first index on which [f] holds. *)
Fixpoint Search_loop (fuel : nat) (f : nat -> bool) (i j : nat) : outcome nat :=
  match fuel with
  | 0 => Diverges
  | S fuel =>
    if decide (i < j) then
      let h := (i + j) / 2 in
      if f h then Search_loop fuel f i h else Search_loop fuel f (h + 1) j
    else Ret i
  end.
Definition Search (n : nat) (f : nat -> bool) : outcome nat := Search_loop (S n) f 0 n.

Definition RevertToSnapshot (db : Database) (s : StateDB) (revid : Z) : outcome StateDB :=
  Search (length (validRevisions s))
    (fun i => match validRevisions s !! i with Some r => bool_decide (revid <= rev_id r)%Z | None => false end) ≫= fun idx =>
  match validRevisions s !! idx with
  | Some r =>
    if decide (rev_id r = revid) then
      journal_revert db s (journalIndex r) ≫= fun s =>
      Ret (with_revisions s (take idx (validRevisions s)) (nextRevisionId s))
    else Panics
  | None => Panics
  end.
End statedb.
