(* ===== verification/StateSpec.v ===== *)
(** * What the state database promises

    A specification of [StateDB.v] without journal, caches and tries: the
    state is a map from addresses to accounts with their whole storage, an
    operation changes it in place, a snapshot saves the whole state and a
    revert restores the saved one.  The refinement theorem says that every
    program over the operations gets the same answers from the journalled
    implementation, panics included. *)
From stdpp Require Import base gmap sets list strings.
From Stdlib Require Import ZArith Lia.
From S2P Require Import Prelude GoText StateDB.

Set Default Goal Selector "!".
Local Open Scope list_scope.
Local Notation len := String.length.

(** ** Operations and programs *)
Inductive op :=
| OAddBalance (a : Address) (amount : Z) | OSubBalance (a : Address) (amount : Z) | OSetBalance (a : Address) (amount : Z)
| OSetNonce (a : Address) (nonce : Z) | OSetCode (a : Address) (c : option string) | OSetState (a : Address) (key value : Hash)
| OSuicide (a : Address) | OCreateAccount (a : Address)
| OAddRefund (gas : Z) | OSubRefund (gas : Z) | OAddLog (l : Log) | OAddPreimage (h : Hash) (p : string)
| OExist (a : Address) | OEmpty (a : Address) | OGetBalance (a : Address) | OGetNonce (a : Address)
| OGetCode (a : Address) | OGetCodeSize (a : Address) | OGetCodeHash (a : Address)
| OGetState (a : Address) (key : Hash) | OGetCommittedState (a : Address) (key : Hash) | OHasSuicided (a : Address)
| OGetRefund | OSnapshot | ORevert (revid : Z).

Inductive reply := RUnit | RZ (z : Z) | RBool (b : bool) | RBytes (b : string) | RNat (n : nat).

(** A client of the database, such as one run of the EVM: it issues an
    operation and continues with the answer, ends, or panics by itself. *)
Inductive prog (A : Type) :=
| Done (a : A)
| Halt
| Do (o : op) (k : reply -> prog A).
Arguments Done {A} a.
Arguments Halt {A}.
Arguments Do {A} o k.

Definition unit_reply (s : StateDB) : outcome (StateDB * reply) := Ret (s, RUnit).
Definition reply_with {A} (f : A -> reply) (p : StateDB * A) : outcome (StateDB * reply) := Ret (p.1, f p.2).

Definition exec (keccak256 : string -> Hash) (db : Database) (s : StateDB) (o : op) : outcome (StateDB * reply) :=
  match o with
  | OAddBalance a z => unit_reply (AddBalance keccak256 db s a z)
  | OSubBalance a z => unit_reply (SubBalance keccak256 db s a z)
  | OSetBalance a z => unit_reply (SetBalance keccak256 db s a z)
  | OSetNonce a n => unit_reply (SetNonce keccak256 db s a n)
  | OSetCode a c => unit_reply (SetCode keccak256 db s a c)
  | OSetState a k v => unit_reply (SetState keccak256 db s a k v)
  | OSuicide a => reply_with RBool (Suicide db s a)
  | OCreateAccount a => unit_reply (CreateAccount keccak256 db s a)
  | OAddRefund g => unit_reply (AddRefund s g)
  | OSubRefund g => SubRefund s g ≫= unit_reply
  | OAddLog l => unit_reply (AddLog s l)
  | OAddPreimage h p => unit_reply (AddPreimage s h p)
  | OExist a => reply_with RBool (Exist db s a)
  | OEmpty a => reply_with RBool (Empty keccak256 db s a)
  | OGetBalance a => reply_with RZ (GetBalance db s a)
  | OGetNonce a => reply_with RZ (GetNonce db s a)
  | OGetCode a => reply_with (fun c => RBytes (default EmptyString c)) (GetCode keccak256 db s a)
  | OGetCodeSize a => reply_with RNat (GetCodeSize db s a)
  | OGetCodeHash a => reply_with RBytes (GetCodeHash db s a)
  | OGetState a k => reply_with RBytes (GetState db s a k)
  | OGetCommittedState a k => reply_with RBytes (GetCommittedState db s a k)
  | OHasSuicided a => reply_with RBool (HasSuicided db s a)
  | OGetRefund => Ret (s, RZ (refund s))
  | OSnapshot => reply_with RZ (Snapshot s)
  | ORevert id => RevertToSnapshot db s id ≫= unit_reply
  end.

Fixpoint run_prog {A} (keccak256 : string -> Hash) (db : Database) (s : StateDB) (p : prog A) : outcome (StateDB * A) :=
  match p with
  | Done a => Ret (s, a)
  | Halt => Panics
  | Do o k => exec keccak256 db s o ≫= fun '(s, r) => run_prog keccak256 db s (k r)
  end.

(** ** The specification *)
Record account := mkAcc {
  a_nonce : Z; a_balance : Z; a_codehash : Hash; a_code : string;
  a_state : Storage; a_committed : Storage; a_suicided : bool; a_deleted : bool }.

Record spec_state := mkSpec {
  accounts : gmap Address account; a_refund : Z; a_thash : Hash; a_bhash : Hash; a_txIndex : Z;
  a_logs : gmap Hash (list Log); a_logSize : Z; a_preimages : gmap Hash string }.

Definition set_accounts (A : spec_state) (m : gmap Address account) : spec_state :=
  mkSpec m (a_refund A) (a_thash A) (a_bhash A) (a_txIndex A) (a_logs A) (a_logSize A) (a_preimages A).
Definition set_refund (A : spec_state) (r : Z) : spec_state :=
  mkSpec (accounts A) r (a_thash A) (a_bhash A) (a_txIndex A) (a_logs A) (a_logSize A) (a_preimages A).
Definition set_logs (A : spec_state) (l : gmap Hash (list Log)) (n : Z) : spec_state :=
  mkSpec (accounts A) (a_refund A) (a_thash A) (a_bhash A) (a_txIndex A) l n (a_preimages A).
Definition set_preimages (A : spec_state) (p : gmap Hash string) : spec_state :=
  mkSpec (accounts A) (a_refund A) (a_thash A) (a_bhash A) (a_txIndex A) (a_logs A) (a_logSize A) p.

Definition set_nonce (o : account) (n : Z) : account :=
  mkAcc n (a_balance o) (a_codehash o) (a_code o) (a_state o) (a_committed o) (a_suicided o) (a_deleted o).
Definition set_balance (o : account) (b : Z) : account :=
  mkAcc (a_nonce o) b (a_codehash o) (a_code o) (a_state o) (a_committed o) (a_suicided o) (a_deleted o).
Definition set_code (o : account) (h : Hash) (c : string) : account :=
  mkAcc (a_nonce o) (a_balance o) h c (a_state o) (a_committed o) (a_suicided o) (a_deleted o).
Definition set_state (o : account) (st : Storage) : account :=
  mkAcc (a_nonce o) (a_balance o) (a_codehash o) (a_code o) st (a_committed o) (a_suicided o) (a_deleted o).
Definition set_suicided (o : account) (b : bool) : account :=
  mkAcc (a_nonce o) (a_balance o) (a_codehash o) (a_code o) (a_state o) (a_committed o) b (a_deleted o).

(** A storage holds no zero value. *)
Definition put_slot (st : Storage) (key value : Hash) : Storage :=
  if decide (value = zero_hash) then delete key st else <[key := value]> st.

Definition live (A : spec_state) (a : Address) : option account :=
  match accounts A !! a with Some o => if a_deleted o then None else Some o | None => None end.

Definition nonzero (m : Storage) : Storage := filter (fun kv => kv.2 <> zero_hash) m.

(** ** Storage views *)
Lemma nonzero_lookup m k : nonzero m !! k = match m !! k with Some v => if decide (v = zero_hash) then None else Some v | None => None end.
Proof.
  unfold nonzero. rewrite map_lookup_filter. destruct (m !! k) as [v|]; [|done].
  cbn. case_decide as Hv; [|by rewrite option_guard_True]. by rewrite option_guard_False by tauto.
Qed.

Lemma nonzero_value m k : slot_value (nonzero m) k = slot_value m k.
Proof. unfold slot_value. rewrite nonzero_lookup. destruct (m !! k) as [v|]; [|done]. by case_decide. Qed.

Lemma nonzero_ext m m' : (forall k, slot_value m k = slot_value m' k) -> nonzero m = nonzero m'.
Proof.
  intros H. apply map_eq. intros k. specialize (H k). unfold slot_value in H. rewrite !nonzero_lookup.
  destruct (m !! k) as [v|], (m' !! k) as [w|]; cbn in H; subst; [done| | |done]; by rewrite decide_True.
Qed.

Lemma put_slot_value m k v i : slot_value (put_slot m k v) i = if decide (k = i) then v else slot_value m i.
Proof.
  unfold slot_value, put_slot. case_decide as Hv; case_decide as Hk.
  - subst. by rewrite lookup_delete_eq.
  - by rewrite lookup_delete_ne.
  - subst. by rewrite lookup_insert_eq.
  - by rewrite lookup_insert_ne.
Qed.

Lemma insert_value m k v i : slot_value (<[k := v]> m) i = if decide (k = i) then v else slot_value m i.
Proof. unfold slot_value. case_decide; [subst; by rewrite lookup_insert_eq|by rewrite lookup_insert_ne]. Qed.

Lemma put_slot_nonzero m k v : put_slot (nonzero m) k v = nonzero (<[k := v]> m).
Proof.
  assert (nonzero (put_slot (nonzero m) k v) = put_slot (nonzero m) k v) as <-.
  { apply map_eq. intros i. rewrite nonzero_lookup. unfold put_slot. case_decide.
    - destruct (decide (k = i)) as [->|]; [by rewrite lookup_delete_eq|]. rewrite lookup_delete_ne, nonzero_lookup by done.
      destruct (m !! i); [|done]. case_decide; [done|by rewrite decide_False].
    - destruct (decide (k = i)) as [->|]; [rewrite lookup_insert_eq; by rewrite decide_False|].
      rewrite lookup_insert_ne, nonzero_lookup by done. destruct (m !! i); [|done]. case_decide; [done|by rewrite decide_False]. }
  apply nonzero_ext. intros i. by rewrite put_slot_value, insert_value, nonzero_value.
Qed.

Lemma union_value m1 m2 k : slot_value (m1 ∪ m2) k = match m1 !! k with Some v => v | None => slot_value m2 k end.
Proof. unfold slot_value. rewrite lookup_union. destruct (m1 !! k), (m2 !! k); done. Qed.

Lemma put_slot_same m k : put_slot (nonzero m) k (slot_value (nonzero m) k) = nonzero m.
Proof. rewrite put_slot_nonzero. apply nonzero_ext. intros i. rewrite insert_value, nonzero_value. by case_decide; subst. Qed.

Lemma put_slot_back m k v : put_slot (put_slot (nonzero m) k v) k (slot_value (nonzero m) k) = nonzero m.
Proof. rewrite !put_slot_nonzero, insert_insert_eq, <- put_slot_nonzero. apply put_slot_same. Qed.

Section spec.
Context (keccak256 : string -> Hash).

Definition fresh_account : account := mkAcc 0 0 (keccak256 EmptyString) EmptyString ∅ ∅ false false.

(** Change an account, creating it if there is none. *)
Definition change (A : spec_state) (a : Address) (f : account -> account) : outcome (spec_state * reply) :=
  Ret (set_accounts A (<[a := f (default fresh_account (live A a))]> (accounts A)), RUnit).
Definition ask (A : spec_state) (a : Address) (f : account -> reply) (none : reply) : outcome (spec_state * reply) :=
  Ret (A, match live A a with Some o => f o | None => none end).

Definition acc_empty (o : account) : bool :=
  bool_decide (a_nonce o = 0%Z) && bool_decide (a_balance o = 0%Z) && bool_decide (a_codehash o = keccak256 EmptyString).

Definition spec_op (A : spec_state) (o : op) : outcome (spec_state * reply) :=
  match o with
  | OAddBalance a z => change A a (fun o => set_balance o (a_balance o + z))
  | OSubBalance a z => change A a (fun o => set_balance o (a_balance o - z))
  | OSetBalance a z => change A a (fun o => set_balance o z)
  | OSetNonce a n => change A a (fun o => set_nonce o n)
  | OSetCode a c => change A a (fun o => set_code o (keccak256 (default EmptyString c)) (default EmptyString c))
  | OSetState a k v => change A a (fun o => set_state o (put_slot (a_state o) k v))
  | OSuicide a =>
    match live A a with
    | Some o => Ret (set_accounts A (<[a := set_balance (set_suicided o true) 0]> (accounts A)), RBool true)
    | None => Ret (A, RBool false)
    end
  | OCreateAccount a =>
    Ret (set_accounts A (<[a := set_balance fresh_account (match accounts A !! a with Some o => a_balance o | None => 0%Z end)]> (accounts A)), RUnit)
  | OAddRefund g => Ret (set_refund A (wrap_uint64 (a_refund A + g)), RUnit)
  | OSubRefund g => if bool_decide (g > a_refund A)%Z then Panics else Ret (set_refund A (wrap_uint64 (a_refund A - g)), RUnit)
  | OAddLog l =>
    let l := mkLog (log_address l) (log_topics l) (log_data l) (a_thash A) (a_bhash A) (a_txIndex A) (a_logSize A) in
    Ret (set_logs A (<[a_thash A := default [] (a_logs A !! a_thash A) ++ [l]]> (a_logs A)) (wrap_uint64 (a_logSize A + 1)), RUnit)
  | OAddPreimage h p =>
    Ret (match a_preimages A !! h with Some _ => A | None => set_preimages A (<[h := p]> (a_preimages A)) end, RUnit)
  | OExist a => ask A a (fun _ => RBool true) (RBool false)
  | OEmpty a => ask A a (fun o => RBool (acc_empty o)) (RBool true)
  | OGetBalance a => ask A a (fun o => RZ (a_balance o)) (RZ 0)
  | OGetNonce a => ask A a (fun o => RZ (a_nonce o)) (RZ 0)
  | OGetCode a => ask A a (fun o => RBytes (a_code o)) (RBytes EmptyString)
  | OGetCodeSize a => ask A a (fun o => RNat (len (a_code o))) (RNat 0)
  | OGetCodeHash a => ask A a (fun o => RBytes (a_codehash o)) (RBytes zero_hash)
  | OGetState a k => ask A a (fun o => RBytes (slot_value (a_state o) k)) (RBytes zero_hash)
  | OGetCommittedState a k => ask A a (fun o => RBytes (slot_value (a_committed o) k)) (RBytes zero_hash)
  | OHasSuicided a => ask A a (fun o => RBool (a_suicided o)) (RBool false)
  | OGetRefund => Ret (A, RZ (a_refund A))
  | OSnapshot | ORevert _ => Panics
  end.

(** A state with a set of objects that wait for the next flush. *)
Record baseline := mkBase { base_state : spec_state; base_pending : gset Address }.

(** The specification with its saved states, the most recent one last. *)
Record spec_machine := mkMachine { current : spec_state; saved : list (Z * spec_state); next_id : Z }.

(** The saved states before the one with identifier [id], and that one. *)
Fixpoint find_saved (l : list (Z * spec_state)) (id : Z) : option (list (Z * spec_state) * spec_state) :=
  match l with
  | [] => None
  | (i, A) :: l =>
    if decide (i = id) then Some ([], A)
    else match find_saved l id with Some (l, B) => Some ((i, A) :: l, B) | None => None end
  end.

Definition spec_exec (m : spec_machine) (o : op) : outcome (spec_machine * reply) :=
  match o with
  | OSnapshot => Ret (mkMachine (current m) (saved m ++ [(next_id m, current m)]) (next_id m + 1), RZ (next_id m))
  | ORevert id =>
    match find_saved (saved m) id with
    | Some (l, A) => Ret (mkMachine A l (next_id m), RUnit)
    | None => Panics
    end
  | o => spec_op (current m) o ≫= fun '(A, r) => Ret (mkMachine A (saved m) (next_id m), r)
  end.

Fixpoint spec_prog {A} (m : spec_machine) (p : prog A) : outcome (spec_machine * A) :=
  match p with
  | Done a => Ret (m, a)
  | Halt => Panics
  | Do o k => spec_exec m o ≫= fun '(m, r) => spec_prog m (k r)
  end.

(** ** The state a database stands for *)
Definition trie_view (db : Database) (o : stateObject) : Storage :=
  match trie o with Some t => t | None => default ∅ (OpenStorageTrie db (Root (data o))) end.
Definition committed_view (db : Database) (o : stateObject) : Storage :=
  pendingStorage o ∪ (originStorage o ∪ trie_view db o).
Definition code_at (db : Database) (h : Hash) : string :=
  if decide (h = keccak256 EmptyString) then EmptyString else default EmptyString (blobs db !! BytesToHash h).
Definition code_view (db : Database) (o : stateObject) : string :=
  match code o with Some c => c | None => code_at db (CodeHash (data o)) end.

Definition abs_object (db : Database) (o : stateObject) : account :=
  mkAcc (Nonce (data o)) (Balance (data o)) (CodeHash (data o)) (code_view db o)
    (nonzero (dirtyStorage o ∪ committed_view db o)) (nonzero (committed_view db o)) (suicided o) (deleted o).

Definition abs_accounts (db : Database) (m : gmap Address stateObject) : gmap Address account :=
  (abs_object db <$> m) ∪ map_imap (fun a d => Some (abs_object db (newObject a d))) (account_trie db).

Definition abs (db : Database) (s : StateDB) : spec_state :=
  mkSpec (abs_accounts db (stateObjects s)) (refund s) (thash s) (bhash s) (txIndex s) (logs s) (logSize s) (preimages s).

(** What undoing an entry means for that state. *)
Definition on_account (A : spec_state) (a : Address) (f : account -> account) : outcome spec_state :=
  match live A a with Some o => Ret (set_accounts A (<[a := f o]> (accounts A))) | None => Panics end.

Definition spec_revert (db : Database) (A : spec_state) (e : journalEntry) : outcome spec_state :=
  match e with
  | createObjectChange a => Ret (set_accounts A (delete a (accounts A)))
  | resetObjectChange prev => Ret (set_accounts A (<[address prev := abs_object db prev]> (accounts A)))
  | suicideChange a b z =>
    match live A a with
    | Some o => Ret (set_accounts A (<[a := set_balance (set_suicided o b) z]> (accounts A)))
    | None => Ret A
    end
  | balanceChange a z => on_account A a (fun o => set_balance o z)
  | nonceChange a n => on_account A a (fun o => set_nonce o n)
  | storageChange a k v => on_account A a (fun o => set_state o (put_slot (a_state o) k v))
  | codeChange a c h =>
    on_account A a (fun o => set_code o (BytesToHash h) (match c with Some c => c | None => code_at db (BytesToHash h) end))
  | refundChange r => Ret (set_refund A r)
  | addLogChange t =>
    match default [] (a_logs A !! t) with
    | [] => Panics
    | [_] => Ret (set_logs A (delete t (a_logs A)) (wrap_uint64 (a_logSize A - 1)))
    | l => Ret (set_logs A (<[t := take (length l - 1) l]> (a_logs A)) (wrap_uint64 (a_logSize A - 1)))
    end
  | addPreimageChange h => Ret (set_preimages A (delete h (a_preimages A)))
  | touchChange _ => Ret A
  end.

(** ** Well-formed databases *)
Class CodeDB (db : Database) : Prop := {
  keccak_hash : forall x, BytesToHash (keccak256 x) = keccak256 x;
  account_hash : forall a d, account_trie db !! a = Some d -> BytesToHash (CodeHash d) = CodeHash d;
  account_code : forall a d, account_trie db !! a = Some d -> CodeHash d = keccak256 EmptyString \/ is_Some (blobs db !! CodeHash d);
  account_root : forall a d, account_trie db !! a = Some d -> is_Some (OpenStorageTrie db (Root d));
  empty_blob : default EmptyString (blobs db !! keccak256 EmptyString) = EmptyString }.

(** The cache of original values agrees with the trie and covers every slot
    that was written. *)
Definition coherent (db : Database) (o : stateObject) : Prop :=
  (forall k v, originStorage o !! k = Some v -> slot_value (trie_view db o) k = v) /\
  dom (dirtyStorage o) ∪ dom (pendingStorage o) ⊆ dom (originStorage o).

(** No error was recorded, neither the storage nor the code of the object will
    cause one, and a code that was not set is the one of the database. *)
Definition has_code (db : Database) (h : Hash) : Prop := h = keccak256 EmptyString \/ is_Some (blobs db !! h).
Definition sound (db : Database) (o : stateObject) : Prop :=
  obj_dbErr o = false /\ is_Some (OpenStorageTrie db (Root (data o))) /\ (code o = None \/ dirtyCode o = false -> has_code db (CodeHash (data o)) /\ code_view db o = code_at db (CodeHash (data o))).

Definition object_ok (db : Database) (o : stateObject) : Prop :=
  fakeStorage o = None /\ BytesToHash (CodeHash (data o)) = CodeHash (data o) /\ sound db o /\ coherent db o.

Definition entry_ok (db : Database) (pending : gset Address) (e : journalEntry) : Prop :=
  match e with
  | createObjectChange a => account_trie db !! a = None /\ a ∉ pending
  | resetObjectChange prev => object_ok db prev
  | codeChange _ c h => BytesToHash h = h /\ (c = None -> has_code db h)
  | _ => True
  end.

(** The account an entry is about. *)
Definition concerns (e : journalEntry) : option Address :=
  match e with resetObjectChange p => Some (address p) | e => dirtied e end.

(** The slots each live object has read, and that undoing the entries (the last
    one first) only ever meets live objects and writes such slots. *)
Definition origins (s : StateDB) : gmap Address (gset Hash) := (fun o => dom (originStorage o)) <$> stateObjects s.
Definition entry_at (e : journalEntry) (O : gmap Address (gset Hash)) : Prop :=
  forall a, concerns e = Some a -> exists K, O !! a = Some K /\ match e with storageChange _ k _ => k ∈ K | _ => True end.
Definition entry_before (e : journalEntry) (O : gmap Address (gset Hash)) : gmap Address (gset Hash) :=
  match e with
  | createObjectChange a => delete a O
  | resetObjectChange p => <[address p := dom (originStorage p)]> O
  | _ => O
  end.
Fixpoint trail (l : list journalEntry) (O : gmap Address (gset Hash)) : Prop :=
  match l with [] => True | e :: l => entry_at e O /\ trail l (entry_before e O) end.

Record wf (db : Database) (s : StateDB) : Prop := {
  wf_object : forall a o, stateObjects s !! a = Some o -> address o = a /\ object_ok db o;
  wf_entry : forall e, e ∈ entries (jrnl s) -> entry_ok db (stateObjectsPending s) e;
  wf_logs : forall h, logs s !! h <> Some [];
  wf_size : (0 <= logSize s < 2^64)%Z;
  wf_sets : stateObjectsPending s ∪ stateObjectsDirty s ⊆ dom (stateObjects s) }.

Context (db : Database).

Lemma getTrie_spec o o' t : getTrie db o = (o', t) ->
  t = trie_view db o /\ trie_view db o' = t /\ ((exists err, o' = with_trie o err t) \/ o' = o) /\
  (is_Some (OpenStorageTrie db (Root (data o))) -> obj_dbErr o' = obj_dbErr o).
Proof.
  unfold getTrie, trie_view. intros H. destruct (trie o) as [u|] eqn:E.
  - injection H as <- <-. rewrite E. eauto.
  - destruct (OpenStorageTrie db (Root (data o))) as [u|]; injection H as <- <-; cbn; (split; [done|]); (split; [done|]); (split; [eauto|]); [done|by intros [? ?]].
Qed.

(** An object that has only filled its caches. *)
Definition refreshed (o o' : stateObject) : Prop :=
  abs_object db o' = abs_object db o /\ address o' = address o /\ object_ok db o' /\ data o' = data o /\
  dom (originStorage o) ⊆ dom (originStorage o').

Lemma refreshed_refl o : object_ok db o -> refreshed o o.
Proof. intros Ho. by split_and!. Qed.

Lemma coherent_cache o k v : coherent db o -> v = slot_value (trie_view db o) k ->
  coherent db (with_storage o (<[k := v]> (originStorage o)) (pendingStorage o) (dirtyStorage o)).
Proof.
  intros [H1 H2] Hv. split.
  - intros i w. cbn. destruct (decide (k = i)) as [<-|]; [rewrite lookup_insert_eq; by intros [= <-]|rewrite lookup_insert_ne by done; apply H1].
  - cbn. rewrite dom_insert_L. set_solver.
Qed.

Lemma coherent_trie o err t : coherent db o -> t = trie_view db o -> coherent db (with_trie o err t).
Proof. intros [H1 H2] ->. by split. Qed.

Lemma GetCommittedState_spec o o' k v : object_ok db o -> obj_GetCommittedState db o k = (o', v) ->
  v = slot_value (a_committed (abs_object db o)) k /\ refreshed o o' /\ k ∈ dom (originStorage o').
Proof.
  intros (Hf & Hh & Hsd & Hc) H. unfold obj_GetCommittedState in H. rewrite Hf in H. cbn [abs_object a_committed].
  rewrite nonzero_value. unfold committed_view. rewrite !union_value.
  destruct (pendingStorage o !! k) as [w|] eqn:Ep.
  { injection H as <- <-. split; [done|]. split; [by apply refreshed_refl|]. apply elem_of_dom_2 in Ep. destruct Hc. set_solver. }
  destruct (originStorage o !! k) as [w|] eqn:Eo.
  { injection H as <- <-. split; [done|]. split; [by apply refreshed_refl|]. by apply elem_of_dom_2 in Eo. }
  destruct (getTrie db o) as [o1 t] eqn:Et. injection H as <- <-. apply getTrie_spec in Et as (Ht & Ht' & Ho & Herr).
  assert (coherent db o1 /\ originStorage o1 = originStorage o /\ fakeStorage o1 = None /\ data o1 = data o /\ code o1 = code o /\ dirtyCode o1 = dirtyCode o) as (Hc1 & Ho1 & Hf1 & Hd1 & Hco & Hdc).
  { destruct Ho as [[err ->] | ->]; [|done]. split; [by apply coherent_trie|done]. }
  assert (sound db o1) as Hsd1. { destruct Hsd as (E1 & E2 & E3). unfold sound, code_view in *. by rewrite Herr, Hd1, Hco, Hdc. }
  split; [by subst t|]. split; [|cbn; rewrite dom_insert_L; set_solver].
  assert (forall m, nonzero (m ∪ (pendingStorage o ∪ (<[k:=slot_value t k]> (originStorage o) ∪ t))) =
    nonzero (m ∪ (pendingStorage o ∪ (originStorage o ∪ t)))) as Hv.
  { intros m. apply nonzero_ext. intros i. rewrite !union_value. destruct (m !! i); [done|]. destruct (pendingStorage o !! i); [done|].
    destruct (decide (k = i)) as [<-|]; [by rewrite lookup_insert_eq, Eo|by rewrite lookup_insert_ne]. }
  pose proof (Hv ∅) as H0. rewrite !(left_id_L ∅ (∪)) in H0. split; [|split; [by destruct Ho as [[err ->] | ->]|]].
  - unfold abs_object, committed_view, code_view, trie_view in *. destruct Ho as [[err ->] | ->]; cbn in *.
    + by rewrite Hv, H0, <- Ht.
    + rewrite <- Ht. by rewrite Hv, H0.
  - split; [split; [done|]; split; [cbn; by rewrite Hd1|split; [exact Hsd1|apply coherent_cache; [done|by rewrite Ht']]]|].
    split; [done|]. cbn. rewrite dom_insert_L, Ho1. set_solver.
Qed.

Lemma GetState_spec o o' k v : object_ok db o -> obj_GetState db o k = (o', v) ->
  v = slot_value (a_state (abs_object db o)) k /\ refreshed o o' /\ k ∈ dom (originStorage o').
Proof.
  intros Ho H. unfold obj_GetState in H. rewrite (proj1 Ho) in H. cbn [abs_object a_state]. rewrite nonzero_value, union_value.
  destruct (dirtyStorage o !! k) as [w|] eqn:E.
  { injection H as <- <-. split; [done|]. split; [by apply refreshed_refl|]. apply elem_of_dom_2 in E. destruct Ho as (_ & _ & _ & _ & ?). set_solver. }
  destruct (GetCommittedState_spec o o' k v Ho H) as (-> & H'). split; [|done]. cbn [abs_object a_committed]. apply nonzero_value.
Qed.

Lemma Code_spec o o' c : object_ok db o -> obj_Code keccak256 db o = (o', c) ->
  default EmptyString c = a_code (abs_object db o) /\ refreshed o o' /\
  (match c with Some c => c | None => code_at db (CodeHash (data o)) end) = a_code (abs_object db o) /\
  (c = None -> has_code db (CodeHash (data o))).
Proof.
  intros Ho H. unfold obj_Code in H. cbn [abs_object a_code]. unfold code_view, code_at. destruct (code o) as [x|] eqn:Ec.
  { injection H as <- <-. split; [done|]. split; [by apply refreshed_refl|done]. }
  case_decide as Hh.
  { injection H as <- <-. unfold emptyCodeHash in Hh. rewrite decide_True by done. split; [done|]. split; [by apply refreshed_refl|].
    split; [done|]. intros _. by left. }
  unfold emptyCodeHash in Hh. destruct Ho as (H1 & H2 & (H3 & H4 & H5) & H6). destruct (proj1 (H5 (or_introl Ec))) as [?|[x Hx]]; [done|].
  rewrite H2, Hx in H. injection H as <- <-. rewrite decide_False, H2, Hx by done. split; [done|]. split; [|done].
  split; [unfold abs_object, code_view, code_at; cbn; by rewrite Ec, decide_False, H2, Hx|]. split; [done|]. split; [|by split].
  split; [done|]. split; [done|]. split; [|done]. split; [done|]. split; [done|]. intros _. split; [by apply H5; left|].
  unfold code_view, code_at. cbn. by rewrite decide_False, H2, Hx.
Qed.

(** ** Accounts of the view *)
Lemma abs_lookup m a : abs_accounts db m !! a =
  match m !! a with Some o => Some (abs_object db o) | None => (fun d => abs_object db (newObject a d)) <$> account_trie db !! a end.
Proof.
  unfold abs_accounts. rewrite lookup_union, lookup_fmap, map_lookup_imap.
  destruct (m !! a); cbn; [by destruct (account_trie db !! a)|]. by destruct (account_trie db !! a).
Qed.

Lemma abs_insert m a o : abs_accounts db (<[a := o]> m) = <[a := abs_object db o]> (abs_accounts db m).
Proof.
  apply map_eq. intros b. rewrite abs_lookup. destruct (decide (a = b)) as [->|].
  - by rewrite !lookup_insert_eq.
  - rewrite !lookup_insert_ne by done. by rewrite abs_lookup.
Qed.

Lemma abs_delete m a : account_trie db !! a = None -> abs_accounts db (delete a m) = delete a (abs_accounts db m).
Proof.
  intros Ha. apply map_eq. intros b. rewrite abs_lookup. destruct (decide (a = b)) as [->|].
  - by rewrite !lookup_delete_eq, Ha.
  - rewrite !lookup_delete_ne by done. by rewrite abs_lookup.
Qed.

Lemma abs_set s o : abs db (setStateObject s o) = set_accounts (abs db s) (<[address o := abs_object db o]> (abs_accounts db (stateObjects s))).
Proof. unfold abs. cbn. by rewrite abs_insert. Qed.

Lemma abs_same s o o' : stateObjects s !! address o = Some o' -> abs_object db o = abs_object db o' -> abs db (setStateObject s o) = abs db s.
Proof. intros Ho Hs. rewrite abs_set. unfold abs, set_accounts. cbn. rewrite insert_id; [done|]. by rewrite abs_lookup, Ho, Hs. Qed.

Lemma live_lookup s a : live (abs db s) a =
  match stateObjects s !! a with
  | Some o => if deleted o then None else Some (abs_object db o)
  | None => (fun d => abs_object db (newObject a d)) <$> account_trie db !! a
  end.
Proof. unfold live, abs. cbn. rewrite abs_lookup. destruct (stateObjects s !! a); [done|]. by destruct (account_trie db !! a). Qed.

(** ** Well-formedness *)
Context `{!CodeDB db}.

Lemma wf_new : wf db NewWithTrie.
Proof.
  split; cbn; [done|by intros e He%elem_of_nil|done|lia|set_solver].
Qed.

Lemma wf_set s o : wf db s -> object_ok db o -> wf db (setStateObject s o).
Proof.
  intros [H1 H2 H3 H4 H5] Ho. split; cbn; try done; [|rewrite dom_insert_L; set_solver].
  intros a u. destruct (decide (address o = a)) as [Ha|Hne].
  - subst a. rewrite lookup_insert_eq. intros [= <-]. by split.
  - rewrite lookup_insert_ne by done. apply H1.
Qed.

Lemma entries_append j e : entries (journal_append j e) = entries j ++ [e].
Proof. unfold journal_append. by destruct (dirtied e). Qed.

Lemma wf_add s e : wf db s -> entry_ok db (stateObjectsPending s) e -> wf db (add_entry s e).
Proof.
  intros [H1 H2 H3 H4 H5] He. split; cbn; try done. intros e'. rewrite entries_append, elem_of_app, list_elem_of_singleton.
  intros [H| ->]; [by apply H2|done].
Qed.

Lemma newObject_ok a d : BytesToHash (CodeHash d) = CodeHash d -> has_code db (CodeHash d) -> is_Some (OpenStorageTrie db (Root d)) ->
  address (newObject a d) = a /\ object_ok db (newObject a d) /\ deleted (newObject a d) = false.
Proof.
  intros H1 H2 H3. split; [done|]. split; [|done]. unfold newObject. case_decide; (split; [done|]); (split; [done|]); (split; [|done]);
    (split; [done|]); (split; [|done]); [|done]. unfold OpenStorageTrie. rewrite decide_True by (right; done). by eexists.
Qed.

Lemma emptyObject_ok a : address (newObject a (empty_account keccak256)) = a /\ object_ok db (newObject a (empty_account keccak256)) /\
  deleted (newObject a (empty_account keccak256)) = false.
Proof.
  apply newObject_ok; [apply keccak_hash|by left|]. unfold OpenStorageTrie. rewrite decide_True by (left; done). by eexists.
Qed.

(** ** Growth: an operation adds entries whose undoing gives the old state *)
Definition wider (O O' : gmap Address (gset Hash)) : Prop :=
  forall a K, O !! a = Some K -> exists K', O' !! a = Some K' /\ K ⊆ K'.

Lemma wider_refl O : wider O O.
Proof. intros a K HK. eauto. Qed.

Lemma entry_before_mono e O O' : wider O O' -> wider (entry_before e O) (entry_before e O').
Proof.
  intros HO. destruct e; cbn; try done; intros a K.
  - rewrite lookup_delete_Some. intros [Hne HK]. destruct (HO a K HK) as (K' & HK' & Hs). exists K'. by rewrite lookup_delete_ne.
  - rewrite lookup_insert_Some. intros [[<- <-]|[Hne HK]]; [rewrite lookup_insert_eq; eauto|]. rewrite lookup_insert_ne by done. by apply HO.
Qed.

Lemma trail_mono l : forall O O', wider O O' -> trail l O -> trail l O'.
Proof.
  induction l as [|e l IH]; intros O O' HO; [done|]. intros [He Ht]. split; [|by eapply IH, Ht; apply entry_before_mono].
  intros a Ha. destruct (He a Ha) as (K & HK & Hk). destruct (HO _ _ HK) as (K' & HK' & Hs). exists K'. split; [done|]. destruct e; set_solver.
Qed.

(** The counters of the journal cover the entries about an address. *)
Definition about (a : Address) (l : list journalEntry) : nat := length (filter (fun e => dirtied e = Some a) l).
Definition tracked (l : list journalEntry) (j : journal) : Prop :=
  forall a, (Z.of_nat (about a l) <= default 0 (dirties j !! a))%Z /\ dirties j !! a <> Some 0%Z.

Lemma tracked_dirty l j a : tracked l j -> tracked l (journal_dirty j a).
Proof.
  intros H b. destruct (H b) as [H1 H2]. cbn. destruct (decide (a = b)) as [<-|]; [|by rewrite lookup_insert_ne].
  rewrite lookup_insert_eq. cbn. split; [lia|]. intros [= ?]. lia.
Qed.

Lemma about_cons a e l : about a (e :: l) = (if decide (dirtied e = Some a) then 1 else 0) + about a l.
Proof. unfold about. rewrite filter_cons. by case_decide. Qed.

Lemma tracked_append l j e : tracked l j -> tracked (e :: l) (journal_append j e).
Proof.
  intros H b. rewrite about_cons. unfold journal_append. destruct (dirtied e) as [a|] eqn:E; [|rewrite decide_False by done; apply H].
  cbn. destruct (H b) as [H1 H2]. destruct (decide (a = b)) as [<-|].
  - rewrite lookup_insert_eq, decide_True by done. cbn. split; [lia|]. intros [= ?]. lia.
  - rewrite lookup_insert_ne, decide_False by (done || congruence). done.
Qed.

Lemma tracked_undirty l j e : tracked (e :: l) j -> tracked l (journal_undirty j e).
Proof.
  intros H b. destruct (H b) as [H1 H2]. rewrite about_cons in H1. unfold journal_undirty. destruct (dirtied e) as [a|] eqn:E.
  2: { rewrite decide_False in H1 by done. done. }
  cbn. destruct (decide (a = b)) as [<-|].
  - rewrite decide_True in H1 by done. case_decide as Hz.
    + rewrite lookup_delete_eq. cbn. split; [lia|done].
    + rewrite lookup_insert_eq. cbn. split; [lia|]. by intros [= ?].
  - rewrite decide_False in H1 by congruence. case_decide; [by rewrite lookup_delete_ne|by rewrite lookup_insert_ne].
Qed.

(** A journal with one more entry, marked dirty once more in [touch]. *)
Definition appended (j j' : journal) (e : journalEntry) : Prop :=
  j' = journal_append j e \/ exists a, j' = journal_dirty (journal_append j e) a.

Definition same_sets (s s' : StateDB) : Prop :=
  stateObjectsPending s' = stateObjectsPending s /\ stateObjectsDirty s' ⊆ stateObjectsDirty s /\
  forall a, a ∈ stateObjectsPending s -> a ∈ stateObjectsDirty s -> a ∈ stateObjectsDirty s'.

(** Where the last thing that happened to an account is that it was created
    over another one, it is a fresh account with some balance. *)
Definition renews (A : spec_state) (e : journalEntry) : Prop :=
  match e with resetObjectChange q => exists z, accounts A !! address q = Some (set_balance fresh_account z) | _ => True end.
Fixpoint renewed (A : spec_state) (l : list journalEntry) : Prop :=
  match l with
  | [] => True
  | e :: l => renews A e /\ match spec_revert db A e with Ret B => renewed B l | _ => True end
  end.

Lemma renewed_app l1 l2 : forall A B, foldM (spec_revert db) A l1 = Ret B -> renewed A (l1 ++ l2) <-> renewed A l1 /\ renewed B l2.
Proof.
  induction l1 as [|e l1 IH]; intros A B H; cbn in *; [injection H as <-; tauto|].
  destruct (spec_revert db A e) as [C| |]; [|done..]. cbn in H. rewrite (IH _ _ H). tauto.
Qed.

Record grows (s s' : StateDB) : Prop := {
  g_wf : wf db s';
  g_revs : validRevisions s' = validRevisions s;
  g_next : nextRevisionId s' = nextRevisionId s;
  g_sets : same_sets s s';
  g_undo : exists l, entries (jrnl s') = entries (jrnl s) ++ l /\ foldM (spec_revert db) (abs db s') (reverse l) = Ret (abs db s) /\
    (forall l0, trail l0 (origins s) -> trail (reverse l ++ l0) (origins s')) /\
    (forall l0, tracked l0 (jrnl s) -> tracked (reverse l ++ l0) (jrnl s')) /\ renewed (abs db s') (reverse l) }.

Lemma grows_silent s s' : wf db s' -> validRevisions s' = validRevisions s -> nextRevisionId s' = nextRevisionId s /\ same_sets s s' ->
  jrnl s' = jrnl s -> abs db s' = abs db s -> wider (origins s) (origins s') -> grows s s'.
Proof. intros Hw Hr [Hn Hss] He Ha Ho. split; try done. exists []. cbn. rewrite He, app_nil_r, Ha. split; [done|]. split; [done|]. split; [|done]. intros l0. by apply trail_mono. Qed.

Lemma grows_refl s : wf db s -> grows s s.
Proof. intros Hw. apply grows_silent; try done. apply wider_refl. Qed.

Lemma grows_one s s' e : wf db s' -> validRevisions s' = validRevisions s -> nextRevisionId s' = nextRevisionId s /\ same_sets s s' ->
  appended (jrnl s) (jrnl s') e -> spec_revert db (abs db s') e = Ret (abs db s) ->
  (forall l0, trail l0 (origins s) -> trail (e :: l0) (origins s')) -> renews (abs db s') e -> grows s s'.
Proof.
  intros Hw Hr [Hn Hss] He Hu Ht Hf. split; try done. exists [e]. cbn. rewrite Hu.
  split; [destruct He as [-> | [a ->]]; apply entries_append|]. split; [done|]. split; [done|].
  split; [|done]. intros l0 Hl0. destruct He as [-> | [a ->]]; [by apply tracked_append|by apply tracked_dirty, tracked_append].
Qed.

Lemma same_sets_trans s s1 s2 : same_sets s s1 -> same_sets s1 s2 -> same_sets s s2.
Proof. intros (H1 & H2 & H3) (K1 & K2 & K3). split; [congruence|]. split; [by etrans|]. intros a Ha Hd. apply K3; [by rewrite H1|by apply H3]. Qed.

Lemma grows_trans s s1 s2 : grows s s1 -> grows s1 s2 -> grows s s2.
Proof.
  intros [H1 H2 H3 S1 (l & H4 & H5 & H6 & H7 & H8)] [K1 K2 K3 S2 (m & K4 & K5 & K6 & K7 & K8)].
  split; [done|congruence|congruence|by eapply same_sets_trans|].
  exists (l ++ m). split; [by rewrite K4, H4, app_assoc|]. rewrite reverse_app, foldM_app, K5. split; [done|].
  split; [intros l0 Hl0; rewrite <- app_assoc; by apply K6, H6|]. split; [intros l0 Hl0; rewrite <- app_assoc; by apply K7, H7|].
  by apply (renewed_app _ _ _ (abs db s1)).
Qed.

Lemma origins_set s o : origins (setStateObject s o) = <[address o := dom (originStorage o)]> (origins s).
Proof. unfold origins. cbn. by rewrite fmap_insert. Qed.

Lemma wider_set s o o' : stateObjects s !! address o' = Some o -> dom (originStorage o) ⊆ dom (originStorage o') ->
  wider (origins s) (origins (setStateObject s o')).
Proof.
  intros Ho Hs a K HK. rewrite origins_set. destruct (decide (address o' = a)) as [<-|]; [|rewrite lookup_insert_ne by done; eauto].
  rewrite lookup_insert_eq. unfold origins in HK. rewrite lookup_fmap, Ho in HK. injection HK as <-. eauto.
Qed.

Lemma wider_new s o : stateObjects s !! address o = None -> wider (origins s) (origins (setStateObject s o)).
Proof.
  intros Ho a K HK. rewrite origins_set. destruct (decide (address o = a)) as [<-|]; [|rewrite lookup_insert_ne by done; eauto].
  unfold origins in HK. by rewrite lookup_fmap, Ho in HK.
Qed.

(** What an entry notes of an object it is about. *)
Definition notes (e : journalEntry) (o : stateObject) : Prop :=
  match e with
  | createObjectChange _ | resetObjectChange _ => False
  | storageChange a k _ => a = address o /\ k ∈ dom (originStorage o)
  | e => match dirtied e with Some a => a = address o | None => True end
  end.

Lemma trail_set s o o' e l0 : stateObjects s !! address o' = Some o -> dom (originStorage o) ⊆ dom (originStorage o') -> notes e o' ->
  trail l0 (origins s) -> trail (e :: l0) (origins (setStateObject (add_entry s e) o')).
Proof.
  intros Ho Hs He Ht. assert (trail l0 (origins (setStateObject (add_entry s e) o'))) as Ht'.
  { eapply trail_mono; [|exact Ht]. by apply (wider_set (add_entry s e) o). }
  split; [|by destruct e]. intros a Ha. exists (dom (originStorage o')). rewrite origins_set. destruct e; cbn in *; try done; injection Ha as <-;
    try (rewrite He, lookup_insert_eq; done). destruct He as [-> Hk]. by rewrite lookup_insert_eq.
Qed.

Lemma getDeleted_spec s s' a r : wf db s -> getDeletedStateObject db s a = (s', r) ->
  grows s s' /\ abs db s' = abs db s /\ stateObjectsPending s' = stateObjectsPending s /\ jrnl s' = jrnl s /\
  match r with
  | Some o => stateObjects s' !! a = Some o /\ address o = a /\ object_ok db o
  | None => s' = s /\ stateObjects s !! a = None /\ account_trie db !! a = None
  end.
Proof.
  intros Hw H. unfold getDeletedStateObject in H. destruct (stateObjects s !! a) as [o|] eqn:Eo.
  { injection H as <- <-. split; [by apply grows_refl|]. split_and!; try done; by apply (wf_object db s Hw a). }
  destruct (account_trie db !! a) as [d|] eqn:Ed; injection H as <- <-.
  - destruct (newObject_ok a d) as (Ha & Hok & _); [by eapply account_hash|by eapply account_code|by eapply account_root|].
    assert (abs db (setStateObject s (newObject a d)) = abs db s) as Habs.
    { rewrite abs_set, Ha. unfold abs, set_accounts. cbn. rewrite insert_id; [done|]. by rewrite abs_lookup, Eo, Ed. }
    split; [apply grows_silent; try done; [by apply wf_set|apply wider_new; by rewrite Ha]|]. split_and!; try done.
    unfold setStateObject. cbn [stateObjects with_objects]. by rewrite Ha, lookup_insert_eq.
  - split; [by apply grows_refl|done].
Qed.

Lemma getStateObject_spec s s' a r : wf db s -> getStateObject db s a = (s', r) ->
  grows s s' /\ abs db s' = abs db s /\ live (abs db s) a = abs_object db <$> r /\
  match r with
  | Some o => stateObjects s' !! a = Some o /\ address o = a /\ object_ok db o /\ deleted o = false
  | None => True
  end.
Proof.
  intros Hw H. unfold getStateObject in H. destruct (getDeletedStateObject db s a) as [s1 r1] eqn:E.
  destruct (getDeleted_spec _ _ _ _ Hw E) as (Hg & Ha & _ & _ & Hr). destruct r1 as [o|]; injection H as <- <-.
  - destruct Hr as (Hl & Hr). rewrite <- Ha, live_lookup, Hl. destruct (deleted o) eqn:Ed; [done|]. tauto.
  - destruct Hr as (_ & Hl & Hd). by rewrite live_lookup, Hl, Hd.
Qed.

Lemma fresh_object a : abs_object db (setNonce (newObject a (empty_account keccak256)) 0) = fresh_account.
Proof.
  unfold abs_object, committed_view, trie_view, code_view, code_at, newObject, empty_account. cbn.
  rewrite decide_True by done. cbn. unfold emptyCodeHash. rewrite decide_True by done.
  unfold OpenStorageTrie. rewrite decide_True by tauto. done.
Qed.

Lemma create_grows s a r : wf db s -> (getDeletedStateObject db s a).2 = r -> forall n, address n = a -> object_ok db n -> (exists z, abs_object db n = set_balance fresh_account z) ->
  let s' := setStateObject (add_entry (getDeletedStateObject db s a).1 (match r with None => createObjectChange a | Some p => resetObjectChange p end)) n in
  grows s s' /\ abs db s' = set_accounts (abs db s) (<[a := abs_object db n]> (accounts (abs db s))).
Proof.
  intros Hw Hr0 n Hna Hnok [z Hz]. destruct (getDeletedStateObject db s a) as [s1 r1] eqn:E. cbn in Hr0. subst r1.
  destruct (getDeleted_spec _ _ _ _ Hw E) as (Hg & Ha & Hp & _ & Hr). cbn zeta. cbn [fst].
  set (e := match r with None => createObjectChange a | Some p => resetObjectChange p end).
  assert (wf db (add_entry s1 e)) as Hw1.
  { apply wf_add; [apply Hg|]. unfold e. destruct r as [p|]; cbn; [apply Hr|].
    destruct Hr as (-> & Hl & Hd). split; [done|]. intros Hin. apply not_elem_of_dom in Hl. apply Hl, (wf_sets db s Hw). set_solver. }
  assert (abs db (setStateObject (add_entry s1 e) n) = set_accounts (abs db s) (<[a := abs_object db n]> (accounts (abs db s)))) as Habs.
  { rewrite abs_set, Hna, <- Ha. done. }
  split; [|done]. eapply grows_trans; [exact Hg|]. apply (grows_one _ _ e); [by apply wf_set|done|done|by left| | |].
  3: { rewrite Habs. unfold e. destruct r as [p|]; [|done]. exists z. destruct Hr as (_ & -> & _). cbn. by rewrite lookup_insert_eq, Hz. }
  2: { intros l0 Hl0. rewrite origins_set, Hna. change (origins (add_entry s1 e)) with (origins s1). unfold e. destruct r as [p|]; cbn [trail entry_before].
       - destruct Hr as (Hl & Hpa & _). split; [intros b [= <-]; rewrite Hpa, lookup_insert_eq; eauto|]. rewrite Hpa, insert_insert_eq, insert_id; [done|]. unfold origins. by rewrite lookup_fmap, Hl.
       - destruct Hr as (-> & Hl & _). split; [intros b [= <-]; rewrite lookup_insert_eq; eauto|]. rewrite delete_insert_id; [done|]. unfold origins. by rewrite lookup_fmap, Hl. }
  rewrite Habs, <- Ha. unfold e. destruct r as [p|]; cbn [spec_revert]; f_equal.
  - destruct Hr as (Hl & -> & _). unfold set_accounts, abs. cbn. rewrite insert_insert_eq, insert_id; [done|]. by rewrite abs_lookup, Hl.
  - destruct Hr as (-> & Hl & Hd). unfold set_accounts, abs. cbn. rewrite delete_insert_id; [done|]. by rewrite abs_lookup, Hl, Hd.
Qed.

Lemma createObject_spec s s' a o prev : wf db s -> createObject keccak256 db s a = (s', o, prev) ->
  grows s s' /\ stateObjects s' !! a = Some o /\ address o = a /\ object_ok db o /\ deleted o = false /\
  abs_object db o = fresh_account /\
  abs db s' = set_accounts (abs db s) (<[a := fresh_account]> (accounts (abs db s))).
Proof.
  intros Hw H. unfold createObject in H. pose proof (create_grows s a _ Hw eq_refl) as Hc.
  destruct (getDeletedStateObject db s a) as [s1 r1] eqn:E. cbn [fst snd] in Hc. cbn zeta in H. injection H as <- <- <-.
  destruct (emptyObject_ok a) as (Had & [Hf Hh] & Hdel).
  destruct (Hc (setNonce (newObject a (empty_account keccak256)) 0)) as [H1 H2]; [done|done|exists 0%Z; by rewrite fresh_object|].
  split; [done|]. split; [cbn; by rewrite lookup_insert_eq|]. rewrite fresh_object in H2 |- *. done.
Qed.

Lemma GetOrNew_spec s s' a o : wf db s -> GetOrNewStateObject keccak256 db s a = (s', o) ->
  grows s s' /\ stateObjects s' !! a = Some o /\ address o = a /\ object_ok db o /\ deleted o = false /\
  abs_object db o = default fresh_account (live (abs db s) a) /\
  forall x, set_accounts (abs db s') (<[a := x]> (accounts (abs db s'))) = set_accounts (abs db s) (<[a := x]> (accounts (abs db s))).
Proof.
  intros Hw H. unfold GetOrNewStateObject in H. destruct (getStateObject db s a) as [s1 r] eqn:E.
  destruct (getStateObject_spec _ _ _ _ Hw E) as (Hg & Ha & Hl & Hr). destruct r as [u|].
  - injection H as <- <-. destruct Hr as (H1 & H2 & H3 & H4). rewrite Hl, Ha. done.
  - destruct (createObject keccak256 db s1 a) as [[s2 u] prev] eqn:Ec. injection H as <- <-.
    destruct (createObject_spec _ _ _ _ _ (g_wf _ _ Hg) Ec) as (Hg2 & H1 & H2 & H3 & H4 & H5 & H6).
    split; [by eapply grows_trans|]. rewrite Hl. split_and!; try done. intros x. rewrite H6, Ha. unfold set_accounts. cbn.
    by rewrite insert_insert_eq.
Qed.

Lemma grows_modify s e o o' : wf db s -> stateObjects s !! address o' = Some o -> object_ok db o' -> entry_ok db (stateObjectsPending s) e ->
  dom (originStorage o) ⊆ dom (originStorage o') -> notes e o' ->
  spec_revert db (set_accounts (abs db s) (<[address o' := abs_object db o']> (accounts (abs db s)))) e = Ret (abs db s) ->
  grows s (setStateObject (add_entry s e) o') /\
  abs db (setStateObject (add_entry s e) o') = set_accounts (abs db s) (<[address o' := abs_object db o']> (accounts (abs db s))).
Proof.
  intros Hw Ho Hok He Hdom Hn Hr. assert (abs db (setStateObject (add_entry s e) o') =
    set_accounts (abs db s) (<[address o' := abs_object db o']> (accounts (abs db s)))) as Ha by (by rewrite abs_set).
  split; [|done]. apply (grows_one _ _ e); [apply wf_set; [by apply wf_add|done]|done|done|by left|by rewrite Ha| |by destruct e].
  intros l0. by apply (trail_set s o).
Qed.

Lemma on_account_back A a x y f : a_deleted x = false -> f x = y -> accounts A !! a = Some y ->
  on_account (set_accounts A (<[a := x]> (accounts A))) a f = Ret A.
Proof.
  intros Hd Hf Hy. unfold on_account, live. cbn. rewrite lookup_insert_eq, Hd, Hf. f_equal.
  unfold set_accounts. cbn. rewrite insert_insert_eq, insert_id by done. by destruct A.
Qed.

(** The operations that change one account: [x] is the changed account. *)
Definition changes (s s' : StateDB) (a : Address) (x : account) : Prop :=
  grows s s' /\ abs db s' = set_accounts (abs db s) (<[a := x]> (accounts (abs db s))).

Lemma changes_modify s a o o' e : wf db s -> stateObjects s !! a = Some o -> address o' = a -> object_ok db o' ->
  entry_ok db (stateObjectsPending s) e -> dom (originStorage o) ⊆ dom (originStorage o') -> notes e o' ->
  spec_revert db (set_accounts (abs db s) (<[a := abs_object db o']> (accounts (abs db s)))) e = Ret (abs db s) ->
  changes s (setStateObject (add_entry s e) o') a (abs_object db o').
Proof. intros Hw Ho <- Hok He Hdom Hn Hr. by eapply grows_modify. Qed.

Lemma changes_none s a o : wf db s -> stateObjects s !! a = Some o -> changes s s a (abs_object db o).
Proof.
  intros Hw Ho. split; [by apply grows_refl|]. unfold set_accounts, abs. cbn. rewrite insert_id; [done|]. by rewrite abs_lookup, Ho.
Qed.

Lemma accounts_lookup s a o : stateObjects s !! a = Some o -> accounts (abs db s) !! a = Some (abs_object db o).
Proof. intros Ho. cbn. by rewrite abs_lookup, Ho. Qed.

Lemma SetBalance_changes s a o z : wf db s -> stateObjects s !! a = Some o -> address o = a -> object_ok db o -> deleted o = false ->
  changes s (obj_SetBalance s o z) a (set_balance (abs_object db o) z).
Proof.
  intros Hw Ho Ha Hok Hd. unfold obj_SetBalance. apply (changes_modify s a o (setBalance o z)); try done.
  rewrite Ha. cbn [spec_revert]. apply (on_account_back _ _ _ (abs_object db o)); [done|done|by apply accounts_lookup].
Qed.

Lemma SetNonce_changes s a o z : wf db s -> stateObjects s !! a = Some o -> address o = a -> object_ok db o -> deleted o = false ->
  changes s (obj_SetNonce s o z) a (set_nonce (abs_object db o) z).
Proof.
  intros Hw Ho Ha Hok Hd. unfold obj_SetNonce. apply (changes_modify s a o (setNonce o z)); try done.
  rewrite Ha. cbn [spec_revert]. apply (on_account_back _ _ _ (abs_object db o)); [done|done|by apply accounts_lookup].
Qed.

Lemma set_balance_id x : set_balance x (a_balance x) = x.
Proof. by destruct x. Qed.

Lemma touch_changes s a o : wf db s -> stateObjects s !! a = Some o -> changes s (touch s o) a (abs_object db o).
Proof.
  intros Hw Ho. destruct (changes_none s a o Hw Ho) as [_ Ha].
  assert (wf db (add_entry s (touchChange (address o)))) as Hw' by (by apply wf_add).
  assert (forall l0, trail l0 (origins s) -> trail (touchChange (address o) :: l0) (origins s)) as Ht.
  { intros l0 Hl0. split; [|done]. intros b [= <-]. destruct (wf_object db s Hw a o Ho) as [-> _]. unfold origins. rewrite lookup_fmap, Ho. by eexists. }
  unfold touch. case_decide; (split; [apply (grows_one _ _ (touchChange (address o)))|apply Ha]); try done; [by destruct Hw'|right; by eexists|by left].
Qed.

Lemma AddBalance_changes s a o z : wf db s -> stateObjects s !! a = Some o -> address o = a -> object_ok db o -> deleted o = false ->
  changes s (obj_AddBalance keccak256 s o z) a (set_balance (abs_object db o) (a_balance (abs_object db o) + z)).
Proof.
  intros Hw Ho Ha Hok Hd. unfold obj_AddBalance. case_decide as Hz; [|by apply SetBalance_changes].
  rewrite Hz, Z.add_0_r, set_balance_id. destruct (obj_empty keccak256 o); [by apply touch_changes|by apply changes_none].
Qed.

Lemma SubBalance_changes s a o z : wf db s -> stateObjects s !! a = Some o -> address o = a -> object_ok db o -> deleted o = false ->
  changes s (obj_SubBalance s o z) a (set_balance (abs_object db o) (a_balance (abs_object db o) - z)).
Proof.
  intros Hw Ho Ha Hok Hd. unfold obj_SubBalance. case_decide as Hz; [|by apply SetBalance_changes].
  rewrite Hz, Z.sub_0_r, set_balance_id. by apply changes_none.
Qed.

Lemma abs_setCode o h c : abs_object db (setCode o h c) = set_code (abs_object db o) h (match c with Some c => c | None => code_at db h end).
Proof. done. Qed.

Lemma setCode_ok o h c : object_ok db o -> BytesToHash h = h -> (c = None -> has_code db h) -> object_ok db (setCode o h c).
Proof.
  intros (H1 & H2 & (H3 & H4 & H5) & H6) Hh Hc. split; [done|]. split; [done|]. split; [|exact H6]. split; [done|]. split; [done|].
  cbn. intros [-> |?]; [by split; [apply Hc|]|done].
Qed.

Lemma SetCode_changes s a o c : wf db s -> stateObjects s !! a = Some o -> address o = a -> object_ok db o -> deleted o = false ->
  changes s (obj_SetCode keccak256 db s o (keccak256 (default EmptyString c)) c) a
    (set_code (abs_object db o) (keccak256 (default EmptyString c)) (default EmptyString c)).
Proof.
  intros Hw Ho Ha Hok Hd. unfold obj_SetCode. destruct (obj_Code keccak256 db o) as [o1 p] eqn:E.
  destruct (Code_spec _ _ _ Hok E) as (_ & (Habs & Ha1 & Hok1 & Hd1 & Hdom) & Hp & Hpc).
  assert (set_code (abs_object db o) (keccak256 (default EmptyString c)) (default EmptyString c) =
    abs_object db (setCode o1 (keccak256 (default EmptyString c)) c)) as ->.
  { rewrite abs_setCode, Habs. f_equal. destruct c; [done|]. cbn. unfold code_at. by rewrite decide_True. }
  apply (changes_modify s a o); [done|done|cbn; congruence|apply setCode_ok; [done|apply keccak_hash|intros ->; by left]|cbn; rewrite Hd1; split; [apply Hok|done]|apply Hdom|done|].
  rewrite Ha1, Ha, Hd1. cbn [spec_revert]. apply (on_account_back _ _ _ (abs_object db o)); [| |by apply accounts_lookup].
  - rewrite abs_setCode, Habs. apply Hd.
  - rewrite abs_setCode, Habs. rewrite (proj1 (proj2 Hok)), Hp. done.
Qed.

Lemma abs_setState o k v : abs_object db (setState o k v) = set_state (abs_object db o) (put_slot (a_state (abs_object db o)) k v).
Proof.
  unfold abs_object, set_state. cbn. f_equal; try done. rewrite put_slot_nonzero, insert_union_l. done.
Qed.

Lemma setState_ok o k v : object_ok db o -> k ∈ dom (originStorage o) -> object_ok db (setState o k v).
Proof. intros (H1 & H2 & Hs & H3 & H4) Hk. split; [done|]. split; [done|]. split; [exact Hs|]. split; [done|]. cbn. rewrite dom_insert_L. set_solver. Qed.

Lemma SetState_changes s a o k v : wf db s -> stateObjects s !! a = Some o -> address o = a -> object_ok db o -> deleted o = false ->
  changes s (obj_SetState db s o k v) a (set_state (abs_object db o) (put_slot (a_state (abs_object db o)) k v)).
Proof.
  intros Hw Ho Ha Hok Hd. unfold obj_SetState. rewrite (proj1 Hok). destruct (obj_GetState db o k) as [o1 p] eqn:E.
  destruct (GetState_spec _ _ _ _ Hok E) as (Hp & (Habs & Ha1 & Hok1 & _ & Hdom) & Hk). case_decide as Hv.
  - subst v. rewrite Hp. cbn [abs_object a_state]. rewrite put_slot_same.
    assert (abs db (setStateObject s o1) = abs db s) as Hs by (apply (abs_same _ _ o); [by rewrite Ha1, Ha|done]).
    split; [apply grows_silent; try done; [by apply wf_set|apply (wider_set s o); [by rewrite Ha1, Ha|done]]|]. rewrite Hs. by apply changes_none.
  - rewrite <- Habs, <- abs_setState. apply (changes_modify s a o); [done|done|cbn; congruence|by apply setState_ok|done|done|done|].
    rewrite Ha1, Ha. cbn [spec_revert]. apply (on_account_back _ _ _ (abs_object db o)); [| |by apply accounts_lookup].
    + rewrite abs_setState, Habs. apply Hd.
    + rewrite abs_setState, Habs, Hp. unfold set_state. cbn. rewrite put_slot_back. done.
Qed.

(** ** Every operation does what the specification says *)
Definition refines_op (s : StateDB) (o : op) : Prop :=
  match spec_op (abs db s) o with
  | Ret (A, r) => exists s', exec keccak256 db s o = Ret (s', r) /\ abs db s' = A /\ grows s s'
  | Panics => exec keccak256 db s o = Panics
  | Diverges => False
  end.

Lemma refines_change s a f (g : StateDB -> stateObject -> StateDB) :
  wf db s ->
  (forall s o, wf db s -> stateObjects s !! a = Some o -> address o = a -> object_ok db o -> deleted o = false ->
     changes s (g s o) a (f (abs_object db o))) ->
  exists s', (let '(s, o) := GetOrNewStateObject keccak256 db s a in g s o) = s' /\
    abs db s' = set_accounts (abs db s) (<[a := f (default fresh_account (live (abs db s) a))]> (accounts (abs db s))) /\ grows s s'.
Proof.
  intros Hw Hg. destruct (GetOrNewStateObject keccak256 db s a) as [s1 o] eqn:E. eexists. split; [done|].
  destruct (GetOrNew_spec _ _ _ _ Hw E) as (G & H1 & H2 & H3 & H4 & H5 & H6).
  destruct (Hg s1 o) as [K1 K2]; try done; [apply G|]. split; [|by eapply grows_trans]. by rewrite K2, H6, H5.
Qed.

Lemma refines_ask {A} s a (q : StateDB -> stateObject -> StateDB * A) (none : A) (rep : A -> reply) (f : account -> reply) :
  wf db s ->
  (forall s o s' x, wf db s -> stateObjects s !! a = Some o -> address o = a -> object_ok db o -> q s o = (s', x) ->
     grows s s' /\ abs db s' = abs db s /\ rep x = f (abs_object db o)) ->
  exists s', reply_with rep (match getStateObject db s a with (s, Some o) => q s o | (s, None) => (s, none) end) =
      Ret (s', match live (abs db s) a with Some o => f o | None => rep none end) /\ abs db s' = abs db s /\ grows s s'.
Proof.
  intros Hw Hq. destruct (getStateObject db s a) as [s1 r] eqn:E.
  destruct (getStateObject_spec _ _ _ _ Hw E) as (G & Ha & Hl & Hr). rewrite Hl. destruct r as [o|]; cbn.
  - destruct (q s1 o) as [s2 x] eqn:Eq. destruct Hr as (H1 & H2 & H3 & _).
    destruct (Hq s1 o s2 x) as (K1 & K2 & K3); try done; [apply G|]. exists s2. unfold reply_with. cbn. rewrite K3, K2, Ha.
    split; [done|]. split; [done|]. by eapply grows_trans.
  - by exists s1.
Qed.

Lemma pure_query {A} s (o : stateObject) (x : A) s' y : wf db s -> (s, x) = (s', y) -> grows s s' /\ abs db s' = abs db s /\ y = x.
Proof. intros Hw [= <- <-]. split; [by apply grows_refl|done]. Qed.

Lemma cached_query {A} s a (o o' : stateObject) (x : A) s' y : wf db s -> stateObjects s !! a = Some o -> address o = a ->
  refreshed o o' -> (setStateObject s o', x) = (s', y) -> grows s s' /\ abs db s' = abs db s /\ y = x.
Proof.
  intros Hw Ho Ha (Habs & Ha' & Hok & _ & Hdom) [= <- <-]. rewrite <- Ha, <- Ha' in Ho.
  assert (abs db (setStateObject s o') = abs db s) as Hs by (by apply (abs_same _ _ o)).
  split; [|done]. apply grows_silent; try done; [by apply wf_set|by apply (wider_set s o)].
Qed.

Lemma Suicide_refines s a : wf db s -> refines_op s (OSuicide a).
Proof.
  intros Hw. unfold refines_op, spec_op, exec, Suicide. destruct (getStateObject db s a) as [s1 r] eqn:E.
  destruct (getStateObject_spec _ _ _ _ Hw E) as (G & Ha & Hl & Hr). rewrite Hl. destruct r as [o|]; cbn [fmap option_fmap option_map].
  2: { by exists s1. }
  destruct Hr as (H1 & H2 & H3 & H4). eexists. split; [done|]. cbn [fst].
  assert (changes s1 (setStateObject (add_entry s1 (suicideChange a (suicided o) (Balance (data o)))) (setBalance (with_flags o (dirtyCode o) true (deleted o)) 0))
    a (set_balance (set_suicided (abs_object db o) true) 0)) as [K1 K2].
  { apply (changes_modify s1 a o (setBalance (with_flags o (dirtyCode o) true (deleted o)) 0)); try done; [apply G|].
    cbn [spec_revert]. unfold live. cbn. rewrite lookup_insert_eq. cbn. rewrite H4. f_equal. unfold set_accounts, abs. cbn.
    rewrite insert_insert_eq, insert_id; [done|]. rewrite abs_lookup, H1. unfold abs_object. cbn. by rewrite H4. }
  split; [by rewrite K2, Ha|by eapply grows_trans].
Qed.

Lemma CreateAccount_refines s a : wf db s -> refines_op s (OCreateAccount a).
Proof.
  intros Hw. unfold refines_op, spec_op, exec, CreateAccount, unit_reply. eexists. split; [done|].
  pose proof (create_grows s a _ Hw eq_refl) as Hc. unfold createObject.
  destruct (getDeletedStateObject db s a) as [s1 r] eqn:E. cbn [fst snd] in Hc.
  destruct (getDeleted_spec _ _ _ _ Hw E) as (G & Ha & _ & _ & Hr).
  destruct (emptyObject_ok a) as (Had & [Hf Hh] & Hdel).
  set (n := setNonce (newObject a (empty_account keccak256)) 0) in *.
  assert (address n = a /\ object_ok db n) as [Hna Hnok] by (split; [exact Had|split; [exact Hf|exact Hh]]).
  assert (abs_object db n = fresh_account) as Hn by apply fresh_object.
  assert (accounts (abs db s) !! a = abs_object db <$> r) as ->.
  { rewrite <- Ha. cbn. rewrite abs_lookup. destruct r; [by rewrite (proj1 Hr)|]. destruct Hr as (-> & -> & ->). done. }
  destruct r as [p|]; cbn [fmap option_fmap option_map].
  - destruct (Hc (setBalance n (Balance (data p)))) as [K1 K2]; [done|done|exists (Balance (data p)); by rewrite <- Hn|].
    assert (forall e, setStateObject (setStateObject (add_entry s1 e) n) (setBalance n (Balance (data p))) =
      setStateObject (add_entry s1 e) (setBalance n (Balance (data p)))) as Hee.
    { intros e. unfold setStateObject, with_objects. cbn. by rewrite insert_insert_eq. }
    rewrite Hee. split; [|done]. rewrite K2. do 2 f_equal. rewrite <- Hn. done.
  - destruct (Hc n) as [K1 K2]; [done|done|exists 0%Z; by rewrite Hn|]. split; [|done]. rewrite K2, Hn. done.
Qed.

Lemma pop_last {A B} (ls : list A) x (b0 b1 : B) (f : list A -> B) : ls <> [] ->
  match ls ++ [x] with [] => b0 | [_] => b1 | l => f (take (length l - 1) l) end = f ls.
Proof.
  intros Hl. destruct ls as [|y ls]; [done|]. rewrite <- app_comm_cons. destruct (ls ++ [x]) as [|z zs] eqn:E; [by destruct ls|].
  rewrite <- E. f_equal. rewrite app_comm_cons. apply take_app_length'. rewrite length_app. cbn [length]. lia.
Qed.

Lemma AddLog_refines s l : wf db s -> refines_op s (OAddLog l).
Proof.
  intros Hw. pose proof Hw as [H1 H2 H3 H4 H5]. unfold refines_op, spec_op, exec, unit_reply. cbn zeta. eexists. split; [done|]. split; [done|].
  apply (grows_one _ _ (addLogChange (thash s))); [|done|done|by left| |done|done].
  - destruct (wf_add s (addLogChange (thash s)) Hw I) as [K1 K2 K3 K4 K5]. split; cbn; try done; [|apply wrap_uint64_range].
    intros h. destruct (decide (thash s = h)) as [<-|]; [rewrite lookup_insert_eq|by rewrite lookup_insert_ne].
    intros [= Hl]. by apply app_nil in Hl as [_ ?].
  - unfold AddLog, abs. cbn [spec_revert a_logs with_logs logs logSize a_logSize]. rewrite lookup_insert_eq. cbn [default from_option].
    assert (wrap_uint64 (wrap_uint64 (logSize s + 1) - 1) = logSize s) as Hz.
    { unfold wrap_uint64. rewrite Zminus_mod_idemp_l, Z.add_simpl_r. by apply Z.mod_small. }
    cbn. destruct (logs s !! thash s) as [ls|] eqn:El; cbn.
    + rewrite (pop_last ls _ Panics _ (fun l => Ret (set_logs _ (<[thash s := l]> _) _))) by (intros ->; by destruct (H3 (thash s))).
      f_equal. unfold set_logs. cbn. rewrite Hz. f_equal. rewrite insert_insert_eq. by apply insert_id.
    + f_equal. unfold set_logs. cbn. rewrite Hz. f_equal. by rewrite delete_insert_id.
Qed.

Lemma refund_refines s r : wf db s -> grows s (with_refund (add_entry s (refundChange (refund s))) r).
Proof.
  intros Hw. apply (grows_one _ _ (refundChange (refund s))); [|done|done|by left|done|done|done].
  destruct (wf_add s (refundChange (refund s)) Hw I) as [K1 K2 K3 K4 K5]. by split.
Qed.

Lemma AddPreimage_refines s h p : wf db s -> refines_op s (OAddPreimage h p).
Proof.
  intros Hw. unfold refines_op, spec_op, exec, unit_reply, AddPreimage. eexists. split; [done|]. cbn [a_preimages abs].
  destruct (preimages s !! h) as [x|] eqn:E; [split; [done|by apply grows_refl]|]. split; [done|].
  apply (grows_one _ _ (addPreimageChange h)); [|done|done|by left| |done|done].
  - destruct (wf_add s (addPreimageChange h) Hw I) as [K1 K2 K3 K4 K5]. by split.
  - cbn. f_equal. unfold set_preimages, abs. cbn. by rewrite delete_insert_id.
Qed.

Lemma GetCodeSize_view o : object_ok db o ->
  match code o with Some c => len c | None => match blobs db !! BytesToHash (CodeHash (data o)) with Some c => len c | None => 0 end end =
  len (a_code (abs_object db o)).
Proof.
  intros (_ & Hh & _). cbn. unfold code_view, code_at. destruct (code o); [done|]. case_decide as Hd.
  - rewrite Hd, keccak_hash. pose proof empty_blob as He. destruct (blobs db !! keccak256 EmptyString); [|done]. cbn in He. by subst.
  - by destruct (blobs db !! _).
Qed.

Definition plain (o : op) : bool := match o with OSnapshot | ORevert _ => false | _ => true end.

(** Operations that change one account, created if there is none. *)
Lemma setter_refines s o a f g : wf db s ->
  (forall A, spec_op A o = change A a f) ->
  exec keccak256 db s o = unit_reply (let '(s, o) := GetOrNewStateObject keccak256 db s a in g s o) ->
  (forall s o, wf db s -> stateObjects s !! a = Some o -> address o = a -> object_ok db o -> deleted o = false ->
     changes s (g s o) a (f (abs_object db o))) ->
  refines_op s o.
Proof.
  intros Hw Hs He Hg. destruct (refines_change s a f g Hw Hg) as (s' & <- & H).
  unfold refines_op. rewrite Hs, He. unfold change. eauto.
Qed.

(** Queries that leave the object as it is, and queries that fill its caches. *)
Lemma query_refines {A} s o a (q : stateObject -> A) none rep f : wf db s ->
  (forall A, spec_op A o = ask A a f (rep none)) ->
  exec keccak256 db s o = reply_with rep (match getStateObject db s a with (s, Some o) => (s, q o) | (s, None) => (s, none) end) ->
  (forall o, object_ok db o -> rep (q o) = f (abs_object db o)) ->
  refines_op s o.
Proof.
  intros Hw Hs He Hq. unfold refines_op. rewrite Hs, He. unfold ask. apply (refines_ask s a (fun s o => (s, q o))); [done|].
  intros s1 u s2 x H1 _ _ H4 H. destruct (pure_query _ u _ _ _ H1 H) as (?&?&->). auto.
Qed.

Lemma cached_refines {A} s o a (q : stateObject -> stateObject * A) none rep f : wf db s ->
  (forall A, spec_op A o = ask A a f (rep none)) ->
  exec keccak256 db s o = reply_with rep
    (match getStateObject db s a with (s, Some o) => let '(o, x) := q o in (setStateObject s o, x) | (s, None) => (s, none) end) ->
  (forall o o' x, object_ok db o -> q o = (o', x) ->
     rep x = f (abs_object db o) /\ refreshed o o') ->
  refines_op s o.
Proof.
  intros Hw Hs He Hq. unfold refines_op. rewrite Hs, He. unfold ask.
  apply (refines_ask s a (fun s o => let '(o, x) := q o in (setStateObject s o, x))); [done|].
  intros s1 u s2 x H1 H2 H3 H4 H. destruct (q u) as [u1 y] eqn:E. destruct (Hq _ _ _ H4 E) as (K1 & K2).
  destruct (cached_query _ _ _ _ _ _ _ H1 H2 H3 K2 H) as (?&?&->). auto.
Qed.

Lemma setters_refine s o : wf db s ->
  match o with OAddBalance _ _ | OSubBalance _ _ | OSetBalance _ _ | OSetNonce _ _ | OSetCode _ _ | OSetState _ _ _ => true | _ => false end = true ->
  refines_op s o.
Proof.
  intros Hw Ho. destruct o as [a z|a z|a z|a n|a c|a k v| | | | | | | | | | | | | | | | | | | ]; try done; clear Ho.
  - apply (setter_refines _ _ a (fun o => set_balance o (a_balance o + z)) (fun s o => obj_AddBalance keccak256 s o z)); try done.
    intros. by apply AddBalance_changes.
  - apply (setter_refines _ _ a (fun o => set_balance o (a_balance o - z)) (fun s o => obj_SubBalance s o z)); try done.
    intros. by apply SubBalance_changes.
  - apply (setter_refines _ _ a (fun o => set_balance o z) (fun s o => obj_SetBalance s o z)); try done.
    intros. by apply SetBalance_changes.
  - apply (setter_refines _ _ a (fun o => set_nonce o n) (fun s o => obj_SetNonce s o n)); try done.
    intros. by apply SetNonce_changes.
  - apply (setter_refines _ _ a (fun o => set_code o (keccak256 (default EmptyString c)) (default EmptyString c))
      (fun s o => obj_SetCode keccak256 db s o (keccak256 (default EmptyString c)) c)); try done.
    intros. by apply SetCode_changes.
  - apply (setter_refines _ _ a (fun o => set_state o (put_slot (a_state o) k v)) (fun s o => obj_SetState db s o k v)); try done.
    intros. by apply SetState_changes.
Qed.

Lemma queries_refine s o : wf db s ->
  match o with OExist _ | OEmpty _ | OGetBalance _ | OGetNonce _ | OGetCode _ | OGetCodeSize _ | OGetCodeHash _ | OGetState _ _
  | OGetCommittedState _ _ | OHasSuicided _ => true | _ => false end = true ->
  refines_op s o.
Proof.
  intros Hw Ho. destruct o as [ | | | | | | | | | | | |a|a|a|a|a|a|a|a k|a k|a| | |]; try done; clear Ho.
  - by apply (query_refines _ _ a (fun _ => true) false RBool (fun _ => RBool true)).
  - by apply (query_refines _ _ a (obj_empty keccak256) true RBool (fun o => RBool (acc_empty o))).
  - by apply (query_refines _ _ a (fun o => Balance (data o)) 0%Z RZ (fun o => RZ (a_balance o))).
  - by apply (query_refines _ _ a (fun o => Nonce (data o)) 0%Z RZ (fun o => RZ (a_nonce o))).
  - apply (cached_refines _ _ a (obj_Code keccak256 db) None (fun c => RBytes (default EmptyString c)) (fun o => RBytes (a_code o))); try done.
    intros o o' x Hok H. destruct (Code_spec _ _ _ Hok H) as (<- & ? & _). done.
  - apply (query_refines _ _ a (fun o => match code o with Some c => len c | None =>
      match blobs db !! BytesToHash (CodeHash (data o)) with Some c => len c | None => 0 end end) 0 RNat (fun o => RNat (len (a_code o)))); try done.
    intros o Hok. by rewrite GetCodeSize_view.
  - apply (query_refines _ _ a (fun o => BytesToHash (CodeHash (data o))) zero_hash RBytes (fun o => RBytes (a_codehash o))); try done.
    intros o Hok. by rewrite (proj1 (proj2 Hok)).
  - apply (cached_refines _ _ a (fun o => obj_GetState db o k) zero_hash RBytes (fun o => RBytes (slot_value (a_state o) k))); try done.
    intros o o' x Hok H. destruct (GetState_spec _ _ _ _ Hok H) as (<- & ? & _). done.
  - apply (cached_refines _ _ a (fun o => obj_GetCommittedState db o k) zero_hash RBytes (fun o => RBytes (slot_value (a_committed o) k))); try done.
    intros o o' x Hok H. destruct (GetCommittedState_spec _ _ _ _ Hok H) as (<- & ? & _). done.
  - by apply (query_refines _ _ a suicided false RBool (fun o => RBool (a_suicided o))).
Qed.

Lemma op_refines s o : wf db s -> plain o = true -> refines_op s o.
Proof.
  intros Hw Hp. destruct o as [| | | | | |a|a|g|g|l|h p| | | | | | | | | | | | |]; try done;
    try (by apply setters_refine); try (by apply queries_refine).
  - by apply Suicide_refines.
  - by apply CreateAccount_refines.
  - unfold refines_op, spec_op. eexists. split; [done|]. split; [done|]. by apply refund_refines.
  - unfold refines_op, spec_op, exec, SubRefund. cbn. case_bool_decide; cbn; [done|]. eexists. split; [done|]. split; [done|]. by apply refund_refines.
  - by apply AddLog_refines.
  - by apply AddPreimage_refines.
  - unfold refines_op, spec_op. eexists. split; [done|]. split; [done|by apply grows_refl].
Qed.

(** ** Undoing *)
Definition undone (s s' : StateDB) : Prop :=
  wf db s' /\ same_sets s s' /\ jrnl s' = jrnl s /\ validRevisions s' = validRevisions s /\ nextRevisionId s' = nextRevisionId s.

Definition refines_revert (s : StateDB) (e : journalEntry) : Prop :=
  match spec_revert db (abs db s) e with
  | Ret A => exists s', revert_entry db s e = Ret s' /\ abs db s' = A /\ undone s s' /\
      forall l, trail (e :: l) (origins s) -> trail l (origins s')
  | Panics => revert_entry db s e = Panics
  | Diverges => False
  end.

Lemma wider_trans O1 O2 O3 : wider O1 O2 -> wider O2 O3 -> wider O1 O3.
Proof. intros H1 H2 a K HK. destruct (H1 a K HK) as (K2 & HK2 & Hs). destruct (H2 a K2 HK2) as (K3 & HK3 & Hs3). exists K3. set_solver. Qed.

Lemma getStateObject_frame s s' a r : getStateObject db s a = (s', r) ->
  jrnl s' = jrnl s /\ wider (origins s) (origins s').
Proof.
  unfold getStateObject, getDeletedStateObject. destruct (stateObjects s !! a) as [o|] eqn:Eo; [intros [= <- <-]; split; [done|apply wider_refl]|].
  destruct (account_trie db !! a) as [d|]; intros [= <- <-]; (split; [done|]); [by apply wider_new|apply wider_refl].
Qed.

Lemma on_object_refines s a f g : wf db s ->
  (forall o, object_ok db o -> (forall K, origins s !! a = Some K -> K ⊆ dom (originStorage o)) ->
     object_ok db (g o) /\ address (g o) = address o /\ abs_object db (g o) = f (abs_object db o) /\ originStorage (g o) = originStorage o) ->
  match on_account (abs db s) a f with
  | Ret A => exists s', on_object db s a g = Ret s' /\ abs db s' = A /\ undone s s' /\ wider (origins s) (origins s')
  | Panics => on_object db s a g = Panics
  | Diverges => False
  end.
Proof.
  intros Hw Hg. unfold on_account, on_object. destruct (getStateObject db s a) as [s1 r] eqn:E.
  destruct (getStateObject_spec _ _ _ _ Hw E) as (G & Ha & Hl & Hr). rewrite Hl. destruct r as [o|]; [|done]. cbn [fmap option_fmap option_map].
  destruct Hr as (H1 & H2 & H3 & _). destruct (getStateObject_frame _ _ _ _ E) as [Hj Hwd].
  destruct (Hg o H3) as (K1 & K2 & K3 & K4).
  { intros K HK. destruct (Hwd a K HK) as (K' & HK' & Hs). unfold origins in HK'. rewrite lookup_fmap, H1 in HK'. by injection HK' as <-. }
  eexists. split; [done|]. split; [rewrite abs_set, K2, H2, K3, <- Ha; done|].
  split; [split; [apply wf_set; [apply G|done]|split; [apply G|split; [done|split; apply G]]]|].
  eapply wider_trans; [exact Hwd|]. apply (wider_set s1 o); [by rewrite K2, H2|by rewrite K4].
Qed.

Lemma object_refines s e a f g : wf db s -> spec_revert db (abs db s) e = on_account (abs db s) a f ->
  revert_entry db s e = on_object db s a g -> (forall l O, trail (e :: l) O -> trail l O) ->
  (forall o, object_ok db o -> (forall K, origins s !! a = Some K -> K ⊆ dom (originStorage o)) ->
     object_ok db (g o) /\ address (g o) = address o /\ abs_object db (g o) = f (abs_object db o) /\ originStorage (g o) = originStorage o) ->
  refines_revert s e.
Proof.
  intros Hw Hs Hr Ht Hg. pose proof (on_object_refines s a f g Hw Hg) as H. unfold refines_revert. rewrite Hs, Hr.
  destruct (on_account (abs db s) a f) as [A| |]; [|done..]. destruct H as (s' & H1 & H2 & H3 & H4).
  exists s'. split; [done|]. split; [done|]. split; [done|]. intros l Hl. eapply trail_mono; [exact H4|]. by apply Ht.
Qed.

Lemma create_undo_refines s a : wf db s -> account_trie db !! a = None /\ a ∉ stateObjectsPending s -> refines_revert s (createObjectChange a).
Proof.
  intros [H1 H2 H3 H4 H5] [Hd Ha]. eexists. split; [done|]. split; [unfold abs; cbn; by rewrite abs_delete|]. split.
  - split; [|split; [split; [done|cbn; set_solver]|done]]. split; cbn; try done.
    + intros b o. rewrite lookup_delete_Some. intros [_ Ho]. by apply H1.
    + rewrite dom_delete_L. set_solver.
  - intros l [_ Hl]. cbn in Hl. unfold origins in *. cbn. by rewrite fmap_delete.
Qed.

Lemma suicide_undo_refines s a b z : wf db s -> refines_revert s (suicideChange a b z).
Proof.
  intros Hw. pose proof (on_object_refines s a (fun o => set_balance (set_suicided o b) z) (fun o => setBalance (with_flags o (dirtyCode o) b (deleted o)) z) Hw) as H.
  unfold refines_revert. cbn [spec_revert revert_entry]. unfold on_account, on_object in H. destruct (getStateObject db s a) as [s1 r] eqn:E.
  destruct (getStateObject_spec _ _ _ _ Hw E) as (G & Ha & Hl & Hr). destruct (getStateObject_frame _ _ _ _ E) as [Hj Hwd]. rewrite Hl in *.
  destruct r as [o|].
  - destruct H as (s' & H1 & H2 & H3 & H4); [done|]. exists s'. split; [done|]. split; [done|]. split; [done|]. intros l [_ Hl0]. by eapply trail_mono, Hl0.
  - exists s1. split; [done|]. split; [done|]. split; [split; [apply G|split; [apply G|split; [done|split; apply G]]]|]. intros l [_ Hl0]. by eapply trail_mono, Hl0.
Qed.

Lemma log_undo_refines s t : wf db s -> refines_revert s (addLogChange t).
Proof.
  intros [H1 H2 H3 H4 H5]. unfold refines_revert. cbn [spec_revert revert_entry abs a_logs a_logSize].
  destruct (default [] (logs s !! t)) as [|x [|y l]] eqn:El; [done| |];
    (eexists; split; [done|]; split; [done|]; split; [|by intros l0 [_ Hl0]]; split; [|done]; split; cbn; try done; [|apply wrap_uint64_range]).
  - intros i. destruct (decide (t = i)) as [<-|]; [by rewrite lookup_delete_eq|by rewrite lookup_delete_ne].
  - intros i. destruct (decide (t = i)) as [<-|]; [by rewrite lookup_insert_eq|by rewrite lookup_insert_ne].
Qed.

Lemma revert_refines s e : wf db s -> e ∈ entries (jrnl s) -> trail [e] (origins s) -> refines_revert s e.
Proof.
  intros Hw He Ht. apply (wf_entry db s Hw) in He.
  destruct e as [a|prev|a b z|a z|a z|a k v|a c h|r|t|h|a].
  - by apply create_undo_refines.
  - eexists. split; [done|]. split; [apply abs_set|]. split; [split; [by apply wf_set|done]|]. intros l [_ Hl]. by rewrite origins_set.
  - by apply suicide_undo_refines.
  - apply (object_refines _ _ a (fun o => set_balance o z) (fun o => setBalance o z)); try done; by intros l O [_ Hl].
  - apply (object_refines _ _ a (fun o => set_nonce o z) (fun o => setNonce o z)); try done; by intros l O [_ Hl].
  - apply (object_refines _ _ a (fun o => set_state o (put_slot (a_state o) k v)) (fun o => setState o k v)); [done|done|done|by intros l O [_ Hl]|].
    intros o Ho HK. destruct (proj1 Ht a eq_refl) as (K & HK0 & Hk). split; [apply setState_ok; [done|by apply (HK K)]|]. split; [done|]. split; [apply abs_setState|done].
  - apply (object_refines _ _ a (fun o => set_code o (BytesToHash h) (match c with Some c => c | None => code_at db (BytesToHash h) end))
      (fun o => setCode o (BytesToHash h) c)); [done|done|done|by intros l O [_ Hl]|].
    intros o Ho _. destruct He as [He1 He2]. rewrite He1. split; [by apply setCode_ok|done].
  - eexists. split; [done|]. split; [done|]. split; [split; [by destruct Hw|done]|by intros l [_ Hl]].
  - by apply log_undo_refines.
  - eexists. split; [done|]. split; [done|]. split; [split; [by destruct Hw|done]|by intros l [_ Hl]].
  - exists s. split; [done|]. split; [done|]. split; [done|by intros l [_ Hl]].
Qed.

Lemma wf_undirty s e : wf db s -> wf db (with_journal s (journal_undirty (jrnl s) e)).
Proof.
  intros [H1 H2 H3 H4 H5]. split; cbn; try done. unfold journal_undirty. by destruct (dirtied e).
Qed.

Lemma trail_head e l O : trail (e :: l) O -> trail [e] O.
Proof. by intros [He _]. Qed.

Lemma unwind_refines l : forall s A, wf db s -> (forall e, e ∈ l -> e ∈ entries (jrnl s)) ->
  foldM (spec_revert db) (abs db s) l = Ret A -> forall l0, trail (l ++ l0) (origins s) -> tracked (l ++ l0) (jrnl s) ->
  exists s', foldM (undo db) s l = Ret s' /\ abs db s' = A /\ wf db s' /\ entries (jrnl s') = entries (jrnl s) /\
    validRevisions s' = validRevisions s /\ nextRevisionId s' = nextRevisionId s /\ trail l0 (origins s') /\ tracked l0 (jrnl s') /\ same_sets s s'.
Proof.
  induction l as [|e l IH]; intros s A Hw Hl HA l0 Ht Hd; cbn [foldM] in *; [injection HA as <-; by exists s|].
  pose proof (revert_refines s e Hw (Hl e ltac:(left)) (trail_head _ _ _ Ht)) as H. unfold refines_revert in H.
  destruct (spec_revert db (abs db s) e) as [B| |]; [|done..]. rewrite bind_ret in HA. destruct H as (s1 & H1 & H2 & (H3 & S1 & H4 & H5 & H6) & H7).
  assert (undo db s e = Ret (with_journal s1 (journal_undirty (jrnl s1) e))) as -> by (unfold undo; by rewrite H1). rewrite bind_ret.
  assert (entries (journal_undirty (jrnl s1) e) = entries (jrnl s)) as Hent by (rewrite <- H4; unfold journal_undirty; by destruct (dirtied e)).
  destruct (IH (with_journal s1 (journal_undirty (jrnl s1) e)) A) with (l0 := l0) as (s2 & K1 & K2 & K3 & K4 & K5 & K6 & K7 & K8 & S2).
  - by apply wf_undirty.
  - intros e' He'. cbn. rewrite Hent. apply Hl. by right.
  - by rewrite <- H2 in HA.
  - by apply H7.
  - cbn. rewrite H4. by apply tracked_undirty.
  - exists s2. split; [exact K1|]. split; [done|]. split; [done|]. cbn in *. rewrite K4, K5, K6. split_and!; try done.
    exact (same_sets_trans s s1 s2 S1 S2).
Qed.

(** ** Binary search *)
Lemma Search_loop_spec f n : (forall i j, i <= j -> j < n -> f i = true -> f j = true) ->
  forall fuel i j, i <= j <= n -> j - i < fuel -> (forall k, k < i -> f k = false) -> (forall k, j <= k < n -> f k = true) ->
  exists r, Search_loop fuel f i j = Ret r /\ r <= n /\ (forall k, k < r -> f k = false) /\ (forall k, r <= k < n -> f k = true).
Proof.
  intros Hmono. induction fuel as [|fuel IH]; intros i j Hij Hf Hlo Hhi; [lia|]. cbn [Search_loop].
  case_decide as Hlt; [|exists i; repeat split; [lia|done|intros k Hk; apply Hhi; lia]].
  pose proof (Nat.div_mod_eq (i + j) 2) as Hm. pose proof (Nat.mod_upper_bound (i + j) 2 ltac:(lia)) as Hb.
  destruct (f ((i + j) / 2)) eqn:E.
  - apply IH; [lia|lia|done|]. intros k Hk. apply (Hmono ((i + j) / 2)); [lia|lia|done].
  - apply IH; [lia|lia| |done]. intros k Hk. destruct (f k) eqn:Ek; [|done]. rewrite (Hmono k ((i + j) / 2)) in E; [done|lia|lia|done].
Qed.

Lemma Search_spec n f : (forall i j, i <= j -> j < n -> f i = true -> f j = true) ->
  exists r, Search n f = Ret r /\ r <= n /\ (forall k, k < r -> f k = false) /\ (forall k, r <= k < n -> f k = true).
Proof. intros H. apply (Search_loop_spec f n H); [lia|lia|lia|lia]. Qed.

(** ** The simulation *)
Definition rev_ok (s : StateDB) (r : revision) (p : Z * spec_state) : Prop :=
  rev_id r = p.1 /\ journalIndex r <= length (entries (jrnl s)) /\
  foldM (spec_revert db) (abs db s) (reverse (drop (journalIndex r) (entries (jrnl s)))) = Ret p.2.

(** [Base] is the state in which the journal was last empty, with the objects
    that were pending then. *)
Context (Base : baseline).
Record sim (s : StateDB) (m : spec_machine) : Prop := {
  sim_wf : wf db s;
  sim_trail : trail (reverse (entries (jrnl s))) (origins s);
  sim_tracked : tracked (reverse (entries (jrnl s))) (jrnl s);
  sim_sets : stateObjectsPending s = base_pending Base /\ stateObjectsDirty s = base_pending Base;
  sim_base : foldM (spec_revert db) (abs db s) (reverse (entries (jrnl s))) = Ret (base_state Base);
  sim_renewed : renewed (abs db s) (reverse (entries (jrnl s)));
  sim_abs : abs db s = current m;
  sim_next : nextRevisionId s = next_id m;
  sim_saved : Forall2 (rev_ok s) (validRevisions s) (saved m);
  sim_ids : forall i j r q, i < j -> validRevisions s !! i = Some r -> validRevisions s !! j = Some q ->
    (rev_id r < rev_id q)%Z /\ journalIndex r <= journalIndex q;
  sim_fresh : forall r, r ∈ validRevisions s -> (rev_id r < nextRevisionId s)%Z }.

Lemma rev_ok_grows s s' r p : grows s s' -> rev_ok s r p -> rev_ok s' r p.
Proof.
  intros [_ _ _ _ (l & Hl & Hu & _)] (H1 & H2 & H3). unfold rev_ok. rewrite Hl, length_app. split; [done|]. split; [lia|].
  rewrite drop_app_le, reverse_app, foldM_app, Hu by done. done.
Qed.

Lemma sim_grows s s' m : sim s m -> grows s s' -> sim s' (mkMachine (abs db s') (saved m) (next_id m)).
Proof.
  intros [H1 Ht Hd [P1 P2] Hb Hn H2 H3 H4 H5 H6] G. pose proof G as [G1 G2 G3 [S1 S2] (l & Hl & Hlu & Hlt & Hld & Hln)]. split; cbn; rewrite ?G2, ?G3; try done.
  { rewrite Hl, reverse_app. by apply Hlt. }
  { rewrite Hl, reverse_app. by apply Hld. }
  { rewrite S1. split; [done|set_solver]. }
  { by rewrite Hl, reverse_app, foldM_app, Hlu. }
  { rewrite Hl, reverse_app. by apply (renewed_app _ _ _ (abs db s)). }
  eapply Forall2_impl; [exact H4|]. intros r p. by apply rev_ok_grows.
Qed.

Lemma sim_snapshot s m : sim s m ->
  sim (Snapshot s).1 (mkMachine (current m) (saved m ++ [(next_id m, current m)]) (next_id m + 1)).
Proof.
  intros [H1 Ht Hd [P1 P2] Hb Hn H2 H3 H4 H5 H6]. split; cbn; try done.
  - by destruct H1.
  - by rewrite H3.
  - apply Forall2_app; [done|]. apply Forall2_cons. split; [|done]. split; [done|]. split; [done|]. cbn [snd journalIndex]. rewrite <- H2. cbn [jrnl fst Snapshot with_revisions]. by rewrite drop_all.
  - intros i j r q Hij Hr Hq. apply lookup_snoc_Some in Hq as [[Hj Hq]|[-> <-]].
    + rewrite lookup_app_l in Hr by lia. exact (H5 _ _ _ _ Hij Hr Hq).
    + rewrite lookup_app_l in Hr by lia. cbn. split; [by apply H6, (list_elem_of_lookup_2 _ i)|].
      destruct (Forall2_lookup_l _ _ _ _ _ H4 Hr) as (p & _ & _ & Hle & _). done.
  - intros r. rewrite elem_of_app, list_elem_of_singleton. intros [Hr| ->]; cbn; [apply H6 in Hr|]; lia.
Qed.

Lemma find_saved_at l : forall i id A, l !! i = Some (id, A) -> (forall j p, j < i -> l !! j = Some p -> p.1 <> id) ->
  find_saved l id = Some (take i l, A).
Proof.
  induction l as [|[x B] l IH]; intros i id A Hi Hlt; [done|]. cbn [find_saved]. destruct i as [|i].
  - injection Hi as -> ->. by rewrite decide_True.
  - rewrite decide_False by (apply (Hlt 0 (x, B)); [lia|done]). cbn in Hi. rewrite (IH i id A Hi); [done|].
    intros j p Hj Hp. apply (Hlt (S j)); [lia|done].
Qed.

Lemma find_saved_none l id : (forall p, p ∈ l -> p.1 <> id) -> find_saved l id = None.
Proof.
  induction l as [|[x B] l IH]; intros Hl; [done|]. cbn [find_saved]. rewrite decide_False by (apply (Hl (x, B)); left).
  rewrite IH; [done|]. intros p Hp. apply Hl. by right.
Qed.

Lemma search_revision s m id : sim s m ->
  exists idx, Search (length (validRevisions s)) (fun i => match validRevisions s !! i with Some r => bool_decide (id <= rev_id r)%Z | None => false end) = Ret idx /\
    (forall i r, i < idx -> validRevisions s !! i = Some r -> (rev_id r < id)%Z) /\
    (forall i r, idx <= i -> validRevisions s !! i = Some r -> (id <= rev_id r)%Z).
Proof.
  intros H. destruct (Search_spec (length (validRevisions s)) (fun i => match validRevisions s !! i with Some r => bool_decide (id <= rev_id r)%Z | None => false end))
    as (idx & Hs & _ & Hlo & Hhi).
  - intros i j Hij Hj Hi. destruct (validRevisions s !! i) as [r|] eqn:Er; [|done]. apply bool_decide_eq_true in Hi.
    destruct (lookup_lt_is_Some_2 _ _ Hj) as [q Hq]. rewrite Hq. apply bool_decide_eq_true.
    destruct (decide (i = j)) as [->|]; [by simplify_eq|]. destruct (sim_ids _ _ H i j r q) as [? _]; [lia|done|done|lia].
  - exists idx. split; [done|]. split; intros i r Hi Hr.
    + specialize (Hlo i Hi). rewrite Hr in Hlo. apply bool_decide_eq_false in Hlo. lia.
    + specialize (Hhi i (conj Hi (lookup_lt_Some _ _ _ Hr))). rewrite Hr in Hhi. by apply bool_decide_eq_true in Hhi.
Qed.

Lemma elem_of_drop_reverse {X} (x : X) n l : x ∈ reverse (drop n l) -> x ∈ l.
Proof. rewrite elem_of_reverse. intros H. rewrite <- (List.firstn_skipn n l). apply elem_of_app. by right. Qed.

Lemma elem_of_take_weaken {X} (x : X) n l : x ∈ take n l -> x ∈ l.
Proof. intros H. rewrite <- (List.firstn_skipn n l). apply elem_of_app. by left. Qed.

Lemma revert_to_ok s m idx r A : sim s m -> validRevisions s !! idx = Some r -> saved m !! idx = Some (rev_id r, A) ->
  exists s', journal_revert db s (journalIndex r) = Ret s' /\
    sim (with_revisions s' (take idx (validRevisions s')) (nextRevisionId s')) (mkMachine A (take idx (saved m)) (next_id m)).
Proof.
  intros H Hr Hp. destruct (Forall2_lookup_lr _ _ _ _ _ _ (sim_saved _ _ H) Hr Hp) as (_ & Hle & Hu). cbn in Hu. pose proof H as [H1 Ht Hd [P1 P2] Hb Hn H2 H3 H4 H5 H6].
  rewrite <- (List.firstn_skipn (journalIndex r) (entries (jrnl s))), reverse_app in Ht, Hd, Hb, Hn. rewrite foldM_app, Hu, bind_ret in Hb.
  apply (renewed_app _ _ _ _ Hu) in Hn as [_ Hn].
  destruct (unwind_refines _ _ _ H1 (fun e He => elem_of_drop_reverse _ _ _ He) Hu _ Ht Hd) as (s1 & K1 & K2 & K3 & K4 & K5 & K6 & K7 & K8 & [S1 S2]).
  unfold journal_revert. rewrite K1, bind_ret. eexists. split; [done|].
  set (n := journalIndex r) in *. set (E := entries (jrnl s)) in *.
  split; cbn; rewrite ?K4, ?K5, ?K6; try done.
  - destruct K3 as [W1 W2 W3 W4 W5]. split; cbn; try done. rewrite ?K4. intros e He. apply W2. rewrite K4. by eapply elem_of_take_weaken.
  - rewrite S1. split; [done|set_solver].
  - rewrite <- K2 in Hb. exact Hb.
  - rewrite <- K2 in Hn. exact Hn.
  - apply Forall2_same_length_lookup_2; [by rewrite !list.length_take, (Forall2_length _ _ _ H4)|].
    intros i q p Hq Hpp. apply lookup_take_Some in Hq as [Hq Hi]. apply lookup_take_Some in Hpp as [Hpp _].
    destruct (Forall2_lookup_lr _ _ _ _ _ _ H4 Hq Hpp) as (Q1 & Q2 & Q3). destruct (H5 i idx q r Hi Hq Hr) as [_ Hqi].
    split; [done|]. cbn. rewrite ?K4. fold E n in Hle |- *. split; [rewrite list.length_take; lia|].
    assert (drop (journalIndex q) E = drop (journalIndex q) (take n E) ++ drop n E) as Hsplit.
    { rewrite <- (List.firstn_skipn n E) at 1. rewrite drop_app_le; [done|]. rewrite list.length_take. lia. }
    fold E in Q3. rewrite Hsplit, reverse_app, foldM_app, Hu, bind_ret in Q3. rewrite <- K2 in Q3. exact Q3.
  - intros i j q q' Hij Hq Hq'. apply lookup_take_Some in Hq as [Hq Hi]. apply lookup_take_Some in Hq' as [Hq' _]. exact (H5 _ _ _ _ Hij Hq Hq').
  - intros q Hq. apply H6. by eapply elem_of_take_weaken.
Qed.

Lemma revert_exec s m id : sim s m ->
  match spec_exec m (ORevert id) with
  | Ret (m', r) => exists s', exec keccak256 db s (ORevert id) = Ret (s', r) /\ sim s' m'
  | Panics => exec keccak256 db s (ORevert id) = Panics
  | Diverges => False
  end.
Proof.
  intros H. destruct (search_revision s m id H) as (idx & Hs & Hlo & Hhi). cbn [spec_exec exec]. unfold RevertToSnapshot.
  rewrite Hs, bind_ret. pose proof (sim_saved _ _ H) as HF. destruct (validRevisions s !! idx) as [r|] eqn:Er.
  2: { rewrite find_saved_none; [done|]. intros p Hp. apply list_elem_of_lookup in Hp as [i Hi].
       destruct (Forall2_lookup_r _ _ _ _ _ HF Hi) as (r & Hr & Hid & _). rewrite <- Hid.
       enough (rev_id r < id)%Z by lia. apply (Hlo i r); [|done]. apply lookup_ge_None in Er. apply lookup_lt_Some in Hr. lia. }
  destruct (Forall2_lookup_l _ _ _ _ _ HF Er) as ([id' A] & Hp & Hid & _). cbn in Hid. subst id'. case_decide as Hd.
  - subst id. rewrite (find_saved_at _ idx (rev_id r) A Hp).
    + destruct (revert_to_ok s m idx r A H Er Hp) as (s' & Hj & Hsim). rewrite Hj, bind_ret. eexists. split; [done|done].
    + intros j p Hj Hpj. destruct (Forall2_lookup_r _ _ _ _ _ HF Hpj) as (q & Hq & Hqid & _). rewrite <- Hqid.
      pose proof (Hlo j q Hj Hq). lia.
  - rewrite find_saved_none; [done|]. intros p Hpl. apply list_elem_of_lookup in Hpl as [i Hi].
    destruct (Forall2_lookup_r _ _ _ _ _ HF Hi) as (q & Hq & Hqid & _). rewrite <- Hqid.
    destruct (decide (i < idx)); [pose proof (Hlo i q ltac:(done) Hq); lia|].
    pose proof (Hhi idx r ltac:(lia) Er). destruct (decide (i = idx)) as [->|]; [by simplify_eq|].
    destruct (sim_ids _ _ H idx i r q) as [? _]; [lia|done|done|lia].
Qed.

Lemma exec_refines s m o : sim s m ->
  match spec_exec m o with
  | Ret (m', r) => exists s', exec keccak256 db s o = Ret (s', r) /\ sim s' m'
  | Panics => exec keccak256 db s o = Panics
  | Diverges => False
  end.
Proof.
  intros H. destruct (plain o) eqn:Ep.
  - assert (spec_exec m o = spec_op (current m) o ≫= fun '(A, r) => Ret (mkMachine A (saved m) (next_id m), r)) as -> by (by destruct o).
    pose proof (op_refines s o (sim_wf _ _ H) Ep) as Ho. unfold refines_op in Ho. rewrite (sim_abs _ _ H) in Ho.
    destruct (spec_op (current m) o) as [[A r]| |]; [|done..]. destruct Ho as (s' & He & <- & G). rewrite bind_ret.
    exists s'. split; [done|]. by apply (sim_grows s).
  - destruct o; try done; [|by apply revert_exec]. cbn. eexists. split; [by rewrite <- (sim_next _ _ H)|]. by apply sim_snapshot.
Qed.

Lemma prog_refines {X} (p : prog X) : forall s m, sim s m ->
  match spec_prog m p with
  | Ret (m', x) => exists s', run_prog keccak256 db s p = Ret (s', x) /\ sim s' m'
  | Panics => run_prog keccak256 db s p = Panics
  | Diverges => False
  end.
Proof.
  induction p as [x| |o k IH]; intros s m H; cbn [spec_prog run_prog]; [by exists s|done|].
  pose proof (exec_refines s m o H) as He. destruct (spec_exec m o) as [[m1 r]| |]; rewrite ?bind_ret.
  - destruct He as (s1 & -> & H1). rewrite bind_ret. by apply IH.
  - by rewrite He.
  - done.
Qed.

(** ** Revisions keep their place in the journal *)
Lemma on_object_frame s a f s' : on_object db s a f = Ret s' ->
  validRevisions s' = validRevisions s /\ nextRevisionId s' = nextRevisionId s /\ jrnl s' = jrnl s.
Proof.
  unfold on_object, getStateObject, getDeletedStateObject. destruct (stateObjects s !! a) as [o|].
  - destruct (deleted o); [done|]. by intros [= <-].
  - destruct (account_trie db !! a) as [d|]; [|done]. destruct (deleted _); [done|]. by intros [= <-].
Qed.

Lemma undo_frame s e s' : undo db s e = Ret s' ->
  validRevisions s' = validRevisions s /\ nextRevisionId s' = nextRevisionId s /\ entries (jrnl s') = entries (jrnl s).
Proof.
  unfold undo. destruct (revert_entry db s e) as [s1| |] eqn:E; [|done..]. rewrite bind_ret. intros [= <-].
  assert (validRevisions s1 = validRevisions s /\ nextRevisionId s1 = nextRevisionId s /\ jrnl s1 = jrnl s) as (H1 & H2 & H3).
  { destruct e; cbn in E; try (by apply on_object_frame in E); try (by injection E as <-).
    - unfold getStateObject, getDeletedStateObject in E. repeat case_match; simplify_eq; done.
    - by repeat case_match; simplify_eq. }
  cbn. rewrite H1, H2. split_and!; try done. unfold journal_undirty. rewrite H3. by destruct (dirtied e).
Qed.

Lemma RevertToSnapshot_frame s id s' : RevertToSnapshot db s id = Ret s' ->
  exists idx r, validRevisions s !! idx = Some r /\ rev_id r = id /\ validRevisions s' = take idx (validRevisions s) /\
    nextRevisionId s' = nextRevisionId s /\ entries (jrnl s') = take (journalIndex r) (entries (jrnl s)).
Proof.
  unfold RevertToSnapshot. destruct (Search _ _) as [idx| |]; [|done..]. rewrite bind_ret. destruct (validRevisions s !! idx) as [r|] eqn:Er; [|done].
  case_decide as Hid; [|done]. unfold journal_revert. destruct (foldM (undo db) s _) as [s1| |] eqn:E; [|done..]. rewrite !bind_ret. intros [= <-].
  assert (validRevisions s1 = validRevisions s /\ nextRevisionId s1 = nextRevisionId s /\ entries (jrnl s1) = entries (jrnl s)) as (H1 & H2 & H3).
  { apply (foldM_preserves (undo db) (fun t => validRevisions t = validRevisions s /\ nextRevisionId t = nextRevisionId s /\ entries (jrnl t) = entries (jrnl s))
      (reverse (drop (journalIndex r) (entries (jrnl s)))) s s1); [|done|exact E]. intros t e t' (K1 & K2 & K3) Ht. apply undo_frame in Ht as (-> & -> & ->). done. }
  exists idx, r. cbn. by rewrite H1, H2, H3.
Qed.

Definition older (s s' : StateDB) : Prop :=
  (nextRevisionId s <= nextRevisionId s')%Z /\ forall q, q ∈ validRevisions s' -> (rev_id q < nextRevisionId s)%Z -> q ∈ validRevisions s.

Lemma exec_older s o s' r : wf db s -> exec keccak256 db s o = Ret (s', r) -> older s s'.
Proof.
  intros Hw He. destruct (plain o) eqn:Ep.
  - pose proof (op_refines s o Hw Ep) as H. unfold refines_op in H. destruct (spec_op (abs db s) o) as [[A x]| |]; [|by rewrite He in H|done].
    destruct H as (s1 & H1 & _ & G). rewrite He in H1. injection H1 as <- <-. destruct G as [_ G1 G2 _ _]. unfold older. rewrite G1, G2. split; [lia|done].
  - destruct o; try done; cbn [exec] in He.
    + injection He as <- <-. split; cbn; [lia|]. intros q. rewrite elem_of_app, list_elem_of_singleton. intros [?|Hq]; [done|]. subst q. cbn. lia.
    + destruct (RevertToSnapshot db s revid) as [s1| |] eqn:E; [|done..]. injection He as <- <-. apply RevertToSnapshot_frame in E as (idx & q & _ & _ & H1 & H2 & _).
      unfold older. rewrite H1, H2. split; [lia|]. intros t Ht _. by eapply elem_of_take_weaken.
Qed.

(** A revision taken before a program that is still valid after it is the one
    that was taken. *)
Lemma run_older {X} (p : prog X) : forall s m s' x, sim s m -> run_prog keccak256 db s p = Ret (s', x) -> older s s'.
Proof.
  induction p as [y| |o k IH]; intros s m s' x H Hr; cbn [run_prog] in Hr; [injection Hr as <- <-; split; [lia|done]|done|].
  destruct (exec keccak256 db s o) as [[s1 r]| |] eqn:E; [|done..]. rewrite bind_ret in Hr.
  pose proof (exec_refines s m o H) as He. destruct (spec_exec m o) as [[m1 r1]| |]; [|by rewrite E in He|done].
  destruct He as (s2 & He & H1). rewrite E in He. injection He as <- <-.
  destruct (exec_older s o s1 r (sim_wf _ _ H) E) as [O1 O2]. destruct (IH r s1 m1 s' x H1 Hr) as [O3 O4]. split; [lia|].
  intros q Hq Hlt. apply O2; [|done]. apply O4; [done|lia].
Qed.

(** A database between transactions: no live objects, an empty journal. *)
Definition clean (s : StateDB) : Prop :=
  stateObjects s = ∅ /\ stateObjectsPending s = ∅ /\ stateObjectsDirty s = ∅ /\ entries (jrnl s) = [] /\ tracked [] (jrnl s) /\
  validRevisions s = [] /\ (forall h, logs s !! h <> Some []) /\ (0 <= logSize s < 2^64)%Z.
Definition start_machine (s : StateDB) : spec_machine := mkMachine (abs db s) [] (nextRevisionId s).

(** A database between transactions that may keep its objects. *)
Record at_rest (s : StateDB) : Prop := {
  rest_wf : wf db s;
  rest_journal : entries (jrnl s) = [] /\ tracked [] (jrnl s);
  rest_revs : validRevisions s = [];
  rest_sets : stateObjectsDirty s = stateObjectsPending s }.

Lemma clean_rest s : clean s -> at_rest s.
Proof.
  intros (H1 & H2 & H3 & H4 & H5 & H6 & H7 & H8). split; [|done|done|set_solver].
  split; rewrite ?H1, ?H2, ?H3, ?H4; [done|by intros e He%elem_of_nil|done|done|set_solver].
Qed.

Lemma sim_rest s : at_rest s -> Base = mkBase (abs db s) (stateObjectsPending s) -> sim s (start_machine s).
Proof.
  intros [H1 [H2 H3] H4 H5] HB. split; cbn; rewrite ?H2, ?H4, ?HB; try done. by intros r Hr%elem_of_nil.
Qed.

Lemma sim_start s : clean s -> Base = mkBase (abs db s) ∅ -> sim s (start_machine s).
Proof. intros Hc HB. apply sim_rest; [by apply clean_rest|]. by rewrite HB, (proj1 (proj2 Hc)). Qed.
End spec.

Lemma clean_new : clean NewWithTrie.
Proof. repeat split; try done; cbn; lia. Qed.

(** ** Programs that only revert to their own snapshots *)
Fixpoint reverts_above {X} (id : Z) (p : prog X) : Prop :=
  match p with
  | Done _ | Halt => True
  | Do o k => match o with ORevert i => (id < i)%Z | _ => True end /\ forall r, reverts_above id (k r)
  end.

Lemma find_saved_above (l : list (Z * spec_state)) id A : forall l1 i pre B,
  find_saved (l ++ (id, A) :: l1) i = Some (pre, B) -> (forall p, p ∈ l -> (p.1 < id)%Z) -> (id < i)%Z -> exists l2, pre = l ++ (id, A) :: l2.
Proof.
  induction l as [|[x C] l IH]; intros l1 i pre B H Hl Hi; cbn [app find_saved] in H.
  - rewrite decide_False in H by lia. destruct (find_saved l1 i) as [[l2 D]|]; [|done]. injection H as <- <-. by exists l2.
  - pose proof (Hl (x, C) ltac:(left)) as Hx. cbn in Hx. rewrite decide_False in H by lia.
    destruct (find_saved (l ++ (id, A) :: l1) i) as [[l2 D]|] eqn:E; [|done]. injection H as <- <-.
    destruct (IH l1 i l2 D E) as [l3 ->]; [intros p Hp; apply Hl; by right|done|]. by exists l3.
Qed.

Section bracket.
Context (keccak256 : string -> Hash).

Lemma spec_exec_above m o m' r l id A l1 : spec_exec keccak256 m o = Ret (m', r) -> saved m = l ++ (id, A) :: l1 ->
  (forall p, p ∈ l -> (p.1 < id)%Z) -> match o with ORevert i => (id < i)%Z | _ => True end ->
  (exists l2, saved m' = l ++ (id, A) :: l2) /\ (next_id m <= next_id m')%Z.
Proof.
  intros He Hs Hl Ho. destruct (plain o) eqn:Ep.
  - assert (spec_exec keccak256 m o = spec_op keccak256 (current m) o ≫= fun '(B, r) => Ret (mkMachine B (saved m) (next_id m), r)) as E by (by destruct o).
    rewrite E in He. destruct (spec_op keccak256 (current m) o) as [[B x]| |]; [|done..]. rewrite bind_ret in He. injection He as <- <-. cbn. split; [eauto|lia].
  - destruct o; try done; cbn in He.
    + injection He as <- <-. cbn. rewrite Hs, <- app_assoc, <- app_comm_cons. split; [eauto|lia].
    + destruct (find_saved (saved m) revid) as [[pre B]|] eqn:E; [|done]. injection He as <- <-. cbn. rewrite Hs in E.
      split; [by eapply find_saved_above|lia].
Qed.

Lemma spec_prog_above {X} (p : prog X) : forall m m' x l id A l1, spec_prog keccak256 m p = Ret (m', x) -> saved m = l ++ (id, A) :: l1 ->
  (forall q, q ∈ l -> (q.1 < id)%Z) -> reverts_above id p -> exists l2, saved m' = l ++ (id, A) :: l2.
Proof.
  induction p as [y| |o k IH]; intros m m' x l id A l1 H Hs Hl Hp; cbn [spec_prog reverts_above] in *; [injection H as <- <-; eauto|done|].
  destruct (spec_exec keccak256 m o) as [[m1 r]| |] eqn:E; [|done..]. rewrite bind_ret in H. destruct Hp as [Ho Hk].
  destruct (spec_exec_above _ _ _ _ _ _ _ _ E Hs Hl Ho) as ((l2 & Hs1) & _). eapply IH; done.
Qed.

Lemma saved_below db B s m q : sim keccak256 db B s m -> q ∈ saved m -> (q.1 < next_id m)%Z.
Proof.
  intros H Hq. apply list_elem_of_lookup in Hq as [i Hi]. destruct (Forall2_lookup_r _ _ _ _ _ (sim_saved _ _ _ _ _ H) Hi) as (r & Hr & <- & _).
  rewrite <- (sim_next _ _ _ _ _ H). apply (sim_fresh _ _ _ _ _ H). by eapply list_elem_of_lookup_2.
Qed.

Lemma find_saved_last (l : list (Z * spec_state)) id A l1 : (forall q, q ∈ l -> (q.1 < id)%Z) -> find_saved (l ++ (id, A) :: l1) id = Some (l, A).
Proof.
  intros Hl. rewrite (find_saved_at _ (length l) id A).
  - by rewrite take_app_length.
  - by rewrite list_lookup_middle.
  - intros j p Hj Hp. rewrite lookup_app_l in Hp by done. pose proof (Hl p ltac:(by eapply list_elem_of_lookup_2)). lia.
Qed.

(** Take a snapshot, run a program, revert: the state is the old one. *)
Lemma bracket db `{!CodeDB keccak256 db} B {X} s m (p : prog X) s2 x :
  sim keccak256 db B s m -> reverts_above (nextRevisionId s) p ->
  run_prog keccak256 db (Snapshot s).1 p = Ret (s2, x) ->
  exists s3 n, RevertToSnapshot db s2 (nextRevisionId s) = Ret s3 /\ sim keccak256 db B s3 (mkMachine (current m) (saved m) n) /\
    exists m2, spec_prog keccak256 (mkMachine (current m) (saved m ++ [(next_id m, current m)]) (next_id m + 1)) p = Ret (m2, x).
Proof.
  intros H Hp Hrun. pose proof (sim_snapshot keccak256 db B s m H) as H1. pose proof (prog_refines keccak256 db B p _ _ H1) as Hs.
  destruct (spec_prog keccak256 _ p) as [[m2 y]| |] eqn:E; [|by rewrite Hrun in Hs|done].
  destruct Hs as (s2' & Hrun' & H2). rewrite Hrun in Hrun'. injection Hrun' as <- <-. rewrite (sim_next _ _ _ _ _ H) in *.
  destruct (spec_prog_above p _ _ _ (saved m) (next_id m) (current m) [] E) as [l2 Hl2]; [done|intros q; by eapply saved_below|done|].
  pose proof (revert_exec keccak256 db B s2 m2 (next_id m) H2) as Hr. cbn [spec_exec] in Hr.
  rewrite Hl2, find_saved_last in Hr by (intros q; by eapply saved_below). destruct Hr as (s3 & He & H3). cbn [exec] in He.
  destruct (RevertToSnapshot db s2 (next_id m)) as [s4| |]; [|done..]. injection He as ->. exists s3, (next_id m2). eauto.
Qed.
End bracket.

(** ** Examples *)
Definition toy_keccak (x : string) : Hash := BytesToHash x.
Definition toy_db : Database :=
  mkDatabase {["alice" := mkAccount 1 100 "r" (toy_keccak EmptyString)]} {["r" := {["k" := "v"]}]} ∅.

Lemma length_BytesToHash b : len (BytesToHash b) = 32.
Proof. unfold BytesToHash. rewrite length_append, length_zeros, length_drop. lia. Qed.

Lemma BytesToHash_full b : len b = 32 -> BytesToHash b = b.
Proof. intros H. unfold BytesToHash. rewrite H. cbn [Nat.sub drop_bytes]. rewrite H. done. Qed.

#[export] Instance toy_CodeDB : CodeDB toy_keccak toy_db.
Proof.
  split.
  - intros x. apply BytesToHash_full, length_BytesToHash.
  - intros a d. unfold toy_db. cbn [account_trie]. rewrite lookup_singleton_Some. intros [<- <-]. done.
  - intros a d. unfold toy_db. cbn [account_trie]. rewrite lookup_singleton_Some. intros [<- <-]. by left.
  - intros a d. unfold toy_db. cbn [account_trie]. rewrite lookup_singleton_Some. intros [<- <-]. by eexists.
  - done.
Qed.

Definition toy_prog : prog (reply * reply) :=
  Do (OSetState "alice" "k" "w") (fun _ => Do OSnapshot (fun r =>
  Do (OSetState "alice" "k" "u") (fun _ => Do (OAddBalance "bob" 5) (fun _ =>
  Do (ORevert (match r with RZ z => z | _ => 0%Z end)) (fun _ =>
  Do (OGetState "alice" "k") (fun v => Do (OExist "bob") (fun b => Done (v, b)))))))).

(** C7: every program over the operations of the state database gets from the
    journalled implementation the answers, the final state and the panics of
    the specification that saves whole states and restores them. *)
Theorem statedb_refines_spec keccak256 db {X} (p : prog X) :
  CodeDB keccak256 db ->
  match spec_prog keccak256 (start_machine keccak256 db NewWithTrie) p with
  | Ret (m, x) => exists s, run_prog keccak256 db NewWithTrie p = Ret (s, x) /\ abs keccak256 db s = current m
  | Panics => run_prog keccak256 db NewWithTrie p = Panics
  | Diverges => False
  end.
Proof.
  intros Hdb. pose proof (prog_refines keccak256 db _ p _ _ (sim_start keccak256 db _ _ clean_new eq_refl)) as H.
  destruct (spec_prog keccak256 (start_machine keccak256 db NewWithTrie) p) as [[m x]| |]; [|done..].
  destruct H as (s & Hr & Hs). exists s. split; [done|]. exact (sim_abs _ _ _ _ _ Hs).
Qed.

Lemma statedb_refines_spec_witness :
  exists s m, run_prog toy_keccak toy_db NewWithTrie toy_prog = Ret (s, (RBytes "w", RBool false)) /\
    spec_prog toy_keccak (start_machine toy_keccak toy_db NewWithTrie) toy_prog = Ret (m, (RBytes "w", RBool false)) /\
    abs toy_keccak toy_db s = current m.
Proof.
  pose proof (statedb_refines_spec toy_keccak toy_db toy_prog _) as H.
  destruct (spec_prog toy_keccak (start_machine toy_keccak toy_db NewWithTrie) toy_prog) as [[m x]| |] eqn:E; vm_compute in E; [|discriminate E..].
  injection E as _ <-. destruct H as (s & Hr & Ha). exists s, m. split; [exact Hr|]. split; [|exact Ha]. reflexivity.
Defined.

(** C24: after any program, a snapshot followed by any program that only reverts
    to snapshots of its own, followed by a revert to the snapshot, returns and
    leaves exactly the state before. *)
Theorem snapshot_revert_restores keccak256 db {X Y} (p : prog X) (q : prog Y) s x s2 y :
  CodeDB keccak256 db ->
  run_prog keccak256 db NewWithTrie p = Ret (s, x) ->
  reverts_above (nextRevisionId s) q ->
  run_prog keccak256 db (Snapshot s).1 q = Ret (s2, y) ->
  exists s3, RevertToSnapshot db s2 (nextRevisionId s) = Ret s3 /\ abs keccak256 db s3 = abs keccak256 db s.
Proof.
  intros Hdb Hp Hq Hrun. pose proof (prog_refines keccak256 db _ p _ _ (sim_start keccak256 db _ _ clean_new eq_refl)) as H.
  destruct (spec_prog keccak256 (start_machine keccak256 db NewWithTrie) p) as [[m z]| |]; [|by rewrite Hp in H|done].
  destruct H as (s' & Hr & Hs). rewrite Hp in Hr. injection Hr as <- <-.
  destruct (bracket keccak256 db _ s m q s2 y Hs Hq Hrun) as (s3 & n & Hv & H3 & _). exists s3. split; [done|].
  by rewrite (sim_abs _ _ _ _ _ H3), (sim_abs _ _ _ _ _ Hs).
Qed.

Definition toy_before : prog unit := Do (OSetState "alice" "k" "w") (fun _ => Done tt).
Definition toy_after : prog unit := Do (OSetState "alice" "k" "u") (fun _ => Do (OAddBalance "bob" 5) (fun _ => Done tt)).
Definition ended {X} (s0 : StateDB) (m : outcome (StateDB * X)) : StateDB := match m with Ret (s, _) => s | _ => s0 end.
Definition toy_s : StateDB := ended NewWithTrie (run_prog toy_keccak toy_db NewWithTrie toy_before).
Definition toy_s2 : StateDB := ended NewWithTrie (run_prog toy_keccak toy_db (Snapshot toy_s).1 toy_after).

Lemma snapshot_revert_restores_witness :
  reverts_above (nextRevisionId toy_s) toy_after /\
  (exists s3, RevertToSnapshot toy_db toy_s2 (nextRevisionId toy_s) = Ret s3 /\ abs toy_keccak toy_db s3 = abs toy_keccak toy_db toy_s) /\
  a_state <$> (accounts (abs toy_keccak toy_db toy_s2) !! "alice") = Some {["k" := "u"]} /\
  a_state <$> (accounts (abs toy_keccak toy_db toy_s) !! "alice") = Some {["k" := "w"]}.
Proof.
  assert (reverts_above (nextRevisionId toy_s) toy_after) as Hq by (cbn; tauto).
  split; [exact Hq|]. split; [|split; reflexivity].
  apply (snapshot_revert_restores toy_keccak toy_db toy_before toy_after toy_s tt toy_s2 tt toy_CodeDB eq_refl Hq eq_refl).
Defined.

(** C33: whatever program runs, the state database stays well formed: live
    objects are stored under their addresses with coherent caches and 32-byte
    code hashes, the journal's entries can be undone, the log counter is a
    machine word, and the snapshots that can be reverted to have increasing
    identifiers below the next one and positions in the order of the journal. *)
Theorem statedb_well_formed keccak256 db {X} (p : prog X) s x :
  CodeDB keccak256 db -> run_prog keccak256 db NewWithTrie p = Ret (s, x) ->
  wf keccak256 db s /\
  (forall i j r q, i < j -> validRevisions s !! i = Some r -> validRevisions s !! j = Some q -> (rev_id r < rev_id q)%Z /\ journalIndex r <= journalIndex q) /\
  (forall r, r ∈ validRevisions s -> (rev_id r < nextRevisionId s)%Z).
Proof.
  intros Hdb E. pose proof (prog_refines keccak256 db _ p _ _ (sim_start keccak256 db _ _ clean_new eq_refl)) as H.
  destruct (spec_prog keccak256 (start_machine keccak256 db NewWithTrie) p) as [[m y]| |]; [|congruence|done].
  destruct H as (s' & Hr & Hs). rewrite E in Hr. injection Hr as <- <-.
  exact (conj (sim_wf _ _ _ _ _ Hs) (conj (sim_ids _ _ _ _ _ Hs) (sim_fresh _ _ _ _ _ Hs))).
Qed.

Lemma statedb_well_formed_witness : exists s, run_prog toy_keccak toy_db NewWithTrie toy_prog = Ret (s, (RBytes "w", RBool false)) /\ wf toy_keccak toy_db s.
Proof.
  destruct (run_prog toy_keccak toy_db NewWithTrie toy_prog) as [[s x]| |] eqn:E; [|vm_compute in E; discriminate E..].
  exists s. destruct (statedb_well_formed toy_keccak toy_db toy_prog s x _ E) as [H _]. split; [|exact H]. vm_compute in E. injection E as <- <-. reflexivity.
Defined.
