(* ===== verification/SharedTrie.v ===== *)
(** * Publishing a worker's writes to the shared trie

    The rest of [core/state/statedb.go] and [state_object.go]: finalising a
    transaction, writing storage into the tries, and
    [IntermediateShared_Re]/[ResetObjectCache], with which the workers of the
    shared-trie replay pool hand their writes to each other.  The account trie
    and the database are shared: an operation that writes them returns them.
    The root hash of a storage trie is an argument, and the order in which Go
    ranges over a map is one. *)
From stdpp Require Import pretty countable.
From stdpp Require Import base gmap sets list strings.
From Stdlib Require Import ZArith Lia.
From S2P Require Import Prelude GoText StateDB StateSpec.

Set Default Goal Selector "!".
Local Open Scope list_scope.

(** ** Objects *)
Definition update_slot (key value : Hash) (c : Storage * Storage) : Storage * Storage :=
  let '(origin, tr) := c in
  if decide (value = slot_value origin key) then c else (<[key := value]> origin, put_slot tr key value).

Definition updateTrie (db : Database) (o : stateObject) : stateObject :=
  let '(o, tr) := getTrie db (obj_finalise o) in
  let '(origin, tr) := map_fold update_slot (originStorage o, tr) (pendingStorage o) in
  with_trie (with_storage o origin ∅ (dirtyStorage o)) (obj_dbErr o) tr.

Definition storage_trie (o : stateObject) : Storage := default ∅ (trie o).

Section shared.
Context (keccak256 : string -> Hash) (trie_hash : Storage -> Hash) (range_addrs : gset Address -> list Address).

Definition updateRoot (db : Database) (o : stateObject) : stateObject :=
  let o := updateTrie db o in setRoot o (trie_hash (storage_trie o)).

Definition put_trie (db : Database) (tr : Storage) : Database :=
  mkDatabase (account_trie db) (<[trie_hash tr := tr]> (storage_tries db)) (blobs db).

(** [CommitTrie]: the error flag says that the object recorded an error. *)
Definition CommitTrie (db : Database) (o : stateObject) : Database * stateObject * bool :=
  let o := updateTrie db o in
  if obj_dbErr o then (db, o, true)
  else (put_trie db (storage_trie o), setRoot o (trie_hash (storage_trie o)), false).

(** ** The end of a transaction *)
Definition clearJournalAndRefund (s : StateDB) : StateDB :=
  let s := match entries (jrnl s) with [] => s | _ => with_refund (with_journal s newJournal) 0 end in
  with_revisions s [] (nextRevisionId s).

Definition finalise_address (deleteEmptyObjects : bool) (s : StateDB) (a : Address) : StateDB :=
  match stateObjects s !! a with
  | None => s
  | Some o =>
    let o := if suicided o || (deleteEmptyObjects && obj_empty keccak256 o) then with_flags o (dirtyCode o) (suicided o) true else obj_finalise o in
    with_sets (with_objects s (<[a := o]> (stateObjects s))) ({[a]} ∪ stateObjectsPending s) ({[a]} ∪ stateObjectsDirty s)
  end.

Definition Finalise (deleteEmptyObjects : bool) (s : StateDB) : StateDB :=
  clearJournalAndRefund (foldl (finalise_address deleteEmptyObjects) s (range_addrs (dom (dirties (jrnl s))))).

Definition updateStateObject (db : Database) (o : stateObject) : Database :=
  mkDatabase (<[address o := data o]> (account_trie db)) (storage_tries db) (blobs db).
Definition deleteStateObject (db : Database) (o : stateObject) : Database :=
  mkDatabase (delete (address o) (account_trie db)) (storage_tries db) (blobs db).

(** A loop over addresses that stops at the first error. *)
Definition shared_state := (Database * StateDB * bool)%type.

Definition commit_address (st : shared_state) (a : Address) : outcome shared_state :=
  let '(db, s, err) := st in
  if err then Ret st
  else match stateObjects s !! a with
       | None => Panics
       | Some o =>
         if deleted o then Ret st
         else let '(db, o, err) := CommitTrie db o in Ret (db, with_objects s (<[a := o]> (stateObjects s)), err)
       end.

Definition CommitDirtyStorage (db : Database) (s : StateDB) : outcome shared_state :=
  foldM commit_address (db, s, false) (range_addrs (stateObjectsDirty s)) ≫= fun '(db, s, err) =>
  Ret (db, if err : bool then s else with_sets s (stateObjectsPending s) ∅, err).

Definition publish_address (st : Database * StateDB) (a : Address) : outcome (Database * StateDB) :=
  let '(db, s) := st in
  match stateObjects s !! a with
  | None => Panics
  | Some o => Ret (if deleted o then deleteStateObject db o else updateStateObject db o, s)
  end.

Definition IntermediateShared_Re (db : Database) (s : StateDB) : outcome shared_state :=
  CommitDirtyStorage db (Finalise false s) ≫= fun '(db, s, err) =>
  if err : bool then Ret (db, s, true)
  else foldM publish_address (db, s) (range_addrs (stateObjectsPending s)) ≫= fun '(db, s) =>
       Ret (db, with_sets s ∅ (stateObjectsDirty s), false).

(** [IntermediateRoot] without the hash of the account trie. *)
Definition root_address (st : Database * StateDB) (a : Address) : outcome (Database * StateDB) :=
  let '(db, s) := st in
  match stateObjects s !! a with
  | None => Panics
  | Some o =>
    if deleted o then Ret (deleteStateObject db o, s)
    else let o := updateRoot db o in Ret (updateStateObject db o, with_objects s (<[a := o]> (stateObjects s)))
  end.

Definition IntermediateRoot (deleteEmptyObjects : bool) (db : Database) (s : StateDB) : outcome (Database * StateDB) :=
  let s := Finalise deleteEmptyObjects s in
  foldM root_address (db, s) (range_addrs (stateObjectsPending s)) ≫= fun '(db, s) =>
  Ret (db, with_sets s ∅ (stateObjectsDirty s)).

(** [Commit] without the final commit of the account trie to disk. *)
Definition commit_code (db : Database) (o : stateObject) : Database * stateObject :=
  match code o with
  | Some c =>
    if dirtyCode o then
      (mkDatabase (account_trie db) (storage_tries db) (<[BytesToHash (CodeHash (data o)) := c]> (blobs db)),
       with_flags o false (suicided o) (deleted o))
    else (db, o)
  | None => (db, o)
  end.

Definition commit_object (st : shared_state) (a : Address) : outcome shared_state :=
  let '(db, s, err) := st in
  if err then Ret st
  else match stateObjects s !! a with
       | None => Panics
       | Some o =>
         if deleted o then Ret st
         else let '(db, o) := commit_code db o in
              let '(db, o, err) := CommitTrie db o in Ret (db, with_objects s (<[a := o]> (stateObjects s)), err)
       end.

Definition Commit (deleteEmptyObjects : bool) (db : Database) (s : StateDB) : outcome shared_state :=
  IntermediateRoot deleteEmptyObjects db s ≫= fun '(db, s) =>
  foldM commit_object (db, s, false) (range_addrs (stateObjectsDirty s)) ≫= fun '(db, s, err) =>
  Ret (db, if err : bool then s else with_sets s (stateObjectsPending s) ∅, err).
End shared.

Definition ResetObjectCache (s : StateDB) : StateDB := with_sets (with_objects s ∅) ∅ ∅.

(** [Reset] to the state of the account trie of a root. *)
Definition Reset (s : StateDB) : StateDB :=
  let s := mkStateDB ∅ ∅ ∅ (refund s) zero_hash zero_hash 0 ∅ 0 ∅ (jrnl s) (validRevisions s) (nextRevisionId s) in
  clearJournalAndRefund s.

(** ** Writing an object's storage *)
Lemma update_slots (m origin tr : Storage) :
  (forall k v, origin !! k = Some v -> slot_value tr k = v) -> dom m ⊆ dom origin ->
  let '(og, t) := map_fold update_slot (origin, tr) m in
  (forall k, slot_value t k = match m !! k with Some v => v | None => slot_value tr k end) /\
  (forall k v, og !! k = Some v -> slot_value t k = v).
Proof.
  intros Hc Hm. enough (dom m ⊆ dom origin ->
    let '(og, t) := map_fold update_slot (origin, tr) m in
    (forall k, slot_value t k = match m !! k with Some v => v | None => slot_value tr k end) /\
    (forall k, og !! k = match m !! k with Some v => Some v | None => origin !! k end)) as H.
  { specialize (H Hm). destruct (map_fold update_slot (origin, tr) m) as [og t]. destruct H as [H1 H2]. split; [done|].
    intros k v. rewrite H2, H1. destruct (m !! k); [by intros [= ->]|apply Hc]. }
  apply (map_fold_weak_ind (fun r m => dom m ⊆ dom origin -> let '(og, t) := r in
    (forall k, slot_value t k = match m !! k with Some v => v | None => slot_value tr k end) /\
    (forall k, og !! k = match m !! k with Some v => Some v | None => origin !! k end))).
  { intros _. split; intros k; by rewrite lookup_empty. }
  intros i x m' [og t] Hi IH Hd. rewrite dom_insert_L in Hd. destruct IH as [H1 H2]; [set_solver|].
  assert (i ∈ dom origin) as Hio by set_solver. apply elem_of_dom in Hio as [y Hy].
  unfold update_slot. case_decide as Hx.
  - unfold slot_value in Hx. rewrite H2, Hi, Hy in Hx. cbn in Hx. subst y. split; intros k.
    + rewrite H1. destruct (decide (i = k)) as [<-|]; [|by rewrite lookup_insert_ne]. rewrite Hi, lookup_insert_eq. by apply Hc.
    + rewrite H2. destruct (decide (i = k)) as [<-|]; [|by rewrite lookup_insert_ne]. by rewrite Hi, lookup_insert_eq.
  - split; intros k.
    + rewrite put_slot_value. case_decide as Hk; [subst; by rewrite lookup_insert_eq|]. by rewrite lookup_insert_ne, H1.
    + destruct (decide (i = k)) as [<-|]; [by rewrite !lookup_insert_eq|]. by rewrite !lookup_insert_ne, H2.
Qed.

Section objects.
Context (keccak256 : string -> Hash).

Lemma finalise_ok db o : object_ok keccak256 db o -> object_ok keccak256 db (obj_finalise o) /\
  committed_view db (obj_finalise o) = dirtyStorage o ∪ committed_view db o.
Proof.
  intros (H1 & H2 & Hs & H3 & H4). split; [|unfold committed_view; cbn; by rewrite <- (assoc_L (∪))].
  split; [done|]. split; [done|]. split; [exact Hs|]. split; [done|]. cbn. rewrite dom_union_L. set_solver.
Qed.

Lemma updateTrie_spec db o : object_ok keccak256 db o ->
  let o' := updateTrie db o in
  exists t, trie o' = Some t /\ nonzero t = nonzero (dirtyStorage o ∪ committed_view db o) /\
    address o' = address o /\ data o' = data o /\ deleted o' = deleted o /\ obj_dbErr o' = false.
Proof.
  intros Hok. destruct (finalise_ok db o Hok) as [(_ & _ & (Hs1 & Hs2 & _) & Hc & Hd) Hv]. cbn zeta. unfold updateTrie.
  destruct (getTrie db (obj_finalise o)) as [o1 t1] eqn:E. apply getTrie_spec in E as (Ht & _ & Ho & Herr).
  assert (originStorage o1 = originStorage o /\ pendingStorage o1 = dirtyStorage o ∪ pendingStorage o /\ address o1 = address o /\ data o1 = data o /\
    deleted o1 = deleted o) as (E1 & E2 & E3 & E4 & E5) by (by destruct Ho as [[err ->] | ->]).
  rewrite E1, E2. pose proof (update_slots (dirtyStorage o ∪ pendingStorage o) (originStorage o) t1) as Hu.
  destruct (map_fold update_slot (originStorage o, t1) (dirtyStorage o ∪ pendingStorage o)) as [og t].
  destruct Hu as [H1 H2]; [intros k v Hk; rewrite Ht; by apply Hc|cbn in Hd; set_solver|].
  exists t. cbn. split; [done|]. split; [|rewrite Herr by done; by split_and!]. apply nonzero_ext. intros k. rewrite H1.
  unfold committed_view. rewrite (assoc_L (∪)), (union_value (dirtyStorage o ∪ pendingStorage o)).
  destruct ((dirtyStorage o ∪ pendingStorage o) !! k); [done|]. rewrite union_value, Ht.
  destruct (originStorage o !! k) as [v|] eqn:Ek; [by apply Hc|done].
Qed.
End objects.

(** ** Roots identify tries

    What the code relies on of Merkle tries: the root of the empty trie, that
    a root determines the content, and that the database stores a trie under
    its own root. *)
Class TrieHash (trie_hash : Storage -> Hash) : Prop := {
  hash_empty : trie_hash ∅ = emptyRoot;
  hash_nonzero : forall t, trie_hash t <> zero_hash;
  hash_inj : forall t u, trie_hash t = trie_hash u -> t = u }.

Definition stored_by_hash (trie_hash : Storage -> Hash) (db : Database) : Prop :=
  forall r t, storage_tries db !! r = Some t -> trie_hash t = r.

(** A database with more tries. *)
Definition extends (db db' : Database) : Prop := blobs db' = blobs db /\ storage_tries db ⊆ storage_tries db'.

Section tries.
Context (keccak256 : string -> Hash) (trie_hash : Storage -> Hash) `{!TrieHash trie_hash}.

Lemma extends_refl db : extends db db.
Proof. done. Qed.

Lemma extends_trans db1 db2 db3 : extends db1 db2 -> extends db2 db3 -> extends db1 db3.
Proof. intros [H1 H2] [H3 H4]. split; [congruence|by etrans]. Qed.

Lemma extends_open db db' r t : extends db db' -> OpenStorageTrie db r = Some t -> OpenStorageTrie db' r = Some t.
Proof. intros [_ H]. unfold OpenStorageTrie. case_decide; [done|]. intros Ht. by eapply lookup_weaken. Qed.

Lemma extends_view db db' o : extends db db' -> is_Some (OpenStorageTrie db (Root (data o))) -> trie_view db' o = trie_view db o.
Proof. intros He [t Ht]. unfold trie_view. by rewrite Ht, (extends_open _ _ _ _ He Ht). Qed.

Lemma extends_ok db db' o : extends db db' -> object_ok keccak256 db o ->
  object_ok keccak256 db' o /\ committed_view db' o = committed_view db o.
Proof.
  intros He (H1 & H2 & (H3 & H4 & H5) & H6 & H7). pose proof (extends_view db db' o He H4) as Hv.
  split; [|unfold committed_view; by rewrite Hv].
  split; [done|]. split; [done|]. split; [|split; [by rewrite Hv|done]]. split; [done|]. split.
  - destruct H4 as [t Ht]. exists t. by eapply extends_open.
  - unfold has_code, code_view, code_at in *. by rewrite (proj1 He).
Qed.

Lemma put_trie_extends db t : stored_by_hash trie_hash db -> extends db (put_trie trie_hash db t) /\ stored_by_hash trie_hash (put_trie trie_hash db t) /\
  OpenStorageTrie (put_trie trie_hash db t) (trie_hash t) = Some t.
Proof.
  intros Hs. split; [split; [done|]|split].
  - apply map_subseteq_spec. intros r u Hu. cbn. destruct (decide (trie_hash t = r)) as [<-|]; [|by rewrite lookup_insert_ne].
    rewrite lookup_insert_eq. f_equal. apply hash_inj. symmetry. by apply Hs.
  - intros r u. cbn. rewrite lookup_insert_Some. intros [[<- <-]|[_ Hu]]; [done|by apply Hs].
  - unfold OpenStorageTrie. case_decide as Hd; [|cbn; by rewrite lookup_insert_eq].
    destruct Hd as [Hd|Hd]; [by destruct (hash_nonzero t)|]. rewrite <- hash_empty in Hd. by rewrite (hash_inj _ _ Hd).
Qed.

(** An object and what [CommitTrie] makes of it. *)
Definition committed_as (db db' : Database) (o o' : stateObject) : Prop :=
  exists t, data o' = mkAccount (Nonce (data o)) (Balance (data o)) (trie_hash t) (CodeHash (data o)) /\ address o' = address o /\ deleted o' = deleted o /\
    nonzero t = nonzero (dirtyStorage o ∪ committed_view db o) /\ OpenStorageTrie db' (trie_hash t) = Some t.

Lemma CommitTrie_spec db o : object_ok keccak256 db o -> stored_by_hash trie_hash db ->
  exists db' o', CommitTrie trie_hash db o = (db', o', false) /\ committed_as db db' o o' /\ extends db db' /\ stored_by_hash trie_hash db' /\
    account_trie db' = account_trie db.
Proof.
  intros Hok Hs. destruct (updateTrie_spec keccak256 db o Hok) as (t & H1 & H2 & H3 & H4 & H5 & H6).
  unfold CommitTrie. rewrite H6. assert (storage_trie (updateTrie db o) = t) as Ht by (unfold storage_trie; by rewrite H1). rewrite Ht.
  destruct (put_trie_extends db t Hs) as (K1 & K2 & K3). eexists _, _. split; [done|]. split; [|done].
  exists t. cbn. by rewrite H4.
Qed.
End tries.

(** ** Finalising *)
Section finalise.
Context (keccak256 : string -> Hash) (range_addrs : gset Address -> list Address) (Hrange : range_ok range_addrs) (del : bool).

Definition final_object (o : stateObject) : stateObject :=
  if suicided o || (del && obj_empty keccak256 o) then with_flags o (dirtyCode o) (suicided o) true else obj_finalise o.

Lemma finalise_step s b a :
  let s' := finalise_address keccak256 del s b in
  stateObjects s' !! a = (if decide (a = b) then final_object <$> stateObjects s !! a else stateObjects s !! a) /\
  (a ∈ stateObjectsPending s' <-> a ∈ stateObjectsPending s \/ (a = b /\ is_Some (stateObjects s !! a))) /\
  (a ∈ stateObjectsDirty s' <-> a ∈ stateObjectsDirty s \/ (a = b /\ is_Some (stateObjects s !! a))).
Proof.
  cbn zeta. unfold finalise_address. destruct (stateObjects s !! b) as [o|] eqn:E; cbn.
  - destruct (decide (a = b)) as [->|Hne].
    + rewrite lookup_insert_eq, E, !elem_of_union, !elem_of_singleton. split; [done|]. split; (split; [auto|]); intros _; left; done.
    + rewrite lookup_insert_ne by done. rewrite !elem_of_union, !elem_of_singleton. split; [done|]. tauto.
  - destruct (decide (a = b)) as [->|Hne]; [rewrite E|]; (split; [done|]).
    + split; (split; [auto|]); (intros [?|[_ [? ?]]]; done).
    + tauto.
Qed.

Lemma finalise_fold l : forall s a, NoDup l ->
  let s' := foldl (finalise_address keccak256 del) s l in
  stateObjects s' !! a = (if decide (a ∈ l) then final_object <$> stateObjects s !! a else stateObjects s !! a) /\
  (a ∈ stateObjectsPending s' <-> a ∈ stateObjectsPending s \/ (a ∈ l /\ is_Some (stateObjects s !! a))) /\
  (a ∈ stateObjectsDirty s' <-> a ∈ stateObjectsDirty s \/ (a ∈ l /\ is_Some (stateObjects s !! a))).
Proof.
  induction l as [|b l IH]; intros s a Hl; cbn [foldl].
  { split_and!; [by rewrite decide_False by apply not_elem_of_nil|..]; rewrite elem_of_nil; tauto. }
  apply NoDup_cons in Hl as [Hb Hl]. destruct (IH (finalise_address keccak256 del s b) a Hl) as (H1 & H2 & H3).
  destruct (finalise_step s b a) as (K1 & K2 & K3). rewrite K1 in H1, H2, H3. rewrite K2 in H2. rewrite K3 in H3. clear K1 K2 K3 IH.
  destruct (decide (a = b)) as [->|Hne].
  - rewrite decide_False in H1 by done. rewrite H1, H2, H3. rewrite decide_True by left. split; [done|]. rewrite elem_of_cons, fmap_is_Some. tauto.
  - rewrite H1, H2, H3. split; [|rewrite elem_of_cons; tauto].
    destruct (decide (a ∈ l)); [rewrite decide_True by (by right)|rewrite decide_False by (rewrite elem_of_cons; tauto)]; done.
Qed.

Lemma clear_frame s : stateObjects (clearJournalAndRefund s) = stateObjects s /\
  stateObjectsPending (clearJournalAndRefund s) = stateObjectsPending s /\ stateObjectsDirty (clearJournalAndRefund s) = stateObjectsDirty s.
Proof. unfold clearJournalAndRefund. by destruct (entries (jrnl s)). Qed.

(** A database after the end of a transaction, up to its objects. *)
Definition ended_as (s s' : StateDB) : Prop :=
  jrnl s' = match entries (jrnl s) with [] => jrnl s | _ => newJournal end /\ validRevisions s' = [] /\ logs s' = logs s /\ logSize s' = logSize s.

Lemma Finalise_ended s : ended_as s (Finalise keccak256 range_addrs del s).
Proof.
  unfold Finalise. set (l := range_addrs (dom (dirties (jrnl s)))). clearbody l.
  assert (forall s0, let s1 := foldl (finalise_address keccak256 del) s0 l in jrnl s1 = jrnl s0 /\ logs s1 = logs s0 /\ logSize s1 = logSize s0) as H.
  { induction l as [|a l IH]; intros s0; [done|]. cbn [foldl]. destruct (IH (finalise_address keccak256 del s0 a)) as (-> & -> & ->).
    unfold finalise_address. by destruct (stateObjects s0 !! a). }
  destruct (H s) as (H1 & H2 & H3). unfold ended_as, clearJournalAndRefund. rewrite H1. destruct (entries (jrnl s)); cbn; done.
Qed.

(** The accounts a transaction dirtied, with live objects. *)
Definition flushed (s : StateDB) (a : Address) : Prop := a ∈ dom (dirties (jrnl s)) /\ is_Some (stateObjects s !! a).

Lemma Finalise_spec s : let s' := Finalise keccak256 range_addrs del s in
  (forall a, stateObjects s' !! a = if decide (a ∈ dom (dirties (jrnl s))) then final_object <$> stateObjects s !! a else stateObjects s !! a) /\
  (forall a, a ∈ stateObjectsPending s' <-> a ∈ stateObjectsPending s \/ flushed s a) /\
  (forall a, a ∈ stateObjectsDirty s' <-> a ∈ stateObjectsDirty s \/ flushed s a).
Proof.
  cbn zeta. unfold Finalise. destruct (clear_frame (foldl (finalise_address keccak256 del) s (range_addrs (dom (dirties (jrnl s))))))
    as (-> & -> & ->). assert (forall a, a ∈ range_addrs (dom (dirties (jrnl s))) <-> a ∈ dom (dirties (jrnl s))) as Hin by (intros a; by apply range_ok_elem).
  assert (NoDup (range_addrs (dom (dirties (jrnl s))))) as Hnd by (by apply range_ok_nodup).
  split_and!; intros a; destruct (finalise_fold _ s a Hnd) as (H1 & H2 & H3).
  - rewrite H1. destruct (decide (a ∈ dom (dirties (jrnl s)))) as [Ha|Ha]; rewrite <- Hin in Ha; [by rewrite decide_True|by rewrite decide_False].
  - rewrite H2, Hin. done.
  - rewrite H3, Hin. done.
Qed.
End finalise.

(** ** The two loops of [IntermediateShared_Re] *)
Section flush.
Context (keccak256 : string -> Hash) (trie_hash : Storage -> Hash) (range_addrs : gset Address -> list Address).
Context `{!TrieHash trie_hash} (Hrange : range_ok range_addrs).

Definition settled_as (db db' : Database) (m m' : gmap Address stateObject) (a : Address) : Prop :=
  exists o o', m !! a = Some o /\ m' !! a = Some o' /\ (if deleted o then o' = o else committed_as trie_hash db db' o o').

Lemma committed_as_mono db db1 db2 o o' : extends db1 db2 -> committed_as trie_hash db db1 o o' -> committed_as trie_hash db db2 o o'.
Proof. intros He (t & H1 & H2 & H3 & H4 & H5). exists t. split_and!; try done. by eapply extends_open. Qed.

Lemma commit_loop db s l : NoDup l -> (forall a, a ∈ l -> exists o, stateObjects s !! a = Some o /\ object_ok keccak256 db o) ->
  stored_by_hash trie_hash db ->
  exists db' m', foldM (commit_address trie_hash) (db, s, false) l = Ret (db', with_objects s m', false) /\
    account_trie db' = account_trie db /\ extends db db' /\ stored_by_hash trie_hash db' /\
    (forall a, a ∈ l -> settled_as db db' (stateObjects s) m' a) /\ (forall a, a ∉ l -> m' !! a = stateObjects s !! a).
Proof.
  intros Hnd Hok Hst.
  destruct (foldM_inv (commit_address trie_hash) (fun pre st => exists db' m', st = (db', with_objects s m', false) /\
    account_trie db' = account_trie db /\ extends db db' /\ stored_by_hash trie_hash db' /\
    (forall a, a ∈ pre -> settled_as db db' (stateObjects s) m' a) /\ (forall a, a ∉ pre -> m' !! a = stateObjects s !! a)) l (db, s, false))
    as (st & Hf & db' & m' & -> & H1 & H2 & Hs' & H3 & H4).
  - exists db, (stateObjects s). split_and!; try done; [by destruct s|by intros a Ha%elem_of_nil].
  - intros pre a post st Hl (db1 & m1 & -> & H1 & H2 & H3 & H4 & H5). rewrite Hl in Hnd. apply NoDup_app in Hnd as (_ & Hpre & _).
    assert (a ∉ pre) as Ha by (intros Hin; apply (Hpre a Hin); left).
    destruct (Hok a) as (o & Ho & Hoo); [rewrite Hl; apply elem_of_app; right; left|].
    cbn [commit_address]. cbn [stateObjects with_objects]. rewrite H5, Ho by done. destruct (deleted o) eqn:Hd.
    + eexists. split; [done|]. exists db1, m1. split_and!; try done; intros b; rewrite elem_of_app, list_elem_of_singleton.
      * intros [Hb| ->]; [by apply H4|]. exists o, o. rewrite H5, Ho, Hd by done. done.
      * intros Hb. apply H5. tauto.
    + destruct (extends_ok keccak256 _ _ _ H2 Hoo) as [Hoo1 Hv].
      destruct (CommitTrie_spec keccak256 trie_hash db1 o Hoo1 H3) as (db2 & o2 & -> & (t & Hc1 & Hc2 & Hc3 & Hc4 & Hc5) & K2 & K3 & K4).
      eexists. split; [done|]. exists db2, (<[a := o2]> m1). split_and!; [done|congruence|by eapply extends_trans|done| |];
        intros b; rewrite elem_of_app, list_elem_of_singleton.
      * intros Hb. destruct (decide (a = b)) as [<-|Hne].
        -- exists o, o2. rewrite lookup_insert_eq, Hd. split_and!; try done. exists t. by rewrite <- Hv.
        -- destruct Hb as [Hb| ->]; [|done]. destruct (H4 b Hb) as (u & u' & Hu & Hu' & Hc). exists u, u'. rewrite lookup_insert_ne by done.
           split_and!; try done. destruct (deleted u); [done|]. by eapply committed_as_mono.
      * intros Hb. rewrite lookup_insert_ne by (intros ->; tauto). apply H5. tauto.
  - eauto 11.
Qed.

Lemma publish_loop db s l : NoDup l -> (forall a, a ∈ l -> exists o, stateObjects s !! a = Some o /\ address o = a) ->
  exists m, foldM publish_address (db, s) l = Ret (mkDatabase m (storage_tries db) (blobs db), s) /\
    (forall a o, a ∈ l -> stateObjects s !! a = Some o -> m !! a = if deleted o then None else Some (data o)) /\
    (forall a, a ∉ l -> m !! a = account_trie db !! a).
Proof.
  intros Hnd Hok.
  destruct (foldM_inv publish_address (fun pre st => exists m, st = (mkDatabase m (storage_tries db) (blobs db), s) /\
    (forall a o, a ∈ pre -> stateObjects s !! a = Some o -> m !! a = if deleted o then None else Some (data o)) /\
    (forall a, a ∉ pre -> m !! a = account_trie db !! a)) l (db, s)) as (st & Hf & m & -> & H1 & H2); [| |eauto].
  - exists (account_trie db). split_and!; try done; [by destruct db|by intros a o Ha%elem_of_nil].
  - intros pre a post st Hl (m & -> & H1 & H2). destruct (Hok a) as (o & Ho & Hoa); [rewrite Hl; apply elem_of_app; right; left|].
    cbn [publish_address]. rewrite Ho. eexists. split; [done|].
    exists (if deleted o then delete a m else <[a := data o]> m). unfold deleteStateObject, updateStateObject. rewrite Hoa. cbn.
    split; [by destruct (deleted o)|]. split.
    + intros b u. rewrite elem_of_app, list_elem_of_singleton. intros Hb Hu. destruct (decide (a = b)) as [<-|Hne].
      * rewrite Ho in Hu. injection Hu as <-. destruct (deleted o); [by rewrite lookup_delete_eq|by rewrite lookup_insert_eq].
      * assert (m !! b = if deleted u then None else Some (data u)) as <- by (apply H1; [|done]; by destruct Hb as [?| ->]).
        destruct (deleted o); [by rewrite lookup_delete_ne|by rewrite lookup_insert_ne].
    + intros b. rewrite elem_of_app, list_elem_of_singleton. intros Hb. rewrite <- H2 by tauto.
      destruct (deleted o); [rewrite lookup_delete_ne by (intros ->; tauto)|rewrite lookup_insert_ne by (intros ->; tauto)]; done.
Qed.

Lemma final_ok del db o : object_ok keccak256 db o -> object_ok keccak256 db (final_object keccak256 del o) /\ address (final_object keccak256 del o) = address o.
Proof. intros Ho. unfold final_object. destruct (suicided o || _); [done|]. split; [by apply finalise_ok|done]. Qed.

(** The account the shared trie holds after the flush. *)
Definition flushed_as (db db' : Database) (a : Address) (o : stateObject) : Prop :=
  if suicided o || deleted o then account_trie db' !! a = None
  else exists t, account_trie db' !! a = Some (mkAccount (Nonce (data o)) (Balance (data o)) (trie_hash t) (CodeHash (data o))) /\
       nonzero t = nonzero (dirtyStorage o ∪ committed_view db o) /\ OpenStorageTrie db' (trie_hash t) = Some t.

Lemma Shared_Re_spec db s : wf keccak256 db s -> stateObjectsPending s = ∅ /\ stateObjectsDirty s = ∅ -> stored_by_hash trie_hash db ->
  exists db' s', IntermediateShared_Re keccak256 trie_hash range_addrs db s = Ret (db', s', false) /\
    extends db db' /\ stored_by_hash trie_hash db' /\ ended_as s s' /\
    (forall a o, flushed s a -> stateObjects s !! a = Some o -> flushed_as db db' a o) /\
    (forall a, ~ flushed s a -> account_trie db' !! a = account_trie db !! a).
Proof.
  intros Hw Hsets Hst. destruct (Finalise_spec keccak256 range_addrs Hrange false s) as (Hobj & Hpend & Hdirt).
  destruct Hsets as [Hp0 Hd0]. setoid_rewrite Hp0 in Hpend. setoid_rewrite Hd0 in Hdirt.
  assert (forall (P : Prop) a, a ∈ (∅ : gset Address) \/ P <-> P) as Hnil by set_solver. setoid_rewrite Hnil in Hpend. setoid_rewrite Hnil in Hdirt. clear Hnil.
  set (s1 := Finalise keccak256 range_addrs false s) in *.
  assert (forall a, flushed s a -> exists o, stateObjects s !! a = Some o /\ stateObjects s1 !! a = Some (final_object keccak256 false o) /\
    object_ok keccak256 db o /\ address o = a) as Hfl.
  { intros a Ha. destruct Ha as [Hd [o Ho]]. exists o. rewrite (Hobj a), Ho, decide_True by done. by destruct (wf_object _ _ _ Hw a o Ho). }
  unfold IntermediateShared_Re, CommitDirtyStorage. fold s1.
  destruct (commit_loop db s1 (range_addrs (stateObjectsDirty s1))) as (db1 & m1 & -> & H1 & H2 & H3 & H4 & H5);
    [by apply range_ok_nodup| |done|].
  { intros a Ha. apply range_ok_elem, Hdirt in Ha; [|done]. destruct (Hfl a Ha) as (o & _ & Ho & Hok & _). exists (final_object keccak256 false o). split; [done|by apply final_ok]. }
  rewrite !bind_ret. cbn [with_sets stateObjectsPending with_objects].
  assert (forall a, flushed s a -> settled_as db db1 (stateObjects s1) m1 a) as Hset.
  { intros a Ha. apply H4, range_ok_elem, Hdirt; done. }
  destruct (publish_loop db1 (with_sets (with_objects s1 m1) (stateObjectsPending s1) ∅) (range_addrs (stateObjectsPending s1))) as (m2 & -> & K1 & K2);
    [by apply range_ok_nodup| |].
  { intros a Ha. apply range_ok_elem, Hpend in Ha; [|done]. destruct (Hfl a Ha) as (o & _ & Ho & Hok & Hoa). destruct (Hset a Ha) as (u & u' & Hu & Hu' & Hc).
    rewrite Ho in Hu. injection Hu as <-. exists u'. split; [done|]. rewrite <- Hoa. rewrite <- (proj2 (final_ok false db o Hok)).
    destruct (deleted (final_object keccak256 false o)); [by subst|]. destruct Hc as (t & _ & ? & _). done. }
  rewrite bind_ret. eexists _, _. split; [done|]. split; [done|]. split; [done|]. split; [exact (Finalise_ended keccak256 range_addrs false s)|]. split.
  - intros a o Ha Ho. destruct (Hfl a Ha) as (u & Hu & Hu1 & Hok & Hoa). rewrite Ho in Hu. injection Hu as <-.
    destruct (Hset a Ha) as (w & w' & Hw1 & Hw2 & Hc). rewrite Hu1 in Hw1. injection Hw1 as <-.
    assert (m2 !! a = if deleted w' then None else Some (data w')) as Hm2 by (apply K1; [apply range_ok_elem, Hpend; done|done]).
    unfold flushed_as, final_object in *. cbn [andb] in *. rewrite orb_false_r in *. cbn [account_trie]. rewrite Hm2. clear Hm2.
    destruct (suicided o); cbn [orb]; [cbn in Hc; by subst w'|]. cbn [obj_finalise deleted with_storage] in Hc.
    destruct (deleted o) eqn:Ed; [subst w'; cbn; by rewrite Ed|]. destruct Hc as (t & Hc1 & Hc2 & Hc3 & Hc4 & Hc5).
    cbn in Hc3. rewrite Hc3, Ed, Hc1. exists t. split; [done|]. split; [|exact Hc5].
    rewrite Hc4, (proj2 (finalise_ok keccak256 db o Hok)). cbn. by rewrite (left_id_L ∅ (∪)).
  - intros a Ha. cbn. rewrite K2, H1; [done|]. intros Hin. apply range_ok_elem, Hpend in Hin; done.
Qed.
End flush.

(** ** What the other workers see *)
Section visible.
Context (keccak256 : string -> Hash).

Lemma on_account_frame A b f A' a : on_account A b f = Ret A' -> b <> a -> accounts A' !! a = accounts A !! a.
Proof. unfold on_account. destruct (live A b); [|done]. intros [= <-] Hne. cbn. by rewrite lookup_insert_ne. Qed.

Lemma spec_revert_frame db A e A' a : spec_revert keccak256 db A e = Ret A' -> concerns e <> Some a -> accounts A' !! a = accounts A !! a.
Proof.
  intros H Hc. destruct e as [b|prev|b x z|b z|b z|b k v|b c h|r|t|h|b]; cbn in Hc, H; try (eapply on_account_frame; [exact H|congruence]).
  - injection H as <-. cbn. rewrite lookup_delete_ne by congruence. done.
  - injection H as <-. cbn. rewrite lookup_insert_ne by congruence. done.
  - destruct (live A b); injection H as <-; [|done]. cbn. rewrite lookup_insert_ne by congruence. done.
  - by injection H as <-.
  - destruct (default [] (a_logs A !! t)) as [|y [|]]; [done|by injection H as <-..].
  - by injection H as <-.
  - by injection H as <-.
Qed.

Lemma unwind_frame db l a : forall A A', foldM (spec_revert keccak256 db) A l = Ret A' -> (forall e, e ∈ l -> concerns e <> Some a) ->
  accounts A' !! a = accounts A !! a.
Proof.
  induction l as [|e l IH]; intros A A' H Hl; cbn [foldM] in H; [by injection H as <-|].
  destruct (spec_revert keccak256 db A e) as [A1| |] eqn:E; [|done..]. rewrite bind_ret in H.
  rewrite (IH A1 A' H) by (intros e' He'; apply Hl; by right). eapply spec_revert_frame; [exact E|]. apply Hl. left.
Qed.

(** The account as a worker that starts from the shared trie sees it: a
    self-destructed one is gone, the written storage is the committed one, and
    the code is what the database holds under its hash. *)
Definition republish (db : Database) (x : account) : option account :=
  if a_suicided x || a_deleted x then None
  else Some (mkAcc (a_nonce x) (a_balance x) (a_codehash x) (code_at keccak256 db (a_codehash x)) (a_state x) (a_state x) false false).

Lemma loaded_account db a d : Root d <> zero_hash ->
  abs_object keccak256 db (newObject a d) = mkAcc (Nonce d) (Balance d) (CodeHash d) (code_at keccak256 db (CodeHash d))
    (nonzero (default ∅ (OpenStorageTrie db (Root d)))) (nonzero (default ∅ (OpenStorageTrie db (Root d)))) false false.
Proof.
  intros Hr. unfold newObject. rewrite decide_False by done. unfold abs_object, committed_view, trie_view, code_view. cbn.
  by rewrite !(left_id_L ∅ (∪)).
Qed.

Lemma loaded_republish db a d : republish db (abs_object keccak256 db (newObject a d)) = Some (abs_object keccak256 db (newObject a d)).
Proof.
  unfold republish, newObject. case_decide; unfold abs_object, committed_view, code_view; cbn; by rewrite !(left_id_L ∅ (∪)).
Qed.

Lemma loaded_extends db db' a d : extends db db' -> is_Some (OpenStorageTrie db (Root d)) ->
  abs_object keccak256 db' (newObject a d) = abs_object keccak256 db (newObject a d).
Proof.
  intros He Hd. assert (trie_view db' (newObject a d) = trie_view db (newObject a d)) as Hv.
  { apply extends_view; [done|]. unfold newObject. case_decide; [|done]. cbn. unfold OpenStorageTrie. rewrite decide_True by tauto. by eexists. }
  unfold abs_object, committed_view. rewrite Hv. unfold code_view, code_at. by rewrite (proj1 He).
Qed.

Lemma ended_clean db s s' : wf keccak256 db s -> tracked (reverse (entries (jrnl s))) (jrnl s) -> ended_as s s' -> clean (ResetObjectCache s').
Proof.
  intros Hw Ht (H1 & H2 & H3 & H4). unfold clean. cbn. rewrite H1, H2, H3, H4. destruct Hw as [_ _ W3 W4 _].
  assert (entries (match entries (jrnl s) with [] => jrnl s | _ => newJournal end) = [] /\
    tracked [] (match entries (jrnl s) with [] => jrnl s | _ => newJournal end)) as [E1 E2]; [|done].
  destruct (entries (jrnl s)) eqn:E; [done|]. split; [done|]. intros a. unfold about. cbn. split; [done|done].
Qed.

Lemma not_about a l : about a l = 0 -> forall e, e ∈ l -> dirtied e <> Some a.
Proof.
  unfold about. intros Hn e He Hd. apply nil_length_inv in Hn. assert (e ∈ filter (fun e => dirtied e = Some a) l) as Hin by (by apply list_elem_of_filter).
  rewrite Hn in Hin. by apply elem_of_nil in Hin.
Qed.

Lemma sim_no_sets db A s m : sim keccak256 db (mkBase A ∅) s m -> stateObjectsPending s = ∅ /\ stateObjectsDirty s = ∅.
Proof. intros H. destruct (sim_sets _ _ _ _ _ H) as [H1 H2]. cbn in *. split; [done|set_solver]. Qed.

(** An account without object is in no entry. *)
Lemma trail_absent a l : forall O, trail l O -> O !! a = None -> forall e, e ∈ l -> concerns e <> Some a.
Proof.
  induction l as [|e l IH]; intros O Ht HO e' Hin Hc; [by apply elem_of_nil in Hin|]. destruct Ht as [He Ht].
  assert (concerns e <> Some a) as Hne by (intros Hea; destruct (He a Hea) as (K & HK & _); congruence).
  apply elem_of_cons in Hin as [->|Hin]; [done|]. apply (IH (entry_before e O) Ht) with (e := e'); try done.
  destruct e as [b|q| | | | | | | | |]; cbn in *; try done.
  - rewrite lookup_delete_ne; [done|congruence].
  - rewrite lookup_insert_ne; [done|congruence].
Qed.

Lemma renewed_frame db a l : forall A B, foldM (spec_revert keccak256 db) A l = Ret B -> renewed keccak256 db A l -> (forall e, e ∈ l -> dirtied e <> Some a) ->
  accounts A !! a = accounts B !! a \/ exists z, accounts A !! a = Some (set_balance (fresh_account keccak256) z).
Proof.
  induction l as [|e l IH]; intros A B HB Hr Hl; cbn in *; [injection HB as <-; by left|]. destruct Hr as [He Hr].
  destruct (spec_revert keccak256 db A e) as [C| |] eqn:E; [|done..]. cbn in HB.
  destruct (decide (concerns e = Some a)) as [Hc|Hc].
  - right. destruct e as [b|q| | | | | | | | |]; cbn in Hc; try (by destruct (Hl _ (list_elem_of_here _ _))). injection Hc as <-. exact He.
  - rewrite <- (spec_revert_frame db A e C a E Hc). apply (IH C B HB Hr). intros e' He'. apply Hl. by right.
Qed.

(** An account the journal does not mark is the one the journal started with,
    or was created over another one. *)
Lemma untouched_account db B s m a : sim keccak256 db B s m -> ~ flushed s a ->
  accounts (abs keccak256 db s) !! a = accounts (base_state B) !! a \/ exists z, accounts (abs keccak256 db s) !! a = Some (set_balance (fresh_account keccak256) z).
Proof.
  intros H Hf. apply (renewed_frame db a _ _ _ (sim_base _ _ _ _ _ H) (sim_renewed _ _ _ _ _ H)). destruct (stateObjects s !! a) as [o|] eqn:Eo.
  - assert (dirties (jrnl s) !! a = None) as Hd by (apply not_elem_of_dom; intros Hd; apply Hf; by split; [|eexists]).
    apply not_about. destruct (sim_tracked _ _ _ _ _ H a) as [Ht _]. rewrite Hd in Ht. cbn in Ht. lia.
  - intros e He Hd. apply (trail_absent a _ _ (sim_trail _ _ _ _ _ H)) with (e := e); [unfold origins; by rewrite lookup_fmap, Eo|done|].
    by destruct e.
Qed.

(** An account without a live dirtied object is the one of the trie. *)
Lemma unflushed_account db s0 s m a `{!CodeDB keccak256 db} : clean s0 -> sim keccak256 db (mkBase (abs keccak256 db s0) ∅) s m -> ~ flushed s a ->
  (forall p, resetObjectChange p ∈ entries (jrnl s) -> address p <> a) ->
  accounts (abs keccak256 db s) !! a = (fun d => abs_object keccak256 db (newObject a d)) <$> account_trie db !! a.
Proof.
  intros (Hc & _) H Hf Hr. destruct (stateObjects s !! a) as [o|] eqn:Eo; [|cbn; by rewrite abs_lookup, Eo].
  assert (dirties (jrnl s) !! a = None) as Hd by (apply not_elem_of_dom; intros Hd; apply Hf; by split; [|eexists]).
  assert (about a (reverse (entries (jrnl s))) = 0) as Hab.
  { destruct (sim_tracked _ _ _ _ _ H a) as [Ht _]. rewrite Hd in Ht. cbn in Ht. lia. }
  assert (forall e, e ∈ reverse (entries (jrnl s)) -> concerns e <> Some a) as Hn.
  { intros e He. pose proof (not_about a _ Hab e He) as Hde. rewrite elem_of_reverse in He.
    destruct e; cbn in *; try done. intros [= Ha]. exact (Hr _ He Ha). }
  rewrite <- (unwind_frame db _ a _ _ (sim_base _ _ _ _ _ H) Hn). cbn. by rewrite abs_lookup, Hc, lookup_empty.
Qed.
Section publish.
Context (trie_hash : Storage -> Hash) `{!TrieHash trie_hash} (db db' : Database) (s w : StateDB) (Hext : extends db db') (Hempty : stateObjects w = ∅).

Lemma fresh_view a : accounts (abs keccak256 db' w) !! a = (fun d => abs_object keccak256 db' (newObject a d)) <$> account_trie db' !! a.
Proof. cbn. by rewrite abs_lookup, Hempty, lookup_empty. Qed.

Lemma flushed_view a o : stateObjects s !! a = Some o -> flushed_as trie_hash db db' a o ->
  accounts (abs keccak256 db' w) !! a = accounts (abs keccak256 db s) !! a ≫= republish db.
Proof.
  intros Ho Hfa. rewrite fresh_view. cbn. rewrite abs_lookup, Ho. cbn. unfold republish, flushed_as in *. cbn in *.
  destruct (suicided o || deleted o); [by rewrite Hfa|]. destruct Hfa as (t & -> & Ht1 & Ht2). cbn.
  rewrite loaded_account by (apply (hash_nonzero t)). cbn. rewrite Ht2. cbn. rewrite Ht1. unfold code_at. by rewrite (proj1 Hext).
Qed.

Lemma kept_view `{!CodeDB keccak256 db} a : account_trie db' !! a = account_trie db !! a ->
  accounts (abs keccak256 db' w) !! a = (fun d => abs_object keccak256 db (newObject a d)) <$> account_trie db !! a.
Proof.
  intros Ha. rewrite fresh_view, Ha. destruct (account_trie db !! a) as [d|] eqn:Ed; [|done]. cbn. f_equal. apply loaded_extends; [done|]. by eapply account_root.
Qed.
End publish.

(** The accounts [A'] of the shared trie after a flush of [T] by a worker that
    started from [B]. *)
Definition published (db : Database) (B T : spec_state) (A' : gmap Address account) : Prop := exists D : gset Address,
  (forall a, a ∈ D -> A' !! a = accounts T !! a ≫= republish db) /\
  (forall a, a ∉ D -> A' !! a = accounts B !! a /\
    (accounts T !! a = accounts B !! a \/ exists z, accounts T !! a = Some (set_balance (fresh_account keccak256) z))).

(** Every code a state mentions is empty or in the database. *)
Definition codes_known (db : Database) (T : spec_state) : Prop := map_Forall (fun _ x => has_code keccak256 db (a_codehash x)) (accounts T).

#[export] Instance codes_known_dec db T : Decision (codes_known db T).
Proof. unfold codes_known, has_code. apply _. Defined.

Lemma flush_published trie_hash range_addrs db s0 s m `{!CodeDB keccak256 db} `{!TrieHash trie_hash} : range_ok range_addrs -> stored_by_hash trie_hash db -> clean s0 ->
  sim keccak256 db (mkBase (abs keccak256 db s0) ∅) s m ->
  exists db' s', IntermediateShared_Re keccak256 trie_hash range_addrs db s = Ret (db', s', false) /\
    stored_by_hash trie_hash db' /\ ended_as s s' /\ published db (abs keccak256 db s0) (abs keccak256 db s) (accounts (abs keccak256 db' NewWithTrie)) /\
    (codes_known db (abs keccak256 db s) -> CodeDB keccak256 db') /\ blobs db' = blobs db.
Proof.
  intros Hrng Hst Hc Hs.
  destruct (Shared_Re_spec keccak256 trie_hash range_addrs Hrng db s (sim_wf _ _ _ _ _ Hs) (sim_no_sets _ _ _ _ Hs) Hst) as (db' & s' & H1 & H2 & H3 & H4 & H5 & H6).
  exists db', s'. split; [done|]. split; [done|]. split; [done|]. split; [|split; [|exact (proj1 H2)]].
  - exists (filter (fun a => is_Some (stateObjects s !! a)) (dom (dirties (jrnl s)))). split; intros a Ha.
    + apply elem_of_filter in Ha as [[o Ho] Ha]. apply (flushed_view trie_hash db db' s NewWithTrie H2 eq_refl a o Ho). apply H5; [|done]. split; [done|by eexists].
    + assert (~ flushed s a) as Hf by (intros [Hd Ho]; apply Ha; by apply elem_of_filter). split; [|by apply (untouched_account db (mkBase (abs keccak256 db s0) ∅) s m)].
      rewrite (kept_view db db' NewWithTrie H2 eq_refl a (H6 a Hf)). cbn. by rewrite abs_lookup, (proj1 Hc), lookup_empty.
  - intros Hk. assert (forall a d, account_trie db' !! a = Some d -> BytesToHash (CodeHash d) = CodeHash d /\ has_code keccak256 db (CodeHash d) /\ is_Some (OpenStorageTrie db' (Root d))) as Hall.
    { intros a d Hd. destruct (decide (a ∈ dom (dirties (jrnl s)) /\ is_Some (stateObjects s !! a))) as [Hf|Hf].
      - destruct (proj2 Hf) as [o Ho]. pose proof (H5 a o Hf Ho) as Hfa. unfold flushed_as in Hfa. destruct (suicided o || deleted o); [congruence|].
        destruct Hfa as (t & Ht & _ & Hopen). rewrite Hd in Ht. injection Ht as ->. cbn. rewrite Hopen.
        destruct (wf_object _ _ _ (sim_wf _ _ _ _ _ Hs) a o Ho) as [_ (_ & Hh & _)]. split; [done|]. split; [|by eexists].
        apply (Hk a (abs_object keccak256 db o)). cbn. by rewrite abs_lookup, Ho.
      - rewrite (H6 a Hf) in Hd. split; [by eapply account_hash|]. split; [by eapply account_code|]. destruct (account_root keccak256 a d Hd) as [t Ht]. exists t. by eapply extends_open. }
    split; [exact (@keccak_hash keccak256 db _)|by apply Hall| |by apply Hall|rewrite (proj1 H2); exact (@empty_blob keccak256 db _)].
    intros a d Hd. unfold has_code in Hall. rewrite (proj1 H2). by apply (Hall a d Hd).
Qed.
End visible.


(** ** Examples *)
Definition toy_trie_hash (m : Storage) : Hash := if decide (m = ∅) then emptyRoot else "T" +:+ pretty (N.pos (encode m)).

#[export] Instance toy_TrieHash : TrieHash toy_trie_hash.
Proof.
  split; unfold toy_trie_hash.
  - done.
  - intros t. by case_decide.
  - intros t u. case_decide; case_decide; try congruence; [done|done|]. intros [= Hp]. rewrite !append_nil_l in Hp. apply (inj (@pretty N _)) in Hp. injection Hp as Hp. by apply (inj encode) in Hp.
Qed.

Definition pool_db : Database :=
  mkDatabase {["alice" := mkAccount 1 100 (toy_trie_hash {["k" := "v"]}) (toy_keccak EmptyString)]}
    {[toy_trie_hash {["k" := "v"]} := {["k" := "v"]}]} ∅.

#[export] Instance pool_CodeDB : CodeDB toy_keccak pool_db.
Proof.
  split; try done; try (intros a d; unfold pool_db; cbn [account_trie]; rewrite lookup_singleton_Some; intros [<- <-]).
  - intros x. apply BytesToHash_full, length_BytesToHash.
  - done.
  - by left.
  - unfold OpenStorageTrie. case_decide; [by eexists|]. cbn. rewrite lookup_singleton_eq. by eexists.
Qed.

Lemma pool_stored : stored_by_hash toy_trie_hash pool_db.
Proof. intros r t. cbn. rewrite lookup_singleton_Some. by intros [<- <-]. Qed.

Definition pool_prog : prog unit := Do (OSetState "alice" "k" "w") (fun _ => Do (OAddBalance "bob" 5) (fun _ => Done tt)).
Definition pool_s : StateDB := ended NewWithTrie (run_prog toy_keccak pool_db NewWithTrie pool_prog).


Definition blank_db : Database := mkDatabase ∅ ∅ ∅.
Definition deploy_prog : prog unit := Do (OSetCode "carol" (Some "code")) (fun _ => Done tt).
Definition deploy_s : StateDB := ended NewWithTrie (run_prog toy_keccak blank_db NewWithTrie deploy_prog).

(** The code a worker deploys does not reach the others: after a flush that
    reports no error the account has the new code hash, and a worker that starts
    from the shared trie reads no code for it. *)
Theorem shared_code_invisible :
  exists db' s', IntermediateShared_Re toy_keccak toy_trie_hash elements blank_db deploy_s = Ret (db', s', false) /\
    (GetCode toy_keccak blank_db deploy_s "carol").2 = Some "code" /\
    (GetCodeHash db' NewWithTrie "carol").2 = toy_keccak "code" /\
    (GetCode toy_keccak db' NewWithTrie "carol").2 = None.
Proof. eexists _, _. split; [vm_compute; reflexivity|]. split; [reflexivity|]. split; reflexivity. Qed.

(** Resetting the object cache between a snapshot and the revert to it makes
    the revert dereference nil when an account was created in between, although
    the journal is kept for such a revert. *)
Theorem reset_cache_breaks_revert :
  exists s, run_prog toy_keccak blank_db NewWithTrie (Do OSnapshot (fun _ => Do (OAddBalance "bob" 5) (fun _ => Done tt))) = Ret (s, tt) /\
    is_Ret (RevertToSnapshot blank_db s 0) /\ RevertToSnapshot blank_db (ResetObjectCache s) 0 = Panics.
Proof.
  eexists. split; [vm_compute; reflexivity|]. split; [|vm_compute; reflexivity]. eexists. vm_compute. reflexivity.
Qed.
