(* ===== verification/HexKeys.v ===== *)
(** * Numbers, hashes and addresses as text

    [common.FromHex], [HexToAddress], [HexToHash] and the checksummed
    [Address.Hex] of [go-ethereum/common]; the parts of [math/big] and [fmt]
    that read and print integers; and the canonical slot keys with which
    [utils/levm_spec_fallback.go] names a storage slot in an overlay.  The
    round trips of keys and values carry the overlay protocol. *)
From stdpp Require Import base gmap sets list strings.
From Stdlib Require Import ZArith Lia Ascii.
From S2P Require Import Prelude RWSet GoText StateDB.

Set Default Goal Selector "!".
Local Open Scope string_scope.
Local Open Scope list_scope.
Local Notation len := String.length.

(** ** [common/bytes.go], [common/types.go] *)
Definition has0xPrefix (str : string) : bool := HasPrefix str "0x" || HasPrefix str "0X".

Definition FromHex (s : string) : string :=
  let s := if has0xPrefix s then drop_bytes 2 s else s in
  let s := if Nat.odd (len s) then "0" +:+ s else s in
  DecodeString s.

Fixpoint isHex (s : string) : bool :=
  match s with
  | EmptyString => true
  | String h (String l s) =>
    match hex_val h, hex_val l with Some _, Some _ => isHex s | _, _ => false end
  | String _ EmptyString => false
  end.

Definition IsHexAddress (s : string) : bool :=
  let s := if has0xPrefix s then drop_bytes 2 s else s in
  bool_decide (len s = 40) && isHex s.

Definition BytesToAddress (b : string) : Address :=
  let b := drop_bytes (len b - 20) b in zeros (20 - len b) +:+ b.

Definition HexToAddress (s : string) : Address := BytesToAddress (FromHex s).
Definition HexToHash (s : string) : Hash := BytesToHash (FromHex s).
Definition Hash_Hex (h : Hash) : string := "0x" +:+ EncodeToString h.

(** The loop of [Address.Hex]: capitals where the nibble of the hash is above
    7. *)
Fixpoint checksum (hash : string) (i : nat) (s : string) : string :=
  match s with
  | EmptyString => EmptyString
  | String c s =>
    let hashByte := byte_val (default zero (String.get (i / 2) hash)) in
    let hashByte := if Nat.even i then (hashByte / 16)%Z else (hashByte `mod` 16)%Z in
    let c := if bool_decide (byte_val c > 57)%Z && bool_decide (hashByte > 7)%Z then byte_of (byte_val c - 32) else c in
    String c (checksum hash (S i) s)
  end.
Definition Address_Hex (keccak256 : string -> Hash) (a : Address) : string :=
  let unchecksummed := EncodeToString a in "0x" +:+ checksum (keccak256 unchecksummed) 0 unchecksummed.

(** ** [big.Int.SetString] and [%x] *)
Definition digit_value (c : ascii) : Z :=
  let n := byte_val c in
  (if bool_decide (48 <= n <= 57) then n - 48
   else if bool_decide (97 <= n <= 122) then n - 87
   else if bool_decide (65 <= n <= 90) then n - 55 else 63)%Z.

(** What the scanner saw last: nothing, a digit or a separator. *)
Inductive seen := NoDigit | Digit | Separator.
#[export] Instance seen_eq_dec : EqDecision seen.
Proof. solve_decision. Defined.

Record scan := mkScan { scan_value : Z; scan_count : nat; scan_prev : seen; invalSep : bool; scan_rest : string }.

Fixpoint scan_digits (base0 : bool) (b : Z) (z : Z) (count : nat) (prev : seen) (inval : bool) (s : string) : scan :=
  match s with
  | EmptyString => mkScan z count prev inval EmptyString
  | String c s' =>
    if base0 && Ascii.eqb c "_" then scan_digits base0 b z count Separator (inval || bool_decide (prev <> Digit)) s'
    else if bool_decide (b <= digit_value c)%Z then mkScan z count prev inval s
    else scan_digits base0 b (z * b + digit_value c)%Z (S count) Digit inval s'
  end.

(** The base prefix of [SetString(s, 0)]: the base, whether it is the bare
    octal prefix, what was seen and the digits. *)
Definition scan_prefix (s : string) : Z * bool * nat * seen * string :=
  match s with
  | String "0" EmptyString => (10%Z, false, 1, Digit, EmptyString)
  | String "0" (String c s') =>
    if Ascii.eqb (lower_char c) "b" then (2%Z, false, 0, Digit, s')
    else if Ascii.eqb (lower_char c) "o" then (8%Z, false, 0, Digit, s')
    else if Ascii.eqb (lower_char c) "x" then (16%Z, false, 0, Digit, s')
    else (8%Z, true, 0, Digit, String c s')
  | _ => (10%Z, false, 0, NoDigit, s)
  end.

Definition scan_sign (s : string) : bool * string :=
  match s with String "-" s => (true, s) | String "+" s => (false, s) | _ => (false, s) end.

Definition signed (neg : bool) (z : Z) : Z := if neg then (- z)%Z else z.

(** [SetString(s, 0)] and [SetString(s, 16)]; [None] is [ok = false]. *)
Definition SetString0 (s : string) : option Z :=
  let '(neg, s) := scan_sign s in
  let '(b, octal, count, prev, s) := scan_prefix s in
  let r := scan_digits true b 0 count prev false s in
  if negb (bool_decide (scan_rest r = EmptyString)) then None
  else if bool_decide (scan_count r = 0) then if octal : bool then Some 0%Z else None
  else if invalSep r || bool_decide (scan_prev r = Separator) then None else Some (signed neg (scan_value r)).

Definition SetString16 (s : string) : option Z :=
  let '(neg, s) := scan_sign s in
  let r := scan_digits false 16 0 0 NoDigit false s in
  if bool_decide (scan_rest r = EmptyString) && bool_decide (0 < scan_count r) then Some (signed neg (scan_value r)) else None.

Definition TrimPrefix0x (s : string) : string := if HasPrefix s "0x" then drop_bytes 2 s else s.

(** [fmt.Sprintf("0x%x", z)] for a non-negative [z]. *)
Fixpoint hex_digits (fuel : nat) (z : Z) (acc : string) : string :=
  match fuel with
  | 0 => acc
  | S fuel =>
    let acc := String (hex_digit (z `mod` 16)) acc in
    if bool_decide (z < 16)%Z then acc else hex_digits fuel (z / 16) acc
  end.
Definition hex_text (z : Z) : string := hex_digits (S (Z.to_nat (Z.log2 z))) z EmptyString.
Definition Sprintf_0x (z : Z) : string := "0x" +:+ hex_text z.

(** ** Canonical keys *)
Definition levmKey (keccak256 : string -> Hash) (contractAddr : Address) (slot : Hash) : string :=
  "slot:" +:+ ToLower (Address_Hex keccak256 contractAddr) +:+ ":" +:+ Hash_Hex slot.

Definition storageKeysToStrings (keccak256 : string -> Hash) (rng : gset Hash -> list Hash) (m : option (gmap Hash Hash))
    (contractAddr : Address) : list string :=
  match m with None => [] | Some m => levmKey keccak256 contractAddr <$> rng (dom m) end.

(** Prefix, address, slot and field. *)
Definition parseLevmCanonicalKey (key : string) : option (string * Address * Hash * string) :=
  match SplitN ":" 3 key with
  | [prefix; a; f] =>
    if decide (prefix = "acct") then Some (prefix, HexToAddress a, zero_hash, f)
    else if decide (prefix = "slot") then Some (prefix, HexToAddress a, HexToHash f, EmptyString)
    else None
  | _ => None
  end.

(** ** Hex digits *)
Fixpoint hex_value (acc : Z) (s : string) : option Z :=
  match s with
  | EmptyString => Some acc
  | String c s => match hex_val c with Some d => hex_value (acc * 16 + d) s | None => None end
  end.

Lemma lower_hex_digit n : (0 <= n < 16)%Z -> lower_char (hex_digit n) = hex_digit n.
Proof.
  intros H. assert (n ∈ seqZ 0 16) as Hn by (apply elem_of_seqZ; lia). cbn in Hn.
  repeat (apply elem_of_cons in Hn as [->|Hn]; [reflexivity|]). by apply elem_of_nil in Hn.
Qed.

Lemma lower_capital_digit n : (0 <= n < 16)%Z -> (byte_val (hex_digit n) > 57)%Z -> lower_char (byte_of (byte_val (hex_digit n) - 32)) = hex_digit n.
Proof.
  intros H. assert (n ∈ seqZ 0 16) as Hn by (apply elem_of_seqZ; lia). cbn in Hn.
  repeat (apply elem_of_cons in Hn as [->|Hn]; [vm_compute; first [reflexivity|intros Hx; discriminate Hx]|]). by apply elem_of_nil in Hn.
Qed.

Lemma digit_value_hex c d : hex_val c = Some d -> digit_value c = d /\ (0 <= d < 16)%Z.
Proof.
  unfold hex_val, digit_value, byte_val. set (n := Z.of_N (N_of_ascii c)). intros H.
  destruct ((48 <=? n) && (n <=? 57))%Z eqn:E1.
  { apply andb_true_iff in E1 as [? ?]. injection H as <-. rewrite bool_decide_true by lia. lia. }
  rewrite bool_decide_false by (intros []; apply andb_false_iff in E1 as []; lia).
  destruct ((97 <=? n) && (n <=? 102))%Z eqn:E2.
  { apply andb_true_iff in E2 as [? ?]. injection H as <-. rewrite bool_decide_true by lia. lia. }
  destruct ((65 <=? n) && (n <=? 70))%Z eqn:E3; [|done].
  apply andb_true_iff in E3 as [? ?]. injection H as <-. rewrite bool_decide_false, bool_decide_true by lia. lia.
Qed.

Lemma ToLower_checksum h b : forall i, ToLower (checksum h i (EncodeToString b)) = EncodeToString b.
Proof.
  assert (forall n (p : bool), (0 <= n < 16)%Z ->
    lower_char (if bool_decide (byte_val (hex_digit n) > 57)%Z && p then byte_of (byte_val (hex_digit n) - 32) else hex_digit n) = hex_digit n) as Hd.
  { intros n p Hn. case_bool_decide; destruct p; cbn [andb]; auto using lower_hex_digit, lower_capital_digit. }
  induction b as [|c b IH]; intros i; [done|]. cbn [EncodeToString checksum ToLower].
  pose proof (byte_val_range c). f_equal; [|f_equal; [|apply IH]]; apply Hd; [|by apply Z.mod_pos_bound].
  split; [apply Z.div_pos|apply Z.div_lt_upper_bound]; lia.
Qed.

Lemma length_Encode b : len (EncodeToString b) = 2 * len b.
Proof. induction b as [|c b IH]; [done|]. cbn [EncodeToString String.length]. rewrite IH. lia. Qed.

Lemma has0xPrefix_0x s : has0xPrefix ("0x" +:+ s) = true.
Proof. by destruct s. Qed.

Lemma FromHex_Encode b : FromHex ("0x" +:+ EncodeToString b) = b.
Proof.
  unfold FromHex. rewrite has0xPrefix_0x.
  assert (drop_bytes 2 ("0x" +:+ EncodeToString b) = EncodeToString b) as -> by reflexivity.
  rewrite length_Encode, <- Nat.negb_even, Nat.even_mul. cbn. apply Decode_Encode.
Qed.

Lemma drop_bytes_0 s : drop_bytes 0 s = s.
Proof. by destruct s. Qed.
Lemma BytesToHash_id b : len b = 32 -> BytesToHash b = b.
Proof. intros H. unfold BytesToHash. by rewrite H, drop_bytes_0, H. Qed.
Lemma BytesToAddress_id b : len b = 20 -> BytesToAddress b = b.
Proof. intros H. unfold BytesToAddress. by rewrite H, drop_bytes_0, H. Qed.

Lemma ToLower_append a b : ToLower (a +:+ b) = ToLower a +:+ ToLower b.
Proof. induction a as [|c a IH]; [done|]. rewrite append_cons. cbn [ToLower]. by rewrite IH. Qed.

Lemma levmKey_text k a s : levmKey k a s = "slot" +:+ ":" +:+ ("0x" +:+ EncodeToString a) +:+ ":" +:+ Hash_Hex s.
Proof. unfold levmKey, Address_Hex. cbv zeta. rewrite ToLower_append, ToLower_checksum. reflexivity. Qed.

Lemma hex_digit_no_colon n : (0 <= n < 16)%Z -> hex_digit n <> ":"%char.
Proof. intros H Hc. pose proof (hex_digit_val n H) as Hv. by rewrite Hc in Hv. Qed.

Lemma Encode_no_colon b : no_colon (EncodeToString b).
Proof.
  induction b as [|c b IH]; [by intros Hc%elem_of_nil|]. cbn [EncodeToString]. pose proof (byte_val_range c).
  rewrite !no_colon_cons. split; [|split; [|done]]; apply hex_digit_no_colon; [split; [apply Z.div_pos|apply Z.div_lt_upper_bound]; lia|by apply Z.mod_pos_bound].
Qed.

Lemma parse_levmKey keccak256 a s : len a = 20 -> len s = 32 ->
  parseLevmCanonicalKey (levmKey keccak256 a s) = Some ("slot", a, s, EmptyString).
Proof.
  intros Ha Hs. unfold parseLevmCanonicalKey. rewrite levmKey_text.
  assert (SplitN ":" 3 ("slot" +:+ ":" +:+ ("0x" +:+ EncodeToString a) +:+ ":" +:+ Hash_Hex s) = ["slot"; "0x" +:+ EncodeToString a; Hash_Hex s]) as ->.
  { cbn [SplitN]. change (":" +:+ ?x) with (String ":" x). rewrite cut_append by (intros Hc; repeat (apply elem_of_cons in Hc as [Hc|Hc]; [discriminate Hc|]); by apply elem_of_nil in Hc).
    change (":" +:+ ?x) with (String ":" x). rewrite cut_append; [done|]. change ("0x" +:+ EncodeToString a) with (String "0" (String "x" (EncodeToString a))).
    fold (no_colon (String "0" (String "x" (EncodeToString a)))). rewrite !no_colon_cons. split; [done|]. split; [done|]. apply Encode_no_colon. }
  rewrite decide_False, decide_True by done. unfold HexToAddress, HexToHash, Hash_Hex.
  by rewrite !FromHex_Encode, BytesToAddress_id, BytesToHash_id.
Qed.

(** ** Values *)
Lemma hex_digits_value fuel : forall z acc, (0 <= z < 16 ^ Z.of_nat fuel)%Z -> hex_value 0 (hex_digits fuel z acc) = hex_value z acc.
Proof.
  induction fuel as [|fuel IH]; intros z acc Hz; [by assert (z = 0)%Z as -> by (cbn in Hz; lia)|]. cbn [hex_digits].
  pose proof (Z.mod_pos_bound z 16 ltac:(lia)) as Hm. rewrite Nat2Z.inj_succ, Z.pow_succ_r in Hz by lia. case_bool_decide as Hlt.
  - cbn [hex_value]. rewrite hex_digit_val by done. by rewrite Z.mod_small by lia.
  - rewrite IH; [|split; [apply Z.div_pos|apply Z.div_lt_upper_bound]; lia]. cbn [hex_value]. rewrite hex_digit_val by done.
    f_equal. pose proof (Z.div_mod z 16 ltac:(lia)). lia.
Qed.

Lemma hex_digits_length fuel : forall k z acc, (0 <= z < 16 ^ Z.of_nat (S k))%Z -> len (hex_digits fuel z acc) <= len acc + S k.
Proof.
  induction fuel as [|fuel IH]; intros k z acc Hz; cbn [hex_digits]; [lia|]. case_bool_decide as Hlt; [cbn; lia|].
  destruct k as [|k]; [cbn in Hz; lia|]. etrans; [apply (IH k)|cbn [String.length]; lia].
  rewrite Nat2Z.inj_succ, Z.pow_succ_r in Hz by lia. split; [apply Z.div_pos|apply Z.div_lt_upper_bound]; lia.
Qed.

Lemma hex_digits_nonempty fuel : forall z acc, acc <> EmptyString -> hex_digits fuel z acc <> EmptyString.
Proof. induction fuel as [|fuel IH]; intros z acc Ha; cbn [hex_digits]; [done|]. case_bool_decide; [done|]. by apply IH. Qed.

Lemma hex_text_pos z : 0 < len (hex_text z).
Proof.
  assert (forall s, s <> EmptyString -> 0 < len s) as Hpos by (intros [|c s]; [done|cbn; lia]). apply Hpos.
  unfold hex_text. cbn [hex_digits]. case_bool_decide; [done|]. by apply hex_digits_nonempty.
Qed.

Lemma hex_text_value z : (0 <= z)%Z -> hex_value 0 (hex_text z) = Some z.
Proof.
  intros Hz. unfold hex_text. rewrite hex_digits_value; [done|]. split; [done|].
  destruct (decide (z = 0)%Z) as [->|Hne]; [done|]. pose proof (Z.log2_spec z ltac:(lia)) as [_ H]. pose proof (Z.log2_nonneg z).
  rewrite Nat2Z.inj_succ, Z2Nat.id by done. eapply Z.lt_le_trans; [exact H|]. apply Z.pow_le_mono_l. lia.
Qed.

Lemma hex_text_length n z : (0 <= z < 16 ^ Z.of_nat (S n))%Z -> 0 < len (hex_text z) <= S n.
Proof.
  intros Hz. split; [apply hex_text_pos|by apply (hex_digits_length _ n z EmptyString)].
Qed.

Lemma hex_value_decode : forall s a z, hex_value a s = Some z -> Nat.even (len s) = true -> SetBytes_acc a (DecodeString s) = z.
Proof.
  assert (forall n s a z, len s <= n -> hex_value a s = Some z -> Nat.even (len s) = true -> SetBytes_acc a (DecodeString s) = z) as H; [|by intros; eapply H].
  induction n as [|n IH]; intros [|c [|d s]] a z Hl Hv He; cbn in Hl; try done; try lia; [by injection Hv|by injection Hv|].
  cbn [hex_value] in Hv. cbn [DecodeString]. destruct (hex_val c) as [x|] eqn:Ec; [|done]. destruct (hex_val d) as [y|] eqn:Ed; [|done].
  destruct (digit_value_hex _ _ Ec) as [_ Hx]. destruct (digit_value_hex _ _ Ed) as [_ Hy]. cbn [SetBytes_acc]. apply IH; [lia| |done].
  rewrite byte_val_of, Z.mod_small by lia. rewrite <- Hv. f_equal. lia.
Qed.

Lemma SetBytes_inj : forall s t, len s = len t -> SetBytes s = SetBytes t -> s = t.
Proof.
  unfold SetBytes. induction s as [|c s IH]; intros [|d t] Hl H; try done. cbn [SetBytes_acc] in H. cbn in Hl. injection Hl as Hl.
  rewrite (SetBytes_acc_eq _ s), (SetBytes_acc_eq _ t) in H. rewrite Hl in H. pose proof (SetBytes_bound s). pose proof (SetBytes_bound t).
  pose proof (SetBytes_nonneg s). pose proof (SetBytes_nonneg t). rewrite Hl in *. unfold SetBytes in *.
  set (W := (256 ^ Z.of_nat (len t))%Z) in *. pose proof (byte_val_range c). pose proof (byte_val_range d).
  assert (byte_val c = byte_val d) as Hcd by nia. rewrite <- (byte_of_val c), <- (byte_of_val d), Hcd. f_equal. apply IH; [done|]. rewrite Hcd in H. lia.
Qed.

Lemma SetBytes_0s n s : SetBytes (zeros n +:+ s) = SetBytes s.
Proof. unfold SetBytes. induction n as [|n IH]; [done|]. cbn [zeros]. rewrite append_cons. cbn [SetBytes_acc]. exact IH. Qed.

Lemma length_Decode : forall s z a, hex_value a s = Some z -> Nat.even (len s) = true -> len (DecodeString s) = len s / 2.
Proof.
  assert (forall n s a z, len s <= n -> hex_value a s = Some z -> Nat.even (len s) = true -> 2 * len (DecodeString s) = len s) as H.
  { induction n as [|n IH]; intros [|c [|d s]] a z Hl Hv He; cbn in Hl; try done; try lia.
    cbn [hex_value] in Hv. cbn [DecodeString]. destruct (hex_val c) as [x|]; [|done]. destruct (hex_val d) as [y|]; [|done].
    cbn [String.length]. pose proof (IH s _ z ltac:(lia) Hv He). lia. }
  intros s z a Hv He. apply (Nat.div_unique _ _ _ 0); [lia|]. rewrite (H (len s) s a z); [lia|lia|done|done].
Qed.

(** A stored value printed into an overlay and read back. *)
Lemma value_roundtrip v : len v = 32 -> HexToHash (Sprintf_0x (SetBytes v)) = v.
Proof.
  intros Hv. pose proof (SetBytes_nonneg v) as H0. pose proof (SetBytes_bound v) as H1. rewrite Hv in H1. set (z := SetBytes v) in *.
  assert (z < 16 ^ Z.of_nat 64)%Z as H64 by (eapply Z.lt_le_trans; [exact H1|done]).
  pose proof (hex_text_length 63 z (conj H0 H64)) as [_ Hlen]. pose proof (hex_text_value z H0) as Hval.
  unfold HexToHash, FromHex, Sprintf_0x. rewrite has0xPrefix_0x. change (drop_bytes 2 ("0x" +:+ hex_text z)) with (hex_text z).
  set (s := if Nat.odd (len (hex_text z)) then "0" +:+ hex_text z else hex_text z).
  assert (hex_value 0 s = Some z /\ Nat.even (len s) = true /\ len s <= 64) as (Hs1 & Hs2 & Hs3).
  { unfold s. destruct (Nat.odd (len (hex_text z))) eqn:Eo.
    - change (len ("0" +:+ hex_text z)) with (S (len (hex_text z))). rewrite Nat.even_succ. split; [exact Hval|]. split; [done|].
      destruct (decide (len (hex_text z) = 64)) as [E|]; [by rewrite E in Eo|lia].
    - rewrite <- Nat.negb_odd, Eo. done. }
  pose proof (hex_value_decode s 0 z Hs1 Hs2) as Hd. pose proof (length_Decode s z 0 Hs1 Hs2) as Hl.
  assert (len (DecodeString s) <= 32) as Hle by (rewrite Hl; apply Nat.Div0.div_le_upper_bound; lia).
  unfold BytesToHash. replace (len (DecodeString s) - 32) with 0 by lia. rewrite drop_bytes_0.
  apply SetBytes_inj; [rewrite length_append, length_zeros, Hv; lia|]. rewrite SetBytes_0s. exact Hd.
Qed.

Lemma scan_hex s : forall a n p z, hex_value a s = Some z ->
  scan_digits false 16 a n p false s = mkScan z (n + len s) (match s with EmptyString => p | _ => Digit end) false EmptyString.
Proof.
  induction s as [|c s IH]; intros a n p z Hv; cbn [scan_digits String.length andb]; cbn [hex_value] in Hv.
  - injection Hv as ->. by rewrite Nat.add_0_r.
  - destruct (hex_val c) as [d|] eqn:Ec; [|done]. destruct (digit_value_hex _ _ Ec) as [-> Hd]. rewrite bool_decide_false by lia.
    rewrite (IH _ _ _ z Hv). f_equal; [lia|]. by destruct s.
Qed.

Lemma hex_value_head c s a z : hex_value a (String c s) = Some z -> c <> "-"%char /\ c <> "+"%char.
Proof. cbn. intros H. split; intros ->; done. Qed.

Lemma SetString16_text z : (0 <= z)%Z -> SetString16 (hex_text z) = Some z.
Proof.
  intros Hz. pose proof (hex_text_value z Hz) as Hv. pose proof (hex_text_pos z) as Hl.
  unfold SetString16. destruct (hex_text z) as [|c s]; [cbn in Hl; lia|]. destruct (hex_value_head c s 0 z Hv) as [H1 H2].
  assert (scan_sign (String c s) = (false, String c s)) as ->.
  { unfold scan_sign. destruct c as [[] [] [] [] [] [] [] []]; done. }
  rewrite (scan_hex _ _ _ _ z Hv). done.
Qed.

(** The canonical key of a storage slot is parsed back to its contract and
    slot, whatever the checksum capitals of the address, and a 32-byte value
    printed into an overlay is read back unchanged. *)
Theorem canonical_key_roundtrip keccak256 a s v : len a = 20 -> len s = 32 -> len v = 32 ->
  parseLevmCanonicalKey (levmKey keccak256 a s) = Some ("slot", a, s, EmptyString) /\ HexToHash (Sprintf_0x (SetBytes v)) = v.
Proof. intros. split; [by apply parse_levmKey|by apply value_roundtrip]. Qed.

Lemma canonical_key_roundtrip_witness :
  let a := BytesToAddress "contract" in let s := BytesToHash "slot" in let v := BytesToHash "value" in
  len a = 20 /\ len s = 32 /\ len v = 32 /\
  parseLevmCanonicalKey (levmKey BytesToHash a s) = Some ("slot", a, s, EmptyString) /\ HexToHash (Sprintf_0x (SetBytes v)) = v.
Proof.
  intros a s v. split; [reflexivity|]. split; [reflexivity|]. split; [reflexivity|].
  apply (canonical_key_roundtrip BytesToHash a s v); reflexivity.
Defined.
