(* ===== verification/Levm.v ===== *)
(** * Executing one transaction: [evm/levm] on the account state

    [LEVM.ReplayTransaction] charges the intrinsic gas, calls or creates a
    contract, refunds gas and returns the storage slots the traced contract
    read and wrote.  The byte code interpreter is an argument: a client of the
    state database ([eprog]) that issues operations, reports opcodes to the
    tracer and opens call frames that are undone when they end with an error.
    The opening of a frame ([EVM.Call], [EVM.create]), the tracer
    ([StructLogger]), the metering of [SSTORE] and the gas accounting are
    modelled.  [espec] gives the same programs their meaning on the abstract
    states of [StateSpec.v], where a failing frame restores the state it
    started in. *)
From stdpp Require Import base gmap sets list strings.
From Stdlib Require Import ZArith Lia.
From S2P Require Import Prelude GoText StateDB StateSpec.

Set Default Goal Selector "!".
Local Open Scope list_scope.
Local Notation len := String.length.

(** ** Errors and gas *)
Inductive vm_error :=
| ErrOutOfGas | ErrDepth | ErrInsufficientBalance | ErrContractAddressCollision | ErrCodeStoreOutOfGas
| errExecutionReverted | errMaxCodeSizeExceeded | OtherError (msg : string).

#[export] Instance vm_error_eq_dec : EqDecision vm_error.
Proof. solve_decision. Defined.

Definition MaxUint64 : Z := 18446744073709551615.

Fixpoint nonzero_bytes (data : string) : Z :=
  match data with
  | EmptyString => 0
  | String c data => (if decide (byte_val c = 0) then 0 else 1) + nonzero_bytes data
  end%Z.

Definition IntrinsicGas (data : string) (contractCreation isHomestead isEIP2028 : bool) : Z + vm_error :=
  let gas := (if contractCreation && isHomestead then 53000 else 21000)%Z in
  if bool_decide (0 < len data) then
    let nz := nonzero_bytes data in
    let nonZeroGas := (if isEIP2028 then 16 else 68)%Z in
    if bool_decide ((MaxUint64 - gas) / nonZeroGas < nz)%Z then inr ErrOutOfGas
    else
      let gas := wrap_uint64 (gas + wrap_uint64 (nz * nonZeroGas)) in
      let z := wrap_uint64 (Z.of_nat (len data) - nz) in
      if bool_decide ((MaxUint64 - gas) / 4 < z)%Z then inr ErrOutOfGas
      else inl (wrap_uint64 (gas + wrap_uint64 (z * 4)))
  else inl gas.

(** [GasPool.AddGas] panics above the uint64 range. *)
Definition AddGas (gp amount : Z) : option Z :=
  if bool_decide (gp > MaxUint64 - amount)%Z then None else Some (gp + amount)%Z.

(** ** Messages: [core/ethTransaction.go], [types.Message] *)
Record txdata := mkTxdata {
  AccountNonce : Z; Price : Z; GasLimit : Z; From : Address; Recipient : option Address; Amount : Z; Payload : string }.

Definition newEthTransaction (nonce : Z) (from : Address) (to : option Address) (amount : option Z) (gasLimit : Z)
    (gasPrice : option Z) (data : string) : txdata :=
  mkTxdata nonce (default 0%Z gasPrice) gasLimit from to (default 0%Z amount) data.

Record Message := mkMessage {
  msg_to : option Address; msg_from : Address; msg_nonce : Z; msg_amount : Z; msg_gasLimit : Z; msg_gasPrice : Z;
  msg_data : string; msg_checkNonce : bool }.

Definition AsMessage (tx : txdata) : Message :=
  mkMessage (Recipient tx) (From tx) (AccountNonce tx) (Amount tx) (GasLimit tx) (Price tx) (Payload tx) true.

Record StateTrans := mkTrans {
  Gp : Z; Msg : Message; Gas : Z; GasPrice : Z; InitialGas : Z; Value : Z; Data : string }.

Definition NewStateTrans (msg : Message) (gp : Z) : StateTrans :=
  mkTrans gp msg (msg_gasLimit msg) (msg_gasPrice msg) (msg_gasLimit msg) (msg_amount msg) (msg_data msg).

Definition set_gas (st : StateTrans) (gas : Z) : StateTrans :=
  mkTrans (Gp st) (Msg st) gas (GasPrice st) (InitialGas st) (Value st) (Data st).
Definition set_pool (st : StateTrans) (gp : Z) : StateTrans :=
  mkTrans gp (Msg st) (Gas st) (GasPrice st) (InitialGas st) (Value st) (Data st).

Definition UseGas (st : StateTrans) (amount : Z) : StateTrans + vm_error :=
  if bool_decide (Gas st < amount)%Z then inr ErrOutOfGas else inl (set_gas st (wrap_uint64 (Gas st - amount))).

Definition GasUsed (st : StateTrans) : Z := wrap_uint64 (InitialGas st - Gas st).

(** ** The tracer: [StructLogger] in its read/write-set mode *)
Record StructLogger := mkLogger { changedValues : gmap Address (gmap Hash Hash); readValues : gmap Address (gmap Hash Hash) }.

Definition NewRWSetLogger : StructLogger := mkLogger ∅ ∅.

(** [common.BigToHash]: the low 32 bytes of the absolute value. *)
Definition BigToHash (b : Z) : Hash := FillBytes 32 (Z.abs b).

(** What [CaptureState] sees of a step: the opcode, with its stack operands if
    it is [SLOAD] or [SSTORE]. *)
Inductive opcode := SLOAD (loc : Z) | SSTORE (loc val : Z) | OtherOp.

Definition storage_of (m : gmap Address (gmap Hash Hash)) (a : Address) : gmap Hash Hash := default ∅ (m !! a).

(** [loaded] is the answer of [env.StateDB.GetState] on [SLOAD]. *)
Definition CaptureState (l : StructLogger) (contract : Address) (e : opcode) (loaded : Hash) : StructLogger :=
  let changed := <[contract := storage_of (changedValues l) contract]> (changedValues l) in
  let read := <[contract := storage_of (readValues l) contract]> (readValues l) in
  match e with
  | SLOAD loc => mkLogger changed (<[contract := <[BigToHash loc := loaded]> (storage_of read contract)]> read)
  | SSTORE loc val => mkLogger (<[contract := <[BigToHash loc := BigToHash val]> (storage_of changed contract)]> changed) read
  | OtherOp => mkLogger changed read
  end.

Definition RWSetCapture (l : StructLogger) (a : Address) : option (gmap Hash Hash) * option (gmap Hash Hash) :=
  (readValues l !! a, changedValues l !! a).

(** ** Programs with a tracer and call frames *)
Record frame_result := mkFrame { fr_ret : string; fr_gas : Z; fr_err : option vm_error }.

Inductive eprog (A : Type) : Type :=
| EDone (a : A)
| EHalt
| EDo (o : op) (k : reply -> eprog A)
| ECapture (contract : Address) (e : opcode) (k : eprog A)
| EFrame (body : eprog frame_result) (k : frame_result -> eprog A)
| EPeek (k : StructLogger -> eprog A).
Arguments EDone {A} a.
Arguments EHalt {A}.
Arguments EDo {A} o k.
Arguments ECapture {A} contract e k.
Arguments EFrame {A} body k.
Arguments EPeek {A} k.

Fixpoint ebind {A B : Type} (f : A -> eprog B) (p : eprog A) : eprog B :=
  match p with
  | EDone a => f a
  | EHalt => EHalt
  | EDo o k => EDo o (fun r => ebind f (k r))
  | ECapture c e k => ECapture c e (ebind f k)
  | EFrame body k => EFrame body (fun r => ebind f (k r))
  | EPeek k => EPeek (fun l => ebind f (k l))
  end.
#[export] Instance eprog_ret : MRet eprog := fun A a => EDone a.
#[export] Instance eprog_bind : MBind eprog := fun A B f p => ebind f p.

(** Operations with their answers. *)
Definition act (o : op) : eprog unit := EDo o (fun _ => EDone tt).
Definition ask_Z (o : op) : eprog Z := EDo o (fun r => match r with RZ z => EDone z | _ => EHalt end).
Definition ask_bool (o : op) : eprog bool := EDo o (fun r => match r with RBool b => EDone b | _ => EHalt end).
Definition ask_bytes (o : op) : eprog string := EDo o (fun r => match r with RBytes b => EDone b | _ => EHalt end).

(** ** Opening a frame: [core/vm/evm.go] at depth 0 *)
Record Context := mkContext { Origin : Address; Coinbase : Address; BlockNumber : Z; Time : Z }.

(** [NewVMContext]; [now] is the wall clock the block time is taken from. *)
Definition NewVMContext (origin coinbase : Address) (blockNum now : Z) : Context := mkContext origin coinbase blockNum now.

Record Contract := mkContract {
  caller : Address; self : Address; Code : string; contract_codehash : Hash; CodeAddr : option Address;
  contract_gas : Z; contract_value : Z }.

Definition PrecompiledContractsIstanbul : list Address := (fun i => zeros 19 +:+ String (byte_of (Z.of_nat i)) EmptyString) <$> seq 1 9.

Definition CanTransfer (addr : Address) (amount : Z) : eprog bool :=
  balance ← ask_Z (OGetBalance addr); mret (bool_decide (amount <= balance)%Z).

Definition Transfer (sender recipient : Address) (amount : Z) : eprog unit :=
  _ ← act (OSubBalance sender amount); act (OAddBalance recipient amount).

(** What is left of the gas when a frame ends: an error other than a revert
    consumes all of it. *)
Definition settle (r : frame_result) : frame_result :=
  match fr_err r with
  | Some e => if decide (e = errExecutionReverted) then r else mkFrame (fr_ret r) 0 (Some e)
  | None => r
  end.

(** The gas of an [SSTORE] ([gasSStoreEIP2200]); the refund counter changes. *)
Definition gasSStoreEIP2200 (contract : Address) (gas : Z) (x y : Z) : eprog (Z + vm_error) :=
  if bool_decide (gas <= 2300)%Z then mret (inr (OtherError "not enough gas for reentrancy sentry")) else
  let key := BigToHash x in
  current ← ask_bytes (OGetState contract key);
  let value := BigToHash y in
  if decide (current = value) then mret (inl 800%Z) else
  original ← ask_bytes (OGetCommittedState contract key);
  if decide (original = current) then
    if decide (original = zero_hash) then mret (inl 20000%Z)
    else
      _ ← (if decide (value = zero_hash) then act (OAddRefund 15000) else mret tt);
      mret (inl 5000%Z)
  else
    _ ← (if decide (original = zero_hash) then mret tt
         else if decide (current = zero_hash) then act (OSubRefund 15000)
         else if decide (value = zero_hash) then act (OAddRefund 15000) else mret tt);
    _ ← (if decide (original = value) then act (OAddRefund (if decide (original = zero_hash) then 19200 else 4200)) else mret tt);
    mret (inl 800%Z).

(** [SSTORE] in a frame that may write: metering, the tracer, the store. *)
Definition opSstore (contract : Address) (gas : Z) (loc val : Z) : eprog (Z + vm_error) :=
  cost ← gasSStoreEIP2200 contract gas loc val;
  match cost with
  | inl c =>
    if bool_decide (gas < c)%Z then ECapture contract (SSTORE loc val) (mret (inr ErrOutOfGas))
    else ECapture contract (SSTORE loc val) (_ ← act (OSetState contract (BigToHash loc) (BigToHash val)); mret (inl (gas - c)%Z))
  | inr e => ECapture contract (SSTORE loc val) (mret (inr ErrOutOfGas))
  end.

(** [SLOAD]: 800 gas, the tracer, the read. *)
Definition opSload (contract : Address) (gas : Z) (loc : Z) : eprog (Z * Z + vm_error) :=
  if bool_decide (gas < 800)%Z then ECapture contract (SLOAD loc) (mret (inr ErrOutOfGas))
  else ECapture contract (SLOAD loc) (v ← ask_bytes (OGetState contract (BigToHash loc)); mret (inl (gas - 800, SetBytes v)%Z)).

Section levm.
Context (keccak256 : string -> Hash).

(** [crypto.CreateAddress]: the last 20 bytes of the hash of the RLP list of
    an address and a nonce. *)
Fixpoint uint_bytes (fuel : nat) (n : Z) (acc : string) : string :=
  match fuel with
  | O => acc
  | S fuel => if bool_decide (n = 0)%Z then acc else uint_bytes fuel (n / 256) (String (byte_of n) acc)
  end.
Definition rlp_uint (n : Z) : string :=
  if bool_decide (n = 0)%Z then String (byte_of 128) EmptyString
  else if bool_decide (n < 128)%Z then String (byte_of n) EmptyString
  else let b := uint_bytes 8 n EmptyString in String (byte_of (128 + Z.of_nat (len b))) b.
Definition CreateAddress (b : Address) (nonce : Z) : Address :=
  let payload := String (byte_of 148) b +:+ rlp_uint nonce in
  drop_bytes 12 (keccak256 (String (byte_of (192 + Z.of_nat (len payload))) payload)).

(** The interpreter, precompiled contracts included: what it returns, the gas
    left in the contract and its error. *)
Context (run : Context -> Contract -> string -> eprog frame_result).

Definition Call (ctx : Context) (caller addr : Address) (input : string) (gas value : Z) : eprog frame_result :=
  ok ← CanTransfer caller value;
  if negb ok then mret (mkFrame EmptyString gas (Some ErrInsufficientBalance)) else
  EFrame (
    exist ← ask_bool (OExist addr);
    if negb exist && bool_decide (addr ∉ PrecompiledContractsIstanbul) && bool_decide (value = 0)%Z
    then mret (mkFrame EmptyString gas None)
    else
      _ ← (if exist : bool then mret tt else act (OCreateAccount addr));
      _ ← Transfer caller addr value;
      codeHash ← ask_bytes (OGetCodeHash addr);
      code ← ask_bytes (OGetCode addr);
      r ← run ctx (mkContract caller addr code codeHash (Some addr) gas value) input;
      mret (settle r))
  EDone.

(** The end of [create]: store the code if it is short enough and paid for. *)
Definition store_code (address : Address) (r : frame_result) : eprog frame_result :=
  let maxCodeSizeExceeded := bool_decide (24576 < len (fr_ret r)) in
  match fr_err r with
  | Some e => mret (settle r)
  | None =>
    if maxCodeSizeExceeded then mret (mkFrame (fr_ret r) 0 (Some errMaxCodeSizeExceeded))
    else
      let createDataGas := wrap_uint64 (Z.of_nat (len (fr_ret r)) * 200) in
      if bool_decide (fr_gas r < createDataGas)%Z then mret (settle (mkFrame (fr_ret r) (fr_gas r) (Some ErrCodeStoreOutOfGas)))
      else
        _ ← act (OSetCode address (Some (fr_ret r)));
        mret (mkFrame (fr_ret r) (fr_gas r - createDataGas) None)
  end.

Definition create (ctx : Context) (caller : Address) (code : string) (gas value : Z) (address : Address) : eprog frame_result :=
  ok ← CanTransfer caller value;
  if negb ok then mret (mkFrame EmptyString gas (Some ErrInsufficientBalance)) else
  nonce ← ask_Z (OGetNonce caller);
  _ ← act (OSetNonce caller (wrap_uint64 (nonce + 1)));
  contractHash ← ask_bytes (OGetCodeHash address);
  taken ← ask_Z (OGetNonce address);
  if bool_decide (taken <> 0)%Z || bool_decide (contractHash <> zero_hash) && bool_decide (contractHash <> emptyCodeHash keccak256)
  then mret (mkFrame EmptyString 0 (Some ErrContractAddressCollision))
  else
    EFrame (
      _ ← act (OCreateAccount address);
      _ ← act (OSetNonce address 1);
      _ ← Transfer caller address value;
      r ← run ctx (mkContract caller address code zero_hash (Some address) gas value) EmptyString;
      store_code address r)
    EDone.

Definition Create (ctx : Context) (caller : Address) (code : string) (gas value : Z) : eprog frame_result :=
  nonce ← ask_Z (OGetNonce caller);
  create ctx caller code gas value (CreateAddress caller nonce).

(** ** [LEVM] *)
Definition RefundGas (st : StateTrans) : eprog StateTrans :=
  let half := (GasUsed st / 2)%Z in
  counter ← ask_Z OGetRefund;
  let refund := if bool_decide (half > counter)%Z then counter else half in
  let st := set_gas st (wrap_uint64 (Gas st + refund)) in
  _ ← act (OAddBalance (msg_from (Msg st)) (Gas st * GasPrice st));
  match AddGas (Gp st) (Gas st) with
  | Some gp => mret (set_pool st gp)
  | None => EHalt
  end.

Record replay_result := mkReplay {
  rMap : option (gmap Hash Hash); wMap : option (gmap Hash Hash); output : string; replay_err : option vm_error }.

Definition ReplayTransaction (ctx : Context) (tx : txdata) (gp : Z) : eprog (replay_result * Z) :=
  let msg := AsMessage tx in
  let st := NewStateTrans msg gp in
  let contractCreation := match msg_to msg with None => true | Some _ => false end in
  match IntrinsicGas (Data st) contractCreation true true with
  | inr e => mret (mkReplay None None EmptyString (Some e), gp)
  | inl gas =>
    match UseGas st gas with
    | inr e => mret (mkReplay None None EmptyString (Some e), gp)
    | inl st =>
      r ← match msg_to msg with
          | None => Create ctx (msg_from msg) (Data st) (Gas st) (Value st)
          | Some to =>
            nonce ← ask_Z (OGetNonce (msg_from msg));
            _ ← act (OSetNonce (msg_from msg) (wrap_uint64 (nonce + 1)));
            Call ctx (msg_from msg) to (Data st) (Gas st) (Value st)
          end;
      if decide (fr_err r = Some ErrInsufficientBalance) then mret (mkReplay None None EmptyString (fr_err r), gp)
      else
        st ← RefundGas (set_gas st (fr_gas r));
        _ ← act (OAddBalance (Coinbase ctx) (GasUsed st * GasPrice st));
        match msg_to msg with
        | Some to => EPeek (fun l => let '(rm, wm) := RWSetCapture l to in mret (mkReplay rm wm (fr_ret r) None, Gp st))
        | None => mret (mkReplay None None (fr_ret r) None, Gp st)
        end
    end
  end.
End levm.

(** ** What a program does

    On the implementation it is a client of the state database: a frame takes a
    snapshot and reverts to it when its body ends with an error. *)
Fixpoint pbind {A B : Type} (f : A -> prog B) (p : prog A) : prog B :=
  match p with
  | Done a => f a
  | Halt => Halt
  | Do o k => Do o (fun r => pbind f (k r))
  end.
#[export] Instance prog_ret : MRet prog := fun A a => Done a.
#[export] Instance prog_bind : MBind prog := fun A B f p => pbind f p.

Definition snapshot : prog Z := Do OSnapshot (fun r => match r with RZ z => Done z | _ => Halt end).
Definition revert (snap : Z) : prog unit := Do (ORevert snap) (fun _ => Done tt).

Fixpoint compile {A : Type} (l : StructLogger) (p : eprog A) : prog (StructLogger * A) :=
  match p with
  | EDone a => Done (l, a)
  | EHalt => Halt
  | EDo o k => Do o (fun r => compile l (k r))
  | ECapture c e k =>
    match e with
    | SLOAD loc => Do (OGetState c (BigToHash loc)) (fun r => match r with RBytes v => compile (CaptureState l c e v) k | _ => Halt end)
    | _ => compile (CaptureState l c e zero_hash) k
    end
  | EFrame body k =>
    snap ← snapshot;
    lr ← compile l body;
    _ ← (match fr_err lr.2 with Some _ => revert snap | None => mret tt end);
    compile lr.1 (k lr.2)
  | EPeek k => compile l (k l)
  end.

(** On the specification a frame that ends with an error gives back the state
    it started in. *)
Fixpoint espec {A : Type} (keccak256 : string -> Hash) (T : spec_state) (l : StructLogger) (p : eprog A) : outcome (spec_state * StructLogger * A) :=
  match p with
  | EDone a => Ret (T, l, a)
  | EHalt => Panics
  | EDo o k => spec_op keccak256 T o ≫= fun '(T, r) => espec keccak256 T l (k r)
  | ECapture c e k =>
    espec keccak256 T (CaptureState l c e (match e with SLOAD loc => slot_value (from_option a_state ∅ (live T c)) (BigToHash loc) | _ => zero_hash end)) k
  | EFrame body k =>
    espec keccak256 T l body ≫= fun '(T', l, r) =>
    espec keccak256 (match fr_err r with Some _ => T | None => T' end) l (k r)
  | EPeek k => espec keccak256 T l (k l)
  end.

(** The interpreter takes snapshots and reverts only by opening frames. *)
Fixpoint framed {A : Type} (p : eprog A) : Prop :=
  match p with
  | EDone _ | EHalt => True
  | EDo o k => plain o = true /\ forall r, framed (k r)
  | ECapture _ _ k => framed k
  | EFrame body k => framed body /\ forall r, framed (k r)
  | EPeek k => forall l, framed (k l)
  end.

(** ** Programs on the specification *)
Section programs.
Context (keccak256 : string -> Hash).

Lemma spec_prog_bind {A B} (p : prog A) (f : A -> prog B) : forall m,
  spec_prog keccak256 m (p ≫= f) = spec_prog keccak256 m p ≫= fun '(m, a) => spec_prog keccak256 m (f a).
Proof.
  unfold mbind, prog_bind. induction p as [a| |o k IH]; intros m; cbn [pbind spec_prog]; [done|done|].
  destruct (spec_exec keccak256 m o) as [[m' r]| |]; [|done..]. rewrite !bind_ret. apply IH.
Qed.

Lemma espec_bind {A B} (p : eprog A) (f : A -> eprog B) : forall T l,
  espec keccak256 T l (p ≫= f) = espec keccak256 T l p ≫= fun '(T, l, a) => espec keccak256 T l (f a).
Proof.
  unfold mbind at 1, eprog_bind. induction p as [A a|A|A o k IH|A c e k IH|A body _ k IH|A k IH]; intros T l; cbn [ebind espec]; try done.
  - destruct (spec_op keccak256 T o) as [[T' r]| |]; [|done..]. rewrite !bind_ret. apply IH.
  - destruct (espec keccak256 T l body) as [[[T' l'] r]| |]; [|done..]. rewrite !bind_ret. apply IH.
Qed.

(** A machine whose snapshots were numbered before its counter. *)
Definition numbered (m : spec_machine) : Prop := forall q, q ∈ saved m -> (q.1 < next_id m)%Z.
(** A later machine that kept the snapshots of [m]. *)
Definition kept (m m' : spec_machine) : Prop := (exists l, saved m' = saved m ++ l) /\ (next_id m <= next_id m')%Z /\ numbered m'.

Lemma kept_refl m : numbered m -> kept m m.
Proof. intros H. split; [exists []; by rewrite app_nil_r|]. split; [lia|done]. Qed.

Lemma kept_trans m1 m2 m3 : kept m1 m2 -> kept m2 m3 -> kept m1 m3.
Proof.
  intros ((l1 & H1) & N1 & _) ((l2 & H2) & N2 & W). split; [exists (l1 ++ l2); by rewrite H2, H1, app_assoc|]. split; [lia|done].
Qed.

Lemma spec_exec_plain m o : plain o = true ->
  spec_exec keccak256 m o = spec_op keccak256 (current m) o ≫= fun '(T, r) => Ret (mkMachine T (saved m) (next_id m), r).
Proof. by destruct o. Qed.

(** The state after a snapshot, and the revert to it from any machine that
    kept it. *)
Definition snapped (m : spec_machine) : spec_machine := mkMachine (current m) (saved m ++ [(next_id m, current m)]) (next_id m + 1).

Lemma kept_snapped m : numbered m -> kept m (snapped m).
Proof.
  intros H. split; [by eexists|]. split; cbn; [lia|]. intros q. cbn. rewrite elem_of_app, list_elem_of_singleton.
  intros [Hq| ->]; [apply H in Hq|cbn]; lia.
Qed.

Lemma spec_revert_snapped m m' : numbered m -> kept (snapped m) m' ->
  spec_exec keccak256 m' (ORevert (next_id m)) = Ret (mkMachine (current m) (saved m) (next_id m'), RUnit).
Proof.
  intros H ((l & Hl) & _ & _). cbn [spec_exec]. rewrite Hl. cbn [saved snapped]. rewrite <- app_assoc. cbn [app].
  by rewrite find_saved_last.
Qed.

Definition compiles {A} (m : spec_machine) (l : StructLogger) (p : eprog A) : Prop :=
  match espec keccak256 (current m) l p with
  | Ret (T, l', a) => exists m', spec_prog keccak256 m (compile l p) = Ret (m', (l', a)) /\ current m' = T /\ kept m m'
  | Panics => spec_prog keccak256 m (compile l p) = Panics
  | Diverges => False
  end.

Lemma spec_op_answers T o : spec_op keccak256 T o <> Diverges.
Proof.
  destruct o; cbn; unfold change, ask; try done.
  - by destruct (live T a).
  - by case_bool_decide.
Qed.

Lemma compile_load {A} m l c loc (k : eprog A) :
  compiles m (CaptureState l c (SLOAD loc) (slot_value (from_option a_state ∅ (live (current m) c)) (BigToHash loc))) k ->
  compiles m l (ECapture c (SLOAD loc) k).
Proof.
  intros H. unfold compiles in *. cbn [espec compile spec_prog spec_exec spec_op]. unfold ask.
  assert ((Ret (current m, match live (current m) c with Some o => RBytes (slot_value (a_state o) (BigToHash loc)) | None => RBytes zero_hash end) ≫=
    fun '(T, r) => Ret (mkMachine T (saved m) (next_id m), r)) = Ret (m, RBytes (slot_value (from_option a_state ∅ (live (current m) c)) (BigToHash loc)))) as ->.
  { rewrite bind_ret. destruct m as [T sv n]. cbn. by destruct (live T c). }
  rewrite bind_ret. exact H.
Qed.

Lemma compile_frame {A} m l (body : eprog frame_result) (k : frame_result -> eprog A) :
  numbered m -> (forall m l, numbered m -> compiles m l body) -> (forall r m l, numbered m -> compiles m l (k r)) ->
  compiles m l (EFrame body k).
Proof.
  intros Hm Hb Hk. unfold compiles. cbn [espec compile]. rewrite spec_prog_bind. unfold snapshot. cbn [spec_prog spec_exec].
  rewrite !bind_ret. cbn [spec_prog]. rewrite bind_ret, spec_prog_bind.
  pose proof (kept_snapped m Hm) as Hs. destruct Hs as (Hs1 & Hs2 & Hs3). specialize (Hb (snapped m) l Hs3). unfold compiles in Hb. cbn [current snapped] in Hb.
  destruct (espec keccak256 (current m) l body) as [[[T l1] r]| |]; [|by fold (snapped m); rewrite Hb|done].
  destruct Hb as (m1 & Hrun & HS & Hkept). fold (snapped m). rewrite Hrun, !bind_ret. rewrite spec_prog_bind. cbn [snd fst].
  assert (exists m2, spec_prog keccak256 m1 (match fr_err r with Some _ => revert (next_id m) | None => mret tt end) = Ret (m2, tt) /\
    current m2 = match fr_err r with Some _ => current m | None => T end /\ kept m m2) as (m2 & Hr & HS2 & Hk2).
  { destruct (fr_err r).
    - unfold revert. cbn [spec_prog]. rewrite (spec_revert_snapped m m1 Hm Hkept), bind_ret. eexists. split; [done|]. split; [done|].
      destruct Hkept as (_ & Hn & Hd). cbn in Hn. split; [exists []; cbn; by rewrite app_nil_r|]. cbn. split; [lia|].
      intros q Hq. cbn in *. specialize (Hm q Hq). lia.
    - exists m1. split; [done|]. split; [done|]. eapply kept_trans; [by apply kept_snapped|done]. }
  rewrite Hr, bind_ret, <- HS2. specialize (Hk r m2 l1 (proj2 (proj2 Hk2))). unfold compiles in Hk.
  destruct (espec keccak256 (current m2) l1 (k r)) as [[[T3 l3] a]| |]; [|done..].
  destruct Hk as (m3 & H1 & H2 & H3). exists m3. split; [done|]. split; [done|]. by eapply kept_trans.
Qed.

(** Every framed program does on the implementation's machine what it does on
    abstract states. *)
Lemma compile_spec {A} (p : eprog A) : framed p -> forall m l, numbered m -> compiles m l p.
Proof.
  induction p as [A a|A|A o k IH|A c e k IH|A body IHb k IHk|A k IH]; intros Hp m l Hm; cbn [framed] in Hp.
  - unfold compiles. cbn. exists m. split; [done|]. split; [done|]. by apply kept_refl.
  - done.
  - destruct Hp as [Ho Hk]. unfold compiles. cbn [espec compile spec_prog]. rewrite (spec_exec_plain m o Ho).
    destruct (spec_op keccak256 (current m) o) as [[T r]| |] eqn:E; rewrite ?bind_ret; [|done|by destruct (spec_op_answers (current m) o)].
    set (m1 := mkMachine T (saved m) (next_id m)). assert (kept m m1) as H1.
    { split; [exists []; cbn; by rewrite app_nil_r|]. split; [cbn; lia|]. exact Hm. }
    specialize (IH r (Hk r) m1 l (proj2 (proj2 H1))). unfold compiles in IH. cbn [current m1] in IH.
    destruct (espec keccak256 T l (k r)) as [[[T' l'] a]| |]; [|done..]. destruct IH as (m2 & H2 & H3 & H4). exists m2. split; [done|]. split; [done|]. by eapply kept_trans.
  - destruct e as [loc|loc val|]; [apply compile_load; by apply IH| |]; by apply IH.
  - destruct Hp as [Hb Hk]. apply compile_frame; [done|by intros; apply IHb|by intros; apply IHk].
  - by apply IH.
Qed.
End programs.

(** ** Gas *)
Lemma nonzero_bytes_bound data : (0 <= nonzero_bytes data <= Z.of_nat (len data))%Z.
Proof. induction data as [|c data IH]; cbn [nonzero_bytes String.length]; [lia|]. case_decide; lia. Qed.

(** The division in the overflow tests is exact. *)
Lemma budget_exceeded gas n x : (0 < n)%Z -> ((MaxUint64 - gas) / n < x <-> MaxUint64 < gas + x * n)%Z.
Proof.
  intros Hn. split; intros H.
  - destruct (decide (MaxUint64 < gas + x * n)%Z); [done|]. exfalso.
    assert (x <= (MaxUint64 - gas) / n)%Z; [apply Z.div_le_lower_bound; lia|lia].
  - apply Z.div_lt_upper_bound; lia.
Qed.

Definition intrinsic_total (data : string) (contractCreation isHomestead isEIP2028 : bool) : Z :=
  ((if contractCreation && isHomestead then 53000 else 21000) + nonzero_bytes data * (if isEIP2028 then 16 else 68)
   + (Z.of_nat (len data) - nonzero_bytes data) * 4)%Z.



(** ** Frames are opened by [Call] and [create] only *)
Create HintDb levm.

Lemma framed_bind {A B} (p : eprog A) (f : A -> eprog B) : framed p -> (forall a, framed (f a)) -> framed (p ≫= f).
Proof.
  unfold mbind, eprog_bind. induction p as [A a|A|A o k IH|A c e k IH|A body _ k IH|A k IH]; cbn [framed ebind]; intros Hp Hf; try done.
  - destruct Hp as [Ho Hk]. split; [done|]. intros r. by apply IH.
  - by apply IH.
  - destruct Hp as [Hb Hk]. split; [done|]. intros r. by apply IH.
  - intros l. by apply IH.
Qed.

Lemma framed_act o : plain o = true -> framed (act o).
Proof. done. Qed.
Lemma framed_ask_Z o : plain o = true -> framed (ask_Z o).
Proof. intros H. split; [done|]. by intros []. Qed.
Lemma framed_ask_bool o : plain o = true -> framed (ask_bool o).
Proof. intros H. split; [done|]. by intros []. Qed.
Lemma framed_ask_bytes o : plain o = true -> framed (ask_bytes o).
Proof. intros H. split; [done|]. by intros []. Qed.
Lemma framed_ret {A} (a : A) : framed (mret a : eprog A).
Proof. done. Qed.
#[export] Hint Resolve framed_act framed_ask_Z framed_ask_bool framed_ask_bytes framed_ret : levm.

(** Split a program into its steps. *)
Ltac framing :=
  repeat (intros; cbv zeta;
    lazymatch goal with
    | |- True => exact I
    | |- _ /\ _ => split
    | |- framed (mret _) => exact I
    | |- framed (EDone _) => exact I
    | |- framed EHalt => exact I
    | |- framed (mbind _ _) => apply framed_bind
    | |- framed (act _) => apply framed_act; reflexivity
    | |- framed (ask_Z _) => apply framed_ask_Z; reflexivity
    | |- framed (ask_bool _) => apply framed_ask_bool; reflexivity
    | |- framed (ask_bytes _) => apply framed_ask_bytes; reflexivity
    | |- framed (EFrame _ _) => cbn [framed]
    | |- framed (ECapture _ _ _) => cbn [framed]
    | |- framed (EPeek _) => cbn [framed]
    | |- framed (if ?b then _ else _) => destruct b
    | |- framed (match ?x with _ => _ end) => destruct x
    | |- framed _ => solve [eauto with levm]
    end).

Lemma framed_gasSStore c gas x y : framed (gasSStoreEIP2200 c gas x y).
Proof. unfold gasSStoreEIP2200. framing. Qed.
#[export] Hint Resolve framed_gasSStore : levm.

Lemma framed_opSstore c gas loc val : framed (opSstore c gas loc val).
Proof. unfold opSstore. apply framed_bind; [apply framed_gasSStore|]. framing. Qed.
Lemma framed_opSload c gas loc : framed (opSload c gas loc).
Proof. unfold opSload. framing. Qed.
#[export] Hint Resolve framed_opSstore framed_opSload : levm.

Section frames.
Context (keccak256 : string -> Hash) (run : Context -> Contract -> string -> eprog frame_result).
Context (Hrun : forall ctx c input, framed (run ctx c input)).
#[local] Hint Resolve Hrun : levm.

Lemma framed_Call ctx caller addr input gas value : framed (Call run ctx caller addr input gas value).
Proof. unfold Call, CanTransfer, Transfer. framing. Qed.

Lemma framed_store_code address r : framed (store_code address r).
Proof. unfold store_code. framing. Qed.
#[local] Hint Resolve framed_store_code : levm.

Lemma framed_Create ctx caller code gas value : framed (Create keccak256 run ctx caller code gas value).
Proof. unfold Create, create, CanTransfer, Transfer. framing. Qed.
#[local] Hint Resolve framed_Call framed_Create : levm.

Lemma framed_RefundGas st : framed (RefundGas st).
Proof. unfold RefundGas. framing. Qed.
#[local] Hint Resolve framed_RefundGas : levm.

Lemma framed_ReplayTransaction ctx tx gp : framed (ReplayTransaction keccak256 run ctx tx gp).
Proof. unfold ReplayTransaction. framing. Qed.
End frames.
#[export] Hint Resolve framed_Call framed_Create framed_RefundGas framed_ReplayTransaction : levm.

(** ** What a program can return

    [epost P p]: every result of [p] satisfies [P], whatever the database
    answers, when the tracer only ever held slots of 32 bytes. *)
Definition words32 (m : gmap Hash Hash) : Prop := forall k v, m !! k = Some v -> len k = 32.
Definition logger_ok (l : StructLogger) : Prop :=
  (forall a m, readValues l !! a = Some m -> words32 m) /\
  (forall a m, changedValues l !! a = Some m -> words32 m /\ forall k v, m !! k = Some v -> len v = 32).

Fixpoint epost {A : Type} (P : A -> Prop) (p : eprog A) : Prop :=
  match p with
  | EDone a => P a
  | EHalt => True
  | EDo _ k => forall r, epost P (k r)
  | ECapture _ _ k => epost P k
  | EFrame _ k => forall r, epost P (k r)
  | EPeek k => forall l, logger_ok l -> epost P (k l)
  end.

Lemma length_FillBytes_acc n : forall z s, len (FillBytes_acc n z s) = n + len s.
Proof. induction n as [|n IH]; intros z s; cbn [FillBytes_acc]; [done|]. rewrite IH. cbn. lia. Qed.
Lemma length_BigToHash b : len (BigToHash b) = 32.
Proof. unfold BigToHash, FillBytes. by rewrite length_FillBytes_acc. Qed.

Lemma words32_insert m k v : words32 m -> len k = 32 -> words32 (<[k := v]> m).
Proof. intros H Hk k' v' Hl. apply lookup_insert_Some in Hl as [[<- _]|[_ Hl]]; [done|by eapply H]. Qed.

Lemma logger_ok_new : logger_ok NewRWSetLogger.
Proof. split; intros a m H; cbn in H; by rewrite lookup_empty in H. Qed.

Lemma storage_of_ok (P : gmap Hash Hash -> Prop) M a : P ∅ -> (forall b m, M !! b = Some m -> P m) -> P (storage_of M a).
Proof. intros H0 H. unfold storage_of. destruct (M !! a) as [m|] eqn:E; [by eapply H|done]. Qed.

Lemma CaptureState_ok l c e v : logger_ok l -> logger_ok (CaptureState l c e v).
Proof.
  intros [Hr Hw].
  set (okw := fun m : gmap Hash Hash => words32 m /\ forall k v, m !! k = Some v -> len v = 32).
  assert (forall M (P : gmap Hash Hash -> Prop), P ∅ -> (forall b m, M !! b = Some m -> P m) ->
    forall b m, <[c := storage_of M c]> M !! b = Some m -> P m) as Hinit.
  { intros M P H0 H b m Hm. apply lookup_insert_Some in Hm as [[_ <-]|[_ Hm]]; [by apply storage_of_ok|by eapply H]. }
  assert (forall b m, <[c := storage_of (readValues l) c]> (readValues l) !! b = Some m -> words32 m) as Hr1 by (apply Hinit; [done|done]).
  assert (forall b m, <[c := storage_of (changedValues l) c]> (changedValues l) !! b = Some m -> okw m) as Hw1 by (apply Hinit; [done|done]).
  destruct e as [loc|loc val|]; split; cbn; try done; intros b m Hm.
  - apply lookup_insert_Some in Hm as [[_ <-]|[_ Hm]]; [|by eapply Hr1]. apply words32_insert; [|apply length_BigToHash]. by apply (storage_of_ok words32).
  - apply lookup_insert_Some in Hm as [[_ <-]|[_ Hm]]; [|by eapply Hw1].
    destruct (storage_of_ok okw (<[c := storage_of (changedValues l) c]> (changedValues l)) c) as [H1 H2]; [done|done|].
    split; [apply words32_insert; [done|apply length_BigToHash]|]. intros k v' Hk. apply lookup_insert_Some in Hk as [[_ <-]|[_ Hk]]; [apply length_BigToHash|by eapply H2].
Qed.

Lemma epost_sound keccak256 {A} (P : A -> Prop) (p : eprog A) : epost P p ->
  forall T l T' l' a, logger_ok l -> espec keccak256 T l p = Ret (T', l', a) -> P a /\ logger_ok l'.
Proof.
  assert (forall A (p : eprog A) T l T' l' a, logger_ok l -> espec keccak256 T l p = Ret (T', l', a) -> logger_ok l') as Hl.
  { clear. intros A p. induction p as [A a|A|A o k IH|A c e k IH|A body IHb k IHk|A k IH]; intros T l T' l' x Hl H; cbn [espec] in H.
    - by injection H as <- <- <-.
    - done.
    - destruct (spec_op keccak256 T o) as [[T1 r]| |]; [|done..]. by eapply IH.
    - by eapply IH; [apply CaptureState_ok|].
    - destruct (espec keccak256 T l body) as [[[T1 l1] r]| |] eqn:E; [|done..]. rewrite bind_ret in H. eapply IHk; [|exact H]. by eapply IHb.
    - by eapply IH. }
  intros Hp T l T' l' a Hok H. split; [|by eapply Hl]. revert T l T' l' a Hok H.
  induction p as [A a|A|A o k IH|A c e k IH|A body _ k IHk|A k IH]; intros T l T' l' x Hok H; cbn [espec] in H; cbn [epost] in Hp.
  - by injection H as <- <- <-.
  - done.
  - destruct (spec_op keccak256 T o) as [[T1 r]| |]; [|done..]. by eapply IH.
  - eapply IH; [done| |exact H]. by apply CaptureState_ok.
  - destruct (espec keccak256 T l body) as [[[T1 l1] r]| |] eqn:E; [|done..]. rewrite bind_ret in H. eapply IHk; [done| |exact H]. by eapply Hl.
  - by eapply IH; [apply Hp|..].
Qed.

Lemma epost_bind {A B} (Q : B -> Prop) (p : eprog A) (f : A -> eprog B) : epost (fun a => epost Q (f a)) p -> epost Q (p ≫= f).
Proof.
  unfold mbind, eprog_bind. induction p as [A a|A|A o k IH|A c e k IH|A body _ k IHk|A k IH]; cbn [epost ebind]; intros H; try done; eauto.
Qed.

Lemma epost_all {A} (P : A -> Prop) (p : eprog A) : (forall a, P a) -> epost P p.
Proof. intros H. induction p; cbn [epost]; auto. Qed.

(** The captured maps hold slots of 32 bytes. *)
Definition captured_ok (r : replay_result) : Prop :=
  from_option words32 True (rMap r) /\ from_option (fun m => words32 m /\ forall k v, m !! k = Some v -> len v = 32) True (wMap r).

Lemma ReplayTransaction_captured keccak256 run ctx tx gp : epost (fun r => captured_ok r.1) (ReplayTransaction keccak256 run ctx tx gp).
Proof.
  unfold ReplayTransaction. destruct (IntrinsicGas _ _ _ _) as [g|e]; [|done]. destruct (UseGas _ g) as [st|e]; [|done].
  apply epost_bind, epost_all. intros r. case_decide; [done|]. apply epost_bind, epost_all. intros st'. apply epost_bind, epost_all. intros [].
  destruct (msg_to (AsMessage tx)) as [to|]; [|done]. cbn [epost]. intros l [Hr Hw]. cbn. split; cbn.
  - destruct (readValues l !! to) as [m|] eqn:E; [by eapply Hr|done].
  - destruct (changedValues l !! to) as [m|] eqn:E; [by eapply Hw|done].
Qed.
