(* ===== verification/SpecFallback.v ===== *)
(** * Speculative execution of a block: [utils/levm_spec_fallback.go]

    A [LevmSpecFallback] holds a state database with the block's witness and
    the block's transactions.  [PreExecute] runs a transaction on the witness
    and undoes it; [ReExecute] does the same on the witness plus an overlay of
    committed writes and reports the values written and their differences;
    [PreExecuteCommit] and [ReExecuteCommit] keep the effects.  Everything is a
    program over the operations of the state database, so [StateSpec.v] says
    what it does: the theorems describe each call by the contents of the
    database alone. *)
From stdpp Require Import base gmap sets list strings.
From Stdlib Require Import ZArith Lia.
From S2P Require Import Prelude RWSet GoText StateDB StateSpec HexKeys Execution ReplayAdapter Levm.

Set Default Goal Selector "!".
Local Open Scope string_scope.
Local Open Scope list_scope.
Local Notation len := String.length.

(** ** Data *)
Record RawTransaction := mkRaw { raw_Hash : string; raw_From : string; raw_To : string; raw_Input : string; raw_Value : string }.

Record ReplayWitnessAccount := mkWitnessAccount {
  wit_Balance : string; wit_Nonce : string; wit_CodeHash : string; wit_Code : string; wit_Storage : option (gmap string string) }.

(** The map of pointers of a decoded witness. *)
Definition ReplayBlockWitness := gmap string (option ReplayWitnessAccount).

Record LevmSpecFallback := mkFallback { lvm : option StateDB; txs : list RawTransaction; blockNum : Z }.

Definition set_lvm (f : LevmSpecFallback) (s : StateDB) : LevmSpecFallback := mkFallback (Some s) (txs f) (blockNum f).

Inductive fallback_error := NotInitialized | OutOfRange (txIdx : Z) (n : nat) | ReplayFailed (e : vm_error).

(** [err.Error()] of the errors of [core/vm]. *)
Definition error_text (e : vm_error) : string :=
  match e with
  | ErrOutOfGas => "out of gas"
  | ErrDepth => "max call depth exceeded"
  | ErrInsufficientBalance => "insufficient balance for transfer"
  | ErrContractAddressCollision => "contract address collision"
  | ErrCodeStoreOutOfGas => "contract creation code storage out of gas"
  | errExecutionReverted => "evm: execution reverted"
  | errMaxCodeSizeExceeded => "evm: max code size exceeded"
  | OtherError msg => msg
  end.

(** [big.Int.Uint64]: the low 64 bits of the absolute value. *)
Definition big_Uint64 (z : Z) : Z := wrap_uint64 (Z.abs z).

(** [for _, x := range l] around a body without result. *)
Fixpoint efor {X} (f : X -> eprog unit) (l : list X) : eprog unit :=
  match l with [] => mret tt | x :: l => _ ← f x; efor f l end.

(** A loop that collects entries of a map. *)
Fixpoint ecollect {X V} (f : X -> eprog (option (string * V))) (m : gmap string V) (l : list X) : eprog (gmap string V) :=
  match l with
  | [] => mret m
  | x :: l => e ← f x; ecollect f (match e with Some (k, v) => <[k := v]> m | None => m end) l
  end.

(** ** Preparing the state *)
Section prepare.
Context (rng : gset string -> list string).

Definition inject_account (addrHex : string) (acct : option ReplayWitnessAccount) : eprog unit :=
  if negb (IsHexAddress addrHex) then mret tt else
  let addr := HexToAddress addrHex in
  _ ← act (OCreateAccount addr);
  match acct with
  | None => EHalt
  | Some acct =>
    _ ← (match wit_Balance acct with
         | EmptyString => mret tt
         | b => match SetString0 b with Some bal => act (OSetBalance addr bal) | None => mret tt end
         end);
    _ ← (match wit_Nonce acct with
         | EmptyString => mret tt
         | n => match SetString0 n with Some nonce => act (OSetNonce addr (big_Uint64 nonce)) | None => mret tt end
         end);
    _ ← (match wit_Code acct with EmptyString => mret tt | c => act (OSetCode addr (Some (FromHex c))) end);
    match wit_Storage acct with
    | None => mret tt
    | Some st => efor (fun slot => act (OSetState addr (HexToHash slot) (HexToHash (default EmptyString (st !! slot))))) (rng (dom st))
    end
  end.

Definition injectWitnessIntoStateDB (witness : option ReplayBlockWitness) : eprog unit :=
  match witness with
  | None => mret tt
  | Some accts => efor (fun addrHex => inject_account addrHex (mjoin (accts !! addrHex))) (rng (dom accts))
  end.

(** One entry of an overlay. *)
Definition override_entry (key valHex : string) : eprog unit :=
  match parseLevmCanonicalKey key with
  | None => mret tt
  | Some (prefix, addr, slot, field) =>
    if decide (prefix = "acct") then
      if decide (field = "balance") then
        match SetString16 (TrimPrefix0x valHex) with Some bal => act (OSetBalance addr bal) | None => mret tt end
      else if decide (field = "nonce") then
        match SetString16 (TrimPrefix0x valHex) with Some n => act (OSetNonce addr (big_Uint64 n)) | None => mret tt end
      else if decide (field = "code") then act (OSetCode addr (Some (FromHex valHex)))
      else if decide (field = "exist") then
        if decide (valHex = EmptyString \/ valHex = "0x0" \/ valHex = "0") then mret tt
        else exist ← ask_bool (OExist addr); if exist : bool then mret tt else act (OCreateAccount addr)
      else mret tt
    else act (OSetState addr slot (HexToHash valHex))
  end.

Definition applyStateOverride (stateOverride : gmap string string) : eprog unit :=
  efor (fun key => override_entry key (default EmptyString (stateOverride !! key))) (rng (dom stateOverride)).
End prepare.

(** ** Transactions *)
Section fallback.
Context (keccak256 : string -> Hash) (run : Context -> Contract -> string -> eprog frame_result).
(** The iteration orders of maps with string and with hash keys, and the value
    a [big.Int] is left with when [SetString] fails. *)
Context (rng : gset string -> list string) (rng_hash : gset Hash -> list Hash) (undefined_big : string -> Z).

Definition buildEthTxFromRaw (tx : RawTransaction) : Address * option Address * txdata :=
  let from := HexToAddress (raw_From tx) in
  let toPtr := if decide (raw_To tx = EmptyString \/ raw_To tx = "0x") then None else Some (HexToAddress (raw_To tx)) in
  let value := if decide (raw_Value tx = EmptyString) then 0%Z
               else match SetString0 (raw_Value tx) with Some v => v | None => undefined_big (raw_Value tx) end in
  let data := FromHex (raw_Input tx) in
  (from, toPtr, newEthTransaction 0 from toPtr (Some value) 50000000 (Some 0%Z) data).

Definition contractAddr_of (toPtr : option Address) : Address := default (zeros 20) toPtr.

(** [NewEVMNoTrace] and [ReplayTransaction] with a new gas pool. *)
Definition replay (blockNum now : Z) (from : Address) (ethTx : txdata) : eprog replay_result :=
  r ← ReplayTransaction keccak256 run (NewVMContext from from blockNum now) ethTx 1000000000; mret r.1.

Definition rwset_of (blockNum txIdx : Z) (tx : RawTransaction) (toPtr : option Address) (r : replay_result) : ReplayRWSet :=
  let contractAddr := contractAddr_of toPtr in
  let ref := mkRef blockNum EmptyString (Z.to_nat txIdx) (raw_Hash tx) in
  let reads := storageKeysToStrings keccak256 rng_hash (rMap r) contractAddr in
  let writes := storageKeysToStrings keccak256 rng_hash (wMap r) contractAddr in
  match replay_err r with
  | Some e => mkReplayRWSet ref false 0 reads writes (error_text e)
  | None => mkReplayRWSet ref true 0 reads writes EmptyString
  end.

(** The transaction at [txIdx], or the error of the range test. *)
Definition tx_at (f : LevmSpecFallback) (txIdx : Z) : RawTransaction + fallback_error :=
  if bool_decide (txIdx < 0)%Z then inr (OutOfRange txIdx (length (txs f)))
  else match txs f !! Z.to_nat txIdx with Some tx => inl tx | None => inr (OutOfRange txIdx (length (txs f))) end.

(** Run a program on the state database of [f]. *)
Definition on_lvm {R} (db : Database) (f : LevmSpecFallback) (txIdx : Z) (p : RawTransaction -> prog (option R * option fallback_error)) :
    outcome (LevmSpecFallback * (option R * option fallback_error)) :=
  match lvm f with
  | None => Ret (f, (None, Some NotInitialized))
  | Some sdb =>
    match tx_at f txIdx with
    | inr e => Ret (f, (None, Some e))
    | inl tx => run_prog keccak256 db sdb (p tx) ≫= fun '(sdb, r) => Ret (set_lvm f sdb, r)
    end
  end.

(** A part of a program without tracer. *)
Definition plainly {A} (p : eprog A) : prog A := lr ← compile NewRWSetLogger p; mret lr.2.

Definition PreExecute_tx (blockNum txIdx now : Z) (tx : RawTransaction) :
    prog (option ReplayRWSet * option fallback_error) :=
  let '(from, toPtr, ethTx) := buildEthTxFromRaw tx in
  snap ← snapshot;
  r ← plainly (replay blockNum now from ethTx);
  _ ← revert snap;
  mret (Some (rwset_of blockNum txIdx tx toPtr r), None).

Definition PreExecute (db : Database) (f : LevmSpecFallback) (blockNum txIdx now : Z) :
    outcome (LevmSpecFallback * (option ReplayRWSet * option fallback_error)) :=
  on_lvm db f txIdx (PreExecute_tx blockNum txIdx now).

Definition PreExecuteCommit_tx (blockNum txIdx now : Z) (tx : RawTransaction) :
    prog (option ReplayRWSet * option fallback_error) :=
  let '(from, toPtr, ethTx) := buildEthTxFromRaw tx in
  r ← plainly (replay blockNum now from ethTx);
  mret (Some (rwset_of blockNum txIdx tx toPtr r), None).

Definition PreExecuteCommit (db : Database) (f : LevmSpecFallback) (blockNum txIdx now : Z) :
    outcome (LevmSpecFallback * (option ReplayRWSet * option fallback_error)) :=
  on_lvm db f txIdx (PreExecuteCommit_tx blockNum txIdx now).

(** [v.Bytes()] of a slot in a captured map, or of the database. *)
Definition captured_or_state (m : option (gmap Hash Hash)) (addr : Address) (slot : Hash) : eprog Z :=
  match m ≫= fun m => m !! slot with
  | Some v => mret (SetBytes v)
  | None => v ← ask_bytes (OGetState addr slot); mret (SetBytes v)
  end.

(** Step 5 of [ReExecute], for one key. *)
Definition write_value (wMap : option (gmap Hash Hash)) (keyStr : string) : eprog (option (string * string)) :=
  match parseLevmCanonicalKey keyStr with
  | None => mret None
  | Some (_, addr, slot, _) => writeBig ← captured_or_state wMap addr slot; mret (Some (keyStr, Sprintf_0x writeBig))
  end.

(** Steps 7 and 8 of [ReExecute], for one key. *)
Definition write_delta_of (rMap : option (gmap Hash Hash)) (writeValues : gmap string string) (keyStr : string) : eprog (option (string * Z)) :=
  match parseLevmCanonicalKey keyStr with
  | None => mret None
  | Some (_, addr, slot, _) =>
    match SetString16 (TrimPrefix0x (default EmptyString (writeValues !! keyStr))) with
    | None => EHalt
    | Some writeBig => readBig ← captured_or_state rMap addr slot; mret (Some (keyStr, write_delta readBig writeBig))
    end
  end.

Definition result_and_delta := (ReExecuteResult * gmap string Z)%type.

Definition replay_error (r : replay_result) : option fallback_error := ReplayFailed <$> replay_err r.

Definition ReExecute_tx (blockNum now : Z) (overlay : option (gmap string string)) (tx : RawTransaction) :
    prog (option result_and_delta * option fallback_error) :=
  let '(from, toPtr, ethTx) := buildEthTxFromRaw tx in
  snapWitness ← snapshot;
  _ ← plainly (match overlay with Some o => applyStateOverride rng o | None => mret tt end);
  snapPre ← snapshot;
  r ← plainly (replay blockNum now from ethTx);
  let contractAddr := contractAddr_of toPtr in
  let realReadKeys := storageKeysToStrings keccak256 rng_hash (rMap r) contractAddr in
  let realWriteKeys := storageKeysToStrings keccak256 rng_hash (wMap r) contractAddr in
  writeValues ← plainly (ecollect (write_value (wMap r)) ∅ realWriteKeys);
  _ ← revert snapPre;
  writeDelta ← plainly (ecollect (write_delta_of (rMap r) writeValues) ∅ realWriteKeys);
  _ ← revert snapWitness;
  mret (Some (mkResult realReadKeys realWriteKeys writeValues, writeDelta), replay_error r).

Definition ReExecute (db : Database) (f : LevmSpecFallback) (blockNum txIdx now : Z) (overlay : option (gmap string string)) :
    outcome (LevmSpecFallback * (option result_and_delta * option fallback_error)) :=
  on_lvm db f txIdx (ReExecute_tx blockNum now overlay).

(** [collectDeltasAndValues], for one key. *)
Definition delta_and_value (rMap wMap : option (gmap Hash Hash)) (stateOverride : gmap string string) (keyStr : string) :
    eprog (option (string * (Z * string))) :=
  match parseLevmCanonicalKey keyStr with
  | None => mret None
  | Some (_, addr, slot, _) =>
    writeBig ← captured_or_state wMap addr slot;
    let readBig :=
      match rMap ≫= fun m => m !! slot with
      | Some v => SetBytes v
      | None => default 0%Z (stateOverride !! keyStr ≫= fun ov => SetString16 (TrimPrefix0x ov))
      end in
    mret (Some (keyStr, (write_delta readBig writeBig, Sprintf_0x writeBig)))
  end.

Definition ReExecuteCommit_tx (blockNum now : Z) (stateOverride : option (gmap string string)) (tx : RawTransaction) :
    prog (option result_and_delta * option fallback_error) :=
  let '(from, toPtr, ethTx) := buildEthTxFromRaw tx in
  _ ← plainly (match stateOverride with Some o => applyStateOverride rng o | None => mret tt end);
  r ← plainly (replay blockNum now from ethTx);
  let contractAddr := contractAddr_of toPtr in
  let realReadKeys := storageKeysToStrings keccak256 rng_hash (rMap r) contractAddr in
  let realWriteKeys := storageKeysToStrings keccak256 rng_hash (wMap r) contractAddr in
  collected ← plainly (ecollect (delta_and_value (rMap r) (wMap r) (default ∅ stateOverride)) ∅ realWriteKeys);
  mret (Some (mkResult realReadKeys realWriteKeys (snd <$> collected), fst <$> collected), replay_error r).

Definition ReExecuteCommit (db : Database) (f : LevmSpecFallback) (blockNum txIdx now : Z) (stateOverride : option (gmap string string)) :
    outcome (LevmSpecFallback * (option result_and_delta * option fallback_error)) :=
  on_lvm db f txIdx (ReExecuteCommit_tx blockNum now stateOverride).

(** [NewLevmSpecFallback] without the loading of the dataset. *)
Definition NewLevmSpecFallback (db : Database) (transactions : list RawTransaction) (witness : option ReplayBlockWitness) (fromBlock : Z) :
    outcome LevmSpecFallback :=
  run_prog keccak256 db NewWithTrie (plainly (injectWitnessIntoStateDB rng witness)) ≫= fun '(sdb, _) =>
  Ret (mkFallback (Some sdb) transactions fromBlock).
End fallback.

(** ** What the calls do, by the contents of the database *)
Section spec.
Context (keccak256 : string -> Hash) (run : Context -> Contract -> string -> eprog frame_result).
Context (rng : gset string -> list string) (rng_hash : gset Hash -> list Hash) (undefined_big : string -> Z).

(** A program on a state, with its answer only or with the state after it. *)
Definition effect {A} (T : spec_state) (p : eprog A) : outcome (spec_state * A) :=
  espec keccak256 T NewRWSetLogger p ≫= fun '(T, _, a) => Ret (T, a).
Definition answer {A} (T : spec_state) (p : eprog A) : outcome A := effect T p ≫= fun '(_, a) => Ret a.

Definition spec_PreExecute (T : spec_state) (blockNum txIdx now : Z) (tx : RawTransaction) : outcome (option ReplayRWSet * option fallback_error) :=
  let '(from, toPtr, ethTx) := buildEthTxFromRaw undefined_big tx in
  r ← answer T (replay keccak256 run blockNum now from ethTx);
  Ret (Some (rwset_of keccak256 rng_hash blockNum txIdx tx toPtr r), None).

(** The keys, values and differences [ReExecute] reports of an execution [r]
    that went from [T1] to [T2]. *)
Definition report (T1 T2 : spec_state) (toPtr : option Address) (r : replay_result) : outcome (option result_and_delta * option fallback_error) :=
  let contractAddr := contractAddr_of toPtr in
  let realReadKeys := storageKeysToStrings keccak256 rng_hash (rMap r) contractAddr in
  let realWriteKeys := storageKeysToStrings keccak256 rng_hash (wMap r) contractAddr in
  writeValues ← answer T2 (ecollect (write_value (wMap r)) ∅ realWriteKeys);
  writeDelta ← answer T1 (ecollect (write_delta_of (rMap r) writeValues) ∅ realWriteKeys);
  Ret (Some (mkResult realReadKeys realWriteKeys writeValues, writeDelta), replay_error r).

Definition spec_ReExecute (T : spec_state) (blockNum now : Z) (overlay : option (gmap string string)) (tx : RawTransaction) :
    outcome (option result_and_delta * option fallback_error) :=
  let '(from, toPtr, ethTx) := buildEthTxFromRaw undefined_big tx in
  '(T1, _) ← effect T (match overlay with Some o => applyStateOverride rng o | None => mret tt end);
  '(T2, r) ← effect T1 (replay keccak256 run blockNum now from ethTx);
  report T1 T2 toPtr r.

(** The database holds the state [T], whatever its caches, journal and
    snapshots. *)
Definition represents (db : Database) (s : StateDB) (T : spec_state) : Prop :=
  exists Base m, sim keccak256 db Base s m /\ current m = T.

Lemma sim_numbered db Base s m : sim keccak256 db Base s m -> numbered m.
Proof. intros H q. by eapply saved_below. Qed.

(** ** Steps of a call *)
Lemma snapshot_step {B} m (f : Z -> prog B) : spec_prog keccak256 m (snapshot ≫= f) = spec_prog keccak256 (snapped m) (f (next_id m)).
Proof. by rewrite spec_prog_bind. Qed.

(** The machine after a revert to a snapshot of [m]. *)
Definition reverted (m m' : spec_machine) : spec_machine := mkMachine (current m) (saved m) (next_id m').

Lemma revert_step {B} m m' (f : unit -> prog B) : numbered m -> kept (snapped m) m' ->
  spec_prog keccak256 m' (revert (next_id m) ≫= f) = spec_prog keccak256 (reverted m m') (f tt).
Proof.
  intros Hm Hk. rewrite spec_prog_bind. unfold revert. cbn [spec_prog]. by rewrite (spec_revert_snapped keccak256 m m' Hm Hk).
Qed.

Lemma kept_reverted m m' : numbered m -> kept (snapped m) m' -> kept m (reverted m m').
Proof.
  intros Hm (_ & Hn & _). cbn in Hn. split; [exists []; cbn; by rewrite app_nil_r|]. cbn. split; [lia|]. intros q Hq. cbn in *. specialize (Hm q Hq). lia.
Qed.

Definition plain_step {A} (m : spec_machine) (p : eprog A) (o : outcome (spec_state * A)) : Prop :=
  match o with
  | Ret (T, a) => exists m', current m' = T /\ kept m m' /\
      forall B (f : A -> prog B), spec_prog keccak256 m (plainly p ≫= f) = spec_prog keccak256 m' (f a)
  | Panics => forall B (f : A -> prog B), spec_prog keccak256 m (plainly p ≫= f) = Panics
  | Diverges => False
  end.

Lemma plainly_step {A} m (p : eprog A) : framed p -> numbered m -> plain_step m p (effect (current m) p).
Proof.
  intros Hp Hm. pose proof (compile_spec keccak256 p Hp m NewRWSetLogger Hm) as H. unfold compiles in H. unfold effect, plain_step, plainly.
  destruct (espec keccak256 (current m) NewRWSetLogger p) as [[[T l] a]| |]; [|intros B f; by rewrite !spec_prog_bind, H|done].
  destruct H as (m' & Hr & HT & Hk). exists m'. split; [done|]. split; [done|]. intros B f. by rewrite !spec_prog_bind, Hr, !bind_ret.
Qed.

(** ** Programs without raw snapshots *)
Lemma framed_efor {X} (f : X -> eprog unit) l : (forall x, framed (f x)) -> framed (efor f l).
Proof. intros Hf. induction l as [|x l IH]; cbn [efor]; [done|]. apply framed_bind; [done|]. by intros. Qed.

Lemma framed_ecollect {X V} (f : X -> eprog (option (string * V))) l : (forall x, framed (f x)) -> forall m, framed (ecollect f m l).
Proof. intros Hf. induction l as [|x l IH]; intros m; cbn [ecollect]; [done|]. apply framed_bind; [done|]. intros [[k v]|]; apply IH. Qed.

Lemma framed_override o : framed (applyStateOverride rng o).
Proof. apply framed_efor. intros key. unfold override_entry. framing. Qed.

Lemma framed_inject w : framed (injectWitnessIntoStateDB rng w).
Proof.
  destruct w as [accts|]; [|done]. apply framed_efor. intros a. unfold inject_account.
  destruct (negb (IsHexAddress a)); [done|]. apply framed_bind; [done|]. intros _. destruct (mjoin (accts !! a)) as [acct|]; [|done].
  apply framed_bind; [framing|intros _]. apply framed_bind; [framing|intros _]. apply framed_bind; [framing|intros _].
  destruct (wit_Storage acct) as [st|]; [|done]. by apply framed_efor.
Qed.

Lemma framed_captured m a k : framed (captured_or_state m a k).
Proof. unfold captured_or_state. destruct (m ≫= _); framing. Qed.

Lemma framed_write_value w k : framed (write_value w k).
Proof. unfold write_value. destruct (parseLevmCanonicalKey k) as [[[[? ?] ?] ?]|]; [|done]. apply framed_bind; [apply framed_captured|done]. Qed.

Lemma framed_write_delta r w k : framed (write_delta_of r w k).
Proof.
  unfold write_delta_of. destruct (parseLevmCanonicalKey k) as [[[[? ?] ?] ?]|]; [|done]. destruct (SetString16 _); [|done].
  apply framed_bind; [apply framed_captured|done].
Qed.

Context (Hrun : forall ctx c input, framed (run ctx c input)).

Lemma framed_replay b now from tx : framed (replay keccak256 run b now from tx).
Proof. apply framed_bind; [by apply framed_ReplayTransaction|done]. Qed.

(** A call that answers [o] and gives back the machine's state and snapshots. *)
Definition restores {A} (m : spec_machine) (p : prog A) (o : outcome A) : Prop :=
  match o with
  | Ret a => exists m', spec_prog keccak256 m p = Ret (m', a) /\ current m' = current m /\ kept m m'
  | Panics => spec_prog keccak256 m p = Panics
  | Diverges => False
  end.

Lemma PreExecute_restores m b i now tx : numbered m ->
  restores m (PreExecute_tx keccak256 run rng_hash undefined_big b i now tx) (spec_PreExecute (current m) b i now tx).
Proof.
  intros Hm. unfold PreExecute_tx, spec_PreExecute. destruct (buildEthTxFromRaw undefined_big tx) as [[from toPtr] ethTx].
  destruct (kept_snapped m Hm) as (_ & _ & Hs). pose proof (plainly_step (snapped m) _ (framed_replay b now from ethTx) Hs) as H.
  unfold answer, plain_step, restores in *. cbn [current snapped] in H. rewrite snapshot_step.
  destruct (effect (current m) (replay keccak256 run b now from ethTx)) as [[T r]| |]; rewrite ?bind_ret; [|by apply H|done].
  destruct H as (m1 & _ & Hk & Hstep). rewrite Hstep, revert_step by done.
  exists (reverted m m1). split; [done|]. split; [done|]. by apply kept_reverted.
Qed.

Lemma ReExecute_restores m b now overlay tx : numbered m ->
  restores m (ReExecute_tx keccak256 run rng rng_hash undefined_big b now overlay tx) (spec_ReExecute (current m) b now overlay tx).
Proof.
  intros Hm. unfold ReExecute_tx, spec_ReExecute. destruct (buildEthTxFromRaw undefined_big tx) as [[from toPtr] ethTx].
  destruct (kept_snapped m Hm) as (_ & _ & Hs). unfold restores. rewrite snapshot_step.
  set (apply := match overlay with Some o => applyStateOverride rng o | None => mret tt end).
  assert (framed apply) as Hfa by (unfold apply; destruct overlay; [apply framed_override|done]).
  pose proof (plainly_step (snapped m) _ Hfa Hs) as H1. unfold plain_step in H1. cbn [current snapped] in H1.
  destruct (effect (current m) apply) as [[T1 u]| |]; rewrite ?bind_ret; [|by apply H1|done].
  destruct H1 as (m1 & <- & Hk1 & ->). rewrite snapshot_step. pose proof (proj2 (proj2 Hk1)) as Hm1. destruct (kept_snapped m1 Hm1) as (_ & _ & Hs1).
  pose proof (plainly_step (snapped m1) _ (framed_replay b now from ethTx) Hs1) as H2. unfold plain_step in H2. cbn [current snapped] in H2.
  destruct (effect (current m1) (replay keccak256 run b now from ethTx)) as [[T2 r]| |]; rewrite ?bind_ret; [|by apply H2|done].
  destruct H2 as (m2 & <- & Hk2 & ->). cbv zeta. unfold report, answer. set (keys := storageKeysToStrings keccak256 rng_hash (wMap r) (contractAddr_of toPtr)).
  pose proof (plainly_step m2 _ (framed_ecollect (write_value (wMap r)) keys (framed_write_value _) ∅) (proj2 (proj2 Hk2))) as H3. unfold plain_step in H3.
  destruct (effect (current m2) (ecollect (write_value (wMap r)) ∅ keys)) as [[T3 wv]| |]; rewrite ?bind_ret; [|by apply H3|done].
  destruct H3 as (m3 & _ & Hk3 & ->). pose proof (kept_trans _ _ _ Hk2 Hk3) as Hk23. rewrite revert_step by done.
  pose proof (kept_reverted m1 m3 Hm1 Hk23) as Hkr. pose proof (kept_trans _ _ _ Hk1 Hkr) as Hk4.
  pose proof (plainly_step (reverted m1 m3) _ (framed_ecollect (write_delta_of (rMap r) wv) keys (framed_write_delta _ _) ∅) (proj2 (proj2 Hkr))) as H5.
  unfold plain_step in H5. cbn [current reverted] in H5.
  destruct (effect (current m1) (ecollect (write_delta_of (rMap r) wv) ∅ keys)) as [[T5 wd]| |]; rewrite ?bind_ret; [|by apply H5|done].
  destruct H5 as (m5 & _ & Hk5 & ->). pose proof (kept_trans _ _ _ Hk4 Hk5) as Hk6. rewrite revert_step by done.
  exists (reverted m m5). split; [done|]. split; [done|]. by apply kept_reverted.
Qed.
End spec.

(** ** Calls on a fallback *)
Section calls.
Context (keccak256 : string -> Hash) (run : Context -> Contract -> string -> eprog frame_result).
Context (rng : gset string -> list string) (rng_hash : gset Hash -> list Hash) (undefined_big : string -> Z).

(** A speculative call: transaction, clock and, for a re-execution, overlay. *)
Inductive call := CallPre (txIdx now : Z) | CallRe (txIdx now : Z) (overlay : option (gmap string string)).
Inductive reply_of_call :=
| ReplyPre (r : option ReplayRWSet) (err : option fallback_error)
| ReplyRe (r : option result_and_delta) (err : option fallback_error).

Definition call_once (db : Database) (f : LevmSpecFallback) (c : call) : outcome (LevmSpecFallback * reply_of_call) :=
  match c with
  | CallPre i now => PreExecute keccak256 run rng_hash undefined_big db f (blockNum f) i now ≫= fun '(f, (r, e)) => Ret (f, ReplyPre r e)
  | CallRe i now o => ReExecute keccak256 run rng rng_hash undefined_big db f (blockNum f) i now o ≫= fun '(f, (r, e)) => Ret (f, ReplyRe r e)
  end.

Fixpoint call_all (db : Database) (f : LevmSpecFallback) (l : list call) : outcome (LevmSpecFallback * list reply_of_call) :=
  match l with
  | [] => Ret (f, [])
  | c :: l => call_once db f c ≫= fun '(f, r) => call_all db f l ≫= fun '(f, rs) => Ret (f, r :: rs)
  end.

(** The answer of a call on a state, which no call changes. *)
Definition at_index {R} (f : LevmSpecFallback) (txIdx : Z) (o : RawTransaction -> outcome (option R * option fallback_error)) :
    outcome (option R * option fallback_error) :=
  match tx_at f txIdx with inr e => Ret (None, Some e) | inl tx => o tx end.

Definition spec_call (f : LevmSpecFallback) (T : spec_state) (c : call) : outcome reply_of_call :=
  match c with
  | CallPre i now => at_index f i (spec_PreExecute keccak256 run rng_hash undefined_big T (blockNum f) i now) ≫= fun '(r, e) => Ret (ReplyPre r e)
  | CallRe i now o => at_index f i (spec_ReExecute keccak256 run rng rng_hash undefined_big T (blockNum f) now o) ≫= fun '(r, e) => Ret (ReplyRe r e)
  end.

Fixpoint spec_calls (f : LevmSpecFallback) (T : spec_state) (l : list call) : outcome (list reply_of_call) :=
  match l with
  | [] => Ret []
  | c :: l => spec_call f T c ≫= fun r => spec_calls f T l ≫= fun rs => Ret (r :: rs)
  end.

(** [f] is ready to work on the contents [T]. *)
Definition ready (db : Database) (f : LevmSpecFallback) (T : spec_state) : Prop :=
  exists s, lvm f = Some s /\ represents keccak256 db s T.
Definition same_block (f f' : LevmSpecFallback) : Prop := txs f' = txs f /\ blockNum f' = blockNum f.

Context (Hrun : forall ctx c input, framed (run ctx c input)).
Context (db : Database) `{!CodeDB keccak256 db}.

Lemma on_lvm_restores {R} f T i (p : RawTransaction -> prog (option R * option fallback_error)) (o : RawTransaction -> outcome (option R * option fallback_error)) :
  ready db f T -> (forall m tx, numbered m -> current m = T -> restores keccak256 m (p tx) (o tx)) ->
  match at_index f i o with
  | Ret r => exists f', on_lvm keccak256 db f i p = Ret (f', r) /\ ready db f' T /\ same_block f f'
  | Panics => on_lvm keccak256 db f i p = Panics
  | Diverges => False
  end.
Proof.
  intros (s & Hs & B & m & Hsim & HT) Hp. unfold on_lvm, at_index. rewrite Hs. destruct (tx_at f i) as [tx|e].
  2: { exists f. split; [done|]. split; [|done]. exists s. split; [done|]. by exists B, m. }
  specialize (Hp m tx (sim_numbered _ _ _ _ _ Hsim) HT). unfold restores in Hp. pose proof (prog_refines keccak256 db B (p tx) s m Hsim) as Hr.
  destruct (o tx) as [r| |]; [|by rewrite Hp in Hr; rewrite Hr|done].
  destruct Hp as (m' & Hm & HT' & _). rewrite Hm in Hr. destruct Hr as (s' & -> & Hs'). rewrite bind_ret. eexists. split; [done|]. split; [|done].
  exists s'. split; [done|]. exists B, m'. split; [done|]. by rewrite HT'.
Qed.

Lemma call_once_spec f T c : ready db f T ->
  match spec_call f T c with
  | Ret r => exists f', call_once db f c = Ret (f', r) /\ ready db f' T /\ same_block f f'
  | Panics => call_once db f c = Panics
  | Diverges => False
  end.
Proof.
  intros Hf. destruct c as [i now|i now o]; cbn [spec_call call_once].
  - pose proof (on_lvm_restores f T i (PreExecute_tx keccak256 run rng_hash undefined_big (blockNum f) i now)
      (spec_PreExecute keccak256 run rng_hash undefined_big T (blockNum f) i now) Hf) as H. unfold PreExecute.
    destruct (at_index f i _) as [[r e]| |]; rewrite ?bind_ret.
    + destruct H as (f' & -> & ?); [intros; subst; by apply PreExecute_restores|]. by exists f'.
    + rewrite H; [done|]. intros; subst; by apply PreExecute_restores.
    + apply H. intros; subst; by apply PreExecute_restores.
  - pose proof (on_lvm_restores f T i (ReExecute_tx keccak256 run rng rng_hash undefined_big (blockNum f) now o)
      (spec_ReExecute keccak256 run rng rng_hash undefined_big T (blockNum f) now o) Hf) as H. unfold ReExecute.
    destruct (at_index f i _) as [[r e]| |]; rewrite ?bind_ret.
    + destruct H as (f' & -> & ?); [intros; subst; by apply ReExecute_restores|]. by exists f'.
    + rewrite H; [done|]. intros; subst; by apply ReExecute_restores.
    + apply H. intros; subst; by apply ReExecute_restores.
Qed.

Lemma spec_call_block f f' T c : same_block f f' -> spec_call f' T c = spec_call f T c.
Proof. intros [H1 H2]. destruct c; cbn [spec_call]; unfold at_index, tx_at; by rewrite H1, H2. Qed.

Lemma call_all_spec T l : forall f, ready db f T ->
  match spec_calls f T l with
  | Ret rs => exists f', call_all db f l = Ret (f', rs) /\ ready db f' T /\ same_block f f'
  | Panics => call_all db f l = Panics
  | Diverges => False
  end.
Proof.
  assert (forall l f f', same_block f f' -> spec_calls f' T l = spec_calls f T l) as Hsame.
  { clear l. intros l. induction l as [|c l IH]; intros f f' H; [done|]. cbn [spec_calls]. by rewrite (spec_call_block f f' T c H), (IH f f' H). }
  induction l as [|c l IH]; intros f Hf; cbn [spec_calls call_all]; [by exists f|].
  pose proof (call_once_spec f T c Hf) as Hc. destruct (spec_call f T c) as [r| |]; [|by rewrite Hc|done].
  destruct Hc as (f1 & -> & H1 & Hb1). rewrite !bind_ret. specialize (IH f1 H1). rewrite (Hsame l f f1 Hb1) in IH.
  destruct (spec_calls f T l) as [rs| |]; [|by rewrite IH|done]. destruct IH as (f2 & -> & H2 & Hb2). exists f2. split; [done|]. split; [done|].
  split; [by rewrite (proj1 Hb2), (proj1 Hb1)|by rewrite (proj2 Hb2), (proj2 Hb1)].
Qed.

Lemma NewLevmSpecFallback_ready transactions witness fromBlock :
  match effect keccak256 (abs keccak256 db NewWithTrie) (injectWitnessIntoStateDB rng witness) with
  | Ret (T, _) => exists s, NewLevmSpecFallback keccak256 rng db transactions witness fromBlock = Ret (mkFallback (Some s) transactions fromBlock) /\
      represents keccak256 db s T
  | Panics => NewLevmSpecFallback keccak256 rng db transactions witness fromBlock = Panics
  | Diverges => False
  end.
Proof.
  pose proof (sim_start keccak256 db _ NewWithTrie clean_new eq_refl) as Hs. unfold NewLevmSpecFallback.
  pose proof (prog_refines keccak256 db _ (plainly (injectWitnessIntoStateDB rng witness)) _ _ Hs) as Hr.
  pose proof (compile_spec keccak256 _ (framed_inject rng witness) _ NewRWSetLogger (sim_numbered _ _ _ _ _ Hs)) as Hc.
  unfold compiles in Hc. unfold plainly in *. rewrite spec_prog_bind in Hr. unfold effect. cbn [current start_machine] in Hc.
  destruct (espec keccak256 (abs keccak256 db NewWithTrie) NewRWSetLogger _) as [[[T l] u]| |]; rewrite ?bind_ret; [|by rewrite Hc in Hr; rewrite Hr|done].
  destruct Hc as (m & Hm & HT & _). rewrite Hm, bind_ret in Hr. destruct Hr as (s & -> & Hsim). rewrite bind_ret.
  exists s. split; [done|]. by exists (mkBase (abs keccak256 db NewWithTrie) ∅), m.
Qed.
End calls.

(** C13: on a fallback loaded with a witness, every sequence of [PreExecute] and
    [ReExecute] calls gives each call the answer it would get alone on the
    witness state: error results, contract creations, self-destructs, overlays
    and reverted frames of earlier calls leave no trace, and a panic is a panic
    of the interpreter or of the witness. *)
Theorem speculation_isolated keccak256 run rng rng_hash undefined_big db transactions witness fromBlock l :
  CodeDB keccak256 db -> (forall ctx c input, framed (run ctx c input)) ->
  match effect keccak256 (abs keccak256 db NewWithTrie) (injectWitnessIntoStateDB rng witness) with
  | Ret (T, _) =>
    exists sdb, let f := mkFallback (Some sdb) transactions fromBlock in
      NewLevmSpecFallback keccak256 rng db transactions witness fromBlock = Ret f /\
      match spec_calls keccak256 run rng rng_hash undefined_big f T l with
      | Ret rs => exists f', call_all keccak256 run rng rng_hash undefined_big db f l = Ret (f', rs)
      | Panics => call_all keccak256 run rng rng_hash undefined_big db f l = Panics
      | Diverges => False
      end
  | Panics => NewLevmSpecFallback keccak256 rng db transactions witness fromBlock = Panics
  | Diverges => False
  end.
Proof.
  intros Hdb Hrun. pose proof (NewLevmSpecFallback_ready keccak256 rng db transactions witness fromBlock) as H.
  destruct (effect keccak256 (abs keccak256 db NewWithTrie) (injectWitnessIntoStateDB rng witness)) as [[T u]| |]; [|done..].
  destruct H as (s & -> & Hs). exists s. cbv zeta. split; [done|].
  pose proof (call_all_spec keccak256 run rng rng_hash undefined_big Hrun db T l (mkFallback (Some s) transactions fromBlock)) as Hc.
  destruct (spec_calls keccak256 run rng rng_hash undefined_big _ T l) as [rs| |].
  - destruct Hc as (f' & Hf' & _); [by exists s|]. by exists f'.
  - apply Hc. by exists s.
  - apply Hc. by exists s.
Qed.

(** ** An interpreter for examples

    Contracts that are told by the input what to do: store 7 in slot 1, copy
    slot 1 to slot 2, have the second contract store, store and revert, store
    and load again. *)
Definition finished (gas : Z) : eprog frame_result := mret (mkFrame EmptyString gas None).
Definition then_store (c : Address) (gas loc val : Z) (k : Z -> eprog frame_result) : eprog frame_result :=
  r ← opSstore c gas loc val; match r with inl gas => k gas | inr e => mret (mkFrame EmptyString 0 (Some e)) end.
Definition then_load (c : Address) (gas loc : Z) (k : Z -> Z -> eprog frame_result) : eprog frame_result :=
  r ← opSload c gas loc; match r with inl (gas, v) => k gas v | inr e => mret (mkFrame EmptyString 0 (Some e)) end.

Definition sender : string := "0x00000000000000000000000000000000000000aa".
Definition contract1 : string := "0x00000000000000000000000000000000000000c1".
Definition contract2 : string := "0x00000000000000000000000000000000000000c2".

Definition demo_run (ctx : Context) (c : Contract) (input : string) : eprog frame_result :=
  let gas := contract_gas c in
  if decide (input = FromHex "0x01") then then_store (self c) gas 1 7 finished
  else if decide (input = FromHex "0x02") then then_load (self c) gas 1 (fun gas v => then_store (self c) gas 2 v finished)
  else if decide (input = FromHex "0x03") then
    EFrame (then_store (HexToAddress contract2) (gas - 1000) 1 7 finished) (fun r => finished (fr_gas r))
  else if decide (input = FromHex "0x04") then then_store (self c) gas 1 7 (fun gas => mret (mkFrame EmptyString gas (Some errExecutionReverted)))
  else if decide (input = FromHex "0x05") then then_store (self c) gas 1 7 (fun gas => then_load (self c) gas 1 (fun gas _ => finished gas))
  else finished gas.

Definition demo_tx (to input : string) : RawTransaction := mkRaw "0x1" sender to input EmptyString.
Definition demo_account : option ReplayWitnessAccount := Some (mkWitnessAccount "0x0" "0x1" EmptyString "0x00" (Some ∅)).
Definition demo_witness : ReplayBlockWitness := {[contract1 := demo_account; contract2 := demo_account]}.
Definition empty_db : Database := mkDatabase ∅ ∅ ∅.

#[export] Instance empty_CodeDB : CodeDB toy_keccak empty_db.
Proof. split; try (intros a d H; cbn in H; by rewrite lookup_empty in H); [|done]. intros x. apply BytesToHash_full, length_BytesToHash. Qed.

Lemma framed_demo_run ctx c input : framed (demo_run ctx c input).
Proof.
  unfold demo_run, then_store, then_load, finished.
  repeat case_decide; framing; try apply framed_opSstore; try apply framed_opSload.
Qed.

Definition demo_New (l : list RawTransaction) : outcome LevmSpecFallback := NewLevmSpecFallback toy_keccak elements empty_db l (Some demo_witness) 1.
Definition demo_block : list RawTransaction := [demo_tx contract1 "0x01"; demo_tx contract1 "0x02"].
Definition demo_calls : list call := [CallPre 0 0; CallRe 1 0 None; CallPre 7 0].
Definition demo_effect := effect toy_keccak (abs toy_keccak empty_db NewWithTrie) (injectWitnessIntoStateDB elements (Some demo_witness)).
Definition demo_state : spec_state := match demo_effect with Ret (T, _) => T | _ => abs toy_keccak empty_db NewWithTrie end.
Definition demo_answer (sdb : option StateDB) : outcome (list reply_of_call) :=
  spec_calls toy_keccak demo_run elements elements (fun _ => 0%Z) (mkFallback sdb demo_block 1) demo_state demo_calls.

Lemma demo_effect_ret : demo_effect = Ret (demo_state, tt).
Proof. vm_compute. reflexivity. Qed.

Lemma demo_answer_ret sdb : exists rs, demo_answer sdb = Ret rs /\ length rs = 3.
Proof.
  assert (match demo_answer sdb with Ret rs => length rs | _ => 0 end = 3) as H by (vm_compute; reflexivity).
  destruct (demo_answer sdb) as [rs| |]; [by exists rs|done..].
Qed.

Lemma speculation_isolated_witness :
  exists f f' rs, demo_New demo_block = Ret f /\
    call_all toy_keccak demo_run elements elements (fun _ => 0%Z) empty_db f demo_calls = Ret (f', rs) /\ length rs = 3.
Proof.
  pose proof (speculation_isolated toy_keccak demo_run elements elements (fun _ => 0%Z) empty_db demo_block (Some demo_witness) 1 demo_calls _ framed_demo_run) as H.
  fold demo_effect in H. rewrite demo_effect_ret in H. destruct H as (sdb & Hf & H). cbv zeta in H. fold (demo_answer (Some sdb)) in H.
  destruct (demo_answer_ret (Some sdb)) as (rs & Hs & Hn). rewrite Hs in H. destruct H as (f' & H).
  exists (mkFallback (Some sdb) demo_block 1), f', rs. split; [exact Hf|]. split; [exact H|exact Hn].
Defined.
