(* ===== verification/Overlay.v ===== *)
(** * Reports and overlays

    A re-execution reports keys, values and differences; the schedulers merge
    the values into an overlay, and the next re-execution applies it to the
    witness.  This file shows what a report says of the execution it describes,
    what applying an overlay does to the state, and where the protocol loses or
    invents writes: storage of called contracts, writes of reverted calls, and
    slots that the overlay clears. *)
From stdpp Require Import base gmap sets list strings.
From Stdlib Require Import ZArith Lia.
From S2P Require Import Prelude RWSet GoText StateDB StateSpec HexKeys Execution ReplayAdapter Levm SpecFallback.

Set Default Goal Selector "!".
Local Open Scope string_scope.
Local Open Scope list_scope.
Local Notation len := String.length.

(** ** Collecting loops *)
Definition collect {X V} (g : X -> option (string * V)) (m : gmap string V) (l : list X) : gmap string V :=
  foldl (fun m x => match g x with Some (k, v) => <[k := v]> m | None => m end) m l.

Lemma collect_lookup {V} (h : string -> V) l : forall m key,
  collect (fun x => Some (x, h x)) m l !! key = if decide (key ∈ l) then Some (h key) else m !! key.
Proof.
  unfold collect. induction l as [|x l IH]; intros m key; cbn [foldl].
  - by rewrite decide_False by apply not_elem_of_nil.
  - rewrite IH. destruct (decide (key ∈ l)) as [Hl|Hl]; [by rewrite decide_True by (by right)|].
    destruct (decide (key = x)) as [->|Hne].
    + rewrite decide_True by left. apply lookup_insert_eq.
    + rewrite decide_False by (rewrite elem_of_cons; naive_solver). by apply lookup_insert_ne.
Qed.

Lemma ecollect_spec keccak256 {X V} T lg (f : X -> eprog (option (string * V))) g l : forall m,
  (forall x, x ∈ l -> espec keccak256 T lg (f x) = Ret (T, lg, g x)) ->
  espec keccak256 T lg (ecollect f m l) = Ret (T, lg, collect g m l).
Proof.
  induction l as [|x l IH]; intros m Hf; [done|]. cbn [ecollect]. rewrite espec_bind, Hf by left. rewrite bind_ret. apply IH. intros y Hy. apply Hf. by right.
Qed.

(** ** Differences *)
Lemma write_delta_range readBig writeBig : (0 <= readBig < two256)%Z -> (0 <= writeBig < two256)%Z ->
  (- two255 <= write_delta readBig writeBig < two255)%Z /\ ((readBig + write_delta readBig writeBig) `mod` two256 = writeBig)%Z.
Proof.
  intros Hr Hw. assert (two256 = 2 * two255)%Z as E by reflexivity. assert (0 < two255)%Z as Hp by reflexivity.
  unfold write_delta. generalize dependent two256. generalize dependent two255. intros h Hh t Hr Hw ->.
  assert (forall q, (readBig + (writeBig - readBig + q * (2 * h))) `mod` (2 * h) = writeBig)%Z as Hm.
  { intros q. replace (readBig + (writeBig - readBig + q * (2 * h)))%Z with (writeBig + q * (2 * h))%Z by lia. rewrite Z_mod_plus_full. by apply Z.mod_small. }
  destruct (decide (writeBig - readBig < 0)%Z); case_decide; split; try lia.
  - etrans; [|apply (Hm 0%Z)]. f_equal; lia.
  - etrans; [|apply (Hm 1%Z)]. f_equal; lia.
  - etrans; [|apply (Hm (-1)%Z)]. f_equal; lia.
  - etrans; [|apply (Hm 0%Z)]. f_equal; lia.
Qed.

Lemma TrimPrefix_Sprintf z : TrimPrefix0x (Sprintf_0x z) = hex_text z.
Proof.
  unfold TrimPrefix0x, Sprintf_0x. assert (HasPrefix ("0x" +:+ hex_text z) "0x" = true) as -> by (by destruct (hex_text z)). reflexivity.
Qed.

(** ** Reports *)
Section report.
Context (keccak256 : string -> Hash) (rng_hash : gset Hash -> list Hash) (Hrng : range_ok rng_hash).

Lemma length_HexToAddress s : len (HexToAddress s) = 20.
Proof.
  unfold HexToAddress, BytesToAddress. set (b := FromHex s). rewrite length_append, length_zeros, length_drop. lia.
Qed.

Lemma elem_of_keys m a key : key ∈ storageKeysToStrings keccak256 rng_hash m a <->
  exists k v, m ≫= (fun m => m !! k) = Some v /\ key = levmKey keccak256 a k.
Proof.
  unfold storageKeysToStrings. destruct m as [m|]; cbn [mbind option_bind].
  - rewrite list_elem_of_fmap. split.
    + intros (k & -> & Hk). apply (range_ok_elem rng_hash (dom m) k Hrng), elem_of_dom in Hk as [v Hv]. eauto.
    + intros (k & v & Hv & ->). exists k. split; [done|]. apply (range_ok_elem rng_hash (dom m) k Hrng). by apply elem_of_dom_2 in Hv.
  - split; [by intros ?%elem_of_nil|]. by intros (k & v & [=] & _).
Qed.

(** The value of a slot before an execution. *)
Definition slot_of (T : spec_state) (a : Address) (k : Hash) : Hash := slot_value (from_option a_state ∅ (live T a)) k.

Lemma captured_spec T lg m a k :
  espec keccak256 T lg (captured_or_state m a k) =
  Ret (T, lg, SetBytes (match m ≫= fun m => m !! k with Some v => v | None => slot_of T a k end)).
Proof.
  unfold captured_or_state, slot_of. destruct (m ≫= _) as [v|]; [done|]. rewrite espec_bind. unfold ask_bytes. cbn [espec spec_op]. unfold ask. rewrite bind_ret.
  by destruct (live T a) as [o|].
Qed.

(** The value a captured map holds for a key. *)
Definition captured_at (m : option (gmap Hash Hash)) (k : Hash) : option Hash := m ≫= fun m => m !! k.

(** The value a difference is taken from: what the contract loaded last, or the
    slot before the execution. *)
Definition read_before (T1 : spec_state) (r : replay_result) (to : Address) (k : Hash) : Hash :=
  match captured_at (rMap r) k with Some v => v | None => slot_of T1 to k end.

Definition key_slot (key : string) : Hash := from_option (fun p => p.1.2) zero_hash (parseLevmCanonicalKey key).
Definition reported_value (r : replay_result) (key : string) : string :=
  Sprintf_0x (SetBytes (default zero_hash (captured_at (wMap r) (key_slot key)))).
Definition reported_delta (T1 : spec_state) (r : replay_result) (to : Address) (key : string) : Z :=
  write_delta (SetBytes (read_before T1 r to (key_slot key))) (SetBytes (default zero_hash (captured_at (wMap r) (key_slot key)))).

Lemma write_key r to key : captured_ok r -> len to = 20 -> key ∈ storageKeysToStrings keccak256 rng_hash (wMap r) to ->
  exists k v, captured_at (wMap r) k = Some v /\ key = levmKey keccak256 to k /\ len k = 32 /\ len v = 32 /\
    parseLevmCanonicalKey key = Some ("slot", to, k, EmptyString) /\ key_slot key = k.
Proof.
  intros [_ Hw] Hto (k & v & Hk & ->)%elem_of_keys. unfold captured_at. destruct (wMap r) as [m|]; [|done]. cbn in Hw, Hk. destruct Hw as [H1 H2].
  pose proof (parse_levmKey keccak256 to k Hto (H1 _ _ Hk)) as Hp. exists k, v. split; [done|]. split; [done|]. split; [by eapply H1|]. split; [by eapply H2|].
  split; [done|]. unfold key_slot. by rewrite Hp.
Qed.

Lemma write_value_spec T lg r to key : captured_ok r -> len to = 20 -> key ∈ storageKeysToStrings keccak256 rng_hash (wMap r) to ->
  espec keccak256 T lg (write_value (wMap r) key) = Ret (T, lg, Some (key, reported_value r key)).
Proof.
  intros Hr Hto Hkey. destruct (write_key r to key Hr Hto Hkey) as (k & v & Hk & -> & _ & _ & Hp & Hs). unfold write_value, reported_value. rewrite Hp, Hs, Hk.
  rewrite espec_bind, captured_spec, bind_ret. unfold captured_at in Hk. rewrite Hk. done.
Qed.

Lemma report_delta_spec T1 lg r to wv key : captured_ok r -> len to = 20 -> key ∈ storageKeysToStrings keccak256 rng_hash (wMap r) to ->
  wv !! key = Some (reported_value r key) ->
  espec keccak256 T1 lg (write_delta_of (rMap r) wv key) = Ret (T1, lg, Some (key, reported_delta T1 r to key)).
Proof.
  intros Hr Hto Hkey Hwv. destruct (write_key r to key Hr Hto Hkey) as (k & v & Hk & -> & _ & _ & Hp & Hs). unfold write_delta_of, reported_delta. rewrite Hp, Hwv.
  cbn [default]. unfold reported_value. cbn [from_option id]. rewrite Hs, Hk. cbn [default from_option id]. rewrite TrimPrefix_Sprintf, SetString16_text by apply SetBytes_nonneg.
  rewrite espec_bind, captured_spec, bind_ret. done.
Qed.

Lemma report_spec T1 T2 to r : captured_ok r -> len to = 20 ->
  exists wv wd, report keccak256 rng_hash T1 T2 (Some to) r =
    Ret (Some (mkResult (storageKeysToStrings keccak256 rng_hash (rMap r) to) (storageKeysToStrings keccak256 rng_hash (wMap r) to) wv, wd), replay_error r) /\
    (forall key, wv !! key = if decide (key ∈ storageKeysToStrings keccak256 rng_hash (wMap r) to) then Some (reported_value r key) else None) /\
    (forall key, wd !! key = if decide (key ∈ storageKeysToStrings keccak256 rng_hash (wMap r) to) then Some (reported_delta T1 r to key) else None).
Proof.
  intros Hr Hto. unfold report, answer, effect. cbn [contractAddr_of default from_option id]. set (keys := storageKeysToStrings keccak256 rng_hash (wMap r) to).
  rewrite (ecollect_spec keccak256 T2 NewRWSetLogger _ (fun key => Some (key, reported_value r key)) keys) by (intros key Hk; by apply (write_value_spec _ _ _ to)).
  rewrite !bind_ret. set (wv := collect _ ∅ keys).
  assert (forall key, wv !! key = if decide (key ∈ keys) then Some (reported_value r key) else None) as Hwv by (intros key; unfold wv; by rewrite collect_lookup, lookup_empty).
  rewrite (ecollect_spec keccak256 T1 NewRWSetLogger _ (fun key => Some (key, reported_delta T1 r to key)) keys).
  2: { intros key Hk. apply (report_delta_spec _ _ _ to); [done|done|done|]. by rewrite Hwv, decide_True. }
  rewrite !bind_ret. do 2 eexists. split; [done|]. split; [done|]. intros key. by rewrite collect_lookup, lookup_empty.
Qed.
End report.

(** The transaction of a call to a contract. *)
Lemma build_to undefined_big tx from to ethTx : buildEthTxFromRaw undefined_big tx = (from, Some to, ethTx) -> len to = 20.
Proof. unfold buildEthTxFromRaw. case_decide; [done|]. intros [= _ <- _]. apply length_HexToAddress. Qed.

Lemma replay_captured keccak256 run b now from tx T T' r : effect keccak256 T (replay keccak256 run b now from tx) = Ret (T', r) -> captured_ok r.
Proof.
  unfold effect. destruct (espec keccak256 T NewRWSetLogger (replay keccak256 run b now from tx)) as [[[T1 l] x]| |] eqn:E; [|done..]. intros [= _ <-].
  eapply (epost_sound keccak256 captured_ok); [|apply logger_ok_new|exact E]. apply epost_bind. apply (ReplayTransaction_captured keccak256 run).
Qed.

(** C15: when overlay and transaction run to their end, [ReExecute] returns a
    report: the read and write keys are the slots the called contract loaded and
    stored; a value is reported for exactly the write keys, the value of the
    last store, and reading it back gives the stored word; the difference of a
    slot takes the value last loaded, or the value before the execution, to the
    stored one modulo 2^256 and is a signed 256-bit number. *)
Theorem reexecute_reports keccak256 run rng rng_hash undefined_big T b now overlay tx from to ethTx T1 u T2 r :
  range_ok rng_hash -> buildEthTxFromRaw undefined_big tx = (from, Some to, ethTx) ->
  effect keccak256 T (match overlay with Some o => applyStateOverride rng o | None => mret tt end) = Ret (T1, u) ->
  effect keccak256 T1 (replay keccak256 run b now from ethTx) = Ret (T2, r) ->
  exists res delta, spec_ReExecute keccak256 run rng rng_hash undefined_big T b now overlay tx = Ret (Some (res, delta), replay_error r) /\
    (forall key, key ∈ RealReadKeys res <-> exists k v, captured_at (rMap r) k = Some v /\ key = levmKey keccak256 to k) /\
    (forall key, key ∈ RealWriteKeys res <-> exists k v, captured_at (wMap r) k = Some v /\ key = levmKey keccak256 to k) /\
    (forall key, key ∈ RealWriteKeys res <-> is_Some (WriteValues res !! key)) /\
    (forall k v, captured_at (wMap r) k = Some v -> exists w d,
       WriteValues res !! levmKey keccak256 to k = Some w /\ HexToHash w = v /\ delta !! levmKey keccak256 to k = Some d /\
       (len (read_before T1 r to k) = 32 -> (- two255 <= d < two255)%Z /\ ((SetBytes (read_before T1 r to k) + d) `mod` two256 = SetBytes v)%Z)).
Proof.
  intros Hrng Hb HT1 Hr. pose proof (build_to _ _ _ _ _ Hb) as Hto. pose proof (replay_captured _ _ _ _ _ _ _ _ _ Hr) as Hc.
  destruct (report_spec keccak256 rng_hash Hrng T1 T2 to r Hc Hto) as (wv & wd & Hrep & Hwv & Hwd).
  eexists _, _. split; [unfold spec_ReExecute; rewrite Hb, HT1, bind_ret, Hr, bind_ret; exact Hrep|]. cbn [RealReadKeys RealWriteKeys WriteValues].
  split; [intros key; by apply elem_of_keys|]. split; [intros key; by apply elem_of_keys|]. split.
  { intros key. rewrite Hwv. case_decide; split; try done. }
  intros k v Hk. assert (levmKey keccak256 to k ∈ storageKeysToStrings keccak256 rng_hash (wMap r) to) as Hin by (apply elem_of_keys; eauto).
  destruct (write_key keccak256 rng_hash Hrng r to _ Hc Hto Hin) as (k' & v' & Hk' & Heq & Hlk & Hlv & Hp & Hs).
  assert (key_slot (levmKey keccak256 to k) = k) as Hks.
  { unfold key_slot. destruct Hc as [_ Hw]. unfold captured_at in Hk. destruct (wMap r) as [m|]; [|done]. cbn in Hk, Hw. rewrite parse_levmKey; [done|done|by eapply (proj1 Hw)]. }
  rewrite Hks in Hs. subst k'. rewrite Hk in Hk'. injection Hk' as <-.
  exists (Sprintf_0x (SetBytes v)), (write_delta (SetBytes (read_before T1 r to k)) (SetBytes v)).
  rewrite Hwv, Hwd, !decide_True by done. unfold reported_value, reported_delta. rewrite Hks, Hk. split; [done|]. split; [by apply value_roundtrip|]. split; [done|].
  intros Hlen. apply write_delta_range; apply SetBytes_word; lia.
Qed.

(** ** Applying an overlay *)
Definition canonical (o : gmap string string) (keccak256 : string -> Hash) : Prop :=
  forall key, is_Some (o !! key) -> exists a k, len a = 20 /\ len k = 32 /\ key = levmKey keccak256 a k.

Lemma levmKey_inj keccak256 a k a' k' : len a = 20 -> len k = 32 -> len a' = 20 -> len k' = 32 ->
  levmKey keccak256 a k = levmKey keccak256 a' k' -> a = a' /\ k = k'.
Proof. intros. assert (Some ("slot", a, k, EmptyString) = Some ("slot", a', k', EmptyString)) as [=]; [|done]. by rewrite <- !(parse_levmKey keccak256) by done; f_equal. Qed.

(** [T1] is [T] with the slots of [f] replaced: accounts keep everything else,
    and an account that was missing is a fresh one with those slots. *)
Record overlaid (keccak256 : string -> Hash) (T T1 : spec_state) (f : Address -> Hash -> option Hash) : Prop := {
  overlaid_slot : forall a k, slot_of T1 a k = default (slot_of T a k) (f a k);
  overlaid_live : forall a x, live T a = Some x -> exists st, live T1 a = Some (set_state x st);
  overlaid_dead : forall a, live T a = None -> live T1 a = None \/ exists st, live T1 a = Some (set_state (fresh_account keccak256) st);
  overlaid_rest : T1 = set_accounts T (accounts T1) }.

Section overlay.
Context (keccak256 : string -> Hash).

Lemma live_insert T a x b : live (set_accounts T (<[a := x]> (accounts T))) b =
  if decide (a = b) then if a_deleted x then None else Some x else live T b.
Proof.
  unfold live. cbn. destruct (decide (a = b)) as [->|Hne]; [by rewrite lookup_insert_eq|by rewrite lookup_insert_ne].
Qed.

Lemma live_not_deleted T a x : live T a = Some x -> a_deleted x = false.
Proof. unfold live. destruct (accounts T !! a) as [y|]; [|done]. destruct (a_deleted y) eqn:E; [done|]. by intros [= <-]. Qed.

Definition put_state (T : spec_state) (a : Address) (k v : Hash) : spec_state :=
  let x := default (fresh_account keccak256) (live T a) in
  set_accounts T (<[a := set_state x (put_slot (a_state x) k v)]> (accounts T)).

Lemma put_state_live T a k v b : live (put_state T a k v) b =
  if decide (a = b) then Some (set_state (default (fresh_account keccak256) (live T a)) (put_slot (from_option a_state ∅ (live T a)) k v)) else live T b.
Proof.
  unfold put_state. rewrite live_insert. case_decide; [|done]. destruct (live T a) as [x|] eqn:E; cbn [default from_option id]; [|done].
  assert (a_deleted (set_state x (put_slot (a_state x) k v)) = a_deleted x) as -> by done. by rewrite (live_not_deleted T a x E).
Qed.

Lemma put_state_slot T a k v b i : slot_of (put_state T a k v) b i = if decide (a = b /\ k = i) then v else slot_of T b i.
Proof.
  unfold slot_of. rewrite put_state_live. destruct (decide (a = b)) as [->|Hne].
  - cbn [from_option]. assert (forall x st, a_state (set_state x st) = st) as -> by done. rewrite put_slot_value.
    destruct (decide (k = i)) as [->|]; [by rewrite decide_True|]. by rewrite decide_False by naive_solver.
  - by rewrite decide_False by naive_solver.
Qed.

Lemma overlaid_put T T1 f a k v : overlaid keccak256 T T1 f ->
  overlaid keccak256 T (put_state T1 a k v) (fun b i => if decide (a = b /\ k = i) then Some v else f b i).
Proof.
  intros [H1 H2 H3 H4]. split.
  - intros b i. rewrite put_state_slot. case_decide; [done|]. apply H1.
  - intros b x Hx. destruct (H2 b x Hx) as [st Hst]. rewrite put_state_live. case_decide as Hd; [subst; rewrite Hst; cbn; eauto|eauto].
  - intros b Hb. rewrite put_state_live. case_decide as Hd; [subst|auto]. right. destruct (H3 b Hb) as [->|[st ->]]; cbn; eauto.
  - rewrite H4. done.
Qed.

Definition overlay_slot (o : gmap string string) (l : list string) (a : Address) (k : Hash) : option Hash :=
  if decide (levmKey keccak256 a k ∈ l /\ len a = 20 /\ len k = 32) then Some (HexToHash (default EmptyString (o !! levmKey keccak256 a k))) else None.

Lemma apply_spec o lg T : forall l T0 f0, (forall key, key ∈ l -> exists a k, len a = 20 /\ len k = 32 /\ key = levmKey keccak256 a k) -> overlaid keccak256 T T0 f0 ->
  exists T1, espec keccak256 T0 lg (efor (fun key => override_entry key (default EmptyString (o !! key))) l) = Ret (T1, lg, tt) /\
    overlaid keccak256 T T1 (fun a k => match overlay_slot o l a k with Some v => Some v | None => f0 a k end).
Proof.
  induction l as [|key l IH]; intros T0 f0 Hl H0; cbn [efor].
  - exists T0. split; [done|]. destruct H0 as [H1 H2 H3 H4]. by split.
  - destruct (Hl key ltac:(left)) as (a & k & Ha & Hk & ->). rewrite espec_bind. unfold override_entry. rewrite (parse_levmKey keccak256 a k Ha Hk), decide_False by done.
    unfold act. cbn [espec spec_op]. unfold change. rewrite bind_ret. cbn [espec]. rewrite bind_ret. fold (put_state T0 a k (HexToHash (default EmptyString (o !! levmKey keccak256 a k)))).
    destruct (IH _ _ ltac:(intros key Hkey; apply Hl; by right) (overlaid_put T T0 f0 a k (HexToHash (default EmptyString (o !! levmKey keccak256 a k))) H0)) as (T1 & He & H1).
    exists T1. split; [done|]. destruct H1 as [H1 H2 H3 H4]. split; auto. intros b i. rewrite H1. f_equal. unfold overlay_slot.
    destruct (decide (a = b /\ k = i)) as [[-> ->]|Hne].
    + rewrite (decide_True (P := levmKey keccak256 b i ∈ levmKey keccak256 b i :: l /\ _)) by (split; [left|done]). by case_decide.
    + destruct (decide (levmKey keccak256 b i ∈ l /\ len b = 20 /\ len i = 32)) as [(H5 & H6)|H5].
      * rewrite decide_True; [done|]. split; [by right|done].
      * rewrite decide_False; [done|]. rewrite elem_of_cons. intros [[Heq|?] [? ?]]; [|tauto]. apply Hne.
        by destruct (levmKey_inj keccak256 b i a k) as [-> ->].
Qed.
End overlay.

(** C16: applying an overlay of canonical slot keys returns, whatever the order
    in which the map is visited, and gives every slot of the overlay its value
    and every other slot, balance, nonce, code and committed value what it was;
    a contract that did not exist becomes a fresh account with those slots. *)
Theorem overlay_applied keccak256 rng o T :
  range_ok rng -> canonical o keccak256 ->
  exists T1, effect keccak256 T (applyStateOverride rng o) = Ret (T1, tt) /\
    overlaid keccak256 T T1 (fun a k => if decide (len a = 20 /\ len k = 32) then HexToHash <$> o !! levmKey keccak256 a k else None).
Proof.
  intros Hrng Hc. destruct (apply_spec keccak256 o NewRWSetLogger T (rng (dom o)) T (fun _ _ => None)) as (T1 & He & [H1 H2 H3 H4]).
  - intros key Hk. apply Hc. by apply (range_ok_elem rng (dom o) key Hrng), elem_of_dom in Hk.
  - split; [done| |auto|by destruct T]. intros a x Hx. exists (a_state x). rewrite Hx. by destruct x.
  - exists T1. split; [unfold effect, applyStateOverride; by rewrite He|]. split; auto. intros a k. rewrite H1. unfold overlay_slot.
    destruct (decide (len a = 20 /\ len k = 32)) as [[Ha Hk]|Hn]; [|rewrite decide_False; [done|tauto]].
    destruct (o !! levmKey keccak256 a k) as [v|] eqn:E.
    + rewrite decide_True; [done|]. split; [|done]. apply (range_ok_elem rng (dom o) _ Hrng). by apply elem_of_dom_2 in E.
    + rewrite decide_False; [done|]. intros [Hin _]. apply (range_ok_elem rng (dom o) _ Hrng), elem_of_dom in Hin as [? ?]. congruence.
Qed.

(** ** Examples *)
Definition c1 : Address := HexToAddress contract1.
Definition c2 : Address := HexToAddress contract2.
Definition slot_key_of (c : Address) (n : Z) : string := levmKey toy_keccak c (BigToHash n).

Definition store_tx : RawTransaction := demo_tx contract1 "0x01".
Definition store_eth : txdata := (buildEthTxFromRaw (fun _ => 0%Z) store_tx).2.
Definition store_run := effect toy_keccak demo_state (replay toy_keccak demo_run 1 0 (HexToAddress sender) store_eth).
Definition store_result : spec_state * replay_result :=
  match store_run with Ret p => p | _ => (demo_state, mkReplay None None EmptyString None) end.

Lemma store_run_ret : store_run = Ret (store_result.1, store_result.2).
Proof. vm_compute. reflexivity. Qed.

Lemma reexecute_reports_witness :
  exists res delta w, spec_ReExecute toy_keccak demo_run elements elements (fun _ => 0%Z) demo_state 1 0 None store_tx = Ret (Some (res, delta), None) /\
    WriteValues res !! slot_key_of c1 1 = Some w /\ HexToHash w = BigToHash 7.
Proof.
  destruct (reexecute_reports toy_keccak demo_run elements elements (fun _ => 0%Z) demo_state 1 0 None store_tx (HexToAddress sender) c1 store_eth
    demo_state tt store_result.1 store_result.2 range_ok_elements eq_refl eq_refl store_run_ret) as (res & delta & Hs & _ & _ & _ & Hv).
  destruct (Hv (BigToHash 1) (BigToHash 7)) as (w & d & Hw & Hx & _); [vm_compute; reflexivity|].
  exists res, delta, w. split; [|split; [exact Hw|exact Hx]]. rewrite Hs. vm_compute. reflexivity.
Defined.

Definition one_slot : gmap string string := {[slot_key_of c1 1 := "0x9"]}.

Lemma overlay_applied_witness :
  canonical one_slot toy_keccak /\
  exists T1, effect toy_keccak demo_state (applyStateOverride elements one_slot) = Ret (T1, tt) /\ slot_of T1 c1 (BigToHash 1) = BigToHash 9.
Proof.
  assert (canonical one_slot toy_keccak) as Hc.
  { intros key [v Hv]. unfold one_slot in Hv. apply lookup_singleton_Some in Hv as [<- _]. exists c1, (BigToHash 1).
    split; [apply length_HexToAddress|]. split; [apply length_BigToHash|reflexivity]. }
  split; [exact Hc|]. destruct (overlay_applied toy_keccak elements one_slot demo_state range_ok_elements Hc) as (T1 & He & Ho).
  exists T1. split; [exact He|]. rewrite (overlaid_slot _ _ _ _ Ho). vm_compute. reflexivity.
Defined.

(** ** What the protocol gets wrong *)
Definition demo_ReExecute (db : Database) := ReExecute toy_keccak demo_run elements elements (fun _ => 0%Z) db.
Definition demo_ReExecuteCommit (db : Database) := ReExecuteCommit toy_keccak demo_run elements elements (fun _ => 0%Z) db.

(** The value reported for a key, when the call returns without error. *)
Definition value_reported {F} (o : outcome (F * (option result_and_delta * option fallback_error))) (key : string) : option string :=
  match o with Ret (_, (Some (r, _), None)) => WriteValues r !! key | _ => None end.
Definition delta_reported {F} (o : outcome (F * (option result_and_delta * option fallback_error))) (key : string) : option Z :=
  match o with Ret (_, (Some (_, d), None)) => d !! key | _ => None end.
Definition values_of {F} (o : outcome (F * (option result_and_delta * option fallback_error))) : gmap string string :=
  match o with Ret (_, (Some (r, _), _)) => WriteValues r | _ => ∅ end.

(** A write to the storage of a contract that is called by the called
    contract is in no report.  After a transaction whose inner call stores 7,
    the second one copies 7 when both are executed one after the other on one
    database, and 0 when it is re-executed on the values the first one
    reported. *)
Theorem inner_write_lost :
  exists f, demo_New [demo_tx contract1 "0x03"; demo_tx contract2 "0x02"] = Ret f /\
    values_of (demo_ReExecute empty_db f 1 0 0 (Some ∅)) = ∅ /\
    value_reported (demo_ReExecute empty_db f 1 1 0 (Some (values_of (demo_ReExecute empty_db f 1 0 0 (Some ∅))))) (slot_key_of c2 2) = Some "0x0" /\
    value_reported (demo_ReExecuteCommit empty_db f 1 0 0 (Some ∅) ≫= fun '(f, _) => demo_ReExecuteCommit empty_db f 1 1 0 (Some ∅)) (slot_key_of c2 2) = Some "0x7".
Proof. eexists. split; [vm_compute; reflexivity|]. split; [vm_compute; reflexivity|]. split; vm_compute; reflexivity. Qed.

(** The writes of a call that reverts are reported as if they had happened,
    without an error, although the slot keeps its value on the database. *)
Theorem reverted_write_reported :
  exists f, demo_New [demo_tx contract1 "0x04"; demo_tx contract1 "0x02"] = Ret f /\
    value_reported (demo_ReExecute empty_db f 1 0 0 None) (slot_key_of c1 1) = Some "0x7" /\
    value_reported (demo_ReExecuteCommit empty_db f 1 0 0 None ≫= fun '(f, _) => demo_ReExecuteCommit empty_db f 1 1 0 None) (slot_key_of c1 2) = Some "0x0".
Proof. eexists. split; [vm_compute; reflexivity|]. split; vm_compute; reflexivity. Qed.

(** A slot loaded after the transaction's own store: the difference is 0. *)
Theorem delta_of_reread_slot :
  exists f, demo_New [demo_tx contract1 "0x05"] = Ret f /\
    value_reported (demo_ReExecute empty_db f 1 0 0 None) (slot_key_of c1 1) = Some "0x7" /\
    delta_reported (demo_ReExecute empty_db f 1 0 0 None) (slot_key_of c1 1) = Some 0%Z.
Proof. eexists. split; [vm_compute; reflexivity|]. split; vm_compute; reflexivity. Qed.

(** The first contract with 5 committed in slot 1. *)
Definition trie_db : Database :=
  mkDatabase {[c1 := mkAccount 1 0 "root" (toy_keccak EmptyString)]} {["root" := {[BigToHash 1 := BigToHash 5]}]} ∅.

(** On a worker that reads the witness from a trie, re-executing a store to
    a slot the overlay clears panics: the metering takes back a refund that the
    overlay never gave.  Without the overlay the store runs. *)
Theorem overlay_recreate_panics :
  let f := mkFallback (Some NewWithTrie) [demo_tx contract1 "0x01"] 1 in
  demo_ReExecute trie_db f 1 0 0 (Some {[slot_key_of c1 1 := "0x0"]}) = Panics /\
  value_reported (demo_ReExecute trie_db f 1 0 0 None) (slot_key_of c1 1) = Some "0x7".
Proof. split; vm_compute; reflexivity. Qed.
