(* ===== verification/Metering.v ===== *)
(** * The refund counter

    [gasSStoreEIP2200] gives a refund when a committed slot is cleared and takes
    it back when the slot is set again; [StateDB.SubRefund] panics when there is
    not enough to take back.  The counter covers the cleared slots as long as
    every write is a metered store, so a transaction that starts on a committed
    state never panics.  [Overlay.overlay_recreate_panics] is what happens when
    slots are cleared past the metering. *)
From stdpp Require Import base gmap sets list strings.
From Stdlib Require Import ZArith Lia.
From S2P Require Import Prelude GoText StateDB StateSpec Levm HexKeys SpecFallback Overlay.

Set Default Goal Selector "!".
Local Open Scope list_scope.
Local Notation len := String.length.

(** ** Cleared slots *)
Definition cleared_slots (x : account) : gset Hash := filter (fun k => slot_value (a_state x) k = zero_hash) (dom (nonzero (a_committed x))).
Definition cleared (x : account) : nat := size (cleared_slots x).
Definition total (m : gmap Address account) : nat := sum_list_with (fun p => cleared p.2) (map_to_list m).

(** The counter can pay for every cleared slot. *)
Definition covered (T : spec_state) : Prop := (15000 * Z.of_nat (total (accounts T)) <= a_refund T)%Z.

(** Operations that neither store nor touch the counter. *)
Definition quiet (o : op) : bool :=
  plain o && match o with OSetState _ _ _ | OAddRefund _ | OSubRefund _ => false | _ => true end.

(** Programs whose stores are metered, with at most [n] of them and of other
    refunds on every path; a store that fails ends its frame. *)
Inductive metered : nat -> eprog frame_result -> Prop :=
| metered_done n r : metered n (EDone r)
| metered_op n o k : quiet o = true -> (forall r, metered n (k r)) -> metered n (EDo o k)
| metered_refund n g k : (0 <= g <= 24000)%Z -> (forall r, metered n (k r)) -> metered (S n) (EDo (OAddRefund g) k)
| metered_capture n c e k : metered n k -> metered n (ECapture c e k)
| metered_peek n k : (forall l, metered n (k l)) -> metered n (EPeek k)
| metered_frame n1 n2 body k : metered n1 body -> (forall r, metered n2 (k r)) -> metered (n1 + n2) (EFrame body k)
| metered_store n c gas loc val k :
    (forall g, metered n (k (inl g))) -> (forall e, exists r, k (inr e) = EDone r /\ fr_err r <> None) ->
    metered (S n) (opSstore c gas loc val ≫= k).

(** ** Sums over accounts *)
Lemma cleared_delete m a x : m !! a = Some x -> total m = cleared x + total (delete a m).
Proof.
  intros H. unfold total. rewrite <- (insert_delete_id m a x H) at 1. by rewrite map_to_list_insert by apply lookup_delete_eq.
Qed.

Definition cleared_at (m : gmap Address account) (a : Address) : nat := from_option cleared 0 (m !! a).

Lemma cleared_insert m a x : total (<[a := x]> m) + cleared_at m a = total m + cleared x.
Proof.
  rewrite (cleared_delete (<[a := x]> m) a x) by apply lookup_insert_eq. rewrite delete_insert_eq. unfold cleared_at.
  destruct (m !! a) as [y|] eqn:E; cbn; [rewrite (cleared_delete m a y E); lia|]. rewrite delete_id by done. lia.
Qed.

Lemma live_accounts T a x : live T a = Some x -> accounts T !! a = Some x.
Proof. unfold live. destruct (accounts T !! a) as [y|]; [|done]. by destruct (a_deleted y). Qed.

Section metering.
Context (keccak256 : string -> Hash).

Lemma cleared_fresh st : cleared (set_state (fresh_account keccak256) st) = 0.
Proof.
  unfold cleared. enough (cleared_slots (set_state (fresh_account keccak256) st) = ∅) as -> by apply size_empty.
  unfold cleared_slots. cbn [a_committed set_state fresh_account]. unfold nonzero. rewrite map_filter_empty. set_solver.
Qed.

(** Replacing an account by one that is no more cleared. *)
Lemma total_change T a y : cleared y = cleared (default (fresh_account keccak256) (live T a)) -> total (<[a := y]> (accounts T)) <= total (accounts T).
Proof.
  intros Hy. pose proof (cleared_insert (accounts T) a y) as H. rewrite Hy in H.
  destruct (live T a) as [x|] eqn:E; cbn [default from_option id] in *.
  - unfold cleared_at in H. rewrite (live_accounts _ _ _ E) in H. cbn in H. lia.
  - pose proof (cleared_fresh ∅). change (set_state (fresh_account keccak256) ∅) with (fresh_account keccak256) in *. lia.
Qed.

Lemma quiet_spec T o : quiet o = true -> exists T' r, spec_op keccak256 T o = Ret (T', r) /\ a_refund T' = a_refund T /\ total (accounts T') <= total (accounts T).
Proof.
  intros Hq. destruct o; try discriminate Hq; cbn [spec_op]; unfold change, ask; try (do 2 eexists; split; [reflexivity|]; split; [reflexivity|]; cbn; first [apply total_change; reflexivity|lia]).
  - destruct (live T a) as [x|] eqn:E; do 2 eexists; (split; [reflexivity|]); (split; [reflexivity|]); [cbn|lia].
    pose proof (cleared_insert (accounts T) a (set_balance (set_suicided x true) 0)) as H. unfold cleared_at in H. rewrite (live_accounts _ _ _ E) in H. cbn in H.
    change (cleared (set_balance (set_suicided x true) 0)) with (cleared x) in H. lia.
  - do 2 eexists; (split; [reflexivity|]); (split; [reflexivity|]); cbn.
    pose proof (cleared_insert (accounts T) a (set_balance (fresh_account keccak256) (match accounts T !! a with Some o => a_balance o | None => 0%Z end))) as H.
    pose proof (cleared_fresh ∅) as H0. change (cleared (set_state (fresh_account keccak256) ∅)) with (cleared (set_balance (fresh_account keccak256) (match accounts T !! a with Some o => a_balance o | None => 0%Z end))) in H0. lia.
  - destruct (a_preimages T !! h); do 2 eexists; (split; [reflexivity|]); (split; [reflexivity|]); cbn; lia.
Qed.

(** How a store changes the number of cleared slots. *)
Definition clearing (original current value : Hash) : Z :=
  if decide (original = zero_hash) then 0
  else if decide (value = zero_hash) then (if decide (current = zero_hash) then 0 else 1)
  else if decide (current = zero_hash) then -1 else 0.

Lemma elem_of_cleared x k : k ∈ cleared_slots x <-> slot_value (a_committed x) k <> zero_hash /\ slot_value (a_state x) k = zero_hash.
Proof.
  unfold cleared_slots. rewrite elem_of_filter, elem_of_dom, nonzero_lookup. unfold slot_value at 2.
  destruct (a_committed x !! k) as [v|]; cbn; [case_decide|]; split; naive_solver.
Qed.

Lemma cleared_put x k v : let y := set_state x (put_slot (a_state x) k v) in
  Z.of_nat (cleared y) = (Z.of_nat (cleared x) + clearing (slot_value (a_committed x) k) (slot_value (a_state x) k) v)%Z.
Proof.
  intros y. assert (forall i, i ∈ cleared_slots y <-> slot_value (a_committed x) i <> zero_hash /\ (if decide (k = i) then v else slot_value (a_state x) i) = zero_hash) as Hy.
  { intros i. rewrite elem_of_cleared. cbn. by rewrite put_slot_value. }
  pose proof (elem_of_cleared x) as Hx. unfold cleared, clearing.
  destruct (decide (slot_value (a_committed x) k = zero_hash)) as [H0|H0]; [|destruct (decide (v = zero_hash)) as [Hv|Hv]; destruct (decide (slot_value (a_state x) k = zero_hash)) as [Hc|Hc]].
  - assert (cleared_slots y = cleared_slots x) as ->; [|lia]. apply set_eq. intros i. rewrite Hy, Hx. case_decide; [subst; tauto|done].
  - assert (cleared_slots y = cleared_slots x) as ->; [|lia]. apply set_eq. intros i. rewrite Hy, Hx. case_decide; [subst; tauto|done].
  - assert (cleared_slots y = {[k]} ∪ cleared_slots x) as ->.
    { apply set_eq. intros i. rewrite elem_of_union, elem_of_singleton, Hy, Hx. case_decide; [subst; tauto|]. split; [auto|]. intros [->|?]; [done|done]. }
    rewrite size_union, size_singleton; [lia|]. rewrite disjoint_singleton_l, Hx. tauto.
  - assert (cleared_slots x = {[k]} ∪ cleared_slots y) as ->.
    { apply set_eq. intros i. rewrite elem_of_union, elem_of_singleton, Hy, Hx. case_decide; [subst; tauto|]. split; [auto|]. intros [->|?]; [done|done]. }
    rewrite size_union, size_singleton; [lia|]. rewrite disjoint_singleton_l, Hy, decide_True by done. tauto.
  - assert (cleared_slots y = cleared_slots x) as ->; [|lia]. apply set_eq. intros i. rewrite Hy, Hx. case_decide; [subst; tauto|done].
Qed.

Definition committed_of (T : spec_state) (a : Address) (k : Hash) : Hash := slot_value (from_option a_committed ∅ (live T a)) k.

Lemma total_put T c k v :
  (Z.of_nat (total (accounts (put_state keccak256 T c k v))) <= Z.of_nat (total (accounts T)) + clearing (committed_of T c k) (slot_of T c k) v)%Z.
Proof.
  unfold put_state, committed_of, slot_of. cbn [accounts set_accounts]. set (x := default (fresh_account keccak256) (live T c)).
  match goal with |- (Z.of_nat (total (<[_ := ?y]> _)) <= _)%Z => pose proof (cleared_insert (accounts T) c y : total (<[c := y]> (accounts T)) + _ = _) as H end.
  pose proof (cleared_put x k v) as Hp. cbn zeta in Hp.
  destruct (live T c) as [y|] eqn:E; subst x; cbn [default from_option id] in *.
  - unfold cleared_at in H. rewrite (live_accounts _ _ _ E) in H. cbn [from_option] in H. lia.
  - rewrite cleared_fresh in H. assert (slot_value ∅ k = zero_hash) as -> by done. unfold clearing. rewrite decide_True by done. lia.
Qed.

(** A slot that pays a refund back is one of the cleared ones. *)
Lemma cleared_paid T c k : committed_of T c k <> zero_hash -> slot_of T c k = zero_hash -> 1 <= total (accounts T).
Proof.
  unfold committed_of, slot_of. destruct (live T c) as [x|] eqn:E; cbn [from_option]; [|by unfold slot_value; rewrite lookup_empty]. intros H1 H2.
  rewrite (cleared_delete _ _ _ (live_accounts _ _ _ E)). assert (k ∈ cleared_slots x) as Hk by (by apply elem_of_cleared).
  enough (cleared x <> 0) by lia. unfold cleared. intros H%size_empty_inv. set_solver.
Qed.

Lemma ask_state_spec T lg c k {B} (f : string -> eprog B) :
  espec keccak256 T lg (x ← ask_bytes (OGetState c k); f x) = espec keccak256 T lg (f (slot_of T c k)).
Proof. unfold slot_of. cbn. unfold ask. by destruct (live T c). Qed.
Lemma ask_committed_spec T lg c k {B} (f : string -> eprog B) :
  espec keccak256 T lg (x ← ask_bytes (OGetCommittedState c k); f x) = espec keccak256 T lg (f (committed_of T c k)).
Proof. unfold committed_of. cbn. unfold ask. by destruct (live T c). Qed.

(** The metering of a store leaves enough for the slots cleared after it. *)
Lemma meter_spec T lg c gas x y : covered T -> (0 <= a_refund T /\ a_refund T + 24000 < 2^64)%Z -> (2300 < gas)%Z ->
  exists rf cost, espec keccak256 T lg (gasSStoreEIP2200 c gas x y) = Ret (set_refund T rf, lg, inl cost) /\
    (0 <= rf <= a_refund T + 24000)%Z /\
    (15000 * Z.of_nat (total (accounts (put_state keccak256 T c (BigToHash x) (BigToHash y)))) <= rf)%Z.
Proof.
  intros Hc Hb Hg. unfold covered in Hc. unfold gasSStoreEIP2200. rewrite bool_decide_false by lia. cbv zeta. rewrite ask_state_spec.
  generalize (BigToHash x) (BigToHash y). intros k v. pose proof (total_put T c k v) as Ht. pose proof (cleared_paid T c k) as Hpay.
  generalize dependent (total (accounts (put_state keccak256 T c k v))). intros W Ht.
  assert (set_refund T (a_refund T) = T) as HT by (by destruct T).
  assert (forall rf, (0 <= rf < 2^64)%Z -> wrap_uint64 rf = rf) as Hw by (intros; by apply wrap_uint64_id).
  unfold clearing in Ht. generalize dependent (slot_of T c k). intros cur Hpay Ht.
  destruct (decide (cur = v)) as [->|Hcv].
  { exists (a_refund T), 800%Z. rewrite HT. split; [done|]. split; [lia|]. repeat case_decide; first [lia|congruence]. }
  rewrite ask_committed_spec. generalize dependent (committed_of T c k). intros orig Hpay Ht.
  destruct (decide (orig = cur)) as [->|Hoc].
  { destruct (decide (cur = zero_hash)) as [Hz|Hz]; [exists (a_refund T), 20000%Z; rewrite HT; split; [done|]; split; [lia|]; repeat case_decide; first [lia|congruence]|].
    destruct (decide (v = zero_hash)) as [Hv|Hv].
    - exists (a_refund T + 15000)%Z, 5000%Z. cbn. rewrite Hw by lia. split; [done|]. split; [lia|]. repeat case_decide; first [lia|congruence].
    - exists (a_refund T), 5000%Z. rewrite HT. split; [done|]. split; [lia|]. repeat case_decide; first [lia|congruence]. }
  destruct (decide (orig = zero_hash)) as [Ho|Ho].
  { destruct (decide (orig = v)) as [Hov|Hov]; cbn.
    - exists (a_refund T + 19200)%Z, 800%Z. rewrite Hw by lia. split; [done|]. split; [lia|]. repeat case_decide; first [lia|congruence].
    - exists (a_refund T), 800%Z. rewrite HT. split; [done|]. split; [lia|]. repeat case_decide; first [lia|congruence]. }
  destruct (decide (cur = zero_hash)) as [Hz|Hz].
  { specialize (Hpay Ho Hz). assert (v <> zero_hash) as Hv by congruence. rewrite decide_False in Ht by done. cbn.
    rewrite bool_decide_false by lia. cbn. destruct (decide (orig = v)) as [Hov|Hov]; cbn; rewrite !Hw by lia.
    - exists (a_refund T - 15000 + 4200)%Z, 800%Z. split; [done|]. split; [lia|]. lia.
    - exists (a_refund T - 15000)%Z, 800%Z. split; [done|]. split; [lia|]. lia. }
  destruct (decide (v = zero_hash)) as [Hv|Hv]; (destruct (decide (orig = v)) as [Hov|Hov]; [congruence|] || destruct (decide (orig = v)) as [Hov|Hov]); cbn; rewrite ?Hw by lia.
  - exists (a_refund T + 15000)%Z, 800%Z. split; [done|]. split; [lia|]. lia.
  - exists (a_refund T + 4200)%Z, 800%Z. split; [done|]. split; [lia|]. lia.
  - exists (a_refund T), 800%Z. rewrite HT. split; [done|]. split; [lia|]. lia.
Qed.

(** A metered store succeeds with the counter covering the slots, or fails. *)
Lemma opSstore_spec T lg c gas loc val : covered T -> (0 <= a_refund T /\ a_refund T + 24000 < 2^64)%Z ->
  exists T' lg' r, espec keccak256 T lg (opSstore c gas loc val) = Ret (T', lg', r) /\
    match r with inl _ => covered T' /\ (0 <= a_refund T' <= a_refund T + 24000)%Z | inr _ => True end.
Proof.
  intros Hc Hb. unfold opSstore. rewrite espec_bind. destruct (decide (2300 < gas)%Z) as [Hg|Hg].
  - destruct (meter_spec T lg c gas loc val Hc Hb Hg) as (rf & cost & -> & Hrf & Hcov). rewrite bind_ret. case_bool_decide; [by do 3 eexists|].
    cbn [espec]. rewrite espec_bind. unfold act. cbn [espec spec_op]. unfold change. rewrite !bind_ret. cbn [espec]. rewrite ?bind_ret.
    do 3 eexists. split; [reflexivity|]. split; [exact Hcov|exact Hrf].
  - unfold gasSStoreEIP2200. rewrite bool_decide_true by lia. cbn [espec mret eprog_ret]. by do 3 eexists.
Qed.

Definition sound_end (T : spec_state) (n : nat) (T' : spec_state) (r : frame_result) : Prop :=
  fr_err r = None -> covered T' /\ (0 <= a_refund T' <= a_refund T + 24000 * Z.of_nat n)%Z.

Lemma metered_returns n p : metered n p -> forall T lg, covered T -> (0 <= a_refund T)%Z -> (a_refund T + 24000 * Z.of_nat n < 2^64)%Z ->
  exists T' lg' r, espec keccak256 T lg p = Ret (T', lg', r) /\ sound_end T n T' r.
Proof.
  unfold sound_end. induction 1 as [n r|n o k Hq Hk IH|n g k Hg Hk IH|n c e k Hk IH|n k Hk IH|n1 n2 body k Hb IHb Hk IHk|n c gas loc val k Hk IH Hfail]; intros T lg Hc H0 Hn.
  - do 3 eexists. split; [reflexivity|]. intros _. split; [done|lia].
  - cbn [espec]. destruct (quiet_spec T o Hq) as (T1 & r & -> & Hr & Ht). rewrite bind_ret. unfold covered in Hc.
    destruct (IH r T1 lg) as (T2 & lg2 & r2 & He & H2); [unfold covered; lia|lia|lia|]. exists T2, lg2, r2. split; [done|]. by rewrite <- Hr.
  - cbn [espec spec_op]. rewrite bind_ret, wrap_uint64_id by lia. unfold covered in Hc.
    destruct (IH RUnit (set_refund T (a_refund T + g)) lg) as (T2 & lg2 & r2 & He & H2); [unfold covered; cbn; lia|cbn; lia|cbn; lia|]. exists T2, lg2, r2. split; [done|].
    intros Hr. destruct (H2 Hr) as [? ?]. cbn in *. split; [done|lia].
  - cbn [espec]. by apply IH.
  - cbn [espec]. by apply IH.
  - cbn [espec]. destruct (IHb T lg Hc H0 ltac:(lia)) as (T1 & lg1 & r1 & -> & H1). rewrite bind_ret.
    destruct (fr_err r1) eqn:E1.
    + destruct (IHk r1 T lg1 Hc H0 ltac:(lia)) as (T2 & lg2 & r2 & -> & H2). exists T2, lg2, r2. split; [done|]. intros Hr. destruct (H2 Hr). split; [done|lia].
    + destruct (H1 eq_refl) as [Hc1 Hb1]. destruct (IHk r1 T1 lg1 Hc1 ltac:(lia) ltac:(lia)) as (T2 & lg2 & r2 & -> & H2). exists T2, lg2, r2. split; [done|].
      intros Hr. destruct (H2 Hr). split; [done|lia].
  - rewrite espec_bind. destruct (opSstore_spec T lg c gas loc val Hc ltac:(lia)) as (T1 & lg1 & r1 & -> & H1). rewrite bind_ret. destruct r1 as [g|e].
    + destruct H1 as [Hc1 Hb1]. destruct (IH g T1 lg1 Hc1 ltac:(lia) ltac:(lia)) as (T2 & lg2 & r2 & -> & H2). exists T2, lg2, r2. split; [done|].
      intros Hr. destruct (H2 Hr). split; [done|lia].
    + destruct (Hfail e) as (r & -> & Hr). do 3 eexists. split; [reflexivity|done].
Qed.

(** A committed state: every slot has its committed value. *)
Lemma total_zero m : (forall a x, m !! a = Some x -> cleared x = 0) -> total m = 0.
Proof.
  intros H. unfold total. apply sum_list_with_zero. intros [a x] Hp. apply (H a). by apply elem_of_map_to_list in Hp.
Qed.

Lemma new_covered db : covered (abs keccak256 db NewWithTrie).
Proof.
  unfold covered. rewrite total_zero; [cbn; lia|]. intros a x Hx. cbn in Hx. rewrite abs_lookup, lookup_empty in Hx.
  destruct (account_trie db !! a) as [d|]; [|done]. injection Hx as <-. unfold cleared.
  enough (cleared_slots (abs_object keccak256 db (newObject a d)) = ∅) as -> by apply size_empty. apply set_eq. intros k. rewrite elem_of_cleared.
  split; [|by intros ?%elem_of_empty]. intros [H1 H2]. destruct H1.
  assert (a_state (abs_object keccak256 db (newObject a d)) = a_committed (abs_object keccak256 db (newObject a d))) as <-; [|done].
  unfold abs_object. cbn [a_state a_committed dirtyStorage newObject]. by rewrite (left_id_L ∅ (∪)).
Qed.
End metering.

(** C17: on a database opened from a trie, a program whose stores all go through
    the metering, with fewer than 2^49 of them, always returns: in every branch,
    in every nesting of failing and succeeding frames, with self-destructs,
    account creations and out-of-gas stores, the refund counter never falls
    below zero. *)
Theorem metered_stores_never_panic keccak256 db n p :
  CodeDB keccak256 db -> metered n p -> framed p -> (Z.of_nat n < 2^49)%Z ->
  exists s r, run_prog keccak256 db NewWithTrie (plainly p) = Ret (s, r).
Proof.
  intros Hdb Hp Hf Hn. pose proof (sim_start keccak256 db _ NewWithTrie clean_new eq_refl) as Hs.
  pose proof (prog_refines keccak256 db _ (plainly p) _ _ Hs) as Hr.
  pose proof (compile_spec keccak256 p Hf _ NewRWSetLogger (sim_numbered _ _ _ _ _ Hs)) as Hc. unfold compiles in Hc.
  destruct (metered_returns keccak256 n p Hp (abs keccak256 db NewWithTrie) NewRWSetLogger (new_covered keccak256 db)) as (T & l & r & He & _); [done|cbn; lia|].
  cbn [current start_machine] in Hc. rewrite He in Hc. destruct Hc as (m & Hm & _). unfold plainly in *. rewrite spec_prog_bind, Hm, bind_ret in Hr.
  destruct Hr as (s & Hr & _). by exists s, r.
Qed.

(** Clear a committed slot in an inner frame, set it again outside. *)
Definition clear_and_set : eprog frame_result :=
  EFrame (r ← opSstore c1 50000 1 0; match r with inl g => finished g | inr e => mret (mkFrame EmptyString 0 (Some e)) end)
    (fun _ => r ← opSstore c1 50000 1 7; match r with inl g => finished g | inr e => mret (mkFrame EmptyString 0 (Some e)) end).

Lemma metered_stores_never_panic_witness :
  metered 2 clear_and_set /\ exists s r, run_prog toy_keccak empty_db NewWithTrie (plainly clear_and_set) = Ret (s, r).
Proof.
  assert (forall loc val, metered 1 (r ← opSstore c1 50000 loc val; match r with inl g => finished g | inr e => mret (mkFrame EmptyString 0 (Some e)) end)) as Hone.
  { intros loc val. apply metered_store; [intros g; apply metered_done|]. intros e. eexists. split; [reflexivity|discriminate]. }
  assert (metered 2 clear_and_set) as Hm by (apply (metered_frame 1 1); [apply Hone|intros r; apply Hone]).
  split; [exact Hm|]. apply (metered_stores_never_panic toy_keccak empty_db 2 clear_and_set); [exact _|exact Hm| |vm_compute; reflexivity].
  split; [|intros _]; (apply framed_bind; [apply framed_opSstore|intros [g|e]; exact I]).
Defined.
