(* ===== verification/FallbackPool.v ===== *)
(** * The worker pool: [LevmSpecFallbackPool] of [utils/levm_spec_fallback.go]

    [PreExecuteBatch] and [ReExecuteBatch] spread a list of jobs over workers
    that each own a fallback with the same witness: a producer fills the channel
    of jobs, workers take jobs, execute them and send results, the caller stores
    each result at the position of its job.  The steps of these goroutines are a
    relation; whatever their interleaving, a batch ends and every position gets
    the answer of its job on the witness.  [Acquire] and [Release] hand out idle
    workers one at a time. *)
From stdpp Require Import base gmap sets list strings relations.
From Stdlib Require Import ZArith Lia.
From S2P Require Import Prelude RWSet GoText StateDB StateSpec HexKeys Execution ReplayAdapter Levm SpecFallback.

Set Default Goal Selector "!".
Local Open Scope list_scope.

(** ** Data *)
Inductive batch_job := JobPre (txIdx : Z) | JobRe (txIdx : Z) (stateOverride : option (gmap string string)).

(** The call a worker makes for a job, at a time of the clock. *)
Definition job_call (j : batch_job) (now : Z) : call :=
  match j with JobPre i => CallPre i now | JobRe i o => CallRe i now o end.

Record LevmSpecFallbackPool := mkPool { workers : list LevmSpecFallback; idle : list nat; pool_n : nat }.

(** A batch in progress: jobs the producer has not sent, the channel of jobs,
    the goroutines with the job they execute, the channel of results and the
    slice of results. *)
Record batch := mkBatch {
  unsent : list (nat * batch_job); jobs : list (nat * batch_job); running : list (LevmSpecFallback * option (nat * batch_job));
  results : list (nat * reply_of_call); out : list (option reply_of_call) }.

(** ** Operations *)
Definition number_jobs (l : list batch_job) : list (nat * batch_job) := imap (fun i j => (i, j)) l.

(** The state in which the goroutines of a batch start. *)
Definition start_batch (p : LevmSpecFallbackPool) (l : list batch_job) : batch :=
  mkBatch (number_jobs l) [] ((fun w => (w, None)) <$> take (pool_n p `min` length l) (workers p)) [] (replicate (length l) None).

Definition PreExecuteBatch (p : LevmSpecFallbackPool) (txIndices : list Z) : batch := start_batch p (JobPre <$> txIndices).

(** [None]: the lengths differ. *)
Definition ReExecuteBatch (p : LevmSpecFallbackPool) (txIndices : list Z) (stateOverrides : list (option (gmap string string))) : option batch :=
  if bool_decide (length stateOverrides = length txIndices) then Some (start_batch p (zip_with JobRe txIndices stateOverrides)) else None.

(** Every goroutine has ended and every result is stored. *)
Definition finished_batch (b : batch) : bool :=
  match unsent b, jobs b, results b with [], [], [] => forallb (fun w => match w.2 with None => true | Some _ => false end) (running b) | _, _, _ => false end.

(** [Acquire] on a pool without workers is an error; without an idle worker it
    blocks ([None]). *)
Definition Acquire (p : LevmSpecFallbackPool) : option (LevmSpecFallbackPool * nat + string) :=
  match workers p with
  | [] => Some (inr "LevmSpecFallbackPool: no workers")
  | _ => match idle p with w :: rest => Some (inl (mkPool (workers p) rest (pool_n p), w)) | [] => None end
  end.

(** [Release] ignores a nil worker and blocks when the channel, of the size of
    the pool, is full. *)
Definition Release (p : LevmSpecFallbackPool) (w : option nat) : option LevmSpecFallbackPool :=
  match w with
  | None => Some p
  | Some w => if bool_decide (length (idle p) < pool_n p) then Some (mkPool (workers p) (idle p ++ [w]) (pool_n p)) else None
  end.

(** The workers of a pool are idle or held by one caller each. *)
Definition accounted (p : LevmSpecFallbackPool) (held : list nat) : Prop := idle p ++ held ≡ₚ seq 0 (pool_n p) /\ length (workers p) = pool_n p.

Section pool.
Context (keccak256 : string -> Hash) (run : Context -> Contract -> string -> eprog frame_result).
Context (rng : gset string -> list string) (rng_hash : gset Hash -> list Hash) (undefined_big : string -> Z) (db : Database).

(** [NewLevmSpecFallbackPool]: [n] workers with the same witness, or one per
    CPU. *)
Fixpoint new_workers (n : nat) (transactions : list RawTransaction) (witness : option ReplayBlockWitness) (fromBlock : Z) : outcome (list LevmSpecFallback) :=
  match n with
  | 0 => Ret []
  | S n => NewLevmSpecFallback keccak256 rng db transactions witness fromBlock ≫= fun w => new_workers n transactions witness fromBlock ≫= fun ws => Ret (w :: ws)
  end.

Definition NewLevmSpecFallbackPool (numCPU : nat) (n : Z) (transactions : list RawTransaction) (witness : option ReplayBlockWitness) (fromBlock : Z) :
    outcome LevmSpecFallbackPool :=
  let n := if bool_decide (n <= 0)%Z then numCPU else Z.to_nat n in
  new_workers n transactions witness fromBlock ≫= fun ws => Ret (mkPool ws (seq 0 n) n).

(** One step of one goroutine. *)
Inductive step : batch -> batch -> Prop :=
| step_send j u js rs o ws : step (mkBatch (j :: u) js ws rs o) (mkBatch u (js ++ [j]) ws rs o)
| step_take u j js rs o ws w f : ws !! w = Some (f, None) -> step (mkBatch u (j :: js) ws rs o) (mkBatch u js (<[w := (f, Some j)]> ws) rs o)
| step_execute u js rs o ws w f pos j now f' r : ws !! w = Some (f, Some (pos, j)) ->
    call_once keccak256 run rng rng_hash undefined_big db f (job_call j now) = Ret (f', r) ->
    step (mkBatch u js ws rs o) (mkBatch u js (<[w := (f', None)]> ws) (rs ++ [(pos, r)]) o)
| step_collect u js rs o ws pos r : step (mkBatch u js ws ((pos, r) :: rs) o) (mkBatch u js ws rs (<[pos := Some r]> o)).

(** ** Termination *)
Definition busy (ws : list (LevmSpecFallback * option (nat * batch_job))) : nat :=
  sum_list_with (fun w => match w.2 with Some _ => 1 | None => 0 end) ws.
Definition work (b : batch) : nat := 4 * length (unsent b) + 3 * length (jobs b) + 2 * busy (running b) + length (results b).

Lemma busy_insert ws w x y : ws !! w = Some x ->
  busy (<[w := y]> ws) + (match x.2 with Some _ => 1 | None => 0 end) = busy ws + (match y.2 with Some _ => 1 | None => 0 end).
Proof.
  unfold busy. revert w. induction ws as [|z ws IH]; intros [|w] H; try done.
  - injection H as ->. cbn. lia.
  - specialize (IH w H). change (<[S w := y]> (z :: ws)) with (z :: <[w := y]> ws). cbn [sum_list_with]. lia.
Qed.

Lemma step_decreases b b' : step b b' -> work b' < work b.
Proof.
  destruct 1 as [j u js rs o ws|u j js rs o ws w f Hw|u js rs o ws w f pos j now f' r Hw _|u js rs o ws pos r]; unfold work; cbn [unsent jobs running results]; rewrite ?length_app; cbn [length].
  - lia.
  - pose proof (busy_insert _ _ _ (f, Some j) Hw) as Hb. cbn [snd] in Hb. lia.
  - pose proof (busy_insert _ _ _ (f', None) Hw) as Hb. cbn [snd] in Hb. lia.
  - lia.
Qed.

(** ** Invariant of a batch *)
Context (l : list batch_job) (T : spec_state) (f0 : LevmSpecFallback).

Definition answered (pos : nat) (r : reply_of_call) : Prop :=
  exists j now, l !! pos = Some j /\ spec_call keccak256 run rng rng_hash undefined_big f0 T (job_call j now) = Ret r.
Definition held (ws : list (LevmSpecFallback * option (nat * batch_job))) : list (nat * batch_job) := omap snd ws.
Definition pending (b : batch) : list (nat * batch_job) := unsent b ++ jobs b ++ held (running b).
Definition stored (b : batch) (pos : nat) : Prop := exists r, out b !! pos = Some (Some r).

Record batch_ok (b : batch) : Prop := {
  ok_jobs : forall pos j, (pos, j) ∈ pending b -> l !! pos = Some j;
  ok_results : forall pos r, (pos, r) ∈ results b -> answered pos r;
  ok_out : forall pos r, out b !! pos = Some (Some r) -> answered pos r;
  ok_length : length (out b) = length l;
  ok_covered : forall pos, pos < length l -> (exists j, (pos, j) ∈ pending b) \/ (exists r, (pos, r) ∈ results b) \/ stored b pos;
  ok_workers : forall w, w ∈ (running b).*1 -> ready keccak256 db w T /\ same_block f0 w;
  ok_some : l <> [] -> running b <> [] }.

Lemma elem_of_held ws x : x ∈ held ws <-> exists w f, ws !! w = Some (f, Some x).
Proof.
  unfold held. rewrite list_elem_of_omap. split.
  - intros ([f y] & Hin & Hy). cbn in Hy. subst y. apply list_elem_of_lookup in Hin as [w Hw]. eauto.
  - intros (w & f & Hw). exists (f, Some x). split; [by eapply list_elem_of_lookup_2|done].
Qed.

Lemma held_insert ws w f y x : w < length ws -> x ∈ held (<[w := (f, y)]> ws) -> y = Some x \/ x ∈ held ws.
Proof.
  intros Hw (w' & f' & H)%elem_of_held. apply list_lookup_insert_Some in H as [(<- & [= _ <-] & _)|(_ & H)]; [by left|]. right. apply elem_of_held. eauto.
Qed.

Lemma held_kept ws w f y x g z : ws !! w = Some (g, z) -> x ∈ held ws -> z = Some x \/ x ∈ held (<[w := (f, y)]> ws).
Proof.
  intros Hz (w' & f' & H)%elem_of_held. destruct (decide (w' = w)) as [->|Hne].
  - left. rewrite Hz in H. by injection H as _ ->.
  - right. apply elem_of_held. exists w', f'. by rewrite list_lookup_insert_ne.
Qed.

Lemma workers_insert (ws : list (LevmSpecFallback * option (nat * batch_job))) w f y (P : LevmSpecFallback -> Prop) : (forall x, x ∈ ws.*1 -> P x) -> P f -> forall x, x ∈ (<[w := (f, y)]> ws).*1 -> P x.
Proof.
  intros H Hf x. rewrite list_fmap_insert. intros Hx. apply list_elem_of_lookup in Hx as [i Hi].
  apply list_lookup_insert_Some in Hi as [(_ & <- & _)|(_ & Hi)]; [done|]. apply H. by eapply list_elem_of_lookup_2.
Qed.

Lemma running_insert (ws : list (LevmSpecFallback * option (nat * batch_job))) w x : ws <> [] -> <[w := x]> ws <> [].
Proof. intros H E. apply (f_equal length) in E. rewrite length_insert in E. destruct ws; [done|]. cbn in E. lia. Qed.

Lemma send_ok j u js rs o ws : batch_ok (mkBatch (j :: u) js ws rs o) -> batch_ok (mkBatch u (js ++ [j]) ws rs o).
Proof.
  intros [H1 H2 H3 H4 H5 H6 H7]. unfold pending in *. cbn in *.
  assert (forall x, x ∈ u ++ (js ++ [j]) ++ held ws <-> x ∈ (j :: u) ++ js ++ held ws) as Hp by set_solver.
  split; unfold pending; cbn; auto; [intros p k Hk; apply H1; by apply Hp|].
  intros p Hpos. destruct (H5 p Hpos) as [[k Hk]|?]; [left; exists k; by apply Hp|by right].
Qed.

Lemma take_ok u j js rs o ws w f : ws !! w = Some (f, None) -> batch_ok (mkBatch u (j :: js) ws rs o) -> batch_ok (mkBatch u js (<[w := (f, Some j)]> ws) rs o).
Proof.
  intros Hw [H1 H2 H3 H4 H5 H6 H7]. unfold pending in *. cbn in *. assert (w < length ws) as Hl by (by eapply lookup_lt_Some).
  assert (forall x, x ∈ u ++ js ++ held (<[w := (f, Some j)]> ws) <-> x ∈ u ++ (j :: js) ++ held ws) as Hp.
  { intros x. rewrite !elem_of_app, elem_of_cons. pose proof (held_insert ws w f (Some j) x Hl) as Hi. pose proof (held_kept ws w f (Some j) x f None Hw) as Hk.
    assert (j ∈ held (<[w := (f, Some j)]> ws)) as Hj by (apply elem_of_held; exists w, f; by apply list_lookup_insert_eq).
    split; [naive_solver|]. intros [?|[[->|?]|Hx]]; try tauto. destruct (Hk Hx); [done|tauto]. }
  split; unfold pending; cbn; auto.
  - intros p k Hk. apply H1. by apply Hp.
  - intros p Hpos. destruct (H5 p Hpos) as [[k Hk]|?]; [left; exists k; by apply Hp|by right].
  - apply workers_insert; [done|]. apply H6. apply list_elem_of_fmap. exists (f, None). split; [done|]. by eapply list_elem_of_lookup_2.
  - intros Hl0. by apply running_insert, H7.
Qed.

Lemma execute_ok u js rs o ws w f pos j f' r : ws !! w = Some (f, Some (pos, j)) -> answered pos r -> ready keccak256 db f' T /\ same_block f0 f' ->
  batch_ok (mkBatch u js ws rs o) -> batch_ok (mkBatch u js (<[w := (f', None)]> ws) (rs ++ [(pos, r)]) o).
Proof.
  intros Hw Ha Hf' [H1 H2 H3 H4 H5 H6 H7]. unfold pending in *. cbn in *. assert (w < length ws) as Hl by (by eapply lookup_lt_Some).
  split; unfold pending; cbn; auto.
  - intros p k Hk. apply H1. rewrite !elem_of_app in *. pose proof (held_insert ws w f' None (p, k) Hl). naive_solver.
  - intros p r'. rewrite elem_of_app, list_elem_of_singleton. intros [Hp|[= -> ->]]; [by apply H2|done].
  - intros p Hpos. destruct (H5 p Hpos) as [[k Hk]|[[r' Hr']|Ho]]; [|right; left; exists r'; apply elem_of_app; by left|by right; right].
    rewrite !elem_of_app in Hk. destruct (decide (p = pos)) as [->|Hne]; [right; left; exists r; apply elem_of_app; right; by apply list_elem_of_singleton|].
    left. exists k. rewrite !elem_of_app. pose proof (held_kept ws w f' None (p, k) f (Some (pos, j)) Hw). naive_solver.
  - by apply workers_insert.
  - intros Hl0. by apply running_insert, H7.
Qed.

Lemma collect_ok u js rs o ws pos r : batch_ok (mkBatch u js ws ((pos, r) :: rs) o) -> batch_ok (mkBatch u js ws rs (<[pos := Some r]> o)).
Proof.
  intros [H1 H2 H3 H4 H5 H6 H7]. unfold pending in *. cbn in *. split; unfold pending; cbn; auto.
  - intros p r' Hp. apply H2. by right.
  - intros p r' Hp. apply list_lookup_insert_Some in Hp as [(<- & [= <-] & _)|(_ & Hp)]; [apply H2; left|by apply H3].
  - by rewrite length_insert.
  - intros p Hpos. unfold stored. cbn. destruct (decide (p = pos)) as [->|Hne]; [right; right; exists r; apply list_lookup_insert_eq; lia|].
    destruct (H5 p Hpos) as [Hk|[[r' Hr']|[r' Ho]]]; [by left| |].
    + right; left. exists r'. apply elem_of_cons in Hr' as [[= -> ->]|?]; done.
    + right; right. exists r'. by rewrite list_lookup_insert_ne.
Qed.

Context (Hrun : forall ctx c input, framed (run ctx c input)) `{!CodeDB keccak256 db}.

(** A worker in the batch answers from the witness and stays ready. *)
Lemma worker_answers f pos j now : ready keccak256 db f T -> same_block f0 f -> l !! pos = Some j ->
  match spec_call keccak256 run rng rng_hash undefined_big f0 T (job_call j now) with
  | Ret r => exists f', call_once keccak256 run rng rng_hash undefined_big db f (job_call j now) = Ret (f', r) /\ answered pos r /\ ready keccak256 db f' T /\ same_block f0 f'
  | Panics => call_once keccak256 run rng rng_hash undefined_big db f (job_call j now) = Panics
  | Diverges => False
  end.
Proof.
  intros Hr Hb Hj. pose proof (call_once_spec keccak256 run rng rng_hash undefined_big Hrun db f T (job_call j now) Hr) as Hcs.
  rewrite (spec_call_block keccak256 run rng rng_hash undefined_big f0 f T (job_call j now) Hb) in Hcs.
  destruct (spec_call keccak256 run rng rng_hash undefined_big f0 T (job_call j now)) as [r| |] eqn:Es; [|done..].
  destruct Hcs as (f' & Hf' & Hr' & Hb'). exists f'. split; [done|]. split; [by exists j, now|]. split; [done|].
  split; [by rewrite (proj1 Hb'), (proj1 Hb)|by rewrite (proj2 Hb'), (proj2 Hb)].
Qed.

Lemma step_ok b b' : batch_ok b -> step b b' -> batch_ok b'.
Proof.
  intros Hok Hs. destruct Hs as [j u js rs o ws|u j js rs o ws w f Hw|u js rs o ws w f pos j now f' r Hw Hc|u js rs o ws pos r].
  - by apply send_ok.
  - by apply take_ok.
  - assert (f ∈ ws.*1) as Hf by (apply list_elem_of_fmap; exists (f, Some (pos, j)); split; [done|by eapply list_elem_of_lookup_2]).
    destruct (ok_workers _ Hok f Hf) as [Hr Hb]. assert (l !! pos = Some j) as Hj.
    { apply (ok_jobs _ Hok). cbn. rewrite !elem_of_app. right. right. apply elem_of_held. eauto. }
    pose proof (worker_answers f pos j now Hr Hb Hj) as Ha. rewrite Hc in Ha.
    destruct (spec_call keccak256 run rng rng_hash undefined_big f0 T (job_call j now)) as [r'| |]; [|done..].
    destruct Ha as (f1 & [= <- <-] & Ha & Hf1). by eapply execute_ok.
  - by apply collect_ok.
Qed.

Lemma steps_ok b b' : batch_ok b -> rtc step b b' -> batch_ok b'.
Proof. intros Hok Hs. induction Hs as [|x y z Hxy _ IH]; [done|]. apply IH. by eapply step_ok. Qed.

Lemma start_ok p : 0 < pool_n p -> length (workers p) = pool_n p -> (forall w, w ∈ workers p -> ready keccak256 db w T /\ same_block f0 w) -> batch_ok (start_batch p l).
Proof.
  intros Hn Hlen Hws. assert (held ((fun w => (w, None)) <$> take (pool_n p `min` length l) (workers p)) = []) as Hh.
  { unfold held. induction (take _ _) as [|w ws IH]; [done|]. exact IH. }
  assert (forall pos j, (pos, j) ∈ pending (start_batch p l) <-> l !! pos = Some j) as Hp.
  { intros pos j. unfold pending, start_batch. cbn [unsent jobs running]. rewrite Hh, !app_nil_r. unfold number_jobs. rewrite elem_of_lookup_imap. naive_solver. }
  split; cbn [start_batch out running results].
  - intros pos j. apply Hp.
  - intros pos r H. by apply not_elem_of_nil in H.
  - intros pos r H. by apply lookup_replicate in H as [? _].
  - by rewrite length_replicate.
  - intros pos Hpos. apply lookup_lt_is_Some in Hpos as [j Hj]. left. exists j. by apply Hp.
  - intros w Hw. rewrite <- list_fmap_compose in Hw. apply list_elem_of_fmap in Hw as (w' & -> & Hw). cbn. apply Hws. eapply subseteq_take; exact Hw.
  - intros Hl E. apply (f_equal length) in E. rewrite length_fmap, List.length_firstn in E. cbn in E. destruct l; [done|]. cbn in E. lia.
Qed.

Lemma idle_or_busy (ws : list (LevmSpecFallback * option (nat * batch_job))) : ws <> [] -> (exists w f, ws !! w = Some (f, None)) \/ (exists w f x, ws !! w = Some (f, Some x)).
Proof. destruct ws as [|[f [x|]] ws]; [done|right; by exists 0, f, x|left; by exists 0, f]. Qed.

Context (Hret : forall j now, j ∈ l -> exists r, spec_call keccak256 run rng rng_hash undefined_big f0 T (job_call j now) = Ret r).

Lemma busy_steps b w f x : batch_ok b -> running b !! w = Some (f, Some x) -> exists b', step b b'.
Proof.
  destruct b as [u js ws rs o], x as [pos j]. cbn [running]. intros Hok Hw.
  assert (l !! pos = Some j) as Hj by (apply (ok_jobs _ Hok); unfold pending; rewrite !elem_of_app; right; right; apply elem_of_held; eauto).
  destruct (ok_workers _ Hok f) as [Hr Hb]; [apply list_elem_of_fmap; exists (f, Some (pos, j)); split; [done|by eapply list_elem_of_lookup_2]|].
  destruct (Hret j 0%Z) as [r Hs]; [by eapply list_elem_of_lookup_2|].
  pose proof (worker_answers f pos j 0%Z Hr Hb Hj) as Ha. rewrite Hs in Ha. destruct Ha as (f' & Hc & _). eexists. by eapply step_execute.
Qed.

Lemma not_finished_steps b : batch_ok b -> finished_batch b = false -> exists b', step b b'.
Proof.
  intros Hok Hf. destruct b as [[|j u] js ws [|[pos r] rs] o]; try (eexists; by constructor).
  destruct js as [|j js].
  - unfold finished_batch in Hf. cbn [unsent jobs results running] in Hf. apply not_true_iff_false in Hf. rewrite forallb_forall in Hf.
    assert (exists w f x, ws !! w = Some (f, Some x)) as (w & f & x & Hw); [|by eapply (busy_steps _ w f x)].
    clear Hok. induction ws as [|[f [x|]] ws IH]; [by destruct Hf|by exists 0, f, x|]. destruct IH as (w & f' & x & Hw); [|by exists (S w), f', x].
    intros H. apply Hf. intros y [<-|Hy]; [done|by apply H].
  - destruct (idle_or_busy ws) as [(w & f & Hw)|(w & f & x & Hw)]; [|eexists; by eapply step_take|by eapply (busy_steps _ w f x)].
    apply (ok_some _ Hok). intros E. pose proof (ok_jobs _ Hok j.1 j.2) as Hj. rewrite E in Hj. destruct j as [pos j]. cbn in Hj.
    rewrite lookup_nil in Hj. discriminate Hj. unfold pending. cbn. left.
Qed.

Lemma finished_answers b : batch_ok b -> finished_batch b = true ->
  length (out b) = length l /\ forall pos, pos < length l -> exists r, out b !! pos = Some (Some r) /\ answered pos r.
Proof.
  intros Hok Hf. split; [apply (ok_length _ Hok)|]. intros pos Hpos. destruct b as [[|j u] [|j' js] ws [|r' rs] o]; try done.
  destruct (ok_covered _ Hok pos Hpos) as [[j Hj]|[[r Hr]|[r Hr]]].
  - unfold pending in Hj. cbn [unsent jobs running app] in Hj. apply elem_of_held in Hj as (w & f & Hw).
    unfold finished_batch in Hf. cbn [unsent jobs results running] in Hf. rewrite forallb_forall in Hf.
    specialize (Hf (f, Some (pos, j))). discriminate Hf. apply list_elem_of_In. by eapply list_elem_of_lookup_2.
  - by apply not_elem_of_nil in Hr.
  - exists r. split; [done|]. by apply (ok_out _ Hok).
Qed.
End pool.

(** ** Construction *)
Lemma new_workers_ready keccak256 rng db `{!CodeDB keccak256 db} transactions witness fromBlock T u n ws :
  effect keccak256 (abs keccak256 db NewWithTrie) (injectWitnessIntoStateDB rng witness) = Ret (T, u) ->
  new_workers keccak256 rng db n transactions witness fromBlock = Ret ws ->
  length ws = n /\ forall w, w ∈ ws -> ready keccak256 db w T /\ same_block (mkFallback None transactions fromBlock) w.
Proof.
  intros HT. revert ws. induction n as [|n IH]; intros ws H; cbn [new_workers] in H; [injection H as <-; split; [done|]; intros w Hw; by apply not_elem_of_nil in Hw|].
  pose proof (NewLevmSpecFallback_ready keccak256 rng db transactions witness fromBlock) as Hn. rewrite HT in Hn. destruct Hn as (s & Hs & Hr).
  rewrite Hs in H. cbn in H. destruct (new_workers keccak256 rng db n transactions witness fromBlock) as [ws'| |] eqn:E; [|done..]. cbn in H. injection H as <-.
  destruct (IH ws' eq_refl) as [Hl Hw]. split; [cbn; by rewrite Hl|]. intros w [->|Hin]%elem_of_cons; [|by apply Hw]. split; [by exists s|done].
Qed.

(** Exclusive use of workers: a worker handed out was idle and is held by
    nobody else, and releasing a held worker never blocks. *)
Theorem workers_exclusive p held :
  accounted p held ->
  (forall p' w, Acquire p = Some (inl (p', w)) -> w ∉ held /\ w < length (workers p) /\ accounted p' (w :: held)) /\
  (forall w held', held ≡ₚ w :: held' -> exists p', Release p (Some w) = Some p' /\ accounted p' held').
Proof.
  intros [Hp Hl]. split.
  - intros p' w H. unfold Acquire in H. destruct (workers p) eqn:Ew; [done|]. rewrite <- Ew in *. destruct (idle p) as [|w' rest] eqn:Ei; [done|]. injection H as <- <-.
    assert (NoDup ((w' :: rest) ++ held)) as Hnd by (rewrite Hp; apply NoDup_seq). assert (w' ∈ seq 0 (pool_n p)) as Hin by (rewrite <- Hp; by left).
    apply NoDup_cons in Hnd as [Hw _]. rewrite elem_of_app in Hw. apply elem_of_seq in Hin. split; [tauto|]. split; [lia|]. split; [|done]. cbn. rewrite <- Hp. cbn. by rewrite Permutation_middle.
  - intros w held' Hh. rewrite Hh in Hp. unfold Release. pose proof (Permutation_length Hp) as Hlen. rewrite length_app, length_seq in Hlen. cbn in Hlen.
    rewrite bool_decide_true by lia. eexists. split; [done|]. split; [|done]. cbn. by rewrite <- app_assoc.
Qed.

(** C14: a batch on a pool built from a witness, under every interleaving of its
    producer, workers and collector: each step brings it nearer to its end, it
    cannot get stuck before, and when it ends every position holds the answer
    its job has on the witness state, whichever worker ran it and after
    whichever other jobs. *)
Theorem batch_correct keccak256 run rng rng_hash undefined_big db numCPU n transactions witness fromBlock T u p l b :
  CodeDB keccak256 db -> (forall ctx c input, framed (run ctx c input)) -> 0 < numCPU ->
  effect keccak256 (abs keccak256 db NewWithTrie) (injectWitnessIntoStateDB rng witness) = Ret (T, u) ->
  NewLevmSpecFallbackPool keccak256 rng db numCPU n transactions witness fromBlock = Ret p ->
  let answer j now := spec_call keccak256 run rng rng_hash undefined_big (mkFallback None transactions fromBlock) T (job_call j now) in
  (forall j now, j ∈ l -> exists r, answer j now = Ret r) ->
  rtc (step keccak256 run rng rng_hash undefined_big db) (start_batch p l) b ->
  (forall b', step keccak256 run rng rng_hash undefined_big db b b' -> work b' < work b) /\
  if finished_batch b
  then length (out b) = length l /\ forall pos j, l !! pos = Some j -> exists now r, out b !! pos = Some (Some r) /\ answer j now = Ret r
  else exists b', step keccak256 run rng rng_hash undefined_big db b b'.
Proof.
  intros Hdb Hrun Hcpu HT Hp answer Hret Hs. split; [intros b'; apply step_decreases|]. unfold NewLevmSpecFallbackPool in Hp.
  set (m := if bool_decide (n <= 0)%Z then numCPU else Z.to_nat n) in *.
  assert (0 < m) as Hm by (unfold m; case_bool_decide; lia).
  destruct (new_workers keccak256 rng db m transactions witness fromBlock) as [ws| |] eqn:Ew; [|done..]. cbn in Hp. injection Hp as <-.
  destruct (new_workers_ready keccak256 rng db transactions witness fromBlock T u m ws HT Ew) as [Hl Hw].
  assert (batch_ok keccak256 run rng rng_hash undefined_big db l T (mkFallback None transactions fromBlock) b) as Hok.
  { eapply steps_ok; [exact Hrun|exact Hdb| |exact Hs]. by apply start_ok. }
  destruct (finished_batch b) eqn:Ef.
  - destruct (finished_answers _ _ _ _ _ _ _ _ _ b Hok Ef) as [Hlen Ha]. split; [done|]. intros pos j Hj.
    destruct (Ha pos) as (r & Hr & j' & now & Hj' & Hs'); [by eapply lookup_lt_Some|]. rewrite Hj in Hj'. injection Hj' as <-. by exists now, r.
  - eapply not_finished_steps; [exact Hrun|exact Hdb|exact Hret|exact Hok|exact Ef].
Qed.

(** ** An example: three jobs on two workers *)
Definition demo_pool_built : outcome LevmSpecFallbackPool := NewLevmSpecFallbackPool toy_keccak elements empty_db 1 2 demo_block (Some demo_witness) 1.
Definition demo_pool : LevmSpecFallbackPool := match demo_pool_built with Ret p => p | _ => mkPool [] [] 0 end.
Definition demo_jobs : list batch_job := [JobPre 0; JobRe 1 None; JobPre 7].
Definition demo_job_answer (j : batch_job) (now : Z) : outcome reply_of_call :=
  spec_call toy_keccak demo_run elements elements (fun _ => 0%Z) (mkFallback None demo_block 1) demo_state (job_call j now).

Lemma demo_pool_ret : demo_pool_built = Ret demo_pool.
Proof. vm_compute. reflexivity. Qed.

Lemma demo_jobs_ret j now : j ∈ demo_jobs -> exists r, demo_job_answer j now = Ret r.
Proof.
  intros Hj. assert (match demo_job_answer j now with Ret _ => true | _ => false end = true) as H.
  { unfold demo_jobs in Hj. repeat (apply elem_of_cons in Hj as [->|Hj]; [vm_compute; reflexivity|]). by apply not_elem_of_nil in Hj. }
  destruct (demo_job_answer j now) as [r| |]; [by exists r|done..].
Qed.

Lemma batch_correct_witness :
  exists b, rtc (step toy_keccak demo_run elements elements (fun _ => 0%Z) empty_db) (start_batch demo_pool demo_jobs) b /\
    finished_batch b = true /\ length (out b) = 3 /\
    exists now r, out b !! 1 = Some (Some r) /\ demo_job_answer (JobRe 1 None) now = Ret r.
Proof.
  assert (forall k b, work b < k -> rtc (step toy_keccak demo_run elements elements (fun _ => 0%Z) empty_db) (start_batch demo_pool demo_jobs) b ->
    exists b', rtc (step toy_keccak demo_run elements elements (fun _ => 0%Z) empty_db) (start_batch demo_pool demo_jobs) b' /\ finished_batch b' = true /\
      length (out b') = 3 /\ exists now r, out b' !! 1 = Some (Some r) /\ demo_job_answer (JobRe 1 None) now = Ret r) as H.
  { induction k as [|k IH]; intros b Hk Hb; [exfalso; lia|].
    destruct (batch_correct toy_keccak demo_run elements elements (fun _ => 0%Z) empty_db 1 2 demo_block (Some demo_witness) 1 demo_state tt demo_pool demo_jobs b
      _ framed_demo_run ltac:(lia) demo_effect_ret demo_pool_ret demo_jobs_ret Hb) as [Hdec Hend].
    destruct (finished_batch b) eqn:Ef.
    - destruct Hend as [Hl Ha]. exists b. split; [exact Hb|]. split; [exact Ef|]. split; [exact Hl|]. exact (Ha 1 (JobRe 1 None) eq_refl).
    - destruct Hend as [b' Hb']. apply (IH b'); [pose proof (Hdec b' Hb'); lia|]. by eapply rtc_r. }
  exact (H (S (work (start_batch demo_pool demo_jobs))) _ (Nat.lt_succ_diag_r _) (rtc_refl _ _)).
Defined.
