(* ===== verification/WitnessTrie.v ===== *)
(** * The witness as a trie: [BuildWitnessTrie] of [utils/witness_trie.go]

    The in-memory pool writes a block's witness into a state database account
    by account ([injectWitnessIntoStateDB]); the trie pool encodes it once as an
    account trie with storage tries and code blobs and opens databases on it.
    Both give the same state, except that the trie's slots are committed. *)
From stdpp Require Import base gmap sets list strings.
From Stdlib Require Import ZArith Lia.
From S2P Require Import Prelude RWSet GoText StateDB StateSpec SharedTrie HexKeys Levm SpecFallback.

Set Default Goal Selector "!".
Local Open Scope list_scope.

Lemma range_ok_empty (rng : gset string -> list string) : range_ok rng -> rng ∅ = [].
Proof. intros H. apply Permutation_nil_r. by rewrite (H ∅), elements_empty. Qed.

(** ** Fields of a witness account *)
Definition witness_balance (acct : ReplayWitnessAccount) : Z :=
  match wit_Balance acct with EmptyString => 0%Z | b => default 0%Z (SetString0 b) end.
Definition witness_nonce (acct : ReplayWitnessAccount) : Z :=
  match wit_Nonce acct with EmptyString => 0%Z | n => match SetString0 n with Some n => big_Uint64 n | None => 0%Z end end.

Section build.
Context (keccak256 : string -> Hash) (trie_hash : Storage -> Hash) (rng : gset string -> list string).

(** The storage trie of an account; zero values are not stored. *)
Definition store_slot (st : gmap string string) (t : Storage) (slotHex : string) : Storage :=
  let v := HexToHash (default EmptyString (st !! slotHex)) in
  if decide (v = zero_hash) then t else <[HexToHash slotHex := v]> t.
Definition witness_storage (st : gmap string string) : Storage := foldl (store_slot st) ∅ (rng (dom st)).

Definition store_storage (db : Database) (acct : ReplayWitnessAccount) : Database * Hash :=
  match wit_Storage acct with
  | Some st => if decide (st = ∅) then (db, emptyRoot) else (put_trie trie_hash db (witness_storage st), trie_hash (witness_storage st))
  | None => (db, emptyRoot)
  end.

Definition store_blob (db : Database) (acct : ReplayWitnessAccount) : Database * Hash :=
  match FromHex (wit_Code acct) with
  | EmptyString => (db, BytesToHash (keccak256 EmptyString))
  | c => (mkDatabase (account_trie db) (storage_tries db) (<[keccak256 c := c]> (blobs db)), keccak256 c)
  end.

(** The error is the refusal of RLP to encode a negative balance; a nil account
    panics. *)
Definition build_account (db : Database) (addrHex : string) (acct : option ReplayWitnessAccount) : outcome (Database + string) :=
  if negb (IsHexAddress addrHex) then Ret (inl db) else
  match acct with
  | None => Panics
  | Some acct =>
    let '(db, storageRoot) := store_storage db acct in
    let '(db, codeHash) := store_blob db acct in
    if bool_decide (witness_balance acct < 0)%Z then Ret (inr ("rlp account " +:+ addrHex))
    else Ret (inl (mkDatabase (<[HexToAddress addrHex := mkAccount (witness_nonce acct) (witness_balance acct) storageRoot codeHash]> (account_trie db))
           (storage_tries db) (blobs db)))
  end.

Definition BuildWitnessTrie (accts : ReplayBlockWitness) : outcome (Database + string) :=
  foldM (fun r addrHex => match r with inl db => build_account db addrHex (mjoin (accts !! addrHex)) | inr e => Ret (inr e) end)
    (inl empty_db) (rng (dom accts)).
End build.

(** ** Witnesses without ambiguity *)
Record clean_witness (accts : ReplayBlockWitness) : Prop := {
  cw_address : forall h1 h2, is_Some (accts !! h1) -> is_Some (accts !! h2) -> IsHexAddress h1 = true -> IsHexAddress h2 = true -> HexToAddress h1 = HexToAddress h2 -> h1 = h2;
  cw_account : forall h x, accts !! h = Some x -> IsHexAddress h = true -> exists acct, x = Some acct /\ (0 <= witness_balance acct)%Z;
  cw_slots : forall h acct st k1 k2, accts !! h = Some (Some acct) -> wit_Storage acct = Some st ->
    is_Some (st !! k1) -> is_Some (st !! k2) -> HexToHash k1 = HexToHash k2 -> k1 = k2 }.

(** The codes of the witness do not collide with each other or the empty code. *)
Definition codes_distinct (keccak256 : string -> Hash) (accts : ReplayBlockWitness) : Prop :=
  let is_code c := c = EmptyString \/ exists h acct, accts !! h = Some (Some acct) /\ c = FromHex (wit_Code acct) in
  forall c1 c2, is_code c1 -> is_code c2 -> keccak256 c1 = keccak256 c2 -> c1 = c2.

(** Every slot of every account committed. *)
Definition commit_account (x : account) : account :=
  mkAcc (a_nonce x) (a_balance x) (a_codehash x) (a_code x) (a_state x) (a_state x) (a_suicided x) (a_deleted x).
Definition commit_all (T : spec_state) : spec_state := set_accounts T (commit_account <$> accounts T).

(** ** Injection in closed form *)
Section inject.
Context (keccak256 : string -> Hash) (rng : gset string -> list string).

Definition put_account (T : spec_state) (a : Address) (x : account) : spec_state := set_accounts T (<[a := x]> (accounts T)).

Lemma change_put T a x f : a_deleted x = false -> change keccak256 (put_account T a x) a f = Ret (put_account T a (f x), RUnit).
Proof.
  intros Hx. unfold change, live, put_account. cbn [accounts set_accounts]. rewrite lookup_insert_eq, Hx. cbn [default id]. unfold set_accounts. cbn. by rewrite insert_insert_eq.
Qed.

Lemma act_put T lg a x o f : a_deleted x = false -> (forall A, spec_op keccak256 A o = change keccak256 A a f) ->
  espec keccak256 (put_account T a x) lg (act o) = Ret (put_account T a (f x), lg, tt).
Proof. intros Hx Ho. unfold act. cbn [espec]. rewrite Ho, change_put by done. by rewrite bind_ret. Qed.

Lemma create_put T lg a : accounts T !! a = None ->
  espec keccak256 T lg (act (OCreateAccount a)) = Ret (put_account T a (set_balance (fresh_account keccak256) 0), lg, tt).
Proof. intros HT. unfold act. cbn [espec spec_op]. rewrite HT, bind_ret. done. Qed.

Lemma slots_put T lg a (st : gmap string string) l : forall x, a_deleted x = false ->
  espec keccak256 (put_account T a x) lg (efor (fun slot => act (OSetState a (HexToHash slot) (HexToHash (default EmptyString (st !! slot))))) l) =
  Ret (put_account T a (set_state x (foldl (fun t slot => put_slot t (HexToHash slot) (HexToHash (default EmptyString (st !! slot)))) (a_state x) l)), lg, tt).
Proof.
  induction l as [|k l IH]; intros x Hx; cbn [efor foldl]; [by destruct x|]. rewrite espec_bind.
  rewrite (act_put T lg a x _ (fun o => set_state o (put_slot (a_state o) (HexToHash k) (HexToHash (default EmptyString (st !! k)))))) by done.
  rewrite bind_ret. by rewrite IH.
Qed.

Definition injected_storage (acct : ReplayWitnessAccount) : Storage :=
  match wit_Storage acct with
  | Some st => foldl (fun t slot => put_slot t (HexToHash slot) (HexToHash (default EmptyString (st !! slot)))) ∅ (rng (dom st))
  | None => ∅
  end.
Definition injected (acct : ReplayWitnessAccount) : account :=
  mkAcc (witness_nonce acct) (witness_balance acct) (keccak256 (FromHex (wit_Code acct))) (FromHex (wit_Code acct)) (injected_storage acct) ∅ false false.

Lemma inject_account_spec T lg h acct : IsHexAddress h = true -> accounts T !! HexToAddress h = None ->
  espec keccak256 T lg (inject_account rng h (Some acct)) = Ret (put_account T (HexToAddress h) (injected acct), lg, tt).
Proof.
  intros Hh HT. unfold inject_account. rewrite Hh. cbn [negb]. rewrite espec_bind, (create_put T lg _ HT), bind_ret. set (a := HexToAddress h).
  rewrite espec_bind. set (x1 := set_balance (fresh_account keccak256) (witness_balance acct)).
  assert (espec keccak256 (put_account T a (set_balance (fresh_account keccak256) 0)) lg
    (match wit_Balance acct with EmptyString => mret tt | b => match SetString0 b with Some bal => act (OSetBalance a bal) | None => mret tt end end) =
    Ret (put_account T a x1, lg, tt)) as ->.
  { unfold x1, witness_balance. destruct (wit_Balance acct) as [|c b]; [done|]. destruct (SetString0 (String c b)); [|done]. by rewrite (act_put _ _ _ _ _ (fun o => set_balance o z)). }
  rewrite bind_ret, espec_bind. set (x2 := set_nonce x1 (witness_nonce acct)).
  assert (espec keccak256 (put_account T a x1) lg
    (match wit_Nonce acct with EmptyString => mret tt | n => match SetString0 n with Some nonce => act (OSetNonce a (big_Uint64 nonce)) | None => mret tt end end) =
    Ret (put_account T a x2, lg, tt)) as ->.
  { unfold x2, witness_nonce. destruct (wit_Nonce acct) as [|c n]; [done|]. destruct (SetString0 (String c n)); [|done]. by rewrite (act_put _ _ _ _ _ (fun o => set_nonce o (big_Uint64 z))). }
  rewrite bind_ret, espec_bind. set (x3 := set_code x2 (keccak256 (FromHex (wit_Code acct))) (FromHex (wit_Code acct))).
  assert (espec keccak256 (put_account T a x2) lg (match wit_Code acct with EmptyString => mret tt | c => act (OSetCode a (Some (FromHex c))) end) =
    Ret (put_account T a x3, lg, tt)) as ->.
  { unfold x3. destruct (wit_Code acct) as [|c n]; [done|]. by rewrite (act_put _ _ _ _ _ (fun o => set_code o (keccak256 (FromHex (String c n))) (FromHex (String c n)))). }
  rewrite bind_ret. unfold injected, injected_storage. destruct (wit_Storage acct) as [st|]; [|done]. by rewrite slots_put.
Qed.
End inject.

(** ** Both states side by side *)
Section agree.
Context (keccak256 : string -> Hash) (trie_hash : Storage -> Hash) (rng : gset string -> list string) (accts : ReplayBlockWitness).
Context `{!TrieHash trie_hash} (Hrng : range_ok rng) (Hcw : clean_witness accts) (Hcodes : codes_distinct keccak256 accts).
Context (Hkeccak : forall x, BytesToHash (keccak256 x) = keccak256 x).

(** Slots that are named once are stored alike. *)
Lemma storage_agree (st : gmap string string) l : NoDup (HexToHash <$> l) -> forall t, (forall k, k ∈ l -> t !! HexToHash k = None) ->
  foldl (fun t slot => put_slot t (HexToHash slot) (HexToHash (default EmptyString (st !! slot)))) t l = foldl (store_slot st) t l.
Proof.
  induction l as [|k l IH]; intros Hnd t Ht; cbn [foldl]; [done|]. rewrite fmap_cons in Hnd. apply NoDup_cons in Hnd as [Hk Hnd].
  assert (put_slot t (HexToHash k) (HexToHash (default EmptyString (st !! k))) = store_slot st t k) as ->.
  { unfold put_slot, store_slot. case_decide; [|done]. apply delete_id, Ht. left. }
  apply IH; [done|]. intros k' Hk'. unfold store_slot. case_decide; [apply Ht; by right|].
  rewrite lookup_insert_ne; [apply Ht; by right|]. intros He. apply Hk. rewrite He. by apply list_elem_of_fmap_2.
Qed.

Lemma injected_storage_trie h acct st : accts !! h = Some (Some acct) -> wit_Storage acct = Some st ->
  injected_storage rng acct = witness_storage rng st.
Proof.
  intros Ha Hs. unfold injected_storage, witness_storage. rewrite Hs. apply storage_agree; [|intros; apply lookup_empty].
  apply NoDup_fmap_2_strong; [|by apply range_ok_nodup]. intros k1 k2 H1 H2. apply (range_ok_elem rng _ _ Hrng), elem_of_dom in H1, H2. by eapply cw_slots.
Qed.

Lemma store_slot_nonzero st l : forall t, nonzero t = t -> nonzero (foldl (store_slot st) t l) = foldl (store_slot st) t l.
Proof.
  induction l as [|k l IH]; intros t Ht; cbn [foldl]; [done|]. apply IH. unfold store_slot. case_decide as Hv; [done|].
  apply map_eq. intros i. rewrite nonzero_lookup. destruct (decide (HexToHash k = i)) as [->|Hne].
  - rewrite lookup_insert_eq. by case_decide.
  - rewrite lookup_insert_ne by done. rewrite <- Ht, nonzero_lookup. destruct (t !! i); [|done]. by repeat case_decide.
Qed.

(** An account of the state and the record of it in the trie. *)
Record recorded (db : Database) (x : account) (d : Account) : Prop := {
  rec_eq : x = mkAcc (Nonce d) (Balance d) (CodeHash d) (a_code x) (a_state x) ∅ false false;
  rec_root : Root d <> zero_hash /\ OpenStorageTrie db (Root d) = Some (a_state x) /\ nonzero (a_state x) = a_state x;
  rec_hash : CodeHash d = keccak256 (a_code x);
  rec_code : a_code x = EmptyString \/ blobs db !! CodeHash d = Some (a_code x);
  rec_known : a_code x = EmptyString \/ exists h acct, accts !! h = Some (Some acct) /\ a_code x = FromHex (wit_Code acct) }.

Record agrees (T0 T : spec_state) (db : Database) : Prop := {
  ag_frame : T = set_accounts T0 (accounts T);
  ag_dom : dom (accounts T) = dom (account_trie db);
  ag_rec : forall a x d, accounts T !! a = Some x -> account_trie db !! a = Some d -> recorded db x d;
  ag_stored : stored_by_hash trie_hash db;
  ag_blob : default EmptyString (blobs db !! keccak256 EmptyString) = EmptyString }.

(** What storing one more account does to the rest of the database. *)
Definition grown (acct : ReplayWitnessAccount) (db db' : Database) : Prop :=
  account_trie db' = account_trie db /\ storage_tries db ⊆ storage_tries db' /\ stored_by_hash trie_hash db' /\
  (blobs db' = blobs db \/ blobs db' = <[keccak256 (FromHex (wit_Code acct)) := FromHex (wit_Code acct)]> (blobs db)).

Lemma recorded_grown h acct db db' x d : accts !! h = Some (Some acct) -> grown acct db db' -> recorded db x d -> recorded db' x d.
Proof.
  intros Ha (_ & Ht & _ & Hb) [H1 (H2 & H3 & H4) H5 H6 H7]. split; auto.
  - split; [done|]. split; [|done]. unfold OpenStorageTrie in *. case_decide; [done|]. by eapply lookup_weaken.
  - destruct H6 as [?|H6]; [by left|]. right. destruct Hb as [-> | ->]; [done|]. destruct (decide (keccak256 (FromHex (wit_Code acct)) = CodeHash d)) as [He|Hne].
    + rewrite <- He, lookup_insert_eq. f_equal. apply Hcodes; [right; eauto|done|]. congruence.
    + by rewrite lookup_insert_ne.
Qed.

Lemma grown_blob h acct db db' : accts !! h = Some (Some acct) -> grown acct db db' ->
  default EmptyString (blobs db !! keccak256 EmptyString) = EmptyString -> default EmptyString (blobs db' !! keccak256 EmptyString) = EmptyString.
Proof.
  intros Ha (_ & _ & _ & [-> | ->]) H; [done|]. destruct (decide (keccak256 (FromHex (wit_Code acct)) = keccak256 EmptyString)) as [He|Hne].
  - rewrite He, lookup_insert_eq. cbn. apply Hcodes; [right; eauto|by left|done].
  - by rewrite lookup_insert_ne.
Qed.

Lemma store_storage_spec h acct db : accts !! h = Some (Some acct) -> stored_by_hash trie_hash db ->
  exists db' r, store_storage trie_hash rng db acct = (db', r) /\ account_trie db' = account_trie db /\ blobs db' = blobs db /\ storage_tries db ⊆ storage_tries db' /\
    stored_by_hash trie_hash db' /\ r <> zero_hash /\ OpenStorageTrie db' r = Some (injected_storage rng acct) /\ nonzero (injected_storage rng acct) = injected_storage rng acct.
Proof.
  intros Ha Hst. unfold store_storage. destruct (wit_Storage acct) as [st|] eqn:Es.
  - rewrite (injected_storage_trie h acct st Ha Es). assert (nonzero (witness_storage rng st) = witness_storage rng st) as Hnz by (unfold witness_storage; apply store_slot_nonzero, map_filter_empty).
    case_decide as Hd.
    + exists db, emptyRoot. assert (witness_storage rng st = ∅) as Hw by (unfold witness_storage; subst st; rewrite dom_empty_L, (range_ok_empty rng Hrng); done).
      rewrite Hw in *. unfold OpenStorageTrie. rewrite decide_True by auto. done.
    + destruct (put_trie_extends trie_hash db (witness_storage rng st) Hst) as ([Hb Hs] & Hst' & Ho).
      eexists _, _. split; [done|]. split; [done|]. split; [done|]. split; [done|]. split; [done|]. split; [apply hash_nonzero|]. done.
  - exists db, emptyRoot. unfold injected_storage. rewrite Es. unfold OpenStorageTrie. rewrite decide_True by auto. done.
Qed.

Lemma store_blob_spec h acct db : accts !! h = Some (Some acct) ->
  exists db', store_blob keccak256 db acct = (db', keccak256 (FromHex (wit_Code acct))) /\ account_trie db' = account_trie db /\ storage_tries db' = storage_tries db /\
    (FromHex (wit_Code acct) = EmptyString \/ blobs db' !! keccak256 (FromHex (wit_Code acct)) = Some (FromHex (wit_Code acct))) /\
    (blobs db' = blobs db \/ blobs db' = <[keccak256 (FromHex (wit_Code acct)) := FromHex (wit_Code acct)]> (blobs db)).
Proof.
  intros Ha. unfold store_blob. destruct (FromHex (wit_Code acct)) as [|c code] eqn:Ec.
  - exists db. rewrite Hkeccak. split_and!; auto.
  - eexists. split; [done|]. cbn. split; [done|]. split; [done|]. split; [right; apply lookup_insert_eq|by right].
Qed.

(** One account more on both sides. *)
Lemma account_agrees T0 T db h lg : accts !! h = Some (mjoin (accts !! h)) -> agrees T0 T db -> (IsHexAddress h = true -> accounts T !! HexToAddress h = None) ->
  exists T' db', espec keccak256 T lg (inject_account rng h (mjoin (accts !! h))) = Ret (T', lg, tt) /\
    build_account keccak256 trie_hash rng db h (mjoin (accts !! h)) = Ret (inl db') /\ agrees T0 T' db' /\
    dom (accounts T') = (if IsHexAddress h then {[HexToAddress h]} else ∅) ∪ dom (accounts T).
Proof.
  intros Hacc [H1 H2 H3 H4 H5] Hnew. destruct (IsHexAddress h) eqn:Eh.
  2: { exists T, db. unfold inject_account, build_account. rewrite Eh. cbn [negb]. split; [done|]. split; [done|]. split; [by split|]. by rewrite (left_id_L ∅ (∪)). }
  destruct (cw_account accts Hcw h _ Hacc Eh) as (acct & Hx & Hbal). rewrite Hx in Hacc |- *. specialize (Hnew eq_refl).
  rewrite (inject_account_spec keccak256 rng T lg h acct Eh Hnew). unfold build_account. rewrite Eh. cbn [negb].
  destruct (store_storage_spec h acct db Hacc H4) as (db1 & r & -> & A1 & A2 & A3 & A4 & A5 & A6 & A7).
  destruct (store_blob_spec h acct db1 Hacc) as (db2 & -> & B1 & B2 & B3 & B4). rewrite bool_decide_false by lia.
  assert (grown acct db db2) as Hg.
  { split; [congruence|]. split; [by rewrite B2|]. split; [|by rewrite <- A2]. intros r' t'. rewrite B2. apply A4. }
  eexists _, _. split; [done|]. split; [done|]. split; [split; cbn|].
  - unfold put_account. rewrite H1 at 1. done.
  - unfold put_account. cbn. by rewrite !dom_insert_L, H2, B1, A1.
  - intros a x d. unfold put_account. cbn. destruct (decide (HexToAddress h = a)) as [<-|Hne].
    + rewrite !lookup_insert_eq. intros [= <-] [= <-]. split; cbn; auto; [|right; eauto]. split; [done|]. split; [|done].
      unfold OpenStorageTrie in *. cbn. by rewrite B2.
    + rewrite !lookup_insert_ne by done. rewrite B1, A1. intros Hxa Hda. destruct (recorded_grown h acct db db2 x d Hacc Hg (H3 a x d Hxa Hda)) as [C1 C2 C3 C4 C5]. by split.
  - intros r' t'. cbn. rewrite B2. apply A4.
  - by apply (grown_blob h acct db).
  - unfold put_account. cbn. by rewrite dom_insert_L.
Qed.
Lemma accounts_agree T0 lg l : NoDup l -> (forall h, h ∈ l -> is_Some (accts !! h)) -> forall T db, agrees T0 T db ->
  (forall h, h ∈ l -> IsHexAddress h = true -> HexToAddress h ∉ dom (accounts T)) ->
  exists T' db', espec keccak256 T lg (efor (fun h => inject_account rng h (mjoin (accts !! h))) l) = Ret (T', lg, tt) /\
    foldM (fun r h => match r with inl db => build_account keccak256 trie_hash rng db h (mjoin (accts !! h)) | inr e => Ret (inr e) end) (inl db) l = Ret (inl db') /\
    agrees T0 T' db'.
Proof.
  induction l as [|h l IH]; intros Hnd Hl T db Hag Hnew; cbn [efor foldM]; [by exists T, db|]. apply NoDup_cons in Hnd as [Hh Hnd].
  destruct (account_agrees T0 T db h lg) as (T1 & db1 & E1 & E2 & Hag1 & Hdom).
  - by destruct (Hl h ltac:(left)) as [x ->].
  - done.
  - intros Eh. apply not_elem_of_dom, Hnew; [left|done].
  - rewrite espec_bind, E1, bind_ret, E2, bind_ret. apply IH; [done|intros; apply Hl; by right|done|].
    intros h' Hh' Eh'. rewrite Hdom, elem_of_union. intros [Hin|Hin]; [|by apply (Hnew h'); [right| |]].
    destruct (IsHexAddress h) eqn:Eh; [|set_solver]. apply elem_of_singleton in Hin. apply Hh.
    rewrite <- (cw_address accts Hcw h' h); [done|apply Hl; by right|apply Hl; left|done..].
Qed.

Lemma agrees_commit T db : agrees (abs keccak256 empty_db NewWithTrie) T db -> abs keccak256 db NewWithTrie = commit_all T.
Proof.
  intros [H1 H2 H3 _ _]. rewrite H1. unfold commit_all, abs, set_accounts. cbn. f_equal. apply map_eq. intros a.
  unfold abs_accounts. rewrite fmap_empty, (left_id_L ∅ (∪)), map_lookup_imap, lookup_fmap.
  destruct (accounts T !! a) as [x|] eqn:Ex; cbn.
  - assert (is_Some (account_trie db !! a)) as [d Hd] by (apply elem_of_dom; rewrite <- H2; by apply elem_of_dom_2 in Ex).
    destruct (H3 a x d Ex Hd) as [C1 (C2 & C3 & C4) C5 C6 _]. rewrite Hd. cbn. f_equal. rewrite (loaded_account keccak256 db a d C2), C3. cbn. rewrite C4.
    assert (code_at keccak256 db (CodeHash d) = a_code x) as ->; [|rewrite C1; done].
    unfold code_at. case_decide as Hc.
    + destruct (rec_known _ _ _ (H3 a x d Ex Hd)) as [->|Hk]; [done|]. symmetry. apply Hcodes; [by right|by left|congruence].
    + destruct C6 as [C6|C6]; [rewrite C6 in C5; congruence|]. rewrite C5, Hkeccak, <- C5, C6. done.
  - assert (account_trie db !! a = None) as ->; [|done]. apply not_elem_of_dom. rewrite <- H2. by apply not_elem_of_dom.
Qed.
Lemma agrees_CodeDB T0 T db : agrees T0 T db -> CodeDB keccak256 db.
Proof.
  intros [_ H2 H3 _ H5]. assert (forall a d, account_trie db !! a = Some d -> exists x, recorded db x d) as Hr.
  { intros a d Hd. assert (is_Some (accounts T !! a)) as [x Hx] by (apply elem_of_dom; rewrite H2; by apply elem_of_dom_2 in Hd). exists x. by eapply H3. }
  split; [done| | | |done]; intros a d Hd; destruct (Hr a d Hd) as [x [C1 (C2 & C3 & C4) C5 C6 _]].
  - by rewrite C5, Hkeccak.
  - destruct C6 as [C6|C6]; [left; by rewrite C5, C6|right; by rewrite C6].
  - by rewrite C3.
Qed.
End agree.

(** C12: on a witness whose addresses and slots are named once, the trie builder
    succeeds, its database is well formed, and a state database opened on it
    has exactly the accounts, balances, nonces, codes and slots of one the
    witness was injected into, every slot being committed. *)
Theorem witness_trie_agrees keccak256 trie_hash rng accts :
  CodeDB keccak256 empty_db -> TrieHash trie_hash -> range_ok rng -> clean_witness accts -> codes_distinct keccak256 accts ->
  exists T db, effect keccak256 (abs keccak256 empty_db NewWithTrie) (injectWitnessIntoStateDB rng (Some accts)) = Ret (T, tt) /\
    BuildWitnessTrie keccak256 trie_hash rng accts = Ret (inl db) /\
    CodeDB keccak256 db /\ stored_by_hash trie_hash db /\ abs keccak256 db NewWithTrie = commit_all T.
Proof.
  intros Hdb Hth Hrng Hcw Hcodes. pose proof (keccak_hash keccak256 (db := empty_db)) as Hk.
  destruct (accounts_agree keccak256 trie_hash rng accts Hrng Hcw Hcodes Hk (abs keccak256 empty_db NewWithTrie) NewRWSetLogger (rng (dom accts)))
    with (T := abs keccak256 empty_db NewWithTrie) (db := empty_db) as (T & db & E1 & E2 & Hag).
  - by apply range_ok_nodup.
  - intros h Hh. by apply (range_ok_elem rng _ _ Hrng), elem_of_dom in Hh.
  - split; [done|done|done|done|exact (empty_blob keccak256 (db := empty_db))].
  - intros h _ _ H. by apply elem_of_dom in H as [? H].
  - exists T, db. unfold effect, injectWitnessIntoStateDB. rewrite E1. split; [done|]. split; [done|].
    split; [by eapply agrees_CodeDB|]. split; [by destruct Hag|by apply (agrees_commit keccak256 trie_hash accts)].
Qed.

(** ** An example: a contract with code, a slot and a zero slot *)
Definition demo_contract : ReplayWitnessAccount := mkWitnessAccount "0x10" "0x1" EmptyString "0x6001" (Some {["0x1" := "0x9"; "0x2" := "0x0"]}).
Definition demo_accounts : gmap string (option ReplayWitnessAccount) := {[contract1 := Some demo_contract; sender := Some (mkWitnessAccount "100" EmptyString EmptyString EmptyString None)]}.

Definition demo_injection := effect toy_keccak (abs toy_keccak empty_db NewWithTrie) (injectWitnessIntoStateDB elements (Some demo_accounts)).

Lemma demo_accounts_inv h x : demo_accounts !! h = Some x ->
  (h = contract1 /\ x = Some demo_contract) \/ (h = sender /\ x = Some (mkWitnessAccount "100" EmptyString EmptyString EmptyString None)).
Proof. unfold demo_accounts. rewrite lookup_insert_Some, lookup_singleton_Some. naive_solver. Qed.

Lemma demo_clean : clean_witness demo_accounts.
Proof.
  split.
  - intros h1 h2 [x1 H1] [x2 H2] _ _. apply demo_accounts_inv in H1 as [[-> _]|[-> _]], H2 as [[-> _]|[-> _]]; [done|vm_compute; discriminate..|done].
  - intros h x [[-> ->]|[-> ->]]%demo_accounts_inv _; (eexists; split; [done|]); vm_compute; discriminate.
  - intros h acct st k1 k2 [[-> [= ->]]|[-> [= ->]]]%demo_accounts_inv; [|discriminate]. intros [= <-] [v1 H1] [v2 H2].
    rewrite lookup_insert_Some, lookup_singleton_Some in H1, H2. destruct H1 as [[<- _]|[_ [<- _]]], H2 as [[<- _]|[_ [<- _]]]; [done|vm_compute; discriminate..|done].
Qed.

Lemma demo_codes : codes_distinct toy_keccak demo_accounts.
Proof.
  intros c1 c2 H1 H2. assert (forall c, (c = EmptyString \/ exists h acct, demo_accounts !! h = Some (Some acct) /\ c = FromHex (wit_Code acct)) -> c = EmptyString \/ c = FromHex "0x6001") as Hc.
  { intros c [->|(h & acct & [[_ [= ->]]|[_ [= ->]]]%demo_accounts_inv & ->)]; [by left|by right|by left]. }
  apply Hc in H1 as [->| ->], H2 as [->| ->]; [done|vm_compute; discriminate..|done].
Qed.

Lemma witness_trie_agrees_witness :
  exists db, BuildWitnessTrie toy_keccak toy_trie_hash elements demo_accounts = Ret (inl db) /\
    exists T, abs toy_keccak db NewWithTrie = commit_all T /\ is_Some (accounts T !! HexToAddress contract1).
Proof.
  destruct (witness_trie_agrees toy_keccak toy_trie_hash elements demo_accounts _ _ range_ok_elements demo_clean demo_codes) as (T & db & H1 & H2 & _ & _ & H3).
  exists db. split; [exact H2|]. exists T. split; [exact H3|].
  assert (match demo_injection with
          | Ret (T, _) => bool_decide (is_Some (accounts T !! HexToAddress contract1)) | _ => false end = true) as Hv by (vm_compute; reflexivity).
  assert (demo_injection = Ret (T, tt)) as H1' by exact H1. rewrite H1' in Hv. by apply bool_decide_eq_true in Hv.
Defined.
