(* ===== verification/SerialReplay.v ===== *)
(** * Serial replay: the last phase of both replay modes of [test_replay.go]

    Transactions that were not committed in parallel are executed one after the
    other on one worker whose state accumulates: the first through
    [ReExecuteCommit] with the overlay of committed writes, the others through
    [PreExecuteCommit], each followed by [FinaliseSerial].  The serial baseline
    is the same loop over the whole block.  The theorem describes the loop by
    the contents of the database: every transaction runs on the state its
    predecessor left, with self-destructed and touched empty accounts gone,
    every slot committed and the refund counter empty. *)
From stdpp Require Import base gmap sets list strings.
From Stdlib Require Import ZArith Lia.
From S2P Require Import Prelude RWSet GoText StateDB StateSpec SharedTrie HexKeys Execution ReplayAdapter Levm SpecFallback WitnessTrie.

Set Default Goal Selector "!".
Local Open Scope list_scope.

(** ** The loop *)
Record serial_state := mkSerial { replayer : LevmSpecFallback; committedDelta : gmap string string; firstDone : bool; serialReplayed : nat }.

Section serial.
Context (keccak256 : string -> Hash) (run : Context -> Contract -> string -> eprog frame_result).
Context (rng : gset string -> list string) (rng_hash : gset Hash -> list Hash) (range_addrs : gset Address -> list Address) (undefined_big : string -> Z).

(** The error of an uninitialised worker only prints a warning. *)
Definition FinaliseSerial (f : LevmSpecFallback) : LevmSpecFallback :=
  match lvm f with Some s => set_lvm f (Finalise keccak256 range_addrs true s) | None => f end.

Definition merge_result (delta : gmap string string) (result : option result_and_delta) (err : option fallback_error) : gmap string string :=
  match err, result with None, Some (r, _) => WriteValues r ∪ delta | _, _ => delta end.

Definition serial_tx (db : Database) (fromBlock now : Z) (st : serial_state) (txIdx : Z) : outcome serial_state :=
  (if firstDone st then
     PreExecuteCommit keccak256 run rng_hash undefined_big db (replayer st) fromBlock txIdx now ≫= fun '(f, _) => Ret (f, committedDelta st)
   else
     ReExecuteCommit keccak256 run rng rng_hash undefined_big db (replayer st) fromBlock txIdx now (Some (committedDelta st)) ≫= fun '(f, (result, err)) =>
     Ret (f, merge_result (committedDelta st) result err)) ≫= fun '(f, delta) =>
  Ret (mkSerial (FinaliseSerial f) delta true (S (serialReplayed st))).

(** [clock] is the time at which a transaction is executed; a transaction
    without index is skipped. *)
Definition serial_replay (db : Database) (fromBlock : Z) (clock : string -> Z) (txIDToIdx : gmap string Z) (st : serial_state) (serialReplayList : list string) :
    outcome serial_state :=
  foldM (fun st txID => match txIDToIdx !! txID with Some txIdx => serial_tx db fromBlock (clock txID) st txIdx | None => Ret st end) st serialReplayList.

(** [serialOK] and [serialFail] of the baseline. *)
Definition baseline_tx (db : Database) (fromBlock : Z) (clock : nat -> Z) (st : LevmSpecFallback * nat * nat) (txIdx : nat) : outcome (LevmSpecFallback * nat * nat) :=
  let '(f, ok, fail) := st in
  PreExecuteCommit keccak256 run rng_hash undefined_big db f fromBlock (Z.of_nat txIdx) (clock txIdx) ≫= fun '(f, (rw, err)) =>
  let f := FinaliseSerial f in
  match err, rw with
  | None, Some rw => Ret (if Success rw then (f, S ok, fail) else (f, ok, S fail))
  | _, _ => Ret (f, ok, S fail)
  end.
Definition serial_baseline (db : Database) (fromBlock : Z) (clock : nat -> Z) (f : LevmSpecFallback) : outcome (LevmSpecFallback * nat * nat) :=
  foldM (baseline_tx db fromBlock clock) (f, 0, 0) (seq 0 (length (txs f))).

(** ** What a transaction does to the contents *)
Definition spec_PreExecuteCommit (T : spec_state) (blockNum txIdx now : Z) (tx : RawTransaction) : outcome (spec_state * (option ReplayRWSet * option fallback_error)) :=
  let '(from, toPtr, ethTx) := buildEthTxFromRaw undefined_big tx in
  '(T, r) ← effect keccak256 T (replay keccak256 run blockNum now from ethTx);
  Ret (T, (Some (rwset_of keccak256 rng_hash blockNum txIdx tx toPtr r), None)).

Definition spec_ReExecuteCommit (T : spec_state) (blockNum now : Z) (overlay : option (gmap string string)) (tx : RawTransaction) :
    outcome (spec_state * (option result_and_delta * option fallback_error)) :=
  let '(from, toPtr, ethTx) := buildEthTxFromRaw undefined_big tx in
  '(T, _) ← effect keccak256 T (match overlay with Some o => applyStateOverride rng o | None => mret tt end);
  '(T, r) ← effect keccak256 T (replay keccak256 run blockNum now from ethTx);
  let realReadKeys := storageKeysToStrings keccak256 rng_hash (rMap r) (contractAddr_of toPtr) in
  let realWriteKeys := storageKeysToStrings keccak256 rng_hash (wMap r) (contractAddr_of toPtr) in
  '(T, collected) ← effect keccak256 T (ecollect (delta_and_value (rMap r) (wMap r) (default ∅ overlay)) ∅ realWriteKeys);
  Ret (T, (Some (mkResult realReadKeys realWriteKeys (snd <$> collected), fst <$> collected), replay_error r)).

(** ** The end of a transaction *)
Definition delete_account (x : account) : account :=
  mkAcc (a_nonce x) (a_balance x) (a_codehash x) (a_code x) (a_state x) (a_committed x) (a_suicided x) true.
Definition final_account (x : account) : account := if a_suicided x || acc_empty keccak256 x then delete_account x else commit_account x.

(** [T'] is the state after the end of a transaction that took [B] to [T]; [D]
    are the accounts it touched. *)
Definition settled (B T T' : spec_state) : Prop := exists D : gset Address,
  (forall a, accounts T' !! a = if decide (a ∈ D) then final_account <$> accounts T !! a else accounts T !! a) /\
  (forall a, a ∉ D -> accounts T !! a = accounts B !! a \/ exists z, accounts T !! a = Some (set_balance (fresh_account keccak256) z)) /\
  (T' = set_accounts (set_refund T 0) (accounts T') \/ T = B /\ T' = set_accounts T (accounts T')).
End serial.

(** ** Finalising on the contents *)
Section finalise.
Context (keccak256 : string -> Hash) (range_addrs : gset Address -> list Address) (Hrange : range_ok range_addrs) (db : Database).

Lemma abs_final_object o : abs_object keccak256 db (final_object keccak256 true o) = final_account keccak256 (abs_object keccak256 db o).
Proof.
  unfold final_object, final_account. assert (acc_empty keccak256 (abs_object keccak256 db o) = obj_empty keccak256 o) as -> by done. cbn [andb].
  change (a_suicided (abs_object keccak256 db o)) with (suicided o). destruct (suicided o || obj_empty keccak256 o); [done|].
  unfold commit_account, abs_object, committed_view, trie_view. cbn. by rewrite (left_id_L ∅ (∪)), <- !(assoc_L (∪)).
Qed.

Lemma Finalise_at_rest B s m : sim keccak256 db B s m -> at_rest keccak256 db (Finalise keccak256 range_addrs true s).
Proof.
  intros H. destruct (Finalise_spec keccak256 range_addrs Hrange true s) as (H1 & H2 & H3). destruct (Finalise_ended keccak256 range_addrs true s) as (E1 & E2 & E3 & E4).
  destruct (sim_wf _ _ _ _ _ H) as [W1 W2 W3 W4 W5]. set (s' := Finalise keccak256 range_addrs true s) in *.
  assert (entries (jrnl s') = [] /\ tracked [] (jrnl s')) as Hj.
  { rewrite E1. destruct (entries (jrnl s)) eqn:E; [split; [done|]|done]. pose proof (sim_tracked _ _ _ _ _ H) as Ht. by rewrite E in Ht. }
  split; [|done|done|].
  - split; rewrite ?E3, ?E4; try done.
    + intros a o. rewrite H1. case_decide; [|apply W1]. destruct (stateObjects s !! a) as [u|] eqn:Eu; [|done]. intros [= <-].
      destruct (W1 a u Eu) as [Hua Hok]. destruct (final_ok keccak256 true db u Hok) as [Hf Hfa]. by rewrite Hfa.
    + intros e He. rewrite (proj1 Hj) in He. by apply elem_of_nil in He.
    + intros a Ha. apply elem_of_dom. rewrite H1. assert (is_Some (stateObjects s !! a)) as Hs.
      { apply elem_of_union in Ha as [Ha|Ha]; [apply H2 in Ha|apply H3 in Ha]; (destruct Ha as [Ha|[_ Ha]]; [apply elem_of_dom, W5; set_solver|done]). }
      case_decide; [by apply fmap_is_Some|done].
  - apply set_eq. intros a. rewrite H2, H3. by destruct (sim_sets _ _ _ _ _ H) as [-> ->].
Qed.

Lemma foldl_finalise_frame del l : forall s, let s' := foldl (finalise_address keccak256 del) s l in
  jrnl s' = jrnl s /\ refund s' = refund s /\ thash s' = thash s /\ bhash s' = bhash s /\ txIndex s' = txIndex s /\ logs s' = logs s /\ logSize s' = logSize s /\ preimages s' = preimages s.
Proof.
  induction l as [|a l IH]; intros s; [done|]. cbn [foldl]. destruct (IH (finalise_address keccak256 del s a)) as (-> & -> & -> & -> & -> & -> & -> & ->).
  unfold finalise_address. by destruct (stateObjects s !! a).
Qed.

Lemma Finalise_settled B s m : sim keccak256 db B s m -> settled keccak256 (base_state B) (abs keccak256 db s) (abs keccak256 db (Finalise keccak256 range_addrs true s)).
Proof.
  intros H. destruct (Finalise_spec keccak256 range_addrs Hrange true s) as (H1 & _ & _).
  exists (filter (fun a => is_Some (stateObjects s !! a)) (dom (dirties (jrnl s)))). split_and!.
  - intros a. cbn [abs accounts]. rewrite !abs_lookup, H1. destruct (decide (a ∈ filter _ _)) as [Ha|Ha].
    + apply elem_of_filter in Ha as [[o Ho] Ha]. rewrite decide_True, Ho by done. cbn. by rewrite abs_final_object.
    + case_decide as Hd; [|done]. destruct (stateObjects s !! a) as [o|] eqn:Eo; [|done]. destruct Ha. apply elem_of_filter. by rewrite Eo.
  - intros a Ha. apply (untouched_account keccak256 db B s m a H). intros [Hd Ho]. apply Ha. by apply elem_of_filter.
  - unfold Finalise. set (l := range_addrs _). destruct (foldl_finalise_frame true l s) as (E0 & E1 & E2 & E3 & E4 & E5 & E6 & E7).
    set (s1 := foldl _ _ _) in *. unfold clearJournalAndRefund. rewrite E0. destruct (entries (jrnl s)) eqn:Ee.
    + right. split; [|unfold abs, set_accounts; cbn; by rewrite E1, E2, E3, E4, E5, E6, E7]. pose proof (sim_base _ _ _ _ _ H) as Hb. rewrite Ee in Hb. by injection Hb.
    + left. unfold abs, set_accounts, set_refund. cbn. by rewrite E2, E3, E4, E5, E6, E7.
Qed.
End finalise.

(** ** Calls that keep their effects *)
Section commits.
Context (keccak256 : string -> Hash) (run : Context -> Contract -> string -> eprog frame_result).
Context (rng : gset string -> list string) (rng_hash : gset Hash -> list Hash) (range_addrs : gset Address -> list Address) (undefined_big : string -> Z).
Context (Hrun : forall ctx c input, framed (run ctx c input)).

Definition advances {A} (m : spec_machine) (p : prog A) (o : outcome (spec_state * A)) : Prop :=
  match o with
  | Ret (T, a) => exists m', spec_prog keccak256 m p = Ret (m', a) /\ current m' = T /\ kept m m'
  | Panics => spec_prog keccak256 m p = Panics
  | Diverges => False
  end.

Lemma PreExecuteCommit_advances m b i now tx : numbered m ->
  advances m (PreExecuteCommit_tx keccak256 run rng_hash undefined_big b i now tx) (spec_PreExecuteCommit keccak256 run rng_hash undefined_big (current m) b i now tx).
Proof.
  intros Hm. unfold PreExecuteCommit_tx, spec_PreExecuteCommit. destruct (buildEthTxFromRaw undefined_big tx) as [[from toPtr] ethTx].
  pose proof (plainly_step keccak256 m _ (framed_replay keccak256 run Hrun b now from ethTx) Hm) as H. unfold plain_step, advances in *.
  destruct (effect keccak256 (current m) (replay keccak256 run b now from ethTx)) as [[T r]| |]; rewrite ?bind_ret; [|by apply H|done].
  destruct H as (m1 & HT & Hk & Hstep). rewrite Hstep. by exists m1.
Qed.

Lemma framed_delta_and_value rm wm o key : framed (delta_and_value rm wm o key).
Proof. unfold delta_and_value, captured_or_state. framing. Qed.

Lemma ReExecuteCommit_advances m b now overlay tx : numbered m ->
  advances m (ReExecuteCommit_tx keccak256 run rng rng_hash undefined_big b now overlay tx) (spec_ReExecuteCommit keccak256 run rng rng_hash undefined_big (current m) b now overlay tx).
Proof.
  intros Hm. unfold ReExecuteCommit_tx, spec_ReExecuteCommit. destruct (buildEthTxFromRaw undefined_big tx) as [[from toPtr] ethTx].
  set (apply := match overlay with Some o => applyStateOverride rng o | None => mret tt end).
  assert (framed apply) as Hfa by (unfold apply; destruct overlay; [apply framed_override|done]).
  pose proof (plainly_step keccak256 m _ Hfa Hm) as H1. unfold plain_step, advances in *.
  destruct (effect keccak256 (current m) apply) as [[T1 u]| |]; rewrite ?bind_ret; [|by apply H1|done].
  destruct H1 as (m1 & <- & Hk1 & ->). pose proof (plainly_step keccak256 m1 _ (framed_replay keccak256 run Hrun b now from ethTx) (proj2 (proj2 Hk1))) as H2. unfold plain_step in H2.
  destruct (effect keccak256 (current m1) (replay keccak256 run b now from ethTx)) as [[T2 r]| |]; rewrite ?bind_ret; [|by apply H2|done].
  destruct H2 as (m2 & <- & Hk2 & ->). cbv zeta. set (keys := storageKeysToStrings keccak256 rng_hash (wMap r) (contractAddr_of toPtr)).
  pose proof (plainly_step keccak256 m2 _ (framed_ecollect (delta_and_value (rMap r) (wMap r) (default ∅ overlay)) keys (framed_delta_and_value _ _ _) ∅) (proj2 (proj2 Hk2))) as H3.
  unfold plain_step in H3. destruct (effect keccak256 (current m2) (ecollect _ ∅ keys)) as [[T3 c]| |]; rewrite ?bind_ret; [|by apply H3|done].
  destruct H3 as (m3 & HT & Hk3 & ->). exists m3. split; [done|]. split; [done|]. by eapply kept_trans, kept_trans.
Qed.

(** [f] works on the contents [T]; its journal started at [B]. *)
Definition working (db : Database) (f : LevmSpecFallback) (B T : spec_state) : Prop :=
  exists s P m, lvm f = Some s /\ sim keccak256 db (mkBase B P) s m /\ current m = T.

Lemma working_ready db f B T : working db f B T -> ready keccak256 db f T.
Proof. intros (s & P & m & H1 & H2 & H3). exists s. split; [done|]. by exists (mkBase B P), m. Qed.

Definition spec_at {R} (f : LevmSpecFallback) (T : spec_state) (txIdx : Z) (o : RawTransaction -> outcome (spec_state * (option R * option fallback_error))) :
    outcome (spec_state * (option R * option fallback_error)) :=
  match tx_at f txIdx with inr e => Ret (T, (None, Some e)) | inl tx => o tx end.

Context (db : Database) `{!CodeDB keccak256 db}.

Lemma on_lvm_advances {R} f B T i (p : RawTransaction -> prog (option R * option fallback_error)) o :
  working db f B T -> (forall m tx, numbered m -> current m = T -> advances m (p tx) (o tx)) ->
  match spec_at f T i o with
  | Ret (T', r) => exists f', on_lvm keccak256 db f i p = Ret (f', r) /\ working db f' B T' /\ same_block f f'
  | Panics => on_lvm keccak256 db f i p = Panics
  | Diverges => False
  end.
Proof.
  intros (s & P & m & Hs & Hsim & HT) Hp. unfold on_lvm, spec_at. rewrite Hs. destruct (tx_at f i) as [tx|e].
  2: { exists f. split; [done|]. split; [|done]. by exists s, P, m. }
  specialize (Hp m tx (sim_numbered _ _ _ _ _ Hsim) HT). unfold advances in Hp. pose proof (prog_refines keccak256 db (mkBase B P) (p tx) s m Hsim) as Hr.
  destruct (o tx) as [[T' r]| |]; [|by rewrite Hp in Hr; rewrite Hr|done].
  destruct Hp as (m' & Hm & HT' & _). rewrite Hm in Hr. destruct Hr as (s' & -> & Hs'). rewrite bind_ret. eexists. split; [done|]. split; [|done].
  by exists s', P, m'.
Qed.

(** ** Serial runs of the specification *)
Context (f0 : LevmSpecFallback) (fromBlock : Z) (clock : string -> Z) (txIDToIdx : gmap string Z).

Definition spec_serial_tx (T : spec_state) (delta : gmap string string) (done : bool) (now txIdx : Z) : outcome (spec_state * gmap string string) :=
  if done then
    '(T, _) ← spec_at f0 T txIdx (spec_PreExecuteCommit keccak256 run rng_hash undefined_big T fromBlock txIdx now); Ret (T, delta)
  else
    '(T, (result, err)) ← spec_at f0 T txIdx (spec_ReExecuteCommit keccak256 run rng rng_hash undefined_big T fromBlock now (Some delta)); Ret (T, merge_result delta result err).

(** The run of a list of transactions from contents [T] whose journal started
    at [B]. *)
Inductive serial_runs : spec_state -> spec_state -> gmap string string -> bool -> list string -> outcome (spec_state * gmap string string) -> Prop :=
| runs_end B T delta done : serial_runs B T delta done [] (Ret (T, delta))
| runs_skip B T delta done t l o : txIDToIdx !! t = None -> serial_runs B T delta done l o -> serial_runs B T delta done (t :: l) o
| runs_panic B T delta done t l i : txIDToIdx !! t = Some i -> spec_serial_tx T delta done (clock t) i = Panics -> serial_runs B T delta done (t :: l) Panics
| runs_tx B T delta done t l i T1 T2 delta1 o : txIDToIdx !! t = Some i -> spec_serial_tx T delta done (clock t) i = Ret (T1, delta1) ->
    settled keccak256 B T1 T2 -> serial_runs T2 T2 delta1 true l o -> serial_runs B T delta done (t :: l) o.

Context (Hrange : range_ok range_addrs).

Lemma FinaliseSerial_spec f B T : working db f B T ->
  exists T', settled keccak256 B T T' /\ working db (FinaliseSerial keccak256 range_addrs f) T' T' /\ same_block f (FinaliseSerial keccak256 range_addrs f).
Proof.
  intros (s & P & m & Hs & Hsim & HT). unfold FinaliseSerial. rewrite Hs. set (s' := Finalise keccak256 range_addrs true s).
  exists (abs keccak256 db s'). split; [rewrite <- HT, <- (sim_abs _ _ _ _ _ Hsim); by apply (Finalise_settled keccak256 range_addrs Hrange db (mkBase B P) s m)|].
  split; [|done]. exists s', (stateObjectsPending s'), (start_machine keccak256 db s'). split; [done|]. split; [|done].
  apply sim_rest; [|done]. by eapply Finalise_at_rest.
Qed.

Lemma same_block_trans f1 f2 f3 : same_block f1 f2 -> same_block f2 f3 -> same_block f1 f3.
Proof. intros [H1 H2] [H3 H4]. split; congruence. Qed.

Lemma call_finalised {R} f B T i (p : RawTransaction -> prog (option R * option fallback_error)) o :
  working db f B T -> same_block f0 f -> (forall m tx, numbered m -> current m = T -> advances m (p tx) (o tx)) ->
  match spec_at f0 T i o with
  | Ret (T1, r) => exists f1 T2, on_lvm keccak256 db f i p = Ret (f1, r) /\ settled keccak256 B T1 T2 /\
      working db (FinaliseSerial keccak256 range_addrs f1) T2 T2 /\ same_block f0 (FinaliseSerial keccak256 range_addrs f1)
  | Panics => on_lvm keccak256 db f i p = Panics
  | Diverges => False
  end.
Proof.
  intros Hw Hb Hp. pose proof (on_lvm_advances f B T i p o Hw Hp) as H. assert (spec_at f T i o = spec_at f0 T i o) as E by (unfold spec_at, tx_at; by rewrite (proj1 Hb)).
  rewrite E in H. destruct (spec_at f0 T i o) as [[T1 r]| |]; [|done..]. destruct H as (f1 & -> & Hw1 & Hb1).
  destruct (FinaliseSerial_spec f1 B T1 Hw1) as (T2 & Hs & Hw2 & Hb2). exists f1, T2. split; [done|]. split; [done|]. split; [done|].
  by eapply same_block_trans, same_block_trans.
Qed.

Lemma serial_tx_spec st B T t i : working db (replayer st) B T -> same_block f0 (replayer st) ->
  match spec_serial_tx T (committedDelta st) (firstDone st) (clock t) i with
  | Ret (T1, delta) => exists f' T2, serial_tx keccak256 run rng rng_hash range_addrs undefined_big db fromBlock (clock t) st i = Ret (mkSerial f' delta true (S (serialReplayed st))) /\
      settled keccak256 B T1 T2 /\ working db f' T2 T2 /\ same_block f0 f'
  | Panics => serial_tx keccak256 run rng rng_hash range_addrs undefined_big db fromBlock (clock t) st i = Panics
  | Diverges => False
  end.
Proof.
  intros Hw Hb. unfold serial_tx, spec_serial_tx, PreExecuteCommit, ReExecuteCommit. destruct (firstDone st).
  - pose proof (call_finalised _ B T i (PreExecuteCommit_tx keccak256 run rng_hash undefined_big fromBlock i (clock t))
      (spec_PreExecuteCommit keccak256 run rng_hash undefined_big T fromBlock i (clock t)) Hw Hb) as H.
    destruct (spec_at f0 T i _) as [[T1 r]| |]; rewrite ?bind_ret; (destruct H as (f1 & T2 & -> & H) || rewrite H || destruct H); try done; try (intros; subst; by apply PreExecuteCommit_advances).
    eexists _, T2. by rewrite !bind_ret.
  - pose proof (call_finalised _ B T i (ReExecuteCommit_tx keccak256 run rng rng_hash undefined_big fromBlock (clock t) (Some (committedDelta st)))
      (spec_ReExecuteCommit keccak256 run rng rng_hash undefined_big T fromBlock (clock t) (Some (committedDelta st))) Hw Hb) as H.
    destruct (spec_at f0 T i _) as [[T1 [result err]]| |]; rewrite ?bind_ret; (destruct H as (f1 & T2 & -> & H) || rewrite H || destruct H); try done; try (intros; subst; by apply ReExecuteCommit_advances).
    eexists _, T2. by rewrite !bind_ret.
Qed.

Lemma serial_loop l : forall st B T, working db (replayer st) B T -> same_block f0 (replayer st) ->
  exists o, serial_runs B T (committedDelta st) (firstDone st) l o /\
    match o with
    | Ret (T', delta) => exists st', serial_replay keccak256 run rng rng_hash range_addrs undefined_big db fromBlock clock txIDToIdx st l = Ret st' /\
        committedDelta st' = delta /\ serialReplayed st' = serialReplayed st + length (filter (fun t => is_Some (txIDToIdx !! t)) l) /\ exists B', working db (replayer st') B' T'
    | Panics => serial_replay keccak256 run rng rng_hash range_addrs undefined_big db fromBlock clock txIDToIdx st l = Panics
    | Diverges => False
    end.
Proof.
  unfold serial_replay. induction l as [|t l IH]; intros st B T Hw Hb; cbn [foldM].
  - eexists. split; [apply runs_end|]. exists st. cbn. rewrite Nat.add_0_r. eauto.
  - rewrite filter_cons. destruct (txIDToIdx !! t) as [i|] eqn:Et.
    + rewrite decide_True by done. pose proof (serial_tx_spec st B T t i Hw Hb) as H.
      destruct (spec_serial_tx T (committedDelta st) (firstDone st) (clock t) i) as [[T1 delta]| |] eqn:Es; [|exists Panics; split; [by eapply runs_panic|by rewrite H]|done].
      destruct H as (f' & T2 & -> & Hs & Hw2 & Hb2). rewrite bind_ret. destruct (IH (mkSerial f' delta true (S (serialReplayed st))) T2 T2 Hw2 Hb2) as (o & Ho & Hm).
      exists o. split; [by eapply runs_tx|]. destruct o as [[T' delta']| |]; [|done..]. destruct Hm as (st' & H1 & H2 & H3 & H4). exists st'. cbn in *. split_and!; try done. lia.
    + rewrite decide_False by (intros [? ?]; done). rewrite bind_ret. destruct (IH st B T Hw Hb) as (o & Ho & Hm). exists o. split; [by eapply runs_skip|done].
Qed.

(** Between transactions every slot is committed and nothing waits for
    deletion. *)
Definition quiet_state (T : spec_state) : Prop := forall a x, live T a = Some x -> a_committed x = a_state x /\ a_suicided x = false.

Lemma settled_quiet B T T' : quiet_state B -> settled keccak256 B T T' -> quiet_state T'.
Proof.
  intros HB (D & H1 & H2 & _) a x. unfold live. rewrite H1. destruct (decide (a ∈ D)) as [Ha|Ha].
  - destruct (accounts T !! a) as [y|]; [|done]. cbn. unfold final_account. destruct (a_suicided y || acc_empty keccak256 y) eqn:E; [done|]. cbn.
    destruct (a_deleted y); [done|]. intros [= <-]. cbn. by apply orb_false_iff in E as [-> _].
  - destruct (H2 a Ha) as [-> | [z ->]]; [apply HB|]. cbn. by intros [= <-].
Qed.

Lemma runs_quiet B T delta b l o : quiet_state B -> serial_runs B T delta b l o ->
  match o with Ret (T', _) => T' = T \/ quiet_state T' | _ => True end.
Proof.
  intros HB Hr. revert HB. induction Hr as [B T delta b|B T delta b t l o Hi Hr IH|B T delta b t l i Hi Hp|B T delta b t l i T1 T2 delta1 o Hi Ht Hs Hr IH]; intros HB; [by left|exact (IH HB)|done|].
  pose proof (settled_quiet _ _ _ HB Hs) as HT2. specialize (IH HT2). destruct o as [[T' d]| |]; [|done..]. right. by destruct IH as [->|?].
Qed.
End commits.


(** ** Workers on a trie *)
Lemma trie_worker_working keccak256 db `{!CodeDB keccak256 db} transactions blockNum :
  working keccak256 db (mkFallback (Some NewWithTrie) transactions blockNum) (abs keccak256 db NewWithTrie) (abs keccak256 db NewWithTrie).
Proof. exists NewWithTrie, ∅, (start_machine keccak256 db NewWithTrie). split; [done|]. split; [|done]. apply sim_start; [done|apply clean_new|done]. Qed.

Lemma trie_quiet keccak256 db : quiet_state (abs keccak256 db NewWithTrie).
Proof.
  intros a x. unfold live. cbn [accounts abs]. rewrite abs_lookup. cbn [stateObjects NewWithTrie]. rewrite lookup_empty.
  destruct (account_trie db !! a) as [d|]; [|done]. cbn [fmap option_fmap option_map]. unfold newObject.
  case_decide; intros [= <-]; cbn; unfold committed_view; cbn; by rewrite !(left_id_L ∅ (∪)).
Qed.

(** ** An example: two transactions, the first on a committed slot *)
Definition demo_serial : serial_state := mkSerial (mkFallback (Some NewWithTrie) demo_block 1) {[levmKey toy_keccak (HexToAddress contract1) (BigToHash 1) := "0x9"]} false 0.
Definition demo_index : gmap string Z := {["a" := 0%Z; "b" := 1%Z]}.
Definition demo_list : list string := ["a"; "b"; "c"].
Definition demo_serial_run : outcome serial_state :=
  serial_replay toy_keccak demo_run elements elements elements (fun _ => 0%Z) empty_db 1 (fun _ => 0%Z) demo_index demo_serial demo_list.

