(* ===== verification/BlockCommit.v ===== *)
(** * The commit at the end of a block ([CommitTrie], [IntermediateRootHash])

    After serial replay a worker finalises its state, computes the roots of the
    accounts it changed, and commits storage tries and codes to the database.
    The theorem says that a state database opened on the result has the contents
    the worker had, with every slot committed, deleted accounts gone and new
    codes stored; and that the database is well formed again, so that everything
    proved about a worker on a trie holds of it. *)
From stdpp Require Import base gmap sets list strings.
From Stdlib Require Import ZArith Lia.
From S2P Require Import Prelude RWSet GoText StateDB StateSpec SharedTrie HexKeys Execution ReplayAdapter Levm SpecFallback WitnessTrie SerialReplay.

Set Default Goal Selector "!".
Local Open Scope list_scope.

Section commit.
Context (keccak256 : string -> Hash) (trie_hash : Storage -> Hash) (range_addrs : gset Address -> list Address).

(** The commit of the trie database to disk leaves the contents alone. *)
Definition fb_CommitTrie (db : Database) (f : LevmSpecFallback) : outcome (Database * LevmSpecFallback * option string) :=
  match lvm f with
  | None => Ret (db, f, Some "LevmSpecFallback: lvm not initialized")
  | Some s =>
    IntermediateRoot keccak256 trie_hash range_addrs false db s ≫= fun '(db, s) =>
    Commit keccak256 trie_hash range_addrs false db s ≫= fun '(db, s, err) =>
    Ret (db, set_lvm f s, if err : bool then Some "stateDB Commit" else None)
  end.

Definition IntermediateRootHash (db : Database) (f : LevmSpecFallback) : outcome (Database * LevmSpecFallback * option string) :=
  match lvm f with
  | None => Ret (db, f, Some "LevmSpecFallback: lvm not initialized")
  | Some s => IntermediateRoot keccak256 trie_hash range_addrs true db s ≫= fun '(db, s) => Ret (db, set_lvm f s, None)
  end.

(** What the commit makes of an account. *)
Definition reopened (x : account) : option account :=
  if a_deleted x then None
  else Some (mkAcc (a_nonce x) (a_balance x) (a_codehash x) (a_code x) (a_state x) (a_state x) false false).

(** The code hash determines the code among the accounts of the contents and of
    the trie. *)
Definition mentioned (db : Database) (T : spec_state) (x : account) : Prop :=
  exists a, accounts T !! a = Some x \/ accounts (abs keccak256 db NewWithTrie) !! a = Some x.
Record codes_agree (db : Database) (T : spec_state) : Prop := {
  ca_same : forall x y, mentioned db T x -> mentioned db T y -> a_codehash x = a_codehash y -> a_code x = a_code y;
  ca_empty : forall x, mentioned db T x -> a_codehash x = keccak256 EmptyString -> a_code x = EmptyString }.
End commit.

(** ** Objects whose root is computed *)
Section rooted.
Context (keccak256 : string -> Hash) (trie_hash : Storage -> Hash).

Definition root_object (db : Database) (o : stateObject) : stateObject := if deleted o then o else updateRoot trie_hash db o.

Lemma updateTrie_shape db o : let o' := updateTrie db o in
  pendingStorage o' = ∅ /\ dirtyStorage o' = ∅ /\ code o' = code o /\ dirtyCode o' = dirtyCode o /\ address o' = address o /\ data o' = data o /\ deleted o' = deleted o /\ suicided o' = suicided o.
Proof.
  cbn zeta. unfold updateTrie. destruct (getTrie db (obj_finalise o)) as [o1 t1] eqn:E. apply getTrie_spec in E as (_ & _ & Ho & _).
  destruct (map_fold _ _ _) as [og t]. by destruct Ho as [[err ->] | ->].
Qed.

Lemma updateTrie_tries db db' o : storage_tries db = storage_tries db' -> updateTrie db o = updateTrie db' o.
Proof. intros H. unfold updateTrie, getTrie, OpenStorageTrie. by rewrite H. Qed.

Lemma root_tries db db' o : storage_tries db = storage_tries db' -> root_object db o = root_object db' o.
Proof. intros H. unfold root_object, updateRoot. by rewrite (updateTrie_tries db db' o H). Qed.

Lemma root_address_kept db o : address (root_object db o) = address o /\ deleted (root_object db o) = deleted o.
Proof. unfold root_object. destruct (deleted o) eqn:E; [done|]. destruct (updateTrie_shape db o) as (_ & _ & _ & _ & H & _ & H' & _). by rewrite <- E. Qed.

Definition rooted (o : stateObject) (t : Storage) : Prop :=
  trie o = Some t /\ pendingStorage o = ∅ /\ dirtyStorage o = ∅ /\ Root (data o) = trie_hash t /\ obj_dbErr o = false.

Lemma rooted_trie db o t : rooted o t -> updateTrie db o = o.
Proof.
  intros (H1 & H2 & H3 & _). destruct o as [ad dt er tr co og pe di fa dc su de]. cbn in *. subst. unfold updateTrie, getTrie, obj_finalise. cbn. done.
Qed.

Lemma rooted_root db o t : rooted o t -> updateRoot trie_hash db o = o.
Proof.
  intros H. unfold updateRoot. rewrite (rooted_trie db o t H). destruct H as (H1 & _ & _ & H2 & _). unfold storage_trie. rewrite H1. cbn.
  destruct o as [ad [no ba ro ch] er tr co og pe di fa dc su de]. cbn in *. by rewrite <- H2.
Qed.

Lemma rooted_finalise o t : rooted o t -> obj_finalise o = o.
Proof. intros (_ & H2 & H3 & _). destruct o as [ad dt er tr co og pe di fa dc su de]. cbn in *. by subst. Qed.

Lemma updateRoot_rooted db o : object_ok keccak256 db o -> exists t, rooted (updateRoot trie_hash db o) t /\
  data (updateRoot trie_hash db o) = mkAccount (Nonce (data o)) (Balance (data o)) (trie_hash t) (CodeHash (data o)) /\
  nonzero t = nonzero (dirtyStorage o ∪ committed_view db o) /\ code (updateRoot trie_hash db o) = code o /\ dirtyCode (updateRoot trie_hash db o) = dirtyCode o.
Proof.
  intros Hok. destruct (updateTrie_spec keccak256 db o Hok) as (t & H1 & H2 & _ & H3 & _ & H4). destruct (updateTrie_shape db o) as (S1 & S2 & S3 & S4 & _).
  assert (storage_trie (updateTrie db o) = t) as Ht by (unfold storage_trie; by rewrite H1). exists t. unfold updateRoot. rewrite Ht.
  split; [by unfold rooted|]. split; [cbn; by rewrite H3|done].
Qed.

(** ** The loops *)
Lemma root_loop db s l : NoDup l -> (forall a, a ∈ l -> exists o, stateObjects s !! a = Some o /\ address o = a) ->
  exists A m, foldM (root_address trie_hash) (db, s) l = Ret (mkDatabase A (storage_tries db) (blobs db), with_objects s m) /\
    (forall a o, a ∈ l -> stateObjects s !! a = Some o -> m !! a = Some (root_object db o) /\ A !! a = if deleted o then None else Some (data (root_object db o))) /\
    (forall a, a ∉ l -> m !! a = stateObjects s !! a /\ A !! a = account_trie db !! a).
Proof.
  intros Hnd Hok.
  destruct (foldM_inv (root_address trie_hash) (fun pre st => exists A m, st = (mkDatabase A (storage_tries db) (blobs db), with_objects s m) /\
    (forall a o, a ∈ pre -> stateObjects s !! a = Some o -> m !! a = Some (root_object db o) /\ A !! a = if deleted o then None else Some (data (root_object db o))) /\
    (forall a, a ∉ pre -> m !! a = stateObjects s !! a /\ A !! a = account_trie db !! a)) l (db, s)) as (st & Hf & A & m & -> & H1 & H2); [| |eauto 6].
  - exists (account_trie db), (stateObjects s). split; [by destruct db, s|]. split; [by intros a o Ha%elem_of_nil|done].
  - intros pre a post st Hl (A & m & -> & H1 & H2). destruct (Hok a) as (o & Ho & Hoa); [rewrite Hl; apply elem_of_app; right; left|].
    rewrite Hl in Hnd. apply NoDup_app in Hnd as (_ & Hpre & _). assert (a ∉ pre) as Ha by (intros Hin; apply (Hpre a Hin); left).
    set (o' := root_object db o). exists (mkDatabase (if deleted o then delete a A else <[a := data o']> A) (storage_tries db) (blobs db), with_objects s (<[a := o']> m)). split.
    + cbn [root_address stateObjects with_objects]. rewrite (proj1 (H2 a Ha)), Ho. unfold o', root_object, deleteStateObject, updateStateObject.
      destruct (deleted o) eqn:Ed; [cbn; rewrite Hoa; by rewrite insert_id by (by rewrite (proj1 (H2 a Ha)))|].
      assert (updateRoot trie_hash (mkDatabase A (storage_tries db) (blobs db)) o = updateRoot trie_hash db o) as -> by (unfold updateRoot; by rewrite (updateTrie_tries _ db o)).
      assert (address (updateRoot trie_hash db o) = a) as -> by (rewrite <- Hoa; by destruct (updateTrie_shape db o) as (_ & _ & _ & _ & ? & _)). done.
    + eexists _, _. split; [done|]. split; intros b; [intros u|]; rewrite elem_of_app, list_elem_of_singleton; intros Hb.
      * intros Hu. destruct (decide (a = b)) as [<-|Hne].
        -- rewrite Ho in Hu. injection Hu as <-. rewrite lookup_insert_eq. split; [done|]. destruct (deleted o); [by rewrite lookup_delete_eq|by rewrite lookup_insert_eq].
        -- rewrite lookup_insert_ne by done. destruct (H1 b u) as [K1 K2]; [by destruct Hb as [?| ->]|done|]. split; [done|]. rewrite <- K2.
           destruct (deleted o); [by rewrite lookup_delete_ne|by rewrite lookup_insert_ne].
      * assert (a <> b) as Hne by (intros ->; tauto). rewrite lookup_insert_ne by done. destruct (H2 b) as [K1 K2]; [tauto|]. split; [done|]. rewrite <- K2.
        destruct (deleted o); [by rewrite lookup_delete_ne|by rewrite lookup_insert_ne].
Qed.

(** The commit stores the code [c] of account [a] under [h]. *)
Definition inserted (s : StateDB) (a : Address) (h : Hash) (c : string) : Prop := exists o,
  stateObjects s !! a = Some o /\ deleted o = false /\ dirtyCode o = true /\ code o = Some c /\ BytesToHash (CodeHash (data o)) = h.

Record committed (db : Database) (s : StateDB) (l : list Address) (db' : Database) : Prop := {
  cm_accounts : account_trie db' = account_trie db;
  cm_tries : storage_tries db ⊆ storage_tries db';
  cm_stored : stored_by_hash trie_hash db';
  cm_rooted : forall a o t, a ∈ l -> stateObjects s !! a = Some o -> deleted o = false -> rooted o t -> OpenStorageTrie db' (trie_hash t) = Some t;
  cm_blob : forall h c, blobs db' !! h = Some c -> (exists a, a ∈ l /\ inserted s a h c) \/ blobs db !! h = Some c /\ forall a c', a ∈ l -> ~ inserted s a h c';
  cm_inserted : forall a h c, a ∈ l -> inserted s a h c -> is_Some (blobs db' !! h);
  cm_grows : dom (blobs db) ⊆ dom (blobs db') }.

Context `{!TrieHash trie_hash}.

Lemma OpenStorageTrie_grows db db' h t : storage_tries db ⊆ storage_tries db' -> OpenStorageTrie db h = Some t -> OpenStorageTrie db' h = Some t.
Proof. intros H. unfold OpenStorageTrie. case_decide; [done|]. intros Ht. by eapply lookup_weaken. Qed.

(** One object: its code, if it was set, and its storage trie. *)
Lemma commit_rooted db s a o t m : stored_by_hash trie_hash db -> m !! a = Some o -> deleted o = false -> rooted o t ->
  exists db' o', commit_object trie_hash (db, with_objects s m, false) a = Ret (db', with_objects s (<[a := o']> m), false) /\
    account_trie db' = account_trie db /\ storage_tries db ⊆ storage_tries db' /\ stored_by_hash trie_hash db' /\ OpenStorageTrie db' (trie_hash t) = Some t /\
    blobs db' = match code o with Some c => if dirtyCode o then <[BytesToHash (CodeHash (data o)) := c]> (blobs db) else blobs db | None => blobs db end.
Proof.
  intros Hst Ho Hd Hr. cbn [commit_object stateObjects with_objects]. rewrite Ho, Hd.
  assert (exists db1 o1, commit_code db o = (db1, o1) /\ rooted o1 t /\ account_trie db1 = account_trie db /\ storage_tries db1 = storage_tries db /\
    blobs db1 = match code o with Some c => if dirtyCode o then <[BytesToHash (CodeHash (data o)) := c]> (blobs db) else blobs db | None => blobs db end)
    as (db1 & o1 & -> & Hr1 & E1 & E2 & E3).
  { unfold commit_code. destruct (code o) as [c|]; [|by exists db, o]. destruct (dirtyCode o); [|by exists db, o]. by eexists _, _. }
  assert (stored_by_hash trie_hash db1) as Hst1 by (intros h u; rewrite E2; apply Hst).
  destruct (put_trie_extends trie_hash db1 t Hst1) as ((B1 & K1) & K2 & K3). rewrite E2 in K1. cbn [fst snd].
  unfold CommitTrie. rewrite (rooted_trie db1 o1 t Hr1). destruct Hr1 as (T1 & _ & _ & _ & T2). unfold storage_trie. rewrite T1, T2. cbn [default id from_option].
  eexists _, _. split; [done|]. split; [done|]. split; [done|]. split; [done|]. split; [done|exact E3].
Qed.

Lemma committed_nil db s : stored_by_hash trie_hash db -> committed db s [] db.
Proof.
  intros Hst. split; try done; [by intros a o t Ha%elem_of_nil| |by intros a h c Ha%elem_of_nil]. intros h c Hc. right. split; [done|]. by intros a c' Ha%elem_of_nil.
Qed.

Lemma committed_step db s l a db1 db2 : committed db s l db1 ->
  account_trie db2 = account_trie db1 -> storage_tries db1 ⊆ storage_tries db2 -> stored_by_hash trie_hash db2 ->
  (forall o t, stateObjects s !! a = Some o -> deleted o = false -> rooted o t -> OpenStorageTrie db2 (trie_hash t) = Some t) ->
  (blobs db2 = blobs db1 /\ (forall h c, ~ inserted s a h c)) \/
  (exists h c, blobs db2 = <[h := c]> (blobs db1) /\ forall h' c', inserted s a h' c' <-> h' = h /\ c' = c) ->
  committed db s (l ++ [a]) db2.
Proof.
  intros [C1 C2 C3 C4 C5 C6 C7] A1 A2 A3 A4 A5. split; [congruence|by etrans|done| | | |].
  - intros b u v. rewrite elem_of_app, list_elem_of_singleton. intros [Hb| ->] Hu Hud Hv; [eapply OpenStorageTrie_grows; [exact A2|by eapply C4]|by eapply A4].
  - intros h c Hc. destruct A5 as [[A5 Hno]|(h0 & c0 & A5 & Hi)]; rewrite A5 in Hc.
    + destruct (C5 _ _ Hc) as [(b & Hb & Hi)|[Hc1 Hc2]]; [left; exists b; split; [by apply elem_of_app; left|done]|right; split; [done|]].
      intros b c'. rewrite elem_of_app, list_elem_of_singleton. intros [Hb| ->]; [by apply Hc2|apply Hno].
    + apply lookup_insert_Some in Hc as [[<- <-]|[Hne Hc]]; [left; exists a; split; [apply elem_of_app; right; left|by apply Hi]|].
      destruct (C5 _ _ Hc) as [(b & Hb & Hib)|[Hc1 Hc2]]; [left; exists b; split; [by apply elem_of_app; left|done]|right; split; [done|]].
      intros b c'. rewrite elem_of_app, list_elem_of_singleton. intros [Hb| ->]; [by apply Hc2|]. rewrite Hi. naive_solver.
  - intros b h c. rewrite elem_of_app, list_elem_of_singleton. destruct A5 as [[-> Hno]|(h0 & c0 & -> & Hi)].
    + intros [Hb| ->] Hib; [by eapply C6|by apply Hno in Hib].
    + intros [Hb| ->] Hib; apply lookup_insert_is_Some'; [right; by eapply C6|left; by apply Hi in Hib as [-> _]].
  - destruct A5 as [[-> _]|(h0 & c0 & -> & _)]; [done|]. rewrite dom_insert_L. set_solver.
Qed.

Lemma commit_objects_loop db s l : NoDup l -> stored_by_hash trie_hash db ->
  (forall a, a ∈ l -> exists o, stateObjects s !! a = Some o /\ (deleted o = true \/ exists t, rooted o t)) ->
  exists db' m, foldM (commit_object trie_hash) (db, s, false) l = Ret (db', with_objects s m, false) /\ committed db s l db'.
Proof.
  intros Hnd Hst Hok.
  destruct (foldM_inv (commit_object trie_hash) (fun pre st => exists db' m, st = (db', with_objects s m, false) /\ committed db s pre db' /\
    forall a, a ∉ pre -> m !! a = stateObjects s !! a) l (db, s, false)) as (st & Hf & db' & m & -> & H1 & H2); [| |eauto].
  - exists db, (stateObjects s). split; [by destruct s|]. split; [by apply committed_nil|done].
  - intros pre a post st Hl (db1 & m & -> & C & H2). destruct (Hok a) as (o & Ho & Hor); [rewrite Hl; apply elem_of_app; right; left|].
    rewrite Hl in Hnd. apply NoDup_app in Hnd as (_ & Hpre & _). assert (a ∉ pre) as Ha by (intros Hin; apply (Hpre a Hin); left).
    destruct (deleted o) eqn:Ed.
    + exists (db1, with_objects s m, false). split; [cbn; by rewrite (H2 a Ha), Ho, Ed|]. exists db1, m. split; [done|].
      split; [|intros b; rewrite elem_of_app, list_elem_of_singleton; intros Hb; apply H2; tauto].
      apply (committed_step db s pre a db1 db1 C); [done|done|by destruct C|by intros u v Hu; simplify_eq; congruence|].
      left. split; [done|]. intros h c (u & Hu & Hud & _). congruence.
    + destruct Hor as [|[t Hr]]; [done|]. destruct (commit_rooted db1 s a o t m (cm_stored _ _ _ _ C)) as (db2 & o' & E & A1 & A2 & A3 & A4 & A5); [by rewrite H2|done|done|].
      eexists. split; [exact E|]. exists db2, (<[a := o']> m). split; [done|].
      split; [|intros b; rewrite elem_of_app, list_elem_of_singleton; intros Hb; rewrite lookup_insert_ne by (intros ->; tauto); apply H2; tauto].
      apply (committed_step db s pre a db1 db2 C A1 A2 A3).
      * intros u v Hu Hud Hv. rewrite Ho in Hu. injection Hu as <-. destruct Hr as (R1 & _), Hv as (V1 & _). rewrite R1 in V1. by injection V1 as <-.
      * destruct (code o) as [c|] eqn:Ec; [|left; split; [done|intros h x (u & Hu & _ & _ & Hc & _); congruence]].
        destruct (dirtyCode o) eqn:Edc; [right|left; split; [done|intros h x (u & Hu & _ & Hc & _); congruence]]. eexists _, c. split; [exact A5|]. intros h x. split.
        -- intros (u & Hu & _ & _ & Hc & Hh). rewrite Ho in Hu. injection Hu as <-. split; congruence.
        -- intros [-> ->]. by exists o.
Qed.
End rooted.

(** ** The two passes over the roots *)
Section roots.
Context (keccak256 : string -> Hash) (trie_hash : Storage -> Hash) (range_addrs : gset Address -> list Address).
Context `{!TrieHash trie_hash} (Hrange : range_ok range_addrs).

(** [o1] stores what [o] stores. *)
Definition content (db : Database) (o o1 : stateObject) : Prop :=
  object_ok keccak256 db o1 /\ address o1 = address o /\ data o1 = data o /\ code o1 = code o /\ dirtyCode o1 = dirtyCode o /\ deleted o1 = deleted o /\
  nonzero (dirtyStorage o1 ∪ committed_view db o1) = nonzero (dirtyStorage o ∪ committed_view db o).

Definition at_end (o : stateObject) : Prop := deleted o = true \/ suicided o = false.

Lemma final_content db o : object_ok keccak256 db o -> at_end o -> content db o (final_object keccak256 false o) /\ at_end (final_object keccak256 false o).
Proof.
  intros Hok He. unfold final_object. cbn [andb]. rewrite orb_false_r. destruct (suicided o) eqn:Es.
  - destruct He as [Hd|]; [|congruence]. assert (with_flags o (dirtyCode o) true true = o) as -> by (destruct o; cbn in *; by subst). split; [by unfold content|by left].
  - split; [|right; exact Es]. destruct (finalise_ok keccak256 db o Hok) as [Hok' Hv]. split; [done|]. split_and!; try done. rewrite Hv. cbn. by rewrite (left_id_L ∅ (∪)).
Qed.

Lemma final_idem o : final_object keccak256 false (final_object keccak256 false o) = final_object keccak256 false o.
Proof.
  unfold final_object. cbn [andb]. rewrite !orb_false_r. destruct (suicided o) eqn:Es; [done|]. cbn. rewrite Es. unfold obj_finalise. cbn. by rewrite (left_id_L ∅ (∪)).
Qed.

Lemma root_fixed db o : object_ok keccak256 db o -> at_end o -> final_object keccak256 false o = o ->
  final_object keccak256 false (root_object trie_hash db o) = root_object trie_hash db o.
Proof.
  intros Hok He Hf. unfold root_object. destruct (deleted o) eqn:Ed; [done|]. destruct He as [?|Hs]; [congruence|].
  destruct (updateRoot_rooted keccak256 trie_hash db o Hok) as (t & Hr & _). unfold final_object. cbn [andb]. rewrite orb_false_r.
  assert (suicided (updateRoot trie_hash db o) = false) as -> by (destruct (updateTrie_shape db o) as (_ & _ & _ & _ & _ & _ & _ & H); by rewrite <- Hs, <- H). by eapply rooted_finalise.
Qed.

Lemma root_twice db db' o : object_ok keccak256 db o -> root_object trie_hash db' (root_object trie_hash db o) = root_object trie_hash db o.
Proof.
  intros Hok. unfold root_object at 2 3. destruct (deleted o) eqn:Ed; [unfold root_object; by rewrite Ed|].
  unfold root_object. destruct (deleted (updateRoot trie_hash db o)); [done|]. destruct (updateRoot_rooted keccak256 trie_hash db o Hok) as (t & Hr & _). by eapply rooted_root.
Qed.

(** The state after [IntermediateRoot]: [Q] are the accounts it wrote. *)
Record with_roots (db : Database) (s : StateDB) (Q : gset Address) (db1 : Database) (s1 : StateDB) : Prop := {
  wr_tries : storage_tries db1 = storage_tries db;
  wr_blobs : blobs db1 = blobs db;
  wr_sets : stateObjectsPending s1 = ∅ /\ stateObjectsDirty s1 = Q;
  wr_pending : stateObjectsPending s ⊆ Q;
  wr_in : forall a, a ∈ Q -> exists o o1, stateObjects s !! a = Some o /\ address o = a /\ content db o o1 /\
    stateObjects s1 !! a = Some (root_object trie_hash db o1) /\ account_trie db1 !! a = if deleted o then None else Some (data (root_object trie_hash db o1));
  wr_out : forall a, a ∉ Q -> account_trie db1 !! a = account_trie db !! a;
  wr_again : forall a o, a ∈ dom (dirties (jrnl s1)) -> stateObjects s1 !! a = Some o -> a ∈ Q /\ final_object keccak256 false o = o }.

Lemma IntermediateRoot_spec db s : wf keccak256 db s -> entries (jrnl s) = [] -> stateObjectsPending s = stateObjectsDirty s ->
  (forall a o, stateObjects s !! a = Some o -> at_end o) ->
  exists Q db1 s1, IntermediateRoot keccak256 trie_hash range_addrs false db s = Ret (db1, s1) /\ with_roots db s Q db1 s1.
Proof.
  intros Hw Hj Hsets He. destruct (Finalise_spec keccak256 range_addrs Hrange false s) as (F1 & F2 & F3). destruct (Finalise_ended keccak256 range_addrs false s) as (E1 & _).
  unfold IntermediateRoot. set (s' := Finalise keccak256 range_addrs false s) in *. rewrite Hj in E1.
  assert (forall a, a ∈ stateObjectsPending s' -> exists o, stateObjects s !! a = Some o) as Hsome.
  { intros a Ha. apply F2 in Ha as [Ha|[_ [o Ho]]]; [|by exists o]. apply elem_of_dom. apply (wf_sets _ _ _ Hw). set_solver. }
  assert (forall a o, stateObjects s !! a = Some o -> exists o1, stateObjects s' !! a = Some o1 /\ content db o o1 /\ address o = a /\ at_end o1 /\
    (a ∈ dom (dirties (jrnl s)) -> final_object keccak256 false o1 = o1)) as Hobj.
  { intros a o Ho. destruct (wf_object _ _ _ Hw a o Ho) as [Hoa Hok]. rewrite F1, Ho. case_decide as Hd.
    - destruct (final_content db o Hok (He a o Ho)) as [Hc Hce]. eexists. split; [done|]. split; [done|]. split; [done|]. split; [done|]. intros _. apply final_idem.
    - exists o. split; [done|]. split; [by unfold content|]. split; [done|]. split; [by eapply He|]. by intros ?. }
  destruct (root_loop keccak256 trie_hash db s' (range_addrs (stateObjectsPending s'))) as (A & m & -> & R1 & R2).
  { by apply range_ok_nodup. }
  { intros a Ha. apply range_ok_elem in Ha; [|done]. destruct (Hsome a Ha) as [o Ho]. destruct (Hobj a o Ho) as (o1 & Ho1 & Hc & Hoa & _). exists o1. split; [done|]. by rewrite (proj1 (proj2 Hc)). }
  clearbody s'. rewrite bind_ret. eexists (stateObjectsPending s'), _, _. split; [done|]. setoid_rewrite (range_ok_elem _ _ _ Hrange) in R1. setoid_rewrite (range_ok_elem _ _ _ Hrange) in R2.
  split; cbn; try done.
  - split; [done|]. apply set_eq. intros a. rewrite F2, F3. by rewrite Hsets.
  - intros a Ha. apply F2. by left.
  - intros a Ha. destruct (Hsome a Ha) as [o Ho]. destruct (Hobj a o Ho) as (o1 & Ho1 & Hc & Hoa & _). exists o, o1. destruct (R1 a o1 Ha Ho1) as [K1 K2].
    split_and!; try done. rewrite K2. by destruct Hc as (_ & _ & _ & _ & _ & -> & _).
  - intros a Ha. by apply R2.
  - intros a u. rewrite E1. intros Ha Hu. destruct (decide (a ∈ stateObjectsPending s')) as [Hp|Hp].
    + split; [done|]. destruct (Hsome a Hp) as [o Ho]. destruct (Hobj a o Ho) as (o1 & Ho1 & Hc & _ & Hce & Hfix). rewrite (proj1 (R1 a o1 Hp Ho1)) in Hu. injection Hu as <-.
      apply root_fixed; [by apply Hc|done|by apply Hfix].
    + exfalso. apply Hp. apply F2. right. split; [done|]. rewrite (proj1 (R2 a Hp)), F1, decide_True in Hu by done. by destruct (stateObjects s !! a).
Qed.

Lemma IntermediateRoot_again db s Q db1 s1 : with_roots db s Q db1 s1 ->
  exists s2, IntermediateRoot keccak256 trie_hash range_addrs false db1 s1 = Ret (db1, s2) /\ stateObjects s2 = stateObjects s1 /\ stateObjectsDirty s2 = Q.
Proof.
  intros [W1 W2 [W3 W4] _ W6 _ W8]. destruct (Finalise_spec keccak256 range_addrs Hrange false s1) as (F1 & F2 & F3).
  unfold IntermediateRoot. set (s' := Finalise keccak256 range_addrs false s1) in *. clearbody s'.
  assert (stateObjects s' = stateObjects s1) as Hobj.
  { apply map_eq. intros a. rewrite F1. case_decide as Hd; [|done]. destruct (stateObjects s1 !! a) as [o|] eqn:Eo; [|done]. cbn. by rewrite (proj2 (W8 a o Hd Eo)). }
  assert (forall a, a ∈ stateObjectsPending s' -> a ∈ Q) as Hin.
  { intros a Ha. apply F2 in Ha as [Ha|[Hd [o Ho]]]; [by rewrite W3 in Ha|by eapply W8]. }
  destruct (root_loop keccak256 trie_hash db1 s' (range_addrs (stateObjectsPending s'))) as (A & m & -> & R1 & R2); [by apply range_ok_nodup| |].
  { intros a Ha. apply range_ok_elem, Hin, W6 in Ha as (o & o1 & _ & Hoa & Hc & Ho & _); [|done]. rewrite Hobj. eexists. split; [done|].
    rewrite (proj1 (root_address_kept trie_hash db o1)), (proj1 (proj2 Hc)). done. }
  setoid_rewrite (range_ok_elem _ _ _ Hrange) in R1. setoid_rewrite (range_ok_elem _ _ _ Hrange) in R2.
  assert (m = stateObjects s1 /\ A = account_trie db1) as [-> ->].
  { split; apply map_eq; intros a; (destruct (decide (a ∈ stateObjectsPending s')) as [Ha|Ha]; [|destruct (R2 a Ha) as [K1 K2]; by rewrite ?K1, ?K2, ?Hobj]);
      destruct (W6 a (Hin a Ha)) as (o & o1 & _ & _ & Hc & Ho & Ht); destruct (R1 a _ Ha (eq_trans (f_equal (lookup a) Hobj) Ho)) as [K1 K2].
    - by rewrite K1, Ho, root_twice by apply Hc.
    - rewrite K2, Ht, root_twice by apply Hc. rewrite (proj2 (root_address_kept trie_hash db o1)). by destruct Hc as (_ & _ & _ & _ & _ & -> & _). }
  rewrite bind_ret. eexists. split; [by destruct db1|]. split; [done|]. cbn. apply set_eq. intros a. rewrite F3, W4. split; [|by left].
  intros [?|Hf]; [done|]. apply Hin, F2. by right.
Qed.

Lemma Commit_spec db s : wf keccak256 db s -> entries (jrnl s) = [] -> stateObjectsPending s = stateObjectsDirty s -> stored_by_hash trie_hash db ->
  (forall a o, stateObjects s !! a = Some o -> at_end o) ->
  exists Q db1 s1 s2 db' s', IntermediateRoot keccak256 trie_hash range_addrs false db s = Ret (db1, s1) /\ Commit keccak256 trie_hash range_addrs false db1 s1 = Ret (db', s', false) /\
    with_roots db s Q db1 s1 /\ stateObjects s2 = stateObjects s1 /\ committed trie_hash db1 s2 (range_addrs Q) db'.
Proof.
  intros Hw Hj Hsets Hst He. destruct (IntermediateRoot_spec db s Hw Hj Hsets He) as (Q & db1 & s1 & E1 & W). destruct (IntermediateRoot_again db s Q db1 s1 W) as (s2 & E2 & Hobj & HQ).
  destruct (commit_objects_loop keccak256 trie_hash db1 s2 (range_addrs Q)) as (db' & m & E3 & C); [by apply range_ok_nodup|intros h t; rewrite (wr_tries _ _ _ _ _ W); apply Hst| |].
  { intros a Ha. apply range_ok_elem, (wr_in _ _ _ _ _ W) in Ha as (o & o1 & _ & _ & Hc & Ho & _); [|done]. rewrite Hobj. eexists. split; [done|].
    unfold root_object. destruct (deleted o1) eqn:Ed; [by left|right]. destruct (updateRoot_rooted keccak256 trie_hash db o1 (proj1 Hc)) as (t & Hr & _). by exists t. }
  exists Q, db1, s1, s2, db', (with_sets (with_objects s2 m) (stateObjectsPending s2) ∅). split; [done|]. split; [|done].
  unfold Commit. rewrite E2, bind_ret, HQ, E3, bind_ret. done.
Qed.
End roots.

(** ** The committed database *)
Section view.
Context (keccak256 : string -> Hash) (trie_hash : Storage -> Hash) (range_addrs : gset Address -> list Address).
Context `{!TrieHash trie_hash} (Hrange : range_ok range_addrs) (db : Database) `{!CodeDB keccak256 db}.

Lemma code_committed db1 s l db' h c0 : committed trie_hash db1 s l db' -> BytesToHash h = h -> (h = keccak256 EmptyString -> c0 = EmptyString) ->
  (forall b c, b ∈ l -> inserted s b h c -> c = c0) ->
  (has_code keccak256 db1 h /\ code_at keccak256 db1 h = c0) \/ (exists b, b ∈ l /\ inserted s b h c0) ->
  has_code keccak256 db' h /\ code_at keccak256 db' h = c0.
Proof.
  intros [_ _ _ _ C5 C6 C7] Hh He Hi Hc. unfold code_at, has_code in *. rewrite Hh in *. destruct (decide (h = keccak256 EmptyString)) as [E|E]; [split; [by left|]; symmetry; by apply He|].
  destruct Hc as [[[?|[c Hb]] Hc]|(b & Hb & Hib)]; [done| |].
  - assert (h ∈ dom (blobs db')) as [c' Hc']%elem_of_dom by (apply C7, elem_of_dom; by eexists). split; [right; by eexists|]. rewrite Hc'. cbn.
    destruct (C5 h c' Hc') as [(b & Hb1 & Hib)|[Hb1 _]]; [by eapply Hi|]. rewrite Hb1 in Hc. exact Hc.
  - destruct (C6 b h c0 Hb Hib) as [c' Hc']. split; [right; by eexists|]. rewrite Hc'. cbn. destruct (C5 h c' Hc') as [(b' & Hb1 & Hib')|[_ Hno]]; [by eapply Hi|by apply Hno in Hib].
Qed.

Lemma trie_view_account a : accounts (abs keccak256 db NewWithTrie) !! a = (fun d => abs_object keccak256 db (newObject a d)) <$> account_trie db !! a.
Proof. cbn. rewrite abs_lookup. cbn. by rewrite lookup_empty. Qed.

Context (s : StateDB) (Hw : wf keccak256 db s) (Hcodes : codes_agree keccak256 db (abs keccak256 db s)).
Context (Q : gset Address) (db1 : Database) (s1 s2 : StateDB) (db' : Database) (W : with_roots keccak256 trie_hash db s Q db1 s1).
Context (Hobj : stateObjects s2 = stateObjects s1) (C : committed trie_hash db1 s2 (range_addrs Q) db').

(** The codes the commit stores belong to accounts of [s]. *)
Lemma inserted_mentioned b h c : b ∈ range_addrs Q -> inserted s2 b h c -> exists y, mentioned keccak256 db (abs keccak256 db s) y /\ a_codehash y = h /\ a_code y = c.
Proof.
  intros Hb (u & Hu & Hd & Hdc & Hc & Hh). apply range_ok_elem in Hb; [|done]. destruct (wr_in _ _ _ _ _ _ _ W b Hb) as (o & o1 & Ho & _ & Hcont & Hr & _).
  rewrite Hobj, Hr in Hu. injection Hu as <-. rewrite (proj2 (root_address_kept trie_hash db o1)) in Hd. destruct Hcont as (Hok & _ & E1 & E2 & _).
  exists (abs_object keccak256 db o). split; [exists b; left; cbn; by rewrite abs_lookup, Ho|]. unfold root_object in *. rewrite Hd in *.
  destruct (updateTrie_shape db o1) as (_ & _ & S1 & _ & _ & S2 & _). cbn in Hc, Hh. rewrite S1, E2 in Hc. rewrite S2, E1 in Hh. cbn. unfold code_view. rewrite Hc.
  split; [|done]. rewrite <- Hh. destruct (wf_object _ _ _ Hw b o Ho) as [_ (_ & -> & _)]. done.
Qed.

Lemma mentioned_code x : mentioned keccak256 db (abs keccak256 db s) x -> BytesToHash (a_codehash x) = a_codehash x ->
  (has_code keccak256 db (a_codehash x) /\ code_at keccak256 db (a_codehash x) = a_code x) \/ (exists b, b ∈ range_addrs Q /\ inserted s2 b (a_codehash x) (a_code x)) ->
  has_code keccak256 db' (a_codehash x) /\ code_at keccak256 db' (a_codehash x) = a_code x.
Proof.
  intros Hx Hh Hor. eapply code_committed; [exact C|done| | |].
  - by eapply ca_empty.
  - intros b c Hb Hi. destruct (inserted_mentioned b _ c Hb Hi) as (y & Hy & Hyh & <-). by eapply ca_same.
  - destruct Hor as [[H1 H2]|Hor]; [left|by right]. unfold has_code, code_at in *. by rewrite (wr_blobs _ _ _ _ _ _ _ W).
Qed.

(** Opening an account of the committed trie. *)
Definition opens (a : Address) (d : Account) (x : account) : Prop :=
  BytesToHash (CodeHash d) = CodeHash d /\ has_code keccak256 db' (CodeHash d) /\ is_Some (OpenStorageTrie db' (Root d)) /\ abs_object keccak256 db' (newObject a d) = x.

Lemma view_in a o : a ∈ Q -> stateObjects s !! a = Some o ->
  if deleted o then account_trie db' !! a = None
  else exists d x, account_trie db' !! a = Some d /\ reopened (abs_object keccak256 db o) = Some x /\ opens a d x.
Proof.
  intros Ha Ho. destruct (wr_in _ _ _ _ _ _ _ W a Ha) as (u & o1 & Hu & _ & Hc & Hr & Ht). rewrite Ho in Hu. injection Hu as <-.
  rewrite (cm_accounts _ _ _ _ _ C), Ht. destruct (deleted o) eqn:Ed; [done|]. destruct Hc as (Hok & _ & E1 & E2 & E3 & E4 & E5). rewrite Ed in E4.
  unfold root_object in *. rewrite E4 in *. destruct (updateRoot_rooted keccak256 trie_hash db o1 Hok) as (t & Hrt & Hd & Hnz & Hco & Hdc). rewrite Hd, E1.
  set (x := abs_object keccak256 db o). assert (BytesToHash (CodeHash (data o)) = CodeHash (data o)) as Hh by (by destruct (wf_object _ _ _ Hw a o Ho) as [_ (_ & ? & _)]).
  assert (OpenStorageTrie db' (trie_hash t) = Some t) as Hopen.
  { eapply (cm_rooted _ _ _ _ _ C a); [by apply range_ok_elem|by rewrite Hobj| |done]. rewrite <- E4. destruct (updateTrie_shape db o1) as (_ & _ & _ & _ & _ & _ & H & _). exact H. }
  destruct (mentioned_code x) as [Hc1 Hc2]; [exists a; left; cbn; by rewrite abs_lookup, Ho|done| |].
  { destruct (wf_object _ _ _ Hw a o Ho) as [_ (_ & _ & (_ & _ & Hs) & _)]. cbn. unfold code_view in *. destruct (code o) as [c|] eqn:Ec; [|left; by destruct Hs; [left|]].
    destruct (dirtyCode o) eqn:Edc; [right|left; by destruct Hs; [right|]]. exists a. split; [by apply range_ok_elem|]. exists (updateRoot trie_hash db o1). rewrite Hobj, Hd, E1.
    destruct (updateTrie_shape db o1) as (_ & _ & _ & _ & _ & _ & H & _). cbn. split_and!; try done; [by rewrite <- E4|by rewrite <- E3, <- Hdc|by rewrite <- Hco, E2 in *]. }
  exists (mkAccount (Nonce (data o)) (Balance (data o)) (trie_hash t) (CodeHash (data o))). eexists. split; [done|]. unfold reopened, x. cbn [a_deleted abs_object]. rewrite Ed. split; [done|].
  split; [done|]. split; [done|]. cbn [Root]. rewrite Hopen. split; [by eexists|]. rewrite loaded_account by (apply (hash_nonzero t)). cbn. rewrite Hopen. cbn. rewrite Hnz, E5. cbn in Hc2. by rewrite Hc2.
Qed.

Lemma view_out a d : a ∉ Q -> account_trie db !! a = Some d ->
  account_trie db' !! a = Some d /\ opens a d (abs_object keccak256 db (newObject a d)).
Proof.
  intros Ha Hd. rewrite (cm_accounts _ _ _ _ _ C), (wr_out _ _ _ _ _ _ _ W a Ha). split; [done|]. set (x := abs_object keccak256 db (newObject a d)).
  assert (BytesToHash (CodeHash d) = CodeHash d) as Hh by (by eapply account_hash). assert (has_code keccak256 db (CodeHash d)) as Hhas by (by eapply account_code).
  assert (a_codehash x = CodeHash d /\ a_code x = code_at keccak256 db (CodeHash d)) as [X1 X2] by (unfold x, newObject; by case_decide).
  assert (storage_tries db ⊆ storage_tries db') as Htries by (rewrite <- (wr_tries _ _ _ _ _ _ _ W); by destruct C).
  destruct (mentioned_code x) as [Hc1 Hc2]; [exists a; right; by rewrite trie_view_account, Hd|by rewrite X1|left; by rewrite X1, X2|].
  rewrite X1 in Hc1, Hc2. destruct (account_root keccak256 a d Hd) as [t Ht]. split; [done|]. split; [done|]. split; [exists t; by eapply OpenStorageTrie_grows|].
  assert (trie_view db' (newObject a d) = trie_view db (newObject a d)) as Hv.
  { unfold newObject, trie_view. case_decide; cbn; [unfold OpenStorageTrie; by rewrite !decide_True by tauto|]. by rewrite Ht, (OpenStorageTrie_grows db db' _ _ Htries Ht). }
  unfold x, abs_object, committed_view. rewrite Hv. f_equal. change (code_at keccak256 db' (CodeHash (data (newObject a d))) = a_code x).
  rewrite <- Hc2. unfold newObject. by case_decide.
Qed.
End view.

Section reopen.
Context (keccak256 : string -> Hash) (trie_hash : Storage -> Hash) (range_addrs : gset Address -> list Address).
Context `{!TrieHash trie_hash} (Hrange : range_ok range_addrs) (db : Database) `{!CodeDB keccak256 db}.

(** A worker between blocks of work: what is not waiting to be written is what
    the trie holds, except accounts created over others and not written to. *)
Definition backed (s : StateDB) : Prop := forall a, a ∉ stateObjectsPending s ->
  accounts (abs keccak256 db s) !! a = accounts (abs keccak256 db NewWithTrie) !! a \/ exists z, accounts (abs keccak256 db s) !! a = Some (set_balance (fresh_account keccak256) z).

Record block_state (s : StateDB) : Prop := {
  bs_rest : at_rest keccak256 db s;
  bs_quiet : quiet_state (abs keccak256 db s);
  bs_backed : backed s }.

Lemma quiet_at_end s a o : quiet_state (abs keccak256 db s) -> stateObjects s !! a = Some o -> at_end o.
Proof.
  intros Hq Ho. unfold at_end. destruct (deleted o) eqn:Ed; [by left|right]. apply (Hq a (abs_object keccak256 db o)).
  unfold live. cbn. rewrite abs_lookup, Ho. cbn. by rewrite Ed.
Qed.

Lemma reopened_loaded a d : reopened (abs_object keccak256 db (newObject a d)) = Some (abs_object keccak256 db (newObject a d)).
Proof. unfold reopened, newObject. case_decide; unfold abs_object, committed_view, code_view; cbn; by rewrite !(left_id_L ∅ (∪)). Qed.

Lemma commit_view s : stored_by_hash trie_hash db -> block_state s -> codes_agree keccak256 db (abs keccak256 db s) ->
  exists db1 s1 db' s', IntermediateRoot keccak256 trie_hash range_addrs false db s = Ret (db1, s1) /\ Commit keccak256 trie_hash range_addrs false db1 s1 = Ret (db', s', false) /\
    CodeDB keccak256 db' /\ stored_by_hash trie_hash db' /\
    forall a, let x := accounts (abs keccak256 db s) !! a in let v := accounts (abs keccak256 db' NewWithTrie) !! a in
      v = x ≫= reopened \/ (exists z, x = Some (set_balance (fresh_account keccak256) z)) /\ v = accounts (abs keccak256 db NewWithTrie) !! a.
Proof.
  intros Hst [[Hw [Hj _] _ Hsets] Hq Hb] Hcodes.
  destruct (Commit_spec keccak256 trie_hash range_addrs Hrange db s Hw Hj (eq_sym Hsets) Hst (fun a o => quiet_at_end s a o Hq)) as (Q & db1 & s1 & s2 & db' & s' & E1 & E2 & W & Ho & C).
  exists db1, s1, db', s'. split; [done|]. split; [done|].
  pose proof (view_in keccak256 trie_hash range_addrs Hrange db s Hw Hcodes Q db1 s1 s2 db' W Ho C) as Vin. pose proof (view_out keccak256 trie_hash range_addrs Hrange db s Hw Hcodes Q db1 s1 s2 db' W Ho C) as Vout.
  assert (forall a, a ∈ Q -> exists o, stateObjects s !! a = Some o) as HQ by (intros a Ha; destruct (wr_in _ _ _ _ _ _ _ W a Ha) as (o & _ & Hoa & _); by exists o).
  assert (forall a, a ∉ Q -> account_trie db' !! a = account_trie db !! a) as Hsame by (intros a Ha; by rewrite (cm_accounts _ _ _ _ _ C), (wr_out _ _ _ _ _ _ _ W a Ha)).
  assert (forall a d, account_trie db' !! a = Some d -> exists x, opens keccak256 db' a d x) as Hopens.
  { intros a d Hd. destruct (decide (a ∈ Q)) as [Ha|Ha].
    - destruct (HQ a Ha) as [o Hoa]. specialize (Vin a o Ha Hoa). destruct (deleted o); [congruence|]. destruct Vin as (d' & x & Hd' & _ & Hx). rewrite Hd in Hd'. injection Hd' as <-. by exists x.
    - rewrite (Hsame a Ha) in Hd. destruct (Vout a d Ha Hd) as [_ Hx]. by eexists. }
  split; [|split; [by destruct C|]].
  - split; [exact (@keccak_hash keccak256 db _)| | | |]; [intros a d Hd; destruct (Hopens a d Hd) as (x & H1 & H2 & H3 & _); done..|].
    destruct (blobs db' !! keccak256 EmptyString) as [c|] eqn:Ec; [|done]. cbn. destruct (cm_blob _ _ _ _ _ C _ _ Ec) as [(b & Hbl & Hi)|[Hc _]].
    + destruct (inserted_mentioned keccak256 trie_hash range_addrs Hrange db s Hw Q db1 s1 s2 W Ho b _ c Hbl Hi) as (y & Hy & Hyh & <-). by apply (ca_empty _ _ _ Hcodes).
    + rewrite (wr_blobs _ _ _ _ _ _ _ W) in Hc. pose proof (@empty_blob keccak256 db _) as He. by rewrite Hc in He.
  - intros a. cbv zeta. rewrite trie_view_account. destruct (decide (a ∈ Q)) as [Ha|Ha].
    + left. destruct (HQ a Ha) as [o Hoa]. specialize (Vin a o Ha Hoa). cbn. rewrite abs_lookup, Hoa. cbn. destruct (deleted o) eqn:Ed; [rewrite Vin; unfold reopened; cbn; by rewrite Ed|].
      destruct Vin as (d & x & -> & -> & _ & _ & _ & <-). done.
    + assert (a ∉ stateObjectsPending s) as Hp by (intros Hin; by apply Ha, (wr_pending _ _ _ _ _ _ _ W)).
      assert ((fun d => abs_object keccak256 db' (newObject a d)) <$> account_trie db' !! a = accounts (abs keccak256 db NewWithTrie) !! a) as Hv.
      { rewrite (Hsame a Ha), trie_view_account. destruct (account_trie db !! a) as [d|] eqn:Ed; [|done]. cbn. f_equal. by apply (Vout a d Ha Ed). }
      rewrite Hv. destruct (Hb a Hp) as [E|Hz]; [left; rewrite E, trie_view_account|by right]. destruct (account_trie db !! a) as [d|]; [|done]. cbn [fmap option_fmap option_map mbind option_bind]. by rewrite reopened_loaded.
Qed.

Lemma block_step s s1 m : block_state s -> sim keccak256 db (mkBase (abs keccak256 db s) (stateObjectsPending s)) s1 m -> block_state (Finalise keccak256 range_addrs true s1).
Proof.
  intros [Hr Hq Hb] Hs. split; [by eapply Finalise_at_rest|eapply (settled_quiet keccak256); [exact Hq|exact (Finalise_settled keccak256 range_addrs Hrange db _ s1 m Hs)]|].
  destruct (Finalise_spec keccak256 range_addrs Hrange true s1) as (F1 & F2 & _). intros a. rewrite F2, (proj1 (sim_sets _ _ _ _ _ Hs)). intros Ha.
  assert (accounts (abs keccak256 db (Finalise keccak256 range_addrs true s1)) !! a = accounts (abs keccak256 db s1) !! a) as ->.
  { cbn [accounts abs]. rewrite !abs_lookup, F1. case_decide as Hd; [|done]. destruct (stateObjects s1 !! a) as [o|] eqn:Eo; [|done]. destruct Ha. right. split; [done|by eexists]. }
  destruct (untouched_account keccak256 db _ s1 m a Hs) as [E|Hz]; [tauto| |by right]. rewrite E. apply Hb. tauto.
Qed.

Lemma block_opened : block_state NewWithTrie.
Proof. split; [by apply clean_rest, clean_new|apply trie_quiet|]. intros a _. by left. Qed.

Context (run : Context -> Contract -> string -> eprog frame_result).
Context (rng : gset string -> list string) (rng_hash : gset Hash -> list Hash) (undefined_big : string -> Z) (fromBlock : Z) (clock : string -> Z) (txIDToIdx : gmap string Z).

Definition block_worker (f : LevmSpecFallback) : Prop := exists s, lvm f = Some s /\ block_state s.

Lemma call_block {R} f i (p : RawTransaction -> prog (option R * option fallback_error)) f' r : block_worker f -> on_lvm keccak256 db f i p = Ret (f', r) ->
  block_worker (FinaliseSerial keccak256 range_addrs f').
Proof.
  intros (s & Hs & Hb). unfold on_lvm. rewrite Hs. pose proof (sim_rest keccak256 db (mkBase (abs keccak256 db s) (stateObjectsPending s)) s (bs_rest _ Hb) eq_refl) as Hsim.
  unfold FinaliseSerial. destruct (tx_at f i) as [tx|e].
  - pose proof (prog_refines keccak256 db _ (p tx) s _ Hsim) as H. destruct (run_prog keccak256 db s (p tx)) as [[s1 x]| |]; [|done..]. rewrite bind_ret. intros [= <- <-]. cbn [lvm set_lvm].
    destruct (spec_prog keccak256 _ (p tx)) as [[m y]| |]; [|done..]. destruct H as (s2 & [= <- <-] & H). eexists. split; [done|]. by eapply block_step.
  - intros [= <- _]. rewrite Hs. eexists. split; [done|]. by eapply block_step.
Qed.

Lemma serial_block st st' l : block_worker (replayer st) -> serial_replay keccak256 run rng rng_hash range_addrs undefined_big db fromBlock clock txIDToIdx st l = Ret st' -> block_worker (replayer st').
Proof.
  intros Hw. unfold serial_replay. apply (foldM_preserves _ (fun st => block_worker (replayer st))); [|done]. clear st st' Hw. intros st t st' Hw.
  destruct (txIDToIdx !! t) as [i|]; [|by intros [= <-]]. unfold serial_tx, PreExecuteCommit, ReExecuteCommit. destruct (firstDone st).
  - destruct (on_lvm _ _ _ _ _) as [[f r]| |] eqn:E; [|done..]. rewrite !bind_ret. intros [= <-]. by eapply call_block.
  - destruct (on_lvm _ _ _ _ _) as [[f [r e]]| |] eqn:E; [|done..]. rewrite !bind_ret. intros [= <-]. by eapply call_block.
Qed.
End reopen.


(** ** An example: a transaction that deploys a contract *)
Lemma codes_agree_check keccak256 db T :
  (let l := (map_to_list (accounts T) ++ map_to_list (accounts (abs keccak256 db NewWithTrie))).*2 in
   Forall (fun x => (a_codehash x = keccak256 EmptyString -> a_code x = EmptyString) /\ Forall (fun y => a_codehash x = a_codehash y -> a_code x = a_code y) l) l) ->
  codes_agree keccak256 db T.
Proof.
  cbv zeta. set (l := (_ ++ _).*2). intros H. rewrite Forall_forall in H. assert (forall x, mentioned keccak256 db T x -> x ∈ l) as Hin.
  { intros x (a & Ha). unfold l. apply list_elem_of_fmap. exists (a, x). split; [done|]. rewrite elem_of_app, !elem_of_map_to_list. tauto. }
  split; [intros x y Hx Hy|intros x Hx]; [|by apply H, Hin]. destruct (H x (Hin x Hx)) as [_ H2]. rewrite Forall_forall in H2. by apply H2, Hin.
Qed.

Definition deploy_run (ctx : Context) (c : Contract) (input : string) : eprog frame_result :=
  r ← opSstore (self c) (contract_gas c) 1 7; match r with inl gas => mret (mkFrame "code" gas None) | inr e => mret (mkFrame EmptyString 0 (Some e)) end.
Definition deploy_block : list RawTransaction := [mkRaw "0x1" sender EmptyString "0x01" EmptyString].
Definition deploy_index : gmap string Z := {["a" := 0%Z]}.
Definition deploy_delta : gmap string string := ∅.
Definition deploy_replay : outcome serial_state :=
  serial_replay toy_keccak deploy_run elements elements elements (fun _ => 0%Z) empty_db 1 (fun _ => 0%Z) deploy_index (mkSerial (mkFallback (Some NewWithTrie) deploy_block 1) deploy_delta false 0) ["a"].
Definition deploy_end : serial_state := match deploy_replay with Ret st => st | _ => mkSerial (mkFallback None [] 0) ∅ false 0 end.
Definition deploy_state : StateDB := default NewWithTrie (lvm (replayer deploy_end)).
Definition deployed (x : option account) : option (string * string) := (fun x => (a_code x, default EmptyString (a_committed x !! BigToHash 1))) <$> x.
Definition deploy_address : Address := default EmptyString (fst <$> List.find (fun p => bool_decide (a_code p.2 = "code")) (map_to_list (accounts (abs toy_keccak empty_db deploy_state)))).

Lemma deploy_replay_ret : deploy_replay = Ret deploy_end.
Proof. vm_compute. reflexivity. Qed.
Lemma deploy_state_some : lvm (replayer deploy_end) = Some deploy_state.
Proof. vm_compute. reflexivity. Qed.
Lemma deploy_codes : codes_agree toy_keccak empty_db (abs toy_keccak empty_db deploy_state).
Proof. apply codes_agree_check. cbv zeta. apply (bool_decide_unpack _). vm_compute. exact I. Qed.

Lemma empty_stored : stored_by_hash toy_trie_hash empty_db.
Proof. intros r t H. cbn in H. by rewrite lookup_empty in H. Qed.

