(* ===== verification/SharedReplay.v ===== *)
(** * The shared-trie mode of the Vegeta replay ([test_replay.go])

    Every worker keeps its own state database over one account trie.  A worker
    takes a transaction of the batch, drops its cached objects, executes the
    transaction with [ReExecuteCommit], and either flushes its state into the
    shared trie or reverts it and queues the transaction for serial replay.  A
    schedule names the worker that acts next, so executions and flushes of
    different workers interleave; a single action is atomic.  When the actions
    of one transaction are not interleaved with others, the batch is a serial
    execution of the transactions that were flushed; when they are, a flush can
    undo another one, although the transactions have no key in common. *)
From stdpp Require Import base gmap sets list strings.
From Stdlib Require Import ZArith Lia.
From S2P Require Import Prelude RWSet GoText StateDB StateSpec SharedTrie HexKeys Execution ReplayAdapter Levm SpecFallback FallbackPool WitnessTrie SerialReplay Vegeta.

Set Default Goal Selector "!".
Local Open Scope list_scope.

(** ** Pools on a trie *)
Section pools.
Context (keccak256 : string -> Hash) (trie_hash : Storage -> Hash) (rng : gset string -> list string).

(** A worker opened on a trie. *)
Definition trie_worker (transactions : list RawTransaction) (fromBlock : Z) : LevmSpecFallback := mkFallback (Some NewWithTrie) transactions fromBlock.

(** The database holds the account trie at the root of the witness.  The
    workers of this pool have a trie instance each. *)
Definition NewLevmSpecFallbackPoolTrie (numCPU : nat) (n : Z) (transactions : list RawTransaction) (accts : ReplayBlockWitness) (fromBlock : Z) :
    outcome (Database * LevmSpecFallbackPool + string) :=
  let n := if bool_decide (n <= 0)%Z then numCPU else Z.to_nat n in
  BuildWitnessTrie keccak256 trie_hash rng accts ≫= fun r =>
  match r with
  | inr e => Ret (inr ("build witness trie: " +:+ e))
  | inl db => Ret (inl (db, mkPool (replicate n (trie_worker transactions fromBlock)) (seq 0 n) n))
  end.

(** [NewStateDBsWithSharedTrie]: [n] state databases on one trie instance. *)
Definition NewStateDBsWithSharedTrie (n : nat) : list StateDB := replicate n NewWithTrie.

(** The workers of this pool share the trie instance of the database. *)
Definition NewLevmSpecFallbackPoolSharedTrie (numCPU : nat) (n : Z) (transactions : list RawTransaction) (accts : ReplayBlockWitness) (fromBlock : Z) :
    outcome (Database * LevmSpecFallbackPool + string) :=
  let n := if bool_decide (n <= 0)%Z then numCPU else Z.to_nat n in
  BuildWitnessTrie keccak256 trie_hash rng accts ≫= fun r =>
  match r with
  | inr e => Ret (inr ("build witness trie: " +:+ e))
  | inl db => Ret (inl (db, mkPool (set_lvm (trie_worker transactions fromBlock) <$> NewStateDBsWithSharedTrie n) (seq 0 n) n))
  end.

(** A worker for serial replay on the trie the pool was built on. *)
Definition NewSerialWorker (sdb : option Database) (p : LevmSpecFallbackPool) (blockNum : Z) : LevmSpecFallback + string :=
  match workers p, sdb with
  | [], _ => inr "LevmSpecFallbackPool: no workers"
  | _, None => inr "LevmSpecFallbackPool: NewSerialWorker requires a real-trie pool (NewLevmSpecFallbackPoolTrie)"
  | w :: _, Some _ => inl (trie_worker (txs w) blockNum)
  end.
End pools.

(** ** The validation loop *)
Record in_flight := mkFlight { fl_txID : string; snap : Z; fl_result : ReExecuteResult }.
Inductive shared_verdict := Flushed | Exceeds | FlushError.

Record shared_round := mkRound {
  shared_db : Database; txC : list string; pool_workers : list (LevmSpecFallback * option in_flight);
  batchResults : gmap string bool; shared_replayList : list string;
  noContextCount : nat; failedNotAborted : nat; reexecErrorCount : nat }.

Section shared.
Context (keccak256 : string -> Hash) (trie_hash : Storage -> Hash) (run : Context -> Contract -> string -> eprog frame_result).
Context (rng : gset string -> list string) (rng_hash : gset Hash -> list Hash) (range_addrs : gset Address -> list Address) (undefined_big : string -> Z).
Context (fromBlock : Z) (clock : string -> Z) (txIDToIdx : gmap string Z) (blockRS blockWS : keysets).

Definition fb_ResetObjectCache (f : LevmSpecFallback) : LevmSpecFallback :=
  match lvm f with Some s => set_lvm f (ResetObjectCache s) | None => f end.

(** A worker without state database panics; so does a missing result. *)
Definition shared_execute (db : Database) (f : LevmSpecFallback) (txID : string) (txIdx : Z) : outcome (LevmSpecFallback * in_flight * bool) :=
  let f := fb_ResetObjectCache f in
  match lvm f with
  | None => Panics
  | Some s =>
    let '(s, snap) := Snapshot s in
    ReExecuteCommit keccak256 run rng rng_hash undefined_big db (set_lvm f s) fromBlock txIdx (clock txID) None ≫= fun '(f, (result, err)) =>
    match result with
    | Some (result, _) => Ret (f, mkFlight txID snap result, match err with Some _ => true | None => false end)
    | None => Panics
    end
  end.

Definition fb_IntermediateShared (db : Database) (f : LevmSpecFallback) : outcome (Database * LevmSpecFallback * bool) :=
  match lvm f with
  | None => Ret (db, f, true)
  | Some s => IntermediateShared_Re keccak256 trie_hash range_addrs db s ≫= fun '(db, s, err) => Ret (db, set_lvm f s, err)
  end.

Definition fb_revert (db : Database) (f : LevmSpecFallback) (id : Z) : outcome LevmSpecFallback :=
  match lvm f with None => Panics | Some s => RevertToSnapshot db s id ≫= fun s => Ret (set_lvm f s) end.

Definition shared_match (fl : in_flight) : bool :=
  key_match (RealReadKeys (fl_result fl)) (keys_in blockRS (fl_txID fl)) && key_match (RealWriteKeys (fl_result fl)) (keys_in blockWS (fl_txID fl)).

Definition shared_finish (db : Database) (f : LevmSpecFallback) (fl : in_flight) : outcome (Database * LevmSpecFallback * shared_verdict) :=
  if shared_match fl then
    fb_IntermediateShared db f ≫= fun '(db, f, ierr) =>
    if ierr : bool then fb_revert db f (snap fl) ≫= fun f => Ret (db, f, FlushError) else Ret (db, f, Flushed)
  else fb_revert db f (snap fl) ≫= fun f => Ret (db, f, Exceeds).

(** The next action of worker [w]: take a transaction and execute it, or finish
    the one it executed.  Nothing happens when the channel is empty. *)
Definition record_verdict (r : shared_round) (w : nat) (txID : string) (db : Database) (f : LevmSpecFallback) (v : shared_verdict) : shared_round :=
  mkRound db (txC r) (<[w := (f, None)]> (pool_workers r))
    (<[txID := match v with Flushed => true | _ => false end]> (batchResults r))
    (match v with Flushed => shared_replayList r | _ => shared_replayList r ++ [txID] end)
    (noContextCount r) (failedNotAborted r) (match v with FlushError => S (reexecErrorCount r) | _ => reexecErrorCount r end).

Definition shared_act (r : shared_round) (w : nat) : outcome shared_round :=
  match pool_workers r !! w with
  | None => Ret r
  | Some (f, Some fl) => shared_finish (shared_db r) f fl ≫= fun '(db, f, v) => Ret (record_verdict r w (fl_txID fl) db f v)
  | Some (f, None) =>
    match txC r with
    | [] => Ret r
    | txID :: rest =>
      match txIDToIdx !! txID with
      | None => Ret (mkRound (shared_db r) rest (pool_workers r) (<[txID := false]> (batchResults r)) (shared_replayList r)
                       (S (noContextCount r)) (failedNotAborted r) (reexecErrorCount r))
      | Some txIdx =>
        shared_execute (shared_db r) f txID txIdx ≫= fun '(f, fl, err) =>
        Ret (mkRound (shared_db r) rest (<[w := (f, Some fl)]> (pool_workers r)) (batchResults r) (shared_replayList r)
               (noContextCount r) (if err : bool then S (failedNotAborted r) else failedNotAborted r) (reexecErrorCount r))
      end
    end
  end.

Definition shared_run (r : shared_round) (schedule : list nat) : outcome shared_round := foldM shared_act r schedule.

(** A turn: a worker takes a transaction and finishes it before another
    worker acts. *)
Definition shared_turn (r : shared_round) (w : nat) : outcome shared_round :=
  shared_act r w ≫= fun r' => match pool_workers r' !! w with Some (_, Some _) => shared_act r' w | _ => Ret r' end.
End shared.

Definition start_round (db : Database) (p : LevmSpecFallbackPool) (batch : list string) : shared_round :=
  mkRound db (sort_strings batch) ((fun w => (w, None)) <$> workers p) ∅ [] 0 0 0.

(** ** The specification: one transaction after the other *)
Inductive tx_end := NoIndex | Kept | Rejected.
Definition tx_log := list (string * tx_end).

Inductive shared_end :=
| Ended (A : gmap Address account) (L : list spec_state) (queue : list string) (log : tx_log)
| Crashed
| Deployed (txID : string).

Section shared_spec.
Context (keccak256 : string -> Hash) (run : Context -> Contract -> string -> eprog frame_result).
Context (rng : gset string -> list string) (rng_hash : gset Hash -> list Hash) (undefined_big : string -> Z).
Context (f0 : LevmSpecFallback) (db0 : Database).
Context (fromBlock : Z) (clock : string -> Z) (txIDToIdx : gmap string Z) (blockRS blockWS : keysets).

(** What a worker keeps of its state database between transactions, and the
    accounts it then finds in the shared trie. *)
Definition local (s : StateDB) : spec_state := mkSpec ∅ (refund s) (thash s) (bhash s) (txIndex s) (logs s) (logSize s) (preimages s).
Definition trie_accounts (db : Database) : gmap Address account := accounts (abs keccak256 db NewWithTrie).

Definition after_flush (T0 T1 L : spec_state) : Prop := L = set_accounts (set_refund T1 0) ∅ \/ T1 = T0 /\ L = set_accounts T1 ∅.

Definition spec_execute (T : spec_state) (txID : string) (txIdx : Z) : outcome (spec_state * (option result_and_delta * option fallback_error)) :=
  spec_at f0 T txIdx (spec_ReExecuteCommit keccak256 run rng rng_hash undefined_big T fromBlock (clock txID) None).

Definition within (txID : string) (result : ReExecuteResult) : bool :=
  key_match (RealReadKeys result) (keys_in blockRS txID) && key_match (RealWriteKeys result) (keys_in blockWS txID).

(** Turns of workers on the accounts [A] of the shared trie; [L] is what the
    workers keep. *)
Inductive shared_runs : gmap Address account -> list spec_state -> list string -> tx_log -> list nat -> shared_end -> Prop :=
| sr_end A L q log : shared_runs A L q log [] (Ended A L q log)
| sr_idle A L q log w ws o : L !! w = None \/ q = [] -> shared_runs A L q log ws o -> shared_runs A L q log (w :: ws) o
| sr_unknown A L t q log w ws o : is_Some (L !! w) -> txIDToIdx !! t = None ->
    shared_runs A L q (log ++ [(t, NoIndex)]) ws o -> shared_runs A L (t :: q) log (w :: ws) o
| sr_crash A L t q log w ws i T : L !! w = Some T -> txIDToIdx !! t = Some i ->
    match spec_execute (set_accounts T A) t i with Ret (_, (Some _, _)) => False | _ => True end -> shared_runs A L (t :: q) log (w :: ws) Crashed
| sr_rejected A L t q log w ws i T T1 result delta err o : L !! w = Some T -> txIDToIdx !! t = Some i ->
    spec_execute (set_accounts T A) t i = Ret (T1, (Some (result, delta), err)) -> within t result = false ->
    shared_runs A L q (log ++ [(t, Rejected)]) ws o -> shared_runs A L (t :: q) log (w :: ws) o
| sr_kept A L t q log w ws i T T1 result delta err A' T' o : L !! w = Some T -> txIDToIdx !! t = Some i ->
    spec_execute (set_accounts T A) t i = Ret (T1, (Some (result, delta), err)) -> within t result = true ->
    codes_known keccak256 db0 T1 -> published keccak256 db0 (set_accounts T A) T1 A' -> after_flush (set_accounts T A) T1 T' ->
    shared_runs A' (<[w := T']> L) q (log ++ [(t, Kept)]) ws o -> shared_runs A L (t :: q) log (w :: ws) o
| sr_deployed A L t q log w ws i T T1 result delta err : L !! w = Some T -> txIDToIdx !! t = Some i ->
    spec_execute (set_accounts T A) t i = Ret (T1, (Some (result, delta), err)) -> within t result = true ->
    ~ codes_known keccak256 db0 T1 -> shared_runs A L (t :: q) log (w :: ws) (Deployed t).
End shared_spec.

Lemma runs_length keccak256 run rng rng_hash undefined_big f0 db0 fromBlock clock txIDToIdx RS WS A L q log ws A' L' q' log' :
  shared_runs keccak256 run rng rng_hash undefined_big f0 db0 fromBlock clock txIDToIdx RS WS A L q log ws (Ended A' L' q' log') -> length L' = length L.
Proof.
  remember (Ended A' L' q' log') as o eqn:Eo. intros H. induction H; simplify_eq; try done; auto. rewrite length_insert in *. auto.
Qed.

Lemma turn_deployed keccak256 run rng rng_hash undefined_big f0 db0 fromBlock clock txIDToIdx RS WS A L q log w t :
  shared_runs keccak256 run rng rng_hash undefined_big f0 db0 fromBlock clock txIDToIdx RS WS A L q log [w] (Deployed t) ->
  exists u q' i T T1 x, q = u :: q' /\ L !! w = Some T /\ txIDToIdx !! u = Some i /\
    spec_execute keccak256 run rng rng_hash undefined_big f0 fromBlock clock (set_accounts T A) u i = Ret (T1, x) /\ ~ codes_known keccak256 db0 T1.
Proof.
  intros H. inversion H; subst; try match goal with H : shared_runs _ _ _ _ _ _ _ _ _ _ _ _ _ _ _ _ [] (Deployed _) |- _ => inversion H end.
  eexists _, _, _, _, _, _. eauto 6.
Qed.

(** The bookkeeping of a round, by its log. *)
Definition log_results (log : tx_log) (m : gmap string bool) : gmap string bool :=
  foldl (fun m x => <[x.1 := match x.2 with Kept => true | _ => false end]> m) m log.
Definition log_unknown (log : tx_log) : nat := length (omap (fun x => match x.2 with NoIndex => Some x.1 | _ => None end) log).
Definition log_rejected (log : tx_log) : list string := omap (fun x => match x.2 with Rejected => Some x.1 | _ => None end) log.

(** ** A worker between transactions *)
Section proofs.
Context (keccak256 : string -> Hash) (trie_hash : Storage -> Hash) (run : Context -> Contract -> string -> eprog frame_result).
Context (rng : gset string -> list string) (rng_hash : gset Hash -> list Hash) (range_addrs : gset Address -> list Address) (undefined_big : string -> Z).
Context (fromBlock : Z) (clock : string -> Z) (txIDToIdx : gmap string Z) (blockRS blockWS : keysets) (f0 : LevmSpecFallback) (db0 : Database).
Context (Hrun : forall ctx c input, framed (run ctx c input)) (Hrange : range_ok range_addrs) `{!TrieHash trie_hash}.

Abbreviation execute := (shared_execute keccak256 run rng rng_hash undefined_big fromBlock clock).
Abbreviation finishing := (shared_finish keccak256 trie_hash range_addrs blockRS blockWS).
Abbreviation spec_execute := (spec_execute keccak256 run rng rng_hash undefined_big f0 fromBlock clock).

Definition rested (f : LevmSpecFallback) (L : spec_state) : Prop :=
  exists s, lvm f = Some s /\ clean (ResetObjectCache s) /\ local s = L /\ same_block f0 f.

Lemma reset_abs db s : abs keccak256 db (ResetObjectCache s) = set_accounts (local s) (trie_accounts keccak256 db).
Proof. done. Qed.

Lemma rest_reset db s : at_rest keccak256 db s -> clean (ResetObjectCache s).
Proof. intros [[_ _ W3 W4 _] [H1 H2] H3 _]. unfold clean. cbn. split_and!; try done; by apply W4. Qed.

(** [s] is a state database after a transaction from [T0] to [T1] that began
    with the snapshot [id]. *)
Definition ran (db : Database) (s : StateDB) (id : Z) (T0 T1 : spec_state) : Prop := exists s0 m,
  clean s0 /\ abs keccak256 db s0 = T0 /\ sim keccak256 db (mkBase T0 ∅) s m /\ current m = T1 /\
  kept (snapped (start_machine keccak256 db s0)) m /\ id = nextRevisionId s0 /\ older (fst (Snapshot s0)) s.

Lemma shared_execute_spec db f L t i `{!CodeDB keccak256 db} : rested f L -> let T0 := set_accounts L (trie_accounts keccak256 db) in
  match spec_execute T0 t i with
  | Ret (T1, (Some (result, _), err)) => exists f1 s id, execute db f t i = Ret (f1, mkFlight t id result, match err with Some _ => true | None => false end) /\
      same_block f0 f1 /\ lvm f1 = Some s /\ ran db s id T0 T1
  | Diverges => False
  | _ => execute db f t i = Panics
  end.
Proof.
  intros (s0 & Hs & Hc & HL & Hb) T0. set (s := ResetObjectCache s0).
  assert (abs keccak256 db s = T0) as HT by (unfold T0; by rewrite <- HL).
  assert (sim keccak256 db (mkBase T0 ∅) s (start_machine keccak256 db s)) as Hsim by (apply sim_start; [done|done|by f_equal]).
  destruct (exec_refines keccak256 db (mkBase T0 ∅) s _ OSnapshot Hsim) as (s1 & E & Hsim1). injection E as <-.
  change (with_revisions _ _ _) with (fst (Snapshot s)) in Hsim1. remember (fst (Snapshot s)) as s1 eqn:Es1.
  assert (Snapshot (ResetObjectCache s0) = (s1, nextRevisionId s)) as Hsn by (by rewrite Es1).
  remember (snapped (start_machine keccak256 db s)) as m1 eqn:Em. change (mkMachine _ _ _) with (snapped (start_machine keccak256 db s)) in Hsim1. rewrite <- Em in Hsim1.
  assert (current m1 = T0) as HT1 by (by rewrite Em).
  unfold SharedReplay.spec_execute, spec_at. assert (tx_at f i = tx_at f0 i) as Et by (unfold tx_at; by rewrite (proj1 Hb)).
  unfold shared_execute, fb_ResetObjectCache. rewrite Hs. cbn [lvm set_lvm]. rewrite Hsn. unfold ReExecuteCommit, on_lvm. cbn [lvm set_lvm].
  change (tx_at (set_lvm _ _) i) with (tx_at f i). rewrite Et. destruct (tx_at f0 i) as [tx|e]; [|done].
  pose proof (ReExecuteCommit_advances keccak256 run rng rng_hash undefined_big Hrun m1 fromBlock (clock t) None tx (sim_numbered _ _ _ _ _ Hsim1)) as Ha.
  rewrite HT1 in Ha. unfold advances in Ha.
  pose proof (prog_refines keccak256 db (mkBase T0 ∅) (ReExecuteCommit_tx keccak256 run rng rng_hash undefined_big fromBlock (clock t) None tx) _ _ Hsim1) as Hp.
  destruct (spec_ReExecuteCommit _ _ _ _ _ _ _ _ _ _) as [[T1 [[[result delta]|] err]]| |]; [| |by rewrite Ha in Hp; rewrite Hp|done].
  - destruct Ha as (m & Hm & HTm & Hk). rewrite Hm in Hp. destruct Hp as (s2 & Hr & Hs2). rewrite Hr, !bind_ret.
    eexists _, s2, _. split; [done|]. split; [done|]. split; [done|]. exists s, m. rewrite <- Em, <- Es1. split_and!; try done. by eapply run_older.
  - destruct Ha as (m & Hm & _). rewrite Hm in Hp. destruct Hp as (s2 & Hr & _). by rewrite Hr, !bind_ret.
Qed.

Lemma local_abs db s : local s = set_accounts (abs keccak256 db s) ∅.
Proof. done. Qed.

Lemma fb_revert_spec db f s id T0 T1 `{!CodeDB keccak256 db} : lvm f = Some s -> same_block f0 f -> ran db s id T0 T1 ->
  exists f', fb_revert db f id = Ret f' /\ rested f' (set_accounts T0 ∅).
Proof.
  intros Hs Hb (s0 & m & Hc & HT0 & Hsim & HT1 & Hk & -> & Ho). set (m0 := start_machine keccak256 db s0).
  assert (numbered m0) as Hn by (by intros q Hq%elem_of_nil).
  pose proof (exec_refines keccak256 db _ s m (ORevert (next_id m0)) Hsim) as H. rewrite (spec_revert_snapped keccak256 m0 m Hn Hk) in H.
  destruct H as (s' & He & Hs'). cbn [exec] in He. unfold fb_revert. rewrite Hs. change (next_id m0) with (nextRevisionId s0) in He.
  destruct (RevertToSnapshot db s (nextRevisionId s0)) as [s1| |] eqn:Er; [|done..]. injection He as ->. rewrite bind_ret. eexists. split; [done|].
  destruct (RevertToSnapshot_frame db s _ s' Er) as (idx & q & Hq & Hid & _ & _ & Hent).
  assert (q = mkRevision (nextRevisionId s0) 0) as ->.
  { destruct Hc as (_ & _ & _ & Hj & _ & Hv & _). assert (q ∈ validRevisions (fst (Snapshot s0))) as Hin.
    { apply (proj2 Ho); [by eapply list_elem_of_lookup_2|]. cbn. lia. }
    cbn in Hin. rewrite Hv, Hj in Hin. cbn in Hin. by apply list_elem_of_singleton in Hin. }
  cbn in Hent. exists s'. split; [done|]. split; [|split; [|done]].
  - apply (rest_reset db). pose proof (sim_saved _ _ _ _ _ Hs') as Hv. cbn in Hv. apply Forall2_nil_inv_r in Hv.
    pose proof (sim_tracked _ _ _ _ _ Hs') as Ht. rewrite Hent in Ht. destruct (sim_sets _ _ _ _ _ Hs') as [Hp Hd]. split; [by eapply sim_wf|done|done|by rewrite Hp, Hd].
  - rewrite (local_abs db), (sim_abs _ _ _ _ _ Hs'). cbn. by rewrite HT0.
Qed.

Lemma Shared_Re_local db s db' s' : IntermediateShared_Re keccak256 trie_hash range_addrs db s = Ret (db', s', false) -> local s' = local (Finalise keccak256 range_addrs false s).
Proof.
  unfold IntermediateShared_Re, CommitDirtyStorage. set (s1 := Finalise keccak256 range_addrs false s). clearbody s1.
  destruct (foldM (commit_address trie_hash) (db, s1, false) _) as [[[db1 s2] err]| |] eqn:E1; [|done..]. rewrite !bind_ret.
  assert (local s2 = local s1) as H1.
  { apply (foldM_preserves (commit_address trie_hash) (fun st => local st.1.2 = local s1) _ (db, s1, false) (db1, s2, err)) in E1; [done| |done].
    intros [[d t] e] a [[d' t'] e'] Ht Hx. unfold commit_address in Hx. cbn in Ht. rewrite <- Ht. repeat case_match; by simplify_eq. }
  destruct err; [done|]. destruct (foldM publish_address _ _) as [[db2 s3]| |] eqn:E2; [|done..]. rewrite bind_ret. intros [= <- <-].
  apply (foldM_preserves publish_address (fun st => local st.2 = local s1) _ _ (db2, s3)) in E2; [done| |done].
  intros [d t] a [d' t'] Ht Hx. unfold publish_address in Hx. cbn in Ht. rewrite <- Ht. repeat case_match; by simplify_eq.
Qed.

Lemma Finalise_local del s : local (Finalise keccak256 range_addrs del s) = (match entries (jrnl s) with [] => local s | _ => set_refund (local s) 0 end).
Proof.
  unfold Finalise. set (l := range_addrs _). destruct (foldl_finalise_frame keccak256 del l s) as (E0 & E1 & E2 & E3 & E4 & E5 & E6 & E7).
  set (s1 := foldl _ _ _) in *. unfold clearJournalAndRefund, local, set_refund. rewrite E0. destruct (entries (jrnl s)); cbn; by rewrite ?E1, E2, E3, E4, E5, E6, E7.
Qed.

Lemma fb_flush_spec db f s id T0 T1 `{!CodeDB keccak256 db} : stored_by_hash trie_hash db -> lvm f = Some s -> same_block f0 f -> ran db s id T0 T1 ->
  exists db' f' L, fb_IntermediateShared keccak256 trie_hash range_addrs db f = Ret (db', f', false) /\ stored_by_hash trie_hash db' /\ blobs db' = blobs db /\
    rested f' L /\ after_flush T0 T1 L /\ published keccak256 db T0 T1 (trie_accounts keccak256 db') /\ (codes_known keccak256 db T1 -> CodeDB keccak256 db').
Proof.
  intros Hst Hs Hb (s0 & m & Hc & HT0 & Hsim & HT1 & _). rewrite <- HT0 in Hsim.
  destruct (flush_published keccak256 trie_hash range_addrs db s0 s m Hrange Hst Hc Hsim) as (db' & s' & E & Hst' & He & Hp & Hk & Hbl).
  rewrite (sim_abs _ _ _ _ _ Hsim), HT0, HT1 in *. exists db', (set_lvm f s'), (local s'). unfold fb_IntermediateShared. rewrite Hs, E, bind_ret. split_and!; try done.
  - exists s'. split_and!; try done. eapply ended_clean; [exact (sim_wf _ _ _ _ _ Hsim)|exact (sim_tracked _ _ _ _ _ Hsim)|done].
  - rewrite (Shared_Re_local _ _ _ _ E), Finalise_local, (local_abs db s), (sim_abs _ _ _ _ _ Hsim), HT1. unfold after_flush.
    destruct (entries (jrnl s)) eqn:Ee; [right|by left]. split; [|done]. pose proof (sim_base _ _ _ _ _ Hsim) as Hb0. rewrite Ee in Hb0. cbn in Hb0. injection Hb0. rewrite (sim_abs _ _ _ _ _ Hsim). by intros <-.
Qed.

(** ** Turns *)
Record resting (r : shared_round) (L : list spec_state) : Prop := {
  rs_db : CodeDB keccak256 (shared_db r);
  rs_stored : stored_by_hash trie_hash (shared_db r);
  rs_blobs : blobs (shared_db r) = blobs db0;
  rs_workers : Forall2 (fun w T => rested w.1 T /\ w.2 = None) (pool_workers r) L }.

Definition logged (r r' : shared_round) (log : tx_log) : Prop :=
  batchResults r' = log_results log (batchResults r) /\ shared_replayList r' = shared_replayList r ++ log_rejected log /\
  noContextCount r' = noContextCount r + log_unknown log /\ reexecErrorCount r' = reexecErrorCount r.

Lemma logged_trans r1 r2 r3 l1 l2 : logged r1 r2 l1 -> logged r2 r3 l2 -> logged r1 r3 (l1 ++ l2).
Proof.
  intros (A1 & A2 & A3 & A4) (B1 & B2 & B3 & B4). unfold logged, log_results, log_rejected, log_unknown in *.
  rewrite B1, B2, B3, B4, A1, A2, A3, A4, foldl_app, !omap_app, length_app, (assoc_L (++)). split_and!; try done. lia.
Qed.

Lemma published_blobs db db' B T A : blobs db = blobs db' -> published keccak256 db B T A -> published keccak256 db' B T A.
Proof.
  intros E (D & H1 & H2). exists D. split; [|done]. intros a Ha. rewrite (H1 a Ha). unfold republish, code_at. by rewrite E.
Qed.

Lemma codes_known_blobs db db' T : blobs db = blobs db' -> codes_known keccak256 db T -> codes_known keccak256 db' T.
Proof. intros E H a x Hx. specialize (H a x Hx). unfold has_code in *. by rewrite <- E. Qed.

Abbreviation turn := (shared_turn keccak256 trie_hash run rng rng_hash range_addrs undefined_big fromBlock clock txIDToIdx blockRS blockWS).

Lemma turn_shape r w t q i f : pool_workers r !! w = Some (f, None) -> txC r = t :: q -> txIDToIdx !! t = Some i ->
  turn r w = execute (shared_db r) f t i ≫= fun '(f1, fl, err) =>
             finishing (shared_db r) f1 fl ≫= fun '(db, f2, v) =>
             Ret (record_verdict (mkRound (shared_db r) q (<[w := (f1, Some fl)]> (pool_workers r)) (batchResults r) (shared_replayList r)
               (noContextCount r) (if err : bool then S (failedNotAborted r) else failedNotAborted r) (reexecErrorCount r)) w (fl_txID fl) db f2 v).
Proof.
  intros Hw Hq Hi. unfold shared_turn, shared_act at 2. rewrite Hw, Hq, Hi. destruct (execute (shared_db r) f t i) as [[[f1 fl] err]| |]; rewrite ?bind_ret; [|done..].
  cbn [pool_workers]. assert (w < length (pool_workers r)) as Hlt by (by apply lookup_lt_is_Some_1; eexists). rewrite list_lookup_insert_eq by done.
  unfold shared_act. cbn [pool_workers shared_db]. by rewrite list_lookup_insert_eq.
Qed.

Lemma turn_spec r w t q i L T : resting r L -> L !! w = Some T -> txC r = t :: q -> txIDToIdx !! t = Some i ->
  let T0 := set_accounts T (trie_accounts keccak256 (shared_db r)) in
  match spec_execute T0 t i with
  | Ret (T1, (Some (result, _), err)) =>
    if within blockRS blockWS t result then
      exists r' T', turn r w = Ret r' /\ txC r' = q /\ logged r r' [(t, Kept)] /\ after_flush T0 T1 T' /\
        published keccak256 db0 T0 T1 (trie_accounts keccak256 (shared_db r')) /\ (codes_known keccak256 db0 T1 -> resting r' (<[w := T']> L))
    else exists r', turn r w = Ret r' /\ txC r' = q /\ logged r r' [(t, Rejected)] /\ shared_db r' = shared_db r /\ resting r' L
  | Diverges => False
  | _ => turn r w = Panics
  end.
Proof.
  intros [Hdb Hst Hbl Hws] HL Hq Hi T0. destruct (Forall2_lookup_r _ _ _ _ _ Hws HL) as ([f fl0] & Hw & Hr & Hfl). cbn in Hr, Hfl. subst fl0.
  rewrite (turn_shape r w t q i f Hw Hq Hi). pose proof (shared_execute_spec (shared_db r) f T t i Hr) as H. cbv zeta in H. fold T0 in H.
  destruct (spec_execute T0 t i) as [[T1 [[[result delta]|] err]]| |]; [|by rewrite H|by rewrite H|done].
  destruct H as (f1 & s & id & -> & Hb & Hs & Hran). rewrite bind_ret. cbv zeta. unfold shared_finish, shared_match. cbn [fl_result fl_txID snap].
  fold (within blockRS blockWS t result). destruct (within blockRS blockWS t result).
  - destruct (fb_flush_spec (shared_db r) f1 s id T0 T1 Hst Hs Hb Hran) as (db' & f' & L' & -> & Hst' & Hbl' & Hrest & Haf & Hp & Hk). rewrite !bind_ret.
    eexists _, L'. split; [done|]. split; [done|]. split; [unfold logged; cbn; rewrite app_nil_r; split_and!; try done; lia|]. split; [done|].
    split; [by apply (published_blobs (shared_db r))|]. intros Hcodes. split; cbn; [apply Hk; by apply (codes_known_blobs db0)|done|by rewrite Hbl'|].
    rewrite list_insert_insert_eq. by apply Forall2_insert.
  - destruct (fb_revert_spec (shared_db r) f1 s id T0 T1 Hs Hb Hran) as (f' & -> & Hrest). rewrite !bind_ret.
    eexists. split; [done|]. split; [done|]. split; [unfold logged; cbn; split_and!; try done; lia|]. split; [done|]. split; cbn; [done..|].
    rewrite list_insert_insert_eq. rewrite <- (list_insert_id L w T HL). apply Forall2_insert; [done|]. split; [|done]. cbn.
    destruct Hr as (s1 & _ & _ & <- & _). exact Hrest.
Qed.

Abbreviation turns := (foldM turn).
Abbreviation acts := (shared_run keccak256 trie_hash run rng rng_hash range_addrs undefined_big fromBlock clock txIDToIdx blockRS blockWS).
Abbreviation runs := (shared_runs keccak256 run rng rng_hash undefined_big f0 db0 fromBlock clock txIDToIdx blockRS blockWS).

(** Turns are a schedule. *)
Lemma turns_scheduled ws : forall r r', turns r ws = Ret r' -> exists schedule, acts r schedule = Ret r'.
Proof.
  unfold shared_run. induction ws as [|w ws IH]; intros r r' H; cbn [foldM] in H; [by exists []|]. unfold shared_turn in H at 2.
  destruct (shared_act _ _ _ _ _ _ _ _ _ _ _ _ r w) as [r1| |] eqn:E1; [|done..]. rewrite bind_ret in H.
  destruct (pool_workers r1 !! w) as [[f [fl|]]|].
  - destruct (shared_act _ _ _ _ _ _ _ _ _ _ _ _ r1 w) as [r2| |] eqn:E2; [|done..]. rewrite bind_ret in H.
    destruct (IH _ _ H) as [sched Hs]. exists (w :: w :: sched). cbn [foldM]. by rewrite E1, bind_ret, E2, bind_ret.
  - rewrite bind_ret in H. destruct (IH _ _ H) as [sched Hs]. exists (w :: sched). cbn [foldM]. by rewrite E1, bind_ret.
  - rewrite bind_ret in H. destruct (IH _ _ H) as [sched Hs]. exists (w :: sched). cbn [foldM]. by rewrite E1, bind_ret.
Qed.

Lemma turn_idle r w L : resting r L -> L !! w = None \/ txC r = [] -> turn r w = Ret r.
Proof.
  intros [_ _ _ Hws] Hidle. unfold shared_turn, shared_act at 2. destruct (pool_workers r !! w) as [[f fl]|] eqn:Ew; [|by rewrite bind_ret, Ew].
  destruct (Forall2_lookup_l _ _ _ _ _ Hws Ew) as (T & HT & _ & Hfl). cbn in Hfl. subst fl. destruct Hidle as [?| ->]; [congruence|]. by rewrite bind_ret, Ew.
Qed.

Lemma turn_unknown r w t q L : resting r L -> is_Some (L !! w) -> txC r = t :: q -> txIDToIdx !! t = None ->
  exists r', turn r w = Ret r' /\ txC r' = q /\ shared_db r' = shared_db r /\ logged r r' [(t, NoIndex)] /\ resting r' L.
Proof.
  intros [H1 H2 H3 Hws] [T HT] Hq Hi. destruct (Forall2_lookup_r _ _ _ _ _ Hws HT) as ([f fl] & Hw & _ & Hfl). cbn in Hfl. subst fl.
  unfold shared_turn, shared_act at 2. rewrite Hw, Hq, Hi, bind_ret. cbn [pool_workers]. rewrite Hw. eexists. split; [done|]. split; [done|]. split; [done|].
  split; [unfold logged; cbn; rewrite app_nil_r; split_and!; try done; lia|done].
Qed.

Lemma turns_spec r0 ws : forall r L log, resting r L -> logged r0 r log ->
  exists o, runs (trie_accounts keccak256 (shared_db r)) L (txC r) log ws o /\
    match o with
    | Ended A L' q log' => exists r', turns r ws = Ret r' /\ trie_accounts keccak256 (shared_db r') = A /\ txC r' = q /\ logged r0 r' log' /\ resting r' L'
    | Crashed => turns r ws = Panics
    | Deployed _ => True
    end.
Proof.
  induction ws as [|w ws IH]; intros r L log Hr Hl; [eexists; split; [apply sr_end|by exists r]|]. cbn [foldM].
  destruct (decide (L !! w = None \/ txC r = [])) as [Hidle|Hbusy].
  { rewrite (turn_idle r w L Hr Hidle), bind_ret. destruct (IH r L log Hr Hl) as (o & Ho & Hm). exists o. split; [by apply sr_idle|done]. }
  destruct (L !! w) as [T|] eqn:HT; [|tauto]. destruct (txC r) as [|t q] eqn:Hq; [tauto|]. destruct (txIDToIdx !! t) as [i|] eqn:Hi.
  - pose proof (turn_spec r w t q i L T Hr HT Hq Hi) as H. cbv zeta in H. set (T0 := set_accounts T _) in *.
    destruct (spec_execute T0 t i) as [[T1 [[[result delta]|] err]]| |] eqn:Ex; [|exists Crashed; split; [eapply sr_crash; try done; fold T0; by rewrite Ex|by rewrite H]..|done].
    destruct (within blockRS blockWS t result) eqn:Ew.
    + destruct H as (r' & T' & -> & <- & Hlog & Haf & Hp & Hk). rewrite bind_ret. destruct (decide (codes_known keccak256 db0 T1)) as [Hc|Hc]; [|exists (Deployed t); split; [by eapply sr_deployed|done]].
      destruct (IH r' (<[w := T']> L) (log ++ [(t, Kept)]) (Hk Hc)) as (o & Ho & Hm); [by eapply logged_trans|]. exists o. split; [by eapply sr_kept|done].
    + destruct H as (r' & -> & <- & Hlog & Hdb & Hrest). rewrite bind_ret. destruct (IH r' L (log ++ [(t, Rejected)]) Hrest) as (o & Ho & Hm); [by eapply logged_trans|].
      rewrite Hdb in Ho. exists o. split; [by eapply sr_rejected|done].
  - destruct (turn_unknown r w t q L Hr) as (r' & -> & <- & Hdb & Hlog & Hrest); [by eexists|done|done|]. rewrite bind_ret.
    destruct (IH r' L (log ++ [(t, NoIndex)]) Hrest) as (o & Ho & Hm); [by eapply logged_trans|]. rewrite Hdb in Ho. exists o. split; [by eapply sr_unknown; [eexists| |]|done].
Qed.
End proofs.

Lemma rested_working keccak256 f0 f T db `{!CodeDB keccak256 db} : rested f0 f T ->
  let B := set_accounts T (trie_accounts keccak256 db) in working keccak256 db (fb_ResetObjectCache f) B B.
Proof.
  intros (s & Hs & Hc & <- & _) B. unfold fb_ResetObjectCache. rewrite Hs. exists (ResetObjectCache s), ∅, (start_machine keccak256 db (ResetObjectCache s)).
  split; [done|]. split; [by apply sim_start|done].
Qed.

Lemma start_resting keccak256 trie_hash db n transactions fromBlock idle batch `{!CodeDB keccak256 db} : stored_by_hash trie_hash db ->
  resting keccak256 trie_hash (trie_worker transactions fromBlock) db (start_round db (mkPool (replicate n (trie_worker transactions fromBlock)) idle n) batch) (replicate n (local NewWithTrie)).
Proof.
  intros Hst. split; [done..|]. cbn. rewrite fmap_replicate. apply Forall2_replicate. split; [|done]. exists NewWithTrie. split_and!; done.
Qed.


(** ** Examples: two transactions that store in different slots of one contract *)
Definition sender2 : string := "0x00000000000000000000000000000000000000ab".
Definition two_slots (ctx : Context) (c : Contract) (input : string) : eprog frame_result :=
  if decide (input = FromHex "0x01") then then_store (self c) (contract_gas c) 1 7 finished
  else if decide (input = FromHex "0x02") then then_store (self c) (contract_gas c) 2 8 finished
  else finished (contract_gas c).

Lemma framed_two_slots ctx c input : framed (two_slots ctx c input).
Proof. unfold two_slots, then_store, finished. repeat case_decide; framing; apply framed_opSstore. Qed.

Definition slots_block : list RawTransaction := [mkRaw "0x1" sender contract1 "0x01" EmptyString; mkRaw "0x2" sender2 contract1 "0x02" EmptyString].
Definition slots_index : gmap string Z := {["a" := 0%Z; "b" := 1%Z]}.
Definition contract_key (k : Z) : string := levmKey toy_keccak (HexToAddress contract1) (BigToHash k).
Definition slots_RS : keysets := {["a" := {[contract_key 1]}; "b" := {[contract_key 2]}]}.
Definition slots_WS : keysets := {["a" := {[contract_key 1]}; "b" := {[contract_key 2]}]}.

Definition slots_witness : ReplayBlockWitness := {[contract1 := Some (mkWitnessAccount "0x0" "0x1" EmptyString "0x01" None)]}.
Definition slots_built : outcome (Database * LevmSpecFallbackPool + string) :=
  NewLevmSpecFallbackPoolSharedTrie toy_keccak toy_trie_hash elements 1 2 slots_block slots_witness 1.
Definition slots_db : Database := match slots_built with Ret (inl (db, _)) => db | _ => empty_db end.
Definition slots_pool : LevmSpecFallbackPool := match slots_built with Ret (inl (_, p)) => p | _ => mkPool [] [] 0 end.
Definition slots_round : shared_round := start_round slots_db slots_pool ["b"; "a"].
Definition slots_turns (ws : list nat) : outcome shared_round :=
  foldM (shared_turn toy_keccak toy_trie_hash two_slots elements elements elements (fun _ => 0%Z) 1 (fun _ => 0%Z) slots_index slots_RS slots_WS) slots_round ws.
Definition slots_run (schedule : list nat) : outcome shared_round :=
  shared_run toy_keccak toy_trie_hash two_slots elements elements elements (fun _ => 0%Z) 1 (fun _ => 0%Z) slots_index slots_RS slots_WS slots_round schedule.

(** The values a later worker finds in the two slots. *)
Definition slots_of (db : Database) : option (option string * option string) :=
  (fun x => (a_state x !! BigToHash 1, a_state x !! BigToHash 2)) <$> trie_accounts toy_keccak db !! HexToAddress contract1.

Lemma slots_built_ret : slots_built = Ret (inl (slots_db, slots_pool)).
Proof. vm_compute. reflexivity. Qed.

(** The facts about a database that an example checks by evaluation. *)
Lemma CodeDB_check keccak256 db : (forall x, BytesToHash (keccak256 x) = keccak256 x) ->
  map_Forall (fun _ d => BytesToHash (CodeHash d) = CodeHash d /\ has_code keccak256 db (CodeHash d) /\ is_Some (OpenStorageTrie db (Root d))) (account_trie db) ->
  default EmptyString (blobs db !! keccak256 EmptyString) = EmptyString -> CodeDB keccak256 db.
Proof. intros Hk H He. split; try done; intros a d Hd; by apply (H a d Hd). Qed.

Lemma slots_CodeDB : CodeDB toy_keccak slots_db.
Proof.
  apply CodeDB_check; [exact (@keccak_hash toy_keccak empty_db _)| |vm_compute; reflexivity].
  apply (bool_decide_unpack _). unfold has_code. vm_compute. exact I.
Qed.

Lemma slots_stored : stored_by_hash toy_trie_hash slots_db.
Proof.
  assert (map_Forall (fun h t => h = toy_trie_hash t) (storage_tries slots_db)) as H by (apply (bool_decide_unpack _); vm_compute; exact I).
  intros h t Ht. by rewrite (H h t Ht).
Qed.

Definition slots_summary (r : shared_round) : option (bool * bool) * option bool * option bool * list string :=
  ((fun x => (bool_decide (is_Some x.1), bool_decide (is_Some x.2))) <$> slots_of (shared_db r), batchResults r !! "a", batchResults r !! "b", shared_replayList r).

Definition slots_outcome (o : outcome shared_round) : option (option (bool * bool) * option bool * option bool * list string) :=
  match o with Ret r => Some (slots_summary r) | _ => None end.

Definition slots_first : outcome (spec_state * (option result_and_delta * option fallback_error)) :=
  spec_execute toy_keccak two_slots elements elements (fun _ => 0%Z) (trie_worker slots_block 1) 1 (fun _ => 0%Z)
    (set_accounts (local NewWithTrie) (trie_accounts toy_keccak slots_db)) "a" 0.

Lemma slots_first_known T1 x : slots_first = Ret (T1, x) -> codes_known toy_keccak slots_db T1.
Proof.
  intros H. apply (bool_decide_eq_true _).
  assert (match slots_first with Ret (T, _) => bool_decide (codes_known toy_keccak slots_db T) | _ => false end = true) as Hc by (vm_compute; reflexivity).
  rewrite H in Hc. exact Hc.
Qed.

Abbreviation slots_runs := (shared_runs toy_keccak two_slots elements elements (fun _ => 0%Z) (trie_worker slots_block 1) slots_db 1 (fun _ => 0%Z) slots_index slots_RS slots_WS).

Lemma slots_not_deployed t : ~ slots_runs (trie_accounts toy_keccak slots_db) (replicate (pool_n slots_pool) (local NewWithTrie)) (sort_strings ["b"; "a"]) [] [0] (Deployed t).
Proof.
  intros H. destruct (turn_deployed _ _ _ _ _ _ _ _ _ _ _ _ _ _ _ _ _ _ H) as (u & q & i & T & T1 & x & Hq & HT & Hi & Hx & Hk).
  assert (u = "a") as -> by (vm_compute in Hq; congruence). assert (i = 0%Z) as -> by (vm_compute in Hi; congruence).
  assert (T = local NewWithTrie) as -> by (apply lookup_replicate_1 in HT; tauto). exact (Hk (slots_first_known _ _ Hx)).
Qed.


(** Conflicts are found per slot but flushes replace whole accounts.  Two
    transactions with disjoint key sets store in different slots of a contract.
    When the second executes before the first is flushed, both are reported as
    committed, none is queued for replay, and the slot of the first is gone;
    when they take turns, both slots are there. *)
Theorem shared_update_lost :
  hasConflict slots_RS slots_WS "a" "b" = false /\
  slots_outcome (slots_turns [0; 1]) = Some (Some (true, true), Some true, Some true, []) /\
  slots_outcome (slots_run [0; 1; 0; 1]) = Some (Some (false, true), Some true, Some true, []).
Proof. split; [|split]; vm_compute; reflexivity. Qed.
