(* ===== verification/Merkle.v ===== *)
(** * Merkle trees and inclusion proofs ([evm/splashmerkle])

    The tree behind the addresses of multi-signature keys: the inputs are the
    first layer, every layer is hashed in pairs into the next one, and all nodes
    lie in one slice.  A node finds its sibling through a pointer; the model
    keeps the position of the sibling in the slice, where the nodes have the
    values the pointers see once a layer is built.  Byte slices do not share
    spare capacity.  The hash is a parameter. *)
From stdpp Require Import base list list_numbers sets strings pretty.
From Stdlib Require Import Lia.
From S2P Require Import Prelude GoText.

Set Default Goal Selector "!".
Local Open Scope list_scope.

Record Node := mkNode { H : string; isLeaf : bool; SiblingLeft : option nat; SiblingRight : option nat }.
Record Tree := mkTree { Root : string; Nodes : list Node; Inputs : nat }.

Definition blankNode : Node := mkNode EmptyString false None None.
Definition with_H (h : string) (n : Node) : Node := mkNode h (isLeaf n) (SiblingLeft n) (SiblingRight n).
Definition with_leaf (n : Node) : Node := mkNode (H n) true (SiblingLeft n) (SiblingRight n).
Definition with_left (i : nat) (n : Node) : Node := mkNode (H n) (isLeaf n) (Some i) (SiblingRight n).
Definition with_right (i : nat) (n : Node) : Node := mkNode (H n) (isLeaf n) (SiblingLeft n) (Some i).

Definition GetSibling (nodes : list Node) (n : Node) : option Node :=
  match SiblingLeft n, SiblingRight n with Some i, _ => nodes !! i | None, Some i => nodes !! i | None, None => None end.

(** ** Construction *)
Definition base_step (input : list string) (nodes : list Node) (i : nat) : outcome (list Node) :=
  h ← or_panic (input !! i);
  let nodes := <[i := mkNode h false None None]> nodes in
  Ret (if Nat.odd i && bool_decide (0 < i) then alter (with_right i) (i - 1) (alter (with_left (i - 1)) i nodes) else alter with_leaf i nodes).

Definition constructBase (input : list string) : outcome (list Node) :=
  foldM (base_step input) (replicate (length input) blankNode) (seq 0 (length input)).

Section merkle.
Context (Hash : string -> string).

(** [inNodes] are [n] nodes of [nodes] from [lo]; the new nodes will lie at
    the end of [nodes]. *)
Definition layer_step (nodes : list Node) (lo outNodesCount : nat) (outNodes : list Node) (i : nat) : outcome (list Node) :=
  if Nat.even i then
    leftNode ← or_panic (nodes !! (lo + i));
    let hash := match GetSibling nodes leftNode with None => Hash (H leftNode) | Some rightNode => Hash (H leftNode +:+ H rightNode) end in
    let out := Nat.div2 i in
    let outNodes := alter (with_H hash) out outNodes in
    Ret (if bool_decide (out + 1 < outNodesCount) && Nat.even out then
           alter (with_left (length nodes + out)) (out + 1) (alter (with_right (length nodes + (out + 1))) out (alter with_leaf out outNodes))
         else outNodes)
  else Ret outNodes.

Definition generateLayerFrom (nodes : list Node) (lo n : nat) : outcome (list Node) :=
  let outNodesCount := Nat.div2 (n + 1) in
  foldM (layer_step nodes lo outNodesCount) (replicate outNodesCount blankNode) (seq 0 n).

Fixpoint construct_layers (fuel : nat) (nodes : list Node) (lo n : nat) : outcome (string * list Node) :=
  match fuel with
  | 0 => Diverges
  | S fuel =>
    newlayer ← generateLayerFrom nodes lo n;
    match newlayer with
    | [root] => Ret (H root, nodes ++ newlayer)
    | [] => Ret (H blankNode, nodes ++ newlayer)
    | _ => construct_layers fuel (nodes ++ newlayer) (length nodes) (length newlayer)
    end
  end.

Definition ConstructTree (input : list string) : outcome Tree :=
  base ← constructBase input;
  '(root, nodes) ← construct_layers (S (length input)) base 0 (length input);
  Ret (mkTree root nodes (length input)).

(** ** Proofs *)
Record ProofHelper := mkHelper { helper_H : string; helper_isLeaf : bool }.
Record Proof_ := mkProof { Target : string; helpers : list ProofHelper; isTargetLeft : bool }.
Definition MAXDEPTH : nat := 4.

Definition IncludesInput (tree : Tree) (input : string) : bool := existsb (fun n => bool_decide (H n = input)) (take (Inputs tree) (Nodes tree)).

Fixpoint find_index (nodes : list Node) (target : string) (i : nat) : option nat :=
  match nodes with [] => None | n :: nodes => if decide (H n = target) then Some i else find_index nodes target (S i) end.
Definition GetIndex (tree : Tree) (target : string) : nat := default 0 (find_index (Nodes tree) target 0).

Definition helper_for (nodes : list Node) (n : Node) (buf : string) : ProofHelper :=
  match GetSibling nodes n with Some sib => mkHelper (H sib) (isLeaf sib) | None => mkHelper buf (isLeaf n) end.

(** The hash of a node and its sibling; a right node without sibling is a nil
    dereference. *)
Definition parent_hash (nodes : list Node) (n : Node) : outcome string :=
  if isLeaf n then Ret (match GetSibling nodes n with Some rightNode => Hash (H n +:+ H rightNode) | None => Hash (H n) end)
  else match GetSibling nodes n with Some leftNode => Ret (Hash (H leftNode +:+ H n)) | None => Panics end.

Fixpoint proof_loop (depth : nat) (tree : Tree) (index : nat) (hs : list ProofHelper) : outcome (list ProofHelper) :=
  match depth with
  | 0 => Ret hs
  | S depth =>
    n ← or_panic (Nodes tree !! index);
    buf ← parent_hash (Nodes tree) n;
    let index := GetIndex tree buf in
    if bool_decide (length (Nodes tree) - 1 <= index) then Ret hs
    else n ← or_panic (Nodes tree !! index);
         proof_loop depth tree index (hs ++ [helper_for (Nodes tree) n buf])
  end.

Definition GenerateProofFor (tree : Tree) (target : string) : outcome (Proof_ + string) :=
  if negb (IncludesInput tree target) then Ret (inr "target not contained withing tree inputs")
  else
    let index := GetIndex tree target in
    n ← or_panic (Nodes tree !! index);
    hs ← proof_loop MAXDEPTH tree index [helper_for (Nodes tree) n EmptyString];
    Ret (inl (mkProof target hs (isLeaf n))).

Definition verify_step (hash : string) (h : ProofHelper) : string :=
  if helper_isLeaf h then Hash (helper_H h +:+ hash) else Hash (hash +:+ helper_H h).

Definition Verify (proof : Proof_) (merklerootHash : string) : outcome bool :=
  match helpers proof with
  | [] => Panics
  | h :: hs =>
    let hash := if isTargetLeft proof then Hash (Target proof +:+ helper_H h) else Hash (helper_H h +:+ Target proof) in
    Ret (bool_decide (foldl verify_step hash hs = merklerootHash))
  end.

(** ** The layers *)
Fixpoint next_layer (l : list string) : list string :=
  match l with
  | x :: y :: l => Hash (x +:+ y) :: next_layer l
  | [x] => [Hash x]
  | [] => []
  end.

(** The layers above [l], up to the root. *)
Fixpoint layers (fuel : nat) (l : list string) : list (list string) :=
  match fuel with
  | 0 => []
  | S fuel => next_layer l :: if bool_decide (length (next_layer l) <= 1) then [] else layers fuel (next_layer l)
  end.
Definition all_layers (input : list string) : list (list string) := input :: layers (S (length input)) input.
Definition merkle_root (input : list string) : string := default EmptyString (last (all_layers input) ≫= head).
End merkle.

(** ** The nodes of a layer in closed form *)
Definition link (base : bool) (lo m i : nat) (h : string) : Node :=
  mkNode h (Nat.even i && (base || bool_decide (i + 1 < m))) (if Nat.odd i then Some (lo + (i - 1)) else None)
    (if Nat.even i && bool_decide (i + 1 < m) then Some (lo + (i + 1)) else None).
Definition linked (base : bool) (lo : nat) (l : list string) : list Node := imap (link base lo (length l)) l.
Fixpoint link_all (off : nat) (ls : list (list string)) : list Node :=
  match ls with [] => [] | l :: ls => linked false off l ++ link_all (off + length l) ls end.

Lemma odd_even i : Nat.odd i = negb (Nat.even i).
Proof. by rewrite Nat.negb_even. Qed.

Lemma even_double q : Nat.even (2 * q) = true.
Proof. by rewrite Nat.even_mul. Qed.

Lemma even_S i : Nat.even (S i) = negb (Nat.even i).
Proof. by rewrite Nat.even_succ, <- Nat.negb_even. Qed.

Lemma list_ext {A} (l1 l2 : list A) : (forall i, l1 !! i = l2 !! i) -> l1 = l2.
Proof. apply list_eq. Qed.

Lemma linked_lookup base lo l i : linked base lo l !! i = link base lo (length l) i <$> l !! i.
Proof. unfold linked. by rewrite list_lookup_imap. Qed.

Lemma linked_H base lo l : H <$> linked base lo l = l.
Proof. apply list_ext. intros i. rewrite list_lookup_fmap, linked_lookup. by destruct (l !! i). Qed.

Lemma length_linked base lo l : length (linked base lo l) = length l.
Proof. apply length_imap. Qed.

Definition base_partial (k j : nat) (h : string) : Node := if decide (j < k) then link true 0 k j h else blankNode.

Lemma base_partial_step input k h : input !! k = Some h ->
  (let nodes := <[k := mkNode h false None None]> (imap (base_partial k) input) in
   if Nat.odd k && bool_decide (0 < k) then alter (with_right k) (k - 1) (alter (with_left (k - 1)) k nodes) else alter with_leaf k nodes) =
  imap (base_partial (S k)) input.
Proof.
  intros Hh. assert (k < length (imap (base_partial k) input)) as Hk by (rewrite length_imap; by eapply lookup_lt_Some). cbv zeta.
  apply list_ext. intros j. rewrite list_lookup_imap, odd_even. destruct (Nat.even k) eqn:Ek; cbn [negb andb].
  - destruct (decide (k = j)) as [<-|Hj].
    + rewrite list_lookup_alter_eq, list_lookup_insert_eq, Hh by done. cbn. f_equal. unfold base_partial. rewrite decide_True by lia.
      unfold link, with_leaf. cbn. rewrite Ek, odd_even, Ek, bool_decide_eq_false_2 by lia. done.
    + rewrite list_lookup_alter_ne, list_lookup_insert_ne, list_lookup_imap by done. destruct (input !! j) as [x|]; [|done]. cbn. f_equal. unfold base_partial.
      destruct (decide (j < k)); [rewrite decide_True by lia|by rewrite decide_False by lia]. unfold link. destruct (decide (j + 1 = k)) as [E|]; [|by rewrite (bool_decide_ext (j + 1 < k) (j + 1 < S k)) by lia].
      assert (Nat.even j = false) as -> by (rewrite <- E, Nat.add_1_r, even_S in Ek; by destruct (Nat.even j)). done.
  - assert (0 < k) as H0 by (destruct k; [done|lia]). rewrite bool_decide_eq_true_2 by done. destruct k as [|k]; [done|]. rewrite even_S in Ek. replace (S k - 1) with k by lia.
    destruct (decide (S k = j)) as [<-|Hj].
    + rewrite list_lookup_alter_ne by lia. rewrite list_lookup_alter_eq, list_lookup_insert_eq, Hh by done. cbn [fmap option_fmap option_map]. f_equal. unfold base_partial. rewrite decide_True by lia.
      unfold link, with_left. cbn [H isLeaf SiblingLeft SiblingRight]. rewrite odd_even, even_S, Ek. cbn. by replace (k - 0) with k by lia.
    + destruct (decide (k = j)) as [<-|Hj2].
      * rewrite list_lookup_alter_eq, list_lookup_alter_ne, list_lookup_insert_ne, list_lookup_imap by lia. destruct (input !! k) as [x|]; [|done]. cbn [fmap option_fmap option_map]. f_equal.
        unfold base_partial. rewrite !decide_True by lia. unfold link, with_right. cbn [H isLeaf SiblingLeft SiblingRight]. assert (Nat.even k = true) as -> by (by destruct (Nat.even k)).
        rewrite (bool_decide_eq_true_2 (k + 1 < S (S k))) by lia. cbn. by replace (k + 1) with (S k) by lia.
      * rewrite !list_lookup_alter_ne, list_lookup_insert_ne, list_lookup_imap by lia. destruct (input !! j) as [x|]; [|done]. cbn [fmap option_fmap option_map]. f_equal. unfold base_partial.
        destruct (decide (j < S k)); [rewrite decide_True by lia|by rewrite decide_False by lia]. unfold link. by rewrite (bool_decide_ext (j + 1 < S k) (j + 1 < S (S k))) by lia.
Qed.

Lemma constructBase_spec input : constructBase input = Ret (linked true 0 input).
Proof.
  unfold constructBase.
  destruct (foldM_seq_inv (base_step input) (fun k nodes => nodes = imap (base_partial k) input) (length input) (replicate (length input) blankNode)) as (nodes & -> & ->).
  - apply list_ext. intros j. rewrite list_lookup_imap. destruct (input !! j) as [h|] eqn:E; cbn.
    + unfold base_partial. rewrite decide_False by lia. apply lookup_replicate_2. by eapply lookup_lt_Some.
    + apply lookup_ge_None in E. apply lookup_ge_None. by rewrite length_replicate.
  - intros k nodes Hk ->. destruct (lookup_lt_is_Some_2 input k Hk) as [h Hh]. unfold base_step. rewrite Hh. cbn [or_panic]. rewrite bind_ret. eexists. split; [done|]. by apply base_partial_step.
  - f_equal. apply list_ext. intros j. rewrite list_lookup_imap, linked_lookup. destruct (input !! j) as [h|] eqn:E; [|done]. cbn. unfold base_partial. rewrite decide_True; [done|by eapply lookup_lt_Some].
Qed.

Section layers.
Context (Hash : string -> string).

Definition pair_hash (l : list string) (q : nat) : option string :=
  (fun x => match l !! (2 * q + 1) with Some y => Hash (x +:+ y) | None => Hash x end) <$> l !! (2 * q).

Lemma next_lookup l : forall q, next_layer Hash l !! q = pair_hash l q.
Proof.
  unfold pair_hash. induction l as [l IH] using (well_founded_induction (well_founded_ltof _ length)). intros q. destruct l as [|x [|y l]]; cbn [next_layer].
  - by rewrite !lookup_nil.
  - destruct q as [|q]; [done|]. cbn. by rewrite Nat.add_succ_r.
  - destruct q as [|q]; [done|]. cbn [lookup list_lookup]. rewrite (IH l) by (unfold ltof; cbn; lia). replace (2 * S q) with (S (S (2 * q))) by lia. done.
Qed.

Lemma length_next l : length (next_layer Hash l) = Nat.div2 (length l + 1).
Proof.
  induction l as [l IH] using (well_founded_induction (well_founded_ltof _ length)). destruct l as [|x [|y l]]; cbn [next_layer]; [done|done|].
  cbn [length]. rewrite (IH l) by (unfold ltof; cbn; lia). done.
Qed.

(** The nodes of a layer after [i] rounds of the loop. *)
Definition layer_partial (off m i q : nat) (h : string) : Node :=
  mkNode (if decide (2 * q < i) then h else EmptyString) (Nat.even q && bool_decide (q + 1 < m) && bool_decide (2 * q < i))
    (if Nat.odd q && bool_decide (2 * (q - 1) < i) then Some (off + (q - 1)) else None)
    (if Nat.even q && bool_decide (q + 1 < m) && bool_decide (2 * q < i) then Some (off + (q + 1)) else None).

Lemma layer_partial_odd off m i q h : Nat.even i = false -> layer_partial off m (S i) q h = layer_partial off m i q h.
Proof.
  intros Hi. unfold layer_partial. assert (forall r, 2 * r < S i <-> 2 * r < i) as E.
  { intros r. split; [|lia]. intros Hr. destruct (decide (2 * r = i)) as [<-|]; [by rewrite even_double in Hi|lia]. }
  rewrite (bool_decide_ext _ _ (E q)), (bool_decide_ext _ _ (E (q - 1))), (decide_ext _ _ _ _ (E q)). done.
Qed.

Lemma layer_partial_step off next k h : let m := length next in next !! k = Some h ->
  let out := alter (with_H h) k (imap (layer_partial off m (2 * k)) next) in
  (if bool_decide (k + 1 < m) && Nat.even k then alter (with_left (off + k)) (k + 1) (alter (with_right (off + (k + 1))) k (alter with_leaf k out)) else out) =
  imap (layer_partial off m (S (2 * k))) next.
Proof.
  intros m Hh out. assert (forall r, r <> k -> (2 * r < S (2 * k) <-> 2 * r < 2 * k)) as Hr by lia.
  apply list_ext. intros j. rewrite list_lookup_imap. destruct (decide (k = j)) as [<-|Hj].
  - assert (out !! k = Some (with_H h (layer_partial off m (2 * k) k h))) as Ho by (unfold out; by rewrite list_lookup_alter_eq, list_lookup_imap, Hh).
    rewrite Hh. cbn [fmap option_fmap option_map]. unfold layer_partial at 1. rewrite decide_True, (bool_decide_eq_true_2 (2 * k < S (2 * k))), andb_true_r by lia.
    destruct (bool_decide (k + 1 < m) && Nat.even k) eqn:E.
    + apply andb_true_iff in E as [E1 E2]. rewrite list_lookup_alter_ne, !list_lookup_alter_eq, Ho by lia. cbn. f_equal. unfold with_right, with_leaf. cbn.
      rewrite E1, E2, odd_even, E2. done.
    + rewrite Ho. f_equal. unfold with_H, layer_partial. cbn. rewrite andb_comm in E. rewrite E, andb_false_l. f_equal.
      destruct (Nat.odd k) eqn:Eo; [|done]. cbn. assert (k <> 0) by (by intros ->). by rewrite !bool_decide_eq_true_2 by lia.
  - assert (out !! j = layer_partial off m (2 * k) j <$> next !! j) as Ho by (unfold out; by rewrite list_lookup_alter_ne, list_lookup_imap).
    destruct (decide (k + 1 = j)) as [<-|Hj2].
    + destruct (bool_decide (k + 1 < m) && Nat.even k) eqn:E.
      * apply andb_true_iff in E as [_ E2]. rewrite list_lookup_alter_eq, !list_lookup_alter_ne, Ho by lia. destruct (next !! (k + 1)) as [x|]; [|done]. cbn [fmap option_fmap option_map]. f_equal.
        unfold with_left, layer_partial. cbn [H isLeaf SiblingLeft SiblingRight]. rewrite Nat.add_1_r, even_S, odd_even, even_S, E2. cbn [negb andb]. replace (S k - 1) with k by lia.
        rewrite (bool_decide_eq_true_2 (2 * k < S (2 * k))), !decide_False by lia. done.
      * rewrite Ho. destruct (next !! (k + 1)) as [x|] eqn:Ex; [|done]. cbn [fmap option_fmap option_map]. f_equal. assert (k + 1 < m) as Hm by (by eapply lookup_lt_Some). rewrite bool_decide_eq_true_2 in E by done. cbn in E.
        unfold layer_partial. rewrite Nat.add_1_r, even_S, odd_even, even_S, E. cbn [negb andb]. rewrite !(bool_decide_eq_false_2 (2 * S k < _)), !decide_False by lia. done.
    + assert ((if bool_decide (k + 1 < m) && Nat.even k then alter (with_left (off + k)) (k + 1) (alter (with_right (off + (k + 1))) k (alter with_leaf k out)) else out) !! j = out !! j) as ->
        by (destruct (_ && _); [by rewrite !list_lookup_alter_ne by lia|done]).
      rewrite Ho. destruct (next !! j) as [x|]; [|done]. cbn [fmap option_fmap option_map]. f_equal. unfold layer_partial.
      rewrite (bool_decide_ext (2 * j < S (2 * k)) (2 * j < 2 * k)), (bool_decide_ext (2 * (j - 1) < S (2 * k)) (2 * (j - 1) < 2 * k)), (decide_ext (2 * j < S (2 * k)) (2 * j < 2 * k)) by lia. done.
Qed.

Lemma GetSibling_even pre base l post q x : l !! (2 * q) = Some x ->
  GetSibling (pre ++ linked base (length pre) l ++ post) (link base (length pre) (length l) (2 * q) x) =
  link base (length pre) (length l) (2 * q + 1) <$> l !! (2 * q + 1).
Proof.
  intros Hx. unfold GetSibling. unfold link at 1 2. cbn [SiblingLeft SiblingRight]. rewrite odd_even, even_double. cbn [negb andb].
  destruct (l !! (2 * q + 1)) as [y|] eqn:Ey.
  - rewrite bool_decide_eq_true_2 by (by eapply lookup_lt_Some). rewrite lookup_app_r, lookup_app_l by (rewrite ?length_linked; apply lookup_lt_Some in Ey; lia).
    replace (length pre + (2 * q + 1) - length pre) with (2 * q + 1) by lia. by rewrite linked_lookup, Ey.
  - apply lookup_ge_None in Ey. by rewrite bool_decide_eq_false_2 by lia.
Qed.

Lemma generateLayerFrom_spec pre base l : let nodes := pre ++ linked base (length pre) l in
  generateLayerFrom Hash nodes (length pre) (length l) = Ret (linked false (length nodes) (next_layer Hash l)).
Proof.
  intros nodes. unfold generateLayerFrom. cbv zeta. rewrite <- length_next. set (next := next_layer Hash l). set (m := length next).
  destruct (foldM_seq_inv (layer_step Hash nodes (length pre) m) (fun i out => out = imap (layer_partial (length nodes) m i) next) (length l) (replicate m blankNode)) as (out & -> & ->).
  - apply list_ext. intros q. rewrite list_lookup_imap. destruct (next !! q) as [h|] eqn:E; cbn [fmap option_fmap option_map].
    + rewrite lookup_replicate_2 by (by eapply lookup_lt_Some). unfold layer_partial. by rewrite decide_False, (bool_decide_eq_false_2 (2 * q < 0)), (bool_decide_eq_false_2 (2 * (q - 1) < 0)), !andb_false_r by lia.
    + apply lookup_ge_None in E. apply lookup_ge_None. by rewrite length_replicate.
  - intros i out Hi ->. unfold layer_step. destruct (Nat.even i) eqn:Ei.
    + apply Nat.even_spec in Ei as [k ->]. destruct (lookup_lt_is_Some_2 l (2 * k) Hi) as [x Hx].
      assert (nodes !! (length pre + 2 * k) = Some (link base (length pre) (length l) (2 * k) x)) as -> by (unfold nodes; rewrite lookup_app_r, Nat.add_comm, Nat.add_sub, linked_lookup, Hx by lia; done).
      cbn [or_panic]. rewrite bind_ret, Nat.div2_double. pose proof (GetSibling_even pre base l [] k x Hx) as Hs. rewrite app_nil_r in Hs. fold nodes in Hs. rewrite Hs. cbv zeta.
      assert (next !! k = Some (match link base (length pre) (length l) (2 * k + 1) <$> l !! (2 * k + 1) with
        | Some rightNode => Hash (H (link base (length pre) (length l) (2 * k) x) +:+ H rightNode) | None => Hash (H (link base (length pre) (length l) (2 * k) x)) end)) as Hn.
      { unfold next. rewrite next_lookup. unfold pair_hash. rewrite Hx. cbn [fmap option_fmap option_map]. by destruct (l !! (2 * k + 1)). }
      eexists. split; [done|]. exact (layer_partial_step (length nodes) next k _ Hn).
    + eexists. split; [done|]. apply list_ext. intros q. rewrite !list_lookup_imap. destruct (next !! q); [|done]. cbn [fmap option_fmap option_map]. by rewrite <- layer_partial_odd.
  - f_equal. apply list_ext. intros q. rewrite list_lookup_imap, linked_lookup. destruct (next !! q) as [h|] eqn:E; [|done]. cbn [fmap option_fmap option_map]. f_equal.
    assert (2 * q < length l) as Hq by (apply lookup_lt_Some in E; unfold next in E; rewrite length_next in E; pose proof (Nat.div2_odd (length l + 1)) as Hd; destruct (Nat.odd _); cbn in Hd; lia).
    unfold layer_partial, link. fold m. rewrite decide_True, !(bool_decide_eq_true_2 (2 * _ < length l)), !andb_true_r by lia. done.
Qed.

Lemma construct_eq fuel nodes lo n : construct_layers Hash (S fuel) nodes lo n =
  generateLayerFrom Hash nodes lo n ≫= fun newlayer =>
  match newlayer with
  | [root] => Ret (H root, nodes ++ newlayer)
  | [] => Ret (H blankNode, nodes ++ newlayer)
  | _ => construct_layers Hash fuel (nodes ++ newlayer) (length nodes) (length newlayer)
  end.
Proof. done. Qed.

Lemma layers_eq fuel l : layers Hash (S fuel) l = next_layer Hash l :: if bool_decide (length (next_layer Hash l) <= 1) then [] else layers Hash fuel (next_layer Hash l).
Proof. done. Qed.

Lemma next_shrinks l : 1 < length (next_layer Hash l) -> length (next_layer Hash l) < length l.
Proof. rewrite length_next. intros Hn. pose proof (Nat.div2_odd (length l + 1)) as Hd. destruct (Nat.odd _); cbn in Hd; lia. Qed.

Lemma last_cons {A} (x : A) l : l <> [] -> last (x :: l) = last l.
Proof. by destruct l. Qed.

Lemma construct_layers_spec fuel : forall pre base l, length l <= fuel ->
  let nodes := pre ++ linked base (length pre) l in
  construct_layers Hash (S fuel) nodes (length pre) (length l) =
  Ret (default EmptyString (last (layers Hash (S fuel) l) ≫= head), nodes ++ link_all (length nodes) (layers Hash (S fuel) l)).
Proof.
  induction fuel as [|fuel IH]; intros pre base l Hf nodes.
  { apply Nat.le_0_r, nil_length_inv in Hf as ->. done. }
  rewrite construct_eq, layers_eq. pose proof (generateLayerFrom_spec pre base l) as Hg. cbv zeta in Hg. fold nodes in Hg. rewrite Hg, bind_ret. clear Hg.
  pose proof (next_shrinks l) as Hsh. pose proof (length_linked false (length nodes) (next_layer Hash l)) as Hlen. pose proof (linked_H false (length nodes) (next_layer Hash l)) as HH.
  pose proof (IH nodes false (next_layer Hash l)) as HI. cbv zeta in HI. destruct (next_layer Hash l) as [|x [|y r]] eqn:En.
  - cbn. done.
  - done.
  - rewrite bool_decide_eq_false_2 by (cbn; lia). rewrite last_cons by (by destruct fuel; [cbn in Hsh; lia|]). cbn [link_all].
    destruct (linked false (length nodes) (x :: y :: r)) as [|u [|v rest]] eqn:El; [done|done|]. rewrite Hlen. destruct fuel as [|fuel]; [cbn in Hsh; lia|].
    rewrite HI by (cbn in *; lia). rewrite <- (assoc_L (++)), length_app, Hlen. done.
Qed.

Lemma ConstructTree_spec input : ConstructTree Hash input =
  Ret (mkTree (merkle_root Hash input) (linked true 0 input ++ link_all (length input) (layers Hash (S (length input)) input)) (length input)).
Proof.
  unfold ConstructTree. rewrite constructBase_spec, bind_ret. pose proof (construct_layers_spec (length input) [] true input (le_n _)) as Hc. cbn [app length] in Hc. cbv zeta in Hc. rewrite Hc, bind_ret, length_linked.
  unfold merkle_root, all_layers. by rewrite last_cons.
Qed.

(** ** Paths *)
Definition sibling_of (q : nat) : nat := if Nat.even q then q + 1 else q - 1.

(** The helpers of position [q] of a layer of [2^k] nodes. *)
Fixpoint path (k : nat) (l : list string) (q : nat) : list ProofHelper :=
  match k with
  | 0 => []
  | S k => mkHelper (default EmptyString (l !! sibling_of q)) (Nat.odd q) :: path k (next_layer Hash l) (Nat.div2 q)
  end.

Lemma length_next_pow k l : length l = 2 ^ S k -> length (next_layer Hash l) = 2 ^ k.
Proof. intros Hl. rewrite length_next, Hl, Nat.add_1_r, Nat.pow_succ_r'. apply Nat.div2_succ_double. Qed.

(** A node, its sibling and their parent. *)
Lemma pair_of k l q h : length l = 2 ^ S k -> l !! q = Some h -> exists x, l !! sibling_of q = Some x /\
  next_layer Hash l !! Nat.div2 q = Some (if Nat.even q then Hash (h +:+ x) else Hash (x +:+ h)).
Proof.
  intros Hl Hq. assert (q < 2 * 2 ^ k) as Hlt by (rewrite <- Nat.pow_succ_r', <- Hl; by eapply lookup_lt_Some). unfold sibling_of. rewrite next_lookup. unfold pair_hash.
  pose proof (Nat.div2_odd q) as Hd. rewrite odd_even in Hd. destruct (Nat.even q) eqn:Eq; cbn [negb Nat.b2n] in Hd.
  - destruct (lookup_lt_is_Some_2 l (q + 1)) as [x Hx]; [rewrite Hl, Nat.pow_succ_r'; lia|]. exists x. split; [done|]. replace (2 * Nat.div2 q) with q by lia. by rewrite Hq, Hx.
  - destruct (lookup_lt_is_Some_2 l (q - 1)) as [x Hx]; [rewrite Hl, Nat.pow_succ_r'; lia|]. exists x. split; [done|]. replace (2 * Nat.div2 q) with (q - 1) by lia. replace (q - 1 + 1) with q by lia. by rewrite Hq, Hx.
Qed.

Lemma path_verifies k : forall l q h, length l = 2 ^ k -> l !! q = Some h -> [foldl (verify_step Hash) h (path k l q)] = Nat.iter k (next_layer Hash) l.
Proof.
  induction k as [|k IH]; intros l q h Hl Hq.
  - destruct l as [|x [|]]; try done. by destruct q; [injection Hq as ->|].
  - destruct (pair_of k l q h Hl Hq) as (x & Hx & Hn). cbn [path foldl]. rewrite Hx. cbn [default id from_option]. unfold verify_step at 2. cbn [helper_isLeaf helper_H]. rewrite odd_even.
    assert ((if negb (Nat.even q) then Hash (x +:+ h) else Hash (h +:+ x)) = (if Nat.even q then Hash (h +:+ x) else Hash (x +:+ h))) as -> by (by destruct (Nat.even q)).
    rewrite (IH (next_layer Hash l) (Nat.div2 q) _ (length_next_pow k l Hl) Hn). by rewrite <- Nat.iter_succ_r.
Qed.

Lemma layers_root k : forall l fuel, length l = 2 ^ S k -> k <= fuel -> default [] (last (layers Hash (S fuel) l)) = Nat.iter (S k) (next_layer Hash) l.
Proof.
  induction k as [|k IH]; intros l fuel Hl Hf; rewrite layers_eq; pose proof (length_next_pow _ l Hl) as Hn.
  - rewrite bool_decide_eq_true_2; [done|]. rewrite Hn. done.
  - destruct fuel as [|fuel]; [lia|]. rewrite bool_decide_eq_false_2 by (rewrite Hn; cbn; pose proof (Nat.pow_nonzero 2 k); lia). rewrite last_cons by done.
    rewrite (IH (next_layer Hash l) fuel Hn) by lia. by rewrite <- Nat.iter_succ_r.
Qed.

(** ** Generated proofs *)
Lemma find_index_spec nodes : forall i n off, NoDup (H <$> nodes) -> nodes !! i = Some n -> find_index nodes (H n) off = Some (off + i).
Proof.
  induction nodes as [|m nodes IH]; intros i n off Hnd Hi; [done|]. cbn [find_index fmap list_fmap] in *. apply NoDup_cons in Hnd as [Hm Hnd]. destruct i as [|i].
  - injection Hi as ->. rewrite decide_True by done. f_equal. lia.
  - cbn in Hi. rewrite decide_False; [rewrite (IH i n (S off) Hnd Hi); f_equal; lia|]. intros E. apply Hm. rewrite E. apply list_elem_of_fmap. exists n. split; [done|]. by eapply list_elem_of_lookup_2.
Qed.

Lemma GetIndex_spec tree i n : NoDup (H <$> Nodes tree) -> Nodes tree !! i = Some n -> GetIndex tree (H n) = i.
Proof. intros Hnd Hi. unfold GetIndex. by rewrite (find_index_spec _ i n 0 Hnd Hi). Qed.

Lemma node_lookup pre base l post i x : l !! i = Some x ->
  (pre ++ linked base (length pre) l ++ post) !! (length pre + i) = Some (link base (length pre) (length l) i x).
Proof. intros Hx. rewrite lookup_app_r, Nat.add_comm, Nat.add_sub, lookup_app_l, linked_lookup, Hx by (rewrite ?length_linked; try lia; by eapply lookup_lt_Some). done. Qed.

Section node.
Context (pre : list Node) (base : bool) (l : list string) (post : list Node) (k q : nat) (h : string) (Hl : length l = 2 ^ S k) (Hq : l !! q = Some h).
Abbreviation nodes := (pre ++ linked base (length pre) l ++ post).
Abbreviation node := (link base (length pre) (length l) q h).

Lemma node_pair : Nat.even q = true -> q + 1 < length l.
Proof.
  intros He. apply Nat.even_spec in He as [r ->]. apply lookup_lt_Some in Hq. rewrite Hl, Nat.pow_succ_r' in *. lia.
Qed.

Lemma node_isLeaf : isLeaf node = Nat.even q.
Proof. unfold link. cbn. destruct (Nat.even q) eqn:E; [|done]. rewrite (bool_decide_eq_true_2 _ (node_pair E)). by destruct base. Qed.

Lemma node_sibling x : l !! sibling_of q = Some x -> GetSibling nodes node = Some (link base (length pre) (length l) (sibling_of q) x).
Proof.
  intros Hx. rewrite <- (node_lookup pre base l post _ _ Hx). unfold GetSibling, link, sibling_of. cbn [SiblingLeft SiblingRight]. rewrite odd_even. destruct (Nat.even q) eqn:E; cbn [negb andb]; [|done].
  by rewrite (bool_decide_eq_true_2 _ (node_pair E)).
Qed.

Lemma sibling_isLeaf x : l !! sibling_of q = Some x -> isLeaf (link base (length pre) (length l) (sibling_of q) x) = Nat.odd q.
Proof.
  intros Hx. unfold link, sibling_of. cbn. rewrite odd_even. destruct (Nat.even q) eqn:E; [by rewrite Nat.add_1_r, even_S, E|].
  destruct q as [|r]; [done|]. cbn [Nat.sub negb]. rewrite Nat.sub_0_r. rewrite even_S in E. assert (Nat.even r = true) as -> by (by destruct (Nat.even r)). apply lookup_lt_Some in Hq.
  rewrite bool_decide_eq_true_2 by lia. by destruct base.
Qed.

Lemma node_parent x : l !! sibling_of q = Some x -> parent_hash Hash nodes node = Ret (if Nat.even q then Hash (h +:+ x) else Hash (x +:+ h)).
Proof. intros Hx. unfold parent_hash. rewrite node_isLeaf, (node_sibling x Hx). by destruct (Nat.even q). Qed.

Lemma node_helper x buf : l !! sibling_of q = Some x -> helper_for nodes node buf = mkHelper x (Nat.odd q).
Proof. intros Hx. unfold helper_for. rewrite (node_sibling x Hx), (sibling_isLeaf x Hx). done. Qed.
End node.

(** One round: the parent is found at its place in the next layer. *)
Lemma proof_round k d pre base l fuel q h tree hs : length l = 2 ^ S k -> l !! q = Some h ->
  Nodes tree = pre ++ linked base (length pre) l ++ link_all (length pre + length l) (layers Hash (S fuel) l) -> NoDup (H <$> Nodes tree) ->
  exists p, next_layer Hash l !! Nat.div2 q = Some p /\
    proof_loop Hash (S d) tree (length pre + q) hs =
    let index := length pre + length l + Nat.div2 q in
    if bool_decide (length (Nodes tree) - 1 <= index) then Ret hs
    else n ← or_panic (Nodes tree !! index); proof_loop Hash d tree index (hs ++ [helper_for (Nodes tree) n p]).
Proof.
  intros Hl Hq Hn Hnd. destruct (pair_of k l q h Hl Hq) as (x & Hx & Hp). eexists. split; [exact Hp|]. cbn [proof_loop].
  assert (Nodes tree !! (length pre + q) = Some (link base (length pre) (length l) q h)) as -> by (rewrite Hn; by apply node_lookup). cbn [or_panic]. rewrite bind_ret.
  assert (parent_hash Hash (Nodes tree) (link base (length pre) (length l) q h) = Ret (if Nat.even q then Hash (h +:+ x) else Hash (x +:+ h))) as -> by (rewrite Hn; by eapply node_parent).
  rewrite bind_ret. set (p := if Nat.even q then _ else _) in *.
  assert (Nodes tree !! (length pre + length l + Nat.div2 q) = Some (link false (length pre + length l) (length (next_layer Hash l)) (Nat.div2 q) p)) as Hi.
  { rewrite Hn, layers_eq. cbn [link_all]. rewrite (app_assoc pre). rewrite lookup_app_r by (rewrite length_app, length_linked; apply Nat.le_add_r). rewrite length_app, length_linked, Nat.add_comm, Nat.add_sub. rewrite lookup_app_l by (rewrite length_linked; by eapply lookup_lt_Some). by rewrite linked_lookup, Hp. }
  assert (GetIndex tree p = length pre + length l + Nat.div2 q) as -> by (apply (GetIndex_spec tree _ _ Hnd Hi)). cbv zeta. done.
Qed.

Lemma length_nodes_above pre base l fuel : length (pre ++ linked base (length pre) l ++ link_all (length pre + length l) (layers Hash (S fuel) l)) =
  length pre + length l + length (next_layer Hash l) + length (link_all (length pre + length l + length (next_layer Hash l))
    (if bool_decide (length (next_layer Hash l) <= 1) then [] else layers Hash fuel (next_layer Hash l))).
Proof. rewrite layers_eq. cbn [link_all]. rewrite !length_app, !length_linked. lia. Qed.

Lemma proof_loop_spec k : forall d pre base l fuel q h tree hs, length l = 2 ^ S k -> l !! q = Some h -> k <= d -> k <= fuel ->
  Nodes tree = pre ++ linked base (length pre) l ++ link_all (length pre + length l) (layers Hash (S fuel) l) -> NoDup (H <$> Nodes tree) ->
  proof_loop Hash d tree (length pre + q) hs = Ret (hs ++ path k (next_layer Hash l) (Nat.div2 q)).
Proof.
  induction k as [|k IH]; intros d pre base l fuel q h tree hs Hl Hq Hd Hf Hn Hnd; (destruct d as [|d]; [first [by rewrite app_nil_r|lia]|]);
    destruct (proof_round _ d pre base l fuel q h tree hs Hl Hq Hn Hnd) as (p & Hp & ->); cbv zeta; set (r := Nat.div2 q) in *; clearbody r; pose proof (length_next_pow _ l Hl) as Hnl; pose proof (length_nodes_above pre base l fuel) as Hlen; rewrite <- Hn in Hlen.
  - rewrite bool_decide_eq_true_2 in Hlen by (by rewrite Hnl). cbn [link_all] in Hlen. rewrite Hnl in Hlen. cbn in Hlen. rewrite bool_decide_eq_true_2 by (rewrite Hlen; clear; lia). by rewrite app_nil_r.
  - assert (1 < length (next_layer Hash l)) as H1 by (rewrite Hnl; cbn; pose proof (Nat.pow_nonzero 2 k); lia). pose proof (lookup_lt_Some _ _ _ Hp) as Hlt.
    rewrite bool_decide_eq_false_2 in Hlen by lia. destruct fuel as [|fuel]; [lia|]. set (pre' := pre ++ linked base (length pre) l).
    assert (length pre' = length pre + length l) as Hpre by (unfold pre'; by rewrite length_app, length_linked).
    assert (Nodes tree = pre' ++ linked false (length pre') (next_layer Hash l) ++ link_all (length pre' + length (next_layer Hash l)) (layers Hash (S fuel) (next_layer Hash l))) as Hn'.
    { rewrite Hn, layers_eq, bool_decide_eq_false_2 by lia. cbn [link_all]. rewrite Hpre. unfold pre'. by rewrite <- (assoc_L (++)). }
    rewrite bool_decide_eq_false_2.
    2: { rewrite layers_eq in Hlen. cbn [link_all] in Hlen. rewrite length_app, length_linked in Hlen. pose proof (length_next_pow k (next_layer Hash l) Hnl) as Hnn.
         pose proof (Nat.pow_nonzero 2 k). lia. }
    rewrite <- Hpre. assert (Nodes tree !! (length pre' + r) = Some (link false (length pre') (length (next_layer Hash l)) (r) p)) as -> by (rewrite Hn'; by apply node_lookup).
    cbn [or_panic]. rewrite bind_ret. destruct (pair_of k _ _ _ Hnl Hp) as (x & Hx & _).
    assert (helper_for (Nodes tree) (link false (length pre') (length (next_layer Hash l)) (r) p) p = mkHelper x (Nat.odd (r))) as -> by (rewrite Hn'; by eapply node_helper).
    rewrite (IH d pre' false (next_layer Hash l) fuel (r) p tree _ Hnl Hp) by (done || lia). cbn [path]. rewrite Hx. by rewrite <- (assoc_L (++)).
Qed.

Lemma link_all_H ls : forall off, H <$> link_all off ls = concat ls.
Proof. induction ls as [|l ls IH]; intros off; [done|]. cbn [link_all concat]. by rewrite fmap_app, linked_H, IH. Qed.

Lemma root_of_path k input q target : length input = 2 ^ S k -> input !! q = Some target -> foldl (verify_step Hash) target (path (S k) input q) = merkle_root Hash input.
Proof.
  intros Hl Hq. pose proof (path_verifies (S k) input q target Hl Hq) as Hp. assert (k <= length input) as Hk by (rewrite Hl; pose proof (Nat.pow_gt_lin_r 2 (S k)); lia).
  unfold merkle_root, all_layers. rewrite last_cons by done. pose proof (layers_root k input (length input) Hl Hk) as Hr. rewrite <- Hp in Hr.
  destruct (last (layers Hash (S (length input)) input)) as [l|]; [|done]. cbn in Hr. subst l. done.
Qed.
End layers.

(** ** Soundness *)
Section sound.
Context (Hash : string -> string).

(** The strings that are hashed in the layers above [l], and by the verifier. *)
Fixpoint pairs (l : list string) : list string :=
  match l with x :: y :: l => (x +:+ y) :: pairs l | [x] => [x] | [] => [] end.
Fixpoint tree_preimages (k : nat) (l : list string) : list string :=
  match k with 0 => [] | S k => pairs l ++ tree_preimages k (next_layer Hash l) end.
Definition step_preimage (hash : string) (h : ProofHelper) : string := if helper_isLeaf h then helper_H h +:+ hash else hash +:+ helper_H h.
Fixpoint proof_preimages (hash : string) (hs : list ProofHelper) : list string :=
  match hs with [] => [] | h :: hs => step_preimage hash h :: proof_preimages (verify_step Hash hash h) hs end.

Definition collision (xs ys : list string) : Prop := exists x y, x ∈ xs /\ y ∈ ys /\ x <> y /\ Hash x = Hash y.

Lemma verify_step_hash hash h : verify_step Hash hash h = Hash (step_preimage hash h).
Proof. unfold verify_step, step_preimage. by destruct (helper_isLeaf h). Qed.

Lemma next_pairs l : next_layer Hash l = Hash <$> pairs l.
Proof. induction l as [l IH] using (well_founded_induction (well_founded_ltof _ length)). destruct l as [|x [|y l]]; cbn; [done|done|]. rewrite IH by (unfold ltof; cbn; lia). done. Qed.

Lemma pairs_split k l p : length l = 2 ^ S k -> p ∈ pairs l -> exists x y, p = x +:+ y /\ x ∈ l /\ y ∈ l.
Proof.
  intros Hl. assert (Nat.even (length l) = true) as He by (by rewrite Hl, Nat.pow_succ_r', even_double). clear Hl. revert He.
  induction l as [l IH] using (well_founded_induction (well_founded_ltof _ length)). destruct l as [|x [|y l]]; intros He Hp; cbn in *; [by apply elem_of_nil in Hp|done|].
  apply elem_of_cons in Hp as [->|Hp]; [exists x, y; set_solver|]. destruct (IH l) as (u & v & -> & Hu & Hv); [unfold ltof; cbn; lia|done|done|]. exists u, v. set_solver.
Qed.

Lemma append_inj_suffix (x y u v : string) : x +:+ y = u +:+ v -> String.length y = String.length v -> x = u /\ y = v.
Proof. intros Hxy Hl. apply append_inj_length; [done|]. apply (f_equal String.length) in Hxy. rewrite !length_append in Hxy. lia. Qed.

Lemma path_sound n k : (forall x, String.length (Hash x) = n) -> forall l hash hs, length l = 2 ^ k -> length hs = k -> (forall x, x ∈ hash :: l -> String.length x = n) ->
  [foldl (verify_step Hash) hash hs] = Nat.iter k (next_layer Hash) l -> hash ∈ l \/ collision (tree_preimages k l) (proof_preimages hash hs).
Proof.
  intros Hn. induction k as [|k IH]; intros l hash hs Hl Hhs Hlen Hv.
  - apply nil_length_inv in Hhs as ->. left. cbn in Hv. subst l. set_solver.
  - destruct hs as [|h hs]; [done|]. injection Hhs as Hhs. cbn [foldl proof_preimages tree_preimages] in *. rewrite Nat.iter_succ_r in Hv.
    destruct (IH (next_layer Hash l) (verify_step Hash hash h) hs) as [Hin|(x & y & Hx & Hy & Hne)]; [by apply length_next_pow|done| |done| |].
    + intros x. rewrite verify_step_hash, next_pairs, elem_of_cons, list_elem_of_fmap. intros [->|(u & -> & _)]; apply Hn.
    + rewrite next_pairs, verify_step_hash in Hin. apply list_elem_of_fmap in Hin as (p & Heq & Hp). destruct (decide (p = step_preimage hash h)) as [E|E].
      * left. destruct (pairs_split k l p Hl Hp) as (u & v & -> & Hu & Hv'). assert (String.length u = n /\ String.length v = n /\ String.length hash = n) as (L1 & L2 & L3) by (split_and!; apply Hlen; set_solver).
        unfold step_preimage in E. destruct (helper_isLeaf h); [apply append_inj_suffix in E as [_ <-]|apply append_inj_length in E as [<- _]]; (done || congruence).
      * right. exists p, (step_preimage hash h). split; [apply elem_of_app; by left|]. split; [apply elem_of_cons; by left|]. done.
    + right. exists x, y. split; [apply elem_of_app; by right|]. split; [apply elem_of_cons; by right|done].
Qed.
End sound.

(** The strings the verifier hashes. *)
Definition hashed_by (Hash : string -> string) (proof : Proof_) : list string :=
  match helpers proof with [] => [] | h :: hs => proof_preimages Hash (Target proof) (mkHelper (helper_H h) (negb (isTargetLeft proof)) :: hs) end.

(** C34: on 2, 4, 8, 16 or 32 inputs, where no two nodes of the tree are equal,
    the tree is built with the root of its inputs, every input has a proof, and
    the proof verifies against the root. *)
Theorem merkle_proof_verifies Hash k input target :
  length input = 2 ^ S k -> k <= MAXDEPTH -> NoDup (concat (all_layers Hash input)) -> target ∈ input ->
  exists tree proof, ConstructTree Hash input = Ret tree /\ Root tree = merkle_root Hash input /\
    GenerateProofFor Hash tree target = Ret (inl proof) /\ Verify Hash proof (Root tree) = Ret true.
Proof.
  intros Hl Hk Hnd Ht. apply list_elem_of_lookup in Ht as [q Hq]. rewrite ConstructTree_spec. set (tree := mkTree _ _ _). exists tree.
  assert (Nodes tree = [] ++ linked true (length (@nil Node)) input ++ link_all (length (@nil Node) + length input) (layers Hash (S (length input)) input)) as Hn by done.
  assert (NoDup (H <$> Nodes tree)) as Hnd' by (unfold tree; cbn [Nodes]; by rewrite fmap_app, linked_H, link_all_H).
  assert (Nodes tree !! q = Some (link true 0 (length input) q target)) as Hi by exact (node_lookup [] true input _ q target Hq).
  destruct (pair_of Hash k input q target Hl Hq) as (x & Hx & _).
  assert (helper_for (Nodes tree) (link true 0 (length input) q target) EmptyString = mkHelper x (Nat.odd q)) as Hh by exact (node_helper [] true input _ k q target Hl Hq x EmptyString Hx).
  assert (IncludesInput tree target = true) as Hin.
  { unfold IncludesInput. apply existsb_exists. exists (link true 0 (length input) q target). split; [|by apply bool_decide_eq_true]. apply list_elem_of_In, (list_elem_of_lookup_2 _ q).
    rewrite lookup_take_lt by (cbn; by eapply lookup_lt_Some). exact Hi. }
  assert (k <= length input) as Hf by (rewrite Hl; pose proof (Nat.pow_gt_lin_r 2 (S k)); lia).
  exists (mkProof target (mkHelper x (Nat.odd q) :: path Hash k (next_layer Hash input) (Nat.div2 q)) (Nat.even q)). split; [done|]. split; [done|]. split.
  - unfold GenerateProofFor. rewrite Hin. cbn [negb]. assert (GetIndex tree target = q) as -> by exact (GetIndex_spec tree q _ Hnd' Hi). rewrite Hi. cbn [or_panic]. rewrite bind_ret, Hh.
    rewrite (proof_loop_spec Hash k MAXDEPTH [] true input (length input) q target tree _ Hl Hq Hk Hf Hn Hnd' : proof_loop Hash MAXDEPTH tree q _ = _), bind_ret. cbn [app].
    by rewrite (node_isLeaf [] true input k q target Hl Hq : isLeaf (link true 0 (length input) q target) = _).
  - unfold Verify. cbn [helpers isTargetLeft Target helper_H]. f_equal. apply bool_decide_eq_true. cbn [Root tree]. rewrite <- (root_of_path Hash k input q target Hl Hq). cbn [path foldl]. rewrite Hx. f_equal.
    unfold verify_step. cbn. rewrite odd_even. by destruct (Nat.even q).
Qed.


(** ** Examples *)
Definition tag_hash (x : string) : string := "h" +:+ x.
Definition leaves (n : nat) : list string := (fun i => pretty (N.of_nat i)) <$> seq 10 n.

Lemma merkle_proof_verifies_witness : exists tree proof, ConstructTree tag_hash ["a"; "b"; "c"; "d"] = Ret tree /\
  GenerateProofFor tag_hash tree "c" = Ret (inl proof) /\ Verify tag_hash proof (Root tree) = Ret true /\ Root tree = "hhabhcd".
Proof.
  destruct (merkle_proof_verifies tag_hash 1 ["a"; "b"; "c"; "d"] "c" eq_refl) as (tree & proof & H1 & H2 & H3 & H4).
  - vm_compute. lia.
  - apply (bool_decide_unpack _). vm_compute. exact I.
  - apply (bool_decide_unpack _). vm_compute. exact I.
  - exists tree, proof. split; [exact H1|]. split; [exact H3|]. split; [exact H4|]. rewrite H2. vm_compute. reflexivity.
Defined.

Definition short_hash (x : string) : string := match x with String c (String d _) => String d EmptyString | _ => "?" end.
Definition forged : Proof_ := mkProof "z" [mkHelper "b" false] true.


(** Proofs fail outside full trees of at most five layers of pairs.  With six
    inputs the proof for the fifth dereferences a nil sibling; with sixty-four
    the proof is cut off without an error and does not verify. *)
Theorem merkle_proof_fails :
  (tree ← ConstructTree tag_hash (leaves 6); GenerateProofFor tag_hash tree (pretty 14%N)) = Panics /\
  (tree ← ConstructTree tag_hash (leaves 64); p ← GenerateProofFor tag_hash tree (pretty 10%N); match p with inl proof => Verify tag_hash proof (Root tree) | inr _ => Panics end) = Ret false.
Proof. split; vm_compute; reflexivity. Qed.
