(* ===== verification/SpecArgs.v ===== *)
(** * Arguments and account keys of a transaction: [utils/mainnet_spec_executor.go]

    Before a transaction is looked up in the static analysis its address
    arguments are taken from the calldata ([decodeArgs]), and the slot keys the
    analysis gives are completed with the keys of the accounts that execution
    touches ([augmentAccountKeys]).  The iteration order of the map of involved
    addresses is an argument. *)
From stdpp Require Import base list list_numbers gmap sets strings.
From Stdlib Require Import ZArith Ascii Lia.
From S2P Require Import Prelude RWSet GoText KeyDerive ContractManager HexKeys SpecFallback.

Set Default Goal Selector "!".
Local Open Scope string_scope.
Local Open Scope list_scope.
Local Notation len := String.length.

(** ** Reasons for a fallback *)
Definition classifyFallbackReason (tx : RawTransaction) (llmErr : option rwset_error) : string :=
  if String.eqb (raw_To tx) EmptyString then "creation"
  else if Nat.ltb (len (raw_Input tx)) 10 then "no-calldata"
  else match llmErr with
       | None => "unknown"
       | Some ErrNotPreAnalyzed => "no-cache"
       | Some ErrUnresolvableAccount => "unresolvable-acct"
       | Some ErrCrossContractNotCached => "cross-call-miss"
       | Some ErrKeyUnresolvable => "key-unresolvable"
       | Some ErrMaxDepth => "other"
       end.

(** ** Calldata *)
Fixpoint repeat_char (c : ascii) (n : nat) : string := match n with 0 => EmptyString | S n => String c (repeat_char c n) end.
Definition zeroPad24 : string := repeat_char "0" 24.

Definition extractAddress (input : string) (wordIdx : nat) : string :=
  let wordStart := 2 + 8 + wordIdx * 64 in
  let wordEnd := wordStart + 64 in
  if Nat.ltb (len input) wordEnd then EmptyString
  else if String.eqb (take_bytes 24 (drop_bytes wordStart input)) zeroPad24
  then "0x" +:+ ToLower (take_bytes 40 (drop_bytes (wordStart + 24) input))
  else EmptyString.

(** The calldata when its text is well formed. *)
Definition raw_calldata (input : string) : string :=
  let rawHex := TrimPrefix0x input in
  if negb (String.eqb rawHex EmptyString) && Nat.even (len rawHex) && forallb is_hex_char (String.list_ascii_of_string rawHex)
  then DecodeString rawHex else EmptyString.

(** One turn of the loop over the parameters: word index, addresses found. *)
Definition input_step (input : string) (st : nat * nat * (string * string)) (ty : string) : nat * nat * (string * string) :=
  let '(wordIdx, addrCount, (addr1, addr2)) := st in
  if String.eqb ty "address" && Nat.ltb addrCount 2 then
    let addr := extractAddress input wordIdx in
    if String.eqb addr EmptyString then (S wordIdx, addrCount, (addr1, addr2))
    else (S wordIdx, S addrCount, if Nat.eqb addrCount 0 then (addr, addr2) else (addr1, addr))
  else (S wordIdx, addrCount, (addr1, addr2)).

Definition decodeArgs (keccak256 : string -> string) (m : MainnetContractManager) (address selector input : string) : MainnetTxArgs :=
  let '(addr1, addr2) :=
    match GetABIInputs keccak256 m address selector with
    | e :: _ => (foldl (input_step input) (0, 0, (EmptyString, EmptyString)) (in_Type <$> Inputs e)).2
    | [] =>
      let addr := extractAddress input 0 in
      if String.eqb addr EmptyString then (EmptyString, EmptyString) else (addr, extractAddress input 1)
    end in
  mkArgs addr1 addr2 EmptyString (ToLower selector) (raw_calldata input).

(** ** Account keys *)
Definition slotKeyContractAddr (key : string) : option string :=
  match SplitN ":" 3 key with
  | [kind; addr; _] =>
    if String.eqb kind "slot" then
      if Nat.eqb (len addr) 42 && HasPrefix addr "0x" then Some (ToLower addr) else None
    else None
  | _ => None
  end.

Definition acct_key (addr field : string) : string := "acct:" +:+ addr +:+ ":" +:+ field.

(** A slice of keys with the set that keeps it free of duplicates. *)
Definition key_slice := (list string * gset string)%type.
Definition key_slice_of (keys : list string) : key_slice := (keys, list_to_set keys).
Definition add_to_slice (st : key_slice) (key : string) : key_slice :=
  if decide (key ∈ st.2) then st else (st.1 ++ [key], {[key]} ∪ st.2).

Definition involved (readKeys writeKeys : list string) (tx : RawTransaction) (args : MainnetTxArgs) : gset string :=
  list_to_set (filter (fun a => a <> EmptyString) [ToLower (raw_From tx); ToLower (raw_To tx); a_Addr1 args; a_Addr2 args; MsgSender args]) ∪
  list_to_set (omap slotKeyContractAddr readKeys) ∪ list_to_set (omap slotKeyContractAddr writeKeys).

Definition sender_reads (fromAddr : string) : list string :=
  if String.eqb fromAddr EmptyString then [] else [acct_key fromAddr "balance"; acct_key fromAddr "nonce"].
Definition sender_writes (fromAddr : string) : list string :=
  if String.eqb fromAddr EmptyString then [] else [acct_key fromAddr "balance"; acct_key fromAddr "nonce"].
Definition target_reads (toAddr : string) : list string :=
  if String.eqb toAddr EmptyString then [] else [acct_key toAddr "exist"; acct_key toAddr "code"; acct_key toAddr "balance"].
Definition target_writes (toAddr value : string) : list string :=
  if String.eqb toAddr EmptyString then []
  else if existsb (String.eqb value) [EmptyString; "0x0"; "0"] then [] else [acct_key toAddr "balance"].
Definition other_reads (fromAddr toAddr addr : string) : list string :=
  if String.eqb addr fromAddr || String.eqb addr toAddr then []
  else [acct_key addr "balance"; acct_key addr "exist"; acct_key addr "code"].

Definition augmentAccountKeys (rng : gset string -> list string) (readKeys writeKeys : list string) (tx : RawTransaction) (args : MainnetTxArgs) :
    list string * list string :=
  let fromAddr := ToLower (raw_From tx) in
  let toAddr := ToLower (raw_To tx) in
  let reads := foldl add_to_slice (key_slice_of readKeys) (sender_reads fromAddr) in
  let writes := foldl add_to_slice (key_slice_of writeKeys) (sender_writes fromAddr) in
  let reads := foldl add_to_slice reads (target_reads toAddr) in
  let writes := foldl add_to_slice writes (target_writes toAddr (raw_Value tx)) in
  let reads := foldl (fun reads addr => foldl add_to_slice reads (other_reads fromAddr toAddr addr)) reads (rng (involved readKeys writeKeys tx args)) in
  (reads.1, writes.1).

(** ** Calldata of a call, for the specification *)
Inductive abi_arg := AddressArg (addr : string) | WordArg (ty word : string).
Definition arg_type (a : abi_arg) : string := match a with AddressArg _ => "address" | WordArg ty _ => ty end.
Definition arg_word (a : abi_arg) : string := match a with AddressArg addr => zeros 12 +:+ addr | WordArg _ w => w end.
Definition arg_ok (a : abi_arg) : Prop :=
  match a with AddressArg addr => len addr = 20 | WordArg ty w => ty <> "address" /\ len w = 32 end.
Definition arg_address (a : abi_arg) : option string := match a with AddressArg addr => Some ("0x" +:+ EncodeToString addr) | WordArg _ _ => None end.
Definition calldata (sel : string) (args : list abi_arg) : string := sel +:+ foldr String.append EmptyString (arg_word <$> args).

(** ** Lemmas on account keys *)
Definition slice_ok (st : key_slice) : Prop := forall k, k ∈ st.2 <-> k ∈ st.1.

(** [st'] is [st] with the keys [l] that it did not have. *)
Definition extended (st st' : key_slice) (l : list string) : Prop :=
  slice_ok st' /\ (forall k, k ∈ st'.1 <-> k ∈ st.1 \/ k ∈ l) /\ st.1 `prefix_of` st'.1 /\ (NoDup st.1 -> NoDup st'.1).

Lemma slice_ok_of keys : slice_ok (key_slice_of keys).
Proof. intros k. cbn. by rewrite elem_of_list_to_set. Qed.

Lemma add_keys_extend l : forall st, slice_ok st -> extended st (foldl add_to_slice st l) l.
Proof.
  induction l as [|x l IH]; intros st Hst; cbn [foldl]; [split_and!; try done; set_solver|].
  assert (extended st (add_to_slice st x) [x]) as (H1 & H2 & H3 & H4).
  { unfold add_to_slice. case_decide as Hx.
    - apply Hst in Hx. split_and!; try done. set_solver.
    - rewrite (Hst x) in Hx. split_and!; cbn.
      + intros k. specialize (Hst k). cbn. set_solver.
      + set_solver.
      + by eexists.
      + intros Hnd. apply NoDup_app. split_and!; [done|set_solver|apply NoDup_singleton]. }
  destruct (IH _ H1) as (I1 & I2 & I3 & I4). split_and!; [done| |by etrans|tauto].
  intros k. rewrite I2, H2. set_solver.
Qed.

Lemma add_keys_bind {A} (f : A -> list string) l : forall st, foldl (fun st a => foldl add_to_slice st (f a)) st l = foldl add_to_slice st (l ≫= f).
Proof. induction l as [|a l IH]; intros st; [done|]. cbn. by rewrite IH, foldl_app. Qed.

(** The account keys a transaction must read and write. *)
Definition account_reads (tx : RawTransaction) (involved : gset string) : list string :=
  sender_reads (ToLower (raw_From tx)) ++ target_reads (ToLower (raw_To tx)) ++
  (elements involved ≫= other_reads (ToLower (raw_From tx)) (ToLower (raw_To tx))).
Definition account_writes (tx : RawTransaction) : list string :=
  sender_writes (ToLower (raw_From tx)) ++ target_writes (ToLower (raw_To tx)) (raw_Value tx).

(** The sets are extended by exactly the account keys, whatever the order of
    the map, and stay free of duplicates. *)
Lemma augmentAccountKeys_exact rng readKeys writeKeys tx args :
  range_ok rng ->
  let '(reads, writes) := augmentAccountKeys rng readKeys writeKeys tx args in
  (forall k, k ∈ reads <-> k ∈ readKeys \/ k ∈ account_reads tx (involved readKeys writeKeys tx args)) /\
  (forall k, k ∈ writes <-> k ∈ writeKeys \/ k ∈ account_writes tx) /\
  readKeys `prefix_of` reads /\ writeKeys `prefix_of` writes /\ (NoDup readKeys -> NoDup reads) /\ (NoDup writeKeys -> NoDup writes).
Proof.
  intros Hr. unfold augmentAccountKeys. rewrite add_keys_bind, <- !foldl_app.
  destruct (add_keys_extend (sender_reads (ToLower (raw_From tx)) ++ target_reads (ToLower (raw_To tx)) ++
    (rng (involved readKeys writeKeys tx args) ≫= other_reads (ToLower (raw_From tx)) (ToLower (raw_To tx)))) _ (slice_ok_of readKeys)) as (_ & R2 & R3 & R4).
  destruct (add_keys_extend (account_writes tx) _ (slice_ok_of writeKeys)) as (_ & W2 & W3 & W4).
  split_and!; try done. intros k. rewrite R2. unfold account_reads. rewrite !elem_of_app, !list_elem_of_bind.
  setoid_rewrite elem_of_elements. setoid_rewrite (range_ok_elem rng _ _ Hr). done.
Qed.

(** ** Lemmas on calldata *)
Lemma Encode_append a b : EncodeToString (a +:+ b) = EncodeToString a +:+ EncodeToString b.
Proof. induction a as [|c a IH]; [done|]. rewrite append_cons. cbn [EncodeToString]. by rewrite IH, !append_cons. Qed.

Lemma take_drop_at (a b c : string) n k : len a = n -> len b = k -> take_bytes k (drop_bytes n (a +:+ b +:+ c)) = b.
Proof. intros <- <-. by rewrite drop_append, take_append. Qed.

Lemma hex_digit_lower n : (0 <= n < 16)%Z -> lower_char (hex_digit n) = hex_digit n /\ is_hex_char (hex_digit n) = true.
Proof. intros H. unfold is_hex_char. rewrite hex_digit_val by done. split; [|done]. assert (exists k, n = Z.of_nat k /\ k < 16) as (k & -> & Hk) by (exists (Z.to_nat n); lia).
  do 16 (destruct k as [|k]; [done|]). lia.
Qed.

Lemma byte_val_bounds c : (0 <= byte_val c / 16 < 16)%Z /\ (0 <= byte_val c `mod` 16 < 16)%Z.
Proof. pose proof (N_ascii_bounded c). unfold byte_val. split; [|by apply Z.mod_pos_bound]. split; [apply Z.div_pos; lia|apply Z.div_lt_upper_bound; lia]. Qed.

Lemma Encode_lower b : ToLower (EncodeToString b) = EncodeToString b /\ forallb is_hex_char (String.list_ascii_of_string (EncodeToString b)) = true.
Proof.
  induction b as [|c b [I1 I2]]; [done|]. destruct (byte_val_bounds c) as [H1 H2].
  destruct (hex_digit_lower _ H1) as [L1 X1], (hex_digit_lower _ H2) as [L2 X2].
  cbn [EncodeToString ToLower String.list_ascii_of_string forallb]. by rewrite L1, L2, I1, X1, X2, I2.
Qed.

Lemma Encode_zeros12 : EncodeToString (zeros 12) = zeroPad24.
Proof. reflexivity. Qed.

Lemma extractAddress_word sel pre addr post i :
  len sel = 4 -> len pre = 32 * i -> len addr = 20 ->
  extractAddress ("0x" +:+ EncodeToString (sel +:+ pre +:+ (zeros 12 +:+ addr) +:+ post)) i = "0x" +:+ EncodeToString addr.
Proof.
  intros Hs Hp Ha. unfold extractAddress.
  assert ("0x" +:+ EncodeToString (sel +:+ pre +:+ (zeros 12 +:+ addr) +:+ post) =
    ("0x" +:+ EncodeToString (sel +:+ pre)) +:+ zeroPad24 +:+ EncodeToString addr +:+ EncodeToString post) as ->.
  { by rewrite !Encode_append, Encode_zeros12, !append_assoc. }
  assert (len ("0x" +:+ EncodeToString (sel +:+ pre)) = 2 + 8 + i * 64) as Hl by (rewrite length_append, length_Encode, length_append; cbn; lia).
  set (front := "0x" +:+ EncodeToString (sel +:+ pre)) in *. clearbody front.
  rewrite (proj2 (Nat.ltb_ge _ _)) by (rewrite !length_append, !length_Encode, Hl, Ha; cbn; lia).
  rewrite (take_drop_at front zeroPad24 _ _ 24) by done. rewrite String.eqb_refl.
  rewrite <- (append_assoc front zeroPad24), (take_drop_at (front +:+ zeroPad24) (EncodeToString addr)).
  - by rewrite (proj1 (Encode_lower addr)).
  - by rewrite length_append, Hl.
  - by rewrite length_Encode, Ha.
Qed.

Definition words (args : list abi_arg) : string := foldr String.append EmptyString (arg_word <$> args).

Lemma words_app a b : words (a ++ b) = words a +:+ words b.
Proof. unfold words. rewrite fmap_app, foldr_app. induction (arg_word <$> a) as [|w l IH]; cbn; [done|]. by rewrite IH, append_assoc. Qed.

Lemma length_words args : Forall arg_ok args -> len (words args) = 32 * length args.
Proof.
  induction 1 as [|a args Ha _ IH]; [done|]. unfold words in *. cbn [fmap list_fmap foldr length]. rewrite length_append, IH.
  destruct a as [addr|ty w]; cbn [arg_ok arg_word] in *; [rewrite length_append, length_zeros|]; lia.
Qed.

(** The state of the loop behind the parameters [args]. *)
Definition walked (args : list abi_arg) : nat * nat * (string * string) :=
  let addrs := omap arg_address args in
  (length args, length addrs `min` 2, (default EmptyString (addrs !! 0), default EmptyString (addrs !! 1))).

Lemma input_step_walked sel pre a post :
  len sel = 4 -> Forall arg_ok pre -> arg_ok a ->
  input_step ("0x" +:+ EncodeToString (calldata sel (pre ++ a :: post))) (walked pre) (arg_type a) = walked (pre ++ [a]).
Proof.
  intros Hs Hpre Ha. unfold walked, input_step. rewrite omap_app, !length_app. cbn [omap list_omap length]. rewrite Nat.add_1_r.
  destruct a as [addr|ty w]; cbn [arg_type arg_address arg_ok] in *.
  - assert (calldata sel (pre ++ AddressArg addr :: post) = sel +:+ words pre +:+ (zeros 12 +:+ addr) +:+ words post) as ->.
    { unfold calldata. fold (words (pre ++ AddressArg addr :: post)). by rewrite words_app. }
    rewrite (extractAddress_word _ _ _ _ _ Hs (length_words pre Hpre) Ha). destruct (omap arg_address pre) as [|x [|y l]]; cbn; [done..|].
    rewrite Nat.min_0_r. f_equal. by rewrite Nat.min_0_r.
  - destruct (String.eqb_spec ty "address") as [->|_]; [tauto|]. cbn [andb]. by rewrite app_nil_r, Nat.add_0_r.
Qed.

Lemma inputs_walked sel post : forall pre, len sel = 4 -> Forall arg_ok (pre ++ post) ->
  foldl (input_step ("0x" +:+ EncodeToString (calldata sel (pre ++ post)))) (walked pre) (arg_type <$> post) = walked (pre ++ post).
Proof.
  induction post as [|a post IH]; intros pre Hs Hok; cbn [fmap list_fmap foldl]; [by rewrite app_nil_r|].
  pose proof Hok as [Hpre [Ha _]%Forall_cons]%Forall_app. rewrite input_step_walked by done. rewrite (cons_middle a pre post), (app_assoc pre [a] post) in *.
  by apply IH.
Qed.

Lemma raw_calldata_encoded b : b <> EmptyString -> raw_calldata ("0x" +:+ EncodeToString b) = b.
Proof.
  intros Hb. unfold raw_calldata. assert (TrimPrefix0x ("0x" +:+ EncodeToString b) = EncodeToString b) as -> by (unfold TrimPrefix0x; by destruct (EncodeToString b)).
  rewrite (proj2 (Encode_lower b)), length_Encode, (proj2 (Nat.even_spec _)) by (by exists (len b)).
  destruct (String.eqb_spec (EncodeToString b) EmptyString) as [E|_]; [|cbn; apply Decode_Encode].
  apply (f_equal len) in E. rewrite length_Encode in E. destruct b; [done|]. cbn in E. lia.
Qed.


(** ** Examples *)
Definition abi_manager (types : list string) : MainnetContractManager :=
  mkManager ∅ {[ "0xaa" := [mkABIEntry "move" "function" (mkInput "x" <$> types)] ]} ∅ ∅.
Definition addr_a : string := zeros 19 +:+ "a".
Definition addr_b : string := zeros 19 +:+ "b".


(** A parameter of several words shifts the ones behind it: of
    [move(uint256[2],address)] the second number is taken for the address. *)
Lemma decodeArgs_array_misaligned :
  a_Addr1 (decodeArgs (fun s => s) (abi_manager ["uint256[2]"; "address"]) "0xaa" "0x6d6f7665"
    ("0x" +:+ EncodeToString ("move" +:+ zeros 32 +:+ (zeros 31 +:+ "n") +:+ (zeros 12 +:+ addr_a)))) = "0x" +:+ EncodeToString (zeros 19 +:+ "n").
Proof. vm_compute. reflexivity. Qed.
