(* ===== verification/SpecExecutor.v ===== *)
(** * Predicting the key sets of a block: [utils/mainnet_spec_executor.go]

    [LLMSpecExecuteAllWithStats] gives every transaction of a block a
    conservative read and write set.  Goroutines, at most one per CPU, look the
    transactions up in the static analysis; the ones it cannot answer go
    through a channel to consumers that execute them on workers of the pool
    while the lookups go on.  The main goroutine waits for the lookups, counts
    them, closes the channel and waits for the consumers.  The steps of these
    goroutines are a relation; under every interleaving the block is answered,
    and the answer is the same.

    A lookup is one step: the cache it shares with the others is consistent at
    every access, and its answer does not depend on the contents.  The branch
    for an executor that is not a pool has no caller and is left out. *)
From stdpp Require Import base gmap sets list list_numbers strings relations.
From Stdlib Require Import ZArith Lia.
From S2P Require Import Prelude RWSet GoText KeyDerive ContractManager StateDB StateSpec HexKeys Execution ReplayAdapter Levm SpecFallback FallbackPool SpecArgs.

Set Default Goal Selector "!".
Local Open Scope string_scope.
Local Open Scope list_scope.
Local Notation len := String.length.

(** ** Data *)
Record llmOutcome := mkOutcome { oc_hit : bool; oc_readKeys : list string; oc_writeKeys : list string; oc_reason : string }.
Definition no_outcome : llmOutcome := mkOutcome false [] [] EmptyString.
Definition missed (reason : string) : llmOutcome := mkOutcome false [] [] reason.

Record LLMSpecStats := mkStats {
  Total : nat; LLMHit : nat; FallbackCount : nat; FallbackOK : nat; FallbackReasons : gmap string nat; Sources : list string }.

Inductive exec_error := NoWorker (msg : string) | EvmFallback (txIdx : nat) (e : fallback_error).

(** A consumer: at the channel, with an index, with a worker, with its result. *)
Inductive consumer :=
| Waiting
| Got (txIdx : nat)
| Holding (txIdx w : nat)
| Ran (txIdx w : nat) (r : option ReplayRWSet * option fallback_error)
| Stopped.

Definition answer_of_block := (option (list (option ReplayRWSet)) * LLMSpecStats * option exec_error)%type.

Inductive main_phase := Looking | Draining (stats : LLMSpecStats) | Returned (r : answer_of_block).

Record pipeline := mkPipeline {
  launched : nat; inflight : list nat; outcomes : list llmOutcome; items : item_cache;
  missCh : list nat; closed : bool; consumers : list consumer; levmPool : LevmSpecFallbackPool;
  okCount : nat; evmErr : option exec_error; slots : list (option ReplayRWSet); phase : main_phase }.

(** ** Lookups *)
Section executor.
Context (keccak256 : string -> Hash) (recover : string -> string -> option string).
Context (disk : string -> string -> option MainnetLLMResponse) (m : MainnetContractManager).
Context (rng : gset string -> list string) (rng_hash : gset Hash -> list Hash) (undefined_big : string -> Z).
Context (run : Context -> Contract -> string -> eprog frame_result) (db : Database).

Definition no_analysis (tx : RawTransaction) : bool := String.eqb (raw_To tx) EmptyString || Nat.ltb (len (raw_Input tx)) 10.
Definition tx_selector (tx : RawTransaction) : string := ToLower (take_bytes 10 (raw_Input tx)).
Definition tx_target (tx : RawTransaction) : string := ToLower (raw_To tx).
Definition tx_args (tx : RawTransaction) : MainnetTxArgs :=
  let a := decodeArgs keccak256 m (tx_target tx) (tx_selector tx) (raw_Input tx) in
  mkArgs (a_Addr1 a) (a_Addr2 a) (ToLower (raw_From tx)) (Selector a) (RawCalldata a).

(** The body of a lookup goroutine. *)
Definition lookup_tx (cache : item_cache) (tx : RawTransaction) : outcome (item_cache * llmOutcome) :=
  if no_analysis tx then Ret (cache, missed (classifyFallbackReason tx None))
  else if negb (IsRWSetCached m (tx_target tx) (tx_selector tx)) then Ret (cache, missed (classifyFallbackReason tx (Some ErrNotPreAnalyzed)))
  else
    GetConservativeRWSet keccak256 recover disk m cache (tx_target tx) (tx_selector tx) (tx_args tx) ≫= fun '(cache, r) =>
    Ret (cache, match r with
                | inl e => missed (classifyFallbackReason tx (Some e))
                | inr (readKeys, writeKeys) =>
                  let '(readKeys, writeKeys) := augmentAccountKeys rng readKeys writeKeys tx (tx_args tx) in
                  mkOutcome true readKeys writeKeys EmptyString
                end).

(** ** The block *)
Context (txs : list RawTransaction) (fromBlock : Z) (numCPU : nat).
Local Abbreviation n := (length txs).

Definition start_stats : LLMSpecStats := mkStats n 0 0 0 ∅ (replicate n EmptyString).

Definition start_pipeline (pool : LevmSpecFallbackPool) : pipeline :=
  mkPipeline 0 [] (replicate n no_outcome) ∅ [] false (replicate (pool_n pool `min` n) Waiting) pool 0 None (replicate n None) Looking.

Definition llm_set (i : nat) (tx : RawTransaction) (oc : llmOutcome) : ReplayRWSet :=
  mkReplayRWSet (mkRef fromBlock EmptyString i (raw_Hash tx)) true 0 (oc_readKeys oc) (oc_writeKeys oc) EmptyString.

Definition count_hit (s : LLMSpecStats) (i : nat) : LLMSpecStats :=
  mkStats (Total s) (S (LLMHit s)) (FallbackCount s) (FallbackOK s) (FallbackReasons s) (<[i := "llm"]> (Sources s)).
Definition count_miss (s : LLMSpecStats) (i : nat) (reason : string) : LLMSpecStats :=
  mkStats (Total s) (LLMHit s) (S (FallbackCount s)) (FallbackOK s)
    (<[reason := S (default 0 (FallbackReasons s !! reason))]> (FallbackReasons s)) (<[i := "preexec"]> (Sources s)).
Definition set_ok (s : LLMSpecStats) (ok : nat) : LLMSpecStats :=
  mkStats (Total s) (LLMHit s) (FallbackCount s) ok (FallbackReasons s) (Sources s).

(** One turn of the loop over the outcomes. *)
Definition process_outcome (ocs : list llmOutcome) (st : LLMSpecStats * list (option ReplayRWSet)) (i : nat) : LLMSpecStats * list (option ReplayRWSet) :=
  match ocs !! i, txs !! i with
  | Some oc, Some tx =>
    if oc_hit oc then (count_hit st.1 i, <[i := Some (llm_set i tx oc)]> st.2)
    else (count_miss st.1 i (oc_reason oc), st.2)
  | _, _ => st
  end.

Definition process_outcomes (ocs : list llmOutcome) (out : list (option ReplayRWSet)) : LLMSpecStats * list (option ReplayRWSet) :=
  foldl (process_outcome ocs) (start_stats, out) (seq 0 n).

(** ** Steps *)
Definition with_consumer (s : pipeline) (c : nat) (x : consumer) : pipeline :=
  mkPipeline (launched s) (inflight s) (outcomes s) (items s) (missCh s) (closed s) (<[c := x]> (consumers s)) (levmPool s) (okCount s) (evmErr s) (slots s) (phase s).
Definition with_missCh (s : pipeline) (ch : list nat) : pipeline :=
  mkPipeline (launched s) (inflight s) (outcomes s) (items s) ch (closed s) (consumers s) (levmPool s) (okCount s) (evmErr s) (slots s) (phase s).
Definition with_pool (s : pipeline) (p : LevmSpecFallbackPool) : pipeline :=
  mkPipeline (launched s) (inflight s) (outcomes s) (items s) (missCh s) (closed s) (consumers s) p (okCount s) (evmErr s) (slots s) (phase s).
Definition with_phase (s : pipeline) (p : main_phase) : pipeline :=
  mkPipeline (launched s) (inflight s) (outcomes s) (items s) (missCh s) (closed s) (consumers s) (levmPool s) (okCount s) (evmErr s) (slots s) p.

(** [go] of one more lookup. *)
Definition launch (s : pipeline) : pipeline :=
  mkPipeline (S (launched s)) (inflight s ++ [launched s]) (outcomes s) (items s) (missCh s) (closed s) (consumers s) (levmPool s) (okCount s) (evmErr s) (slots s) (phase s).

(** The lookup at [k] in flight, of transaction [i], has ended. *)
Definition looked_up (s : pipeline) (k i : nat) (cache : item_cache) (oc : llmOutcome) : pipeline :=
  mkPipeline (launched s) (delete k (inflight s)) (<[i := oc]> (outcomes s)) cache (if oc_hit oc then missCh s else missCh s ++ [i])
    (closed s) (consumers s) (levmPool s) (okCount s) (evmErr s) (slots s) (phase s).

(** Only the first error is kept. *)
Definition fail (s : pipeline) (e : exec_error) : pipeline :=
  mkPipeline (launched s) (inflight s) (outcomes s) (items s) (missCh s) (closed s) (consumers s) (levmPool s) (okCount s)
    (Some (default e (evmErr s))) (slots s) (phase s).

Definition succeeded (rw : option ReplayRWSet) : bool := match rw with Some rw => Success rw | None => false end.

(** What a consumer does with the result of [PreExecute]. *)
Definition record_result (s : pipeline) (i : nat) (r : option ReplayRWSet * option fallback_error) : pipeline :=
  match r with
  | (_, Some e) => fail s (EvmFallback i e)
  | (rw, None) =>
    mkPipeline (launched s) (inflight s) (outcomes s) (items s) (missCh s) (closed s) (consumers s) (levmPool s)
      (if succeeded rw then S (okCount s) else okCount s) (evmErr s) (<[i := rw]> (slots s)) (phase s)
  end.

Definition set_worker (p : LevmSpecFallbackPool) (w : nat) (f : LevmSpecFallback) : LevmSpecFallbackPool :=
  mkPool (<[w := f]> (workers p)) (idle p) (pool_n p).

(** The end of the main goroutine's loop: [close(missCh)]. *)
Definition process (s : pipeline) : pipeline :=
  let '(stats, out) := process_outcomes (outcomes s) (slots s) in
  mkPipeline (launched s) (inflight s) (outcomes s) (items s) (missCh s) true (consumers s) (levmPool s) (okCount s) (evmErr s) out (Draining stats).

Definition result_of (s : pipeline) (stats : LLMSpecStats) : answer_of_block :=
  let stats := set_ok stats (okCount s) in
  match evmErr s with Some e => (None, stats, Some e) | None => (Some (slots s), stats, None) end.

Definition is_stopped (c : consumer) : bool := match c with Stopped => true | _ => false end.

Inductive pstep : pipeline -> pipeline -> Prop :=
| step_launch s : phase s = Looking -> launched s < n -> length (inflight s) < numCPU -> pstep s (launch s)
| step_lookup s k i tx cache oc : inflight s !! k = Some i -> txs !! i = Some tx -> lookup_tx (items s) tx = Ret (cache, oc) ->
    (oc_hit oc = true \/ length (missCh s) < n) -> pstep s (looked_up s k i cache oc)
| step_receive s c i ch : consumers s !! c = Some Waiting -> missCh s = i :: ch -> pstep s (with_missCh (with_consumer s c (Got i)) ch)
| step_acquire s c i p w : consumers s !! c = Some (Got i) -> Acquire (levmPool s) = Some (inl (p, w)) ->
    pstep s (with_pool (with_consumer s c (Holding i w)) p)
| step_no_worker s c i msg : consumers s !! c = Some (Got i) -> Acquire (levmPool s) = Some (inr msg) ->
    pstep s (fail (with_consumer s c Waiting) (NoWorker msg))
| step_preexecute s c i w f now f' r : consumers s !! c = Some (Holding i w) -> workers (levmPool s) !! w = Some f ->
    PreExecute keccak256 run rng_hash undefined_big db f fromBlock (Z.of_nat i) now = Ret (f', r) ->
    pstep s (with_pool (with_consumer s c (Ran i w r)) (set_worker (levmPool s) w f'))
| step_record s c i w r p : consumers s !! c = Some (Ran i w r) -> Release (levmPool s) (Some w) = Some p ->
    pstep s (record_result (with_pool (with_consumer s c Waiting) p) i r)
| step_stop s c : consumers s !! c = Some Waiting -> missCh s = [] -> closed s = true -> pstep s (with_consumer s c Stopped)
| step_process s : phase s = Looking -> launched s = n -> inflight s = [] -> pstep s (process s)
| step_return s stats : phase s = Draining stats -> forallb is_stopped (consumers s) = true -> pstep s (with_phase s (Returned (result_of s stats))).

(** ** The answers, without the pipeline *)
Definition static_outcome (tx : RawTransaction) : llmOutcome := match lookup_tx ∅ tx with Ret (_, oc) => oc | _ => no_outcome end.
Definition static_at (i : nat) : llmOutcome := match txs !! i with Some tx => static_outcome tx | None => no_outcome end.
Definition is_miss (i : nat) : bool := negb (oc_hit (static_at i)).

(** [rw] is what executing transaction [i] on the state [T] gives. *)
Definition executed (T : spec_state) (i : nat) (rw : ReplayRWSet) : Prop :=
  exists tx now, txs !! i = Some tx /\ spec_PreExecute keccak256 run rng_hash undefined_big T fromBlock (Z.of_nat i) now tx = Ret (Some rw, None).

Definition count {A} (f : A -> bool) (l : list A) : nat := length (filter (fun a => f a = true) l).

(** A miss whose execution succeeded. *)
Definition ok_at (out : list (option ReplayRWSet)) (i : nat) : bool :=
  is_miss i && match out !! i with Some rw => succeeded rw | None => false end.

(** ** Termination *)
Definition consumer_work (c : consumer) : nat := match c with Waiting => 1 | Got _ => 5 | Holding _ _ => 4 | Ran _ _ _ => 3 | Stopped => 0 end.
Definition phase_work (p : main_phase) : nat := match p with Looking => 2 | Draining _ => 1 | Returned _ => 0 end.
Definition pipeline_work (s : pipeline) : nat :=
  7 * (n - launched s) + 6 * length (inflight s) + 5 * length (missCh s) + sum_list_with consumer_work (consumers s) + phase_work (phase s).

Lemma sum_insert {A} (f : A -> nat) l c x y : l !! c = Some x -> sum_list_with f (<[c := y]> l) + f x = sum_list_with f l + f y.
Proof.
  revert c. induction l as [|z l IH]; intros [|c] H; try done.
  - injection H as ->. cbn. lia.
  - specialize (IH c H). change (<[S c := y]> (z :: l)) with (z :: <[c := y]> l). cbn [sum_list_with]. lia.
Qed.

Lemma pstep_decreases s s' : pstep s s' -> pipeline_work s' < pipeline_work s.
Proof.
  destruct 1 as [s Hp Hl _|s k i tx cache oc Hk _ _ _|s c i ch Hc Hm|s c i p w Hc _|s c i msg Hc _|s c i w f now f' r Hc _ _|s c i w r p Hc _|s c Hc _ _|s Hp _ _|s stats Hp _];
    unfold pipeline_work; try (pose proof (fun y => sum_insert consumer_work _ _ _ y Hc) as Hs).
  - cbn. rewrite length_app. cbn. lia.
  - cbn. rewrite length_delete by (by eexists). apply lookup_lt_Some in Hk. destruct (oc_hit oc); rewrite ?length_app; cbn; lia.
  - specialize (Hs (Got i)). rewrite Hm. cbn in *. lia.
  - specialize (Hs (Holding i w)). cbn in *. lia.
  - specialize (Hs Waiting). cbn in *. lia.
  - specialize (Hs (Ran i w r)). cbn in *. lia.
  - specialize (Hs Waiting). destruct r as [rw [e|]]; cbn in *; lia.
  - specialize (Hs Stopped). cbn in *. lia.
  - unfold process. destruct (process_outcomes _ _). cbn. rewrite Hp. cbn. lia.
  - cbn. rewrite Hp. cbn. lia.
Qed.

(** ** Lookups do not depend on the cache *)
Context (Halias : forall id a, aliasToAddr m !! id = Some a -> no_colon a).
Context (Htarget : forall tx, tx ∈ txs -> no_colon (raw_To tx)).
Context (Hderive : forall tx c acc w, tx ∈ txs -> is_Ret (tryKeyDeriver keccak256 recover c acc (tx_args tx) w)).

Lemma empty_cache_ok : cache_ok m ∅.
Proof. intros addr label it _ E. by rewrite lookup_empty in E. Qed.

Lemma lookup_static cache i tx : txs !! i = Some tx -> cache_ok m cache -> exists cache', lookup_tx cache tx = Ret (cache', static_at i) /\ cache_ok m cache'.
Proof.
  intros Hi Hc. pose proof (list_elem_of_lookup_2 _ _ _ Hi) as Hin. unfold static_at. rewrite Hi. unfold static_outcome, lookup_tx.
  destruct (no_analysis tx); [by exists cache|]. destruct (negb _); [by exists cache|].
  destruct (GetConservativeRWSet_same keccak256 recover disk m Halias (tx_args tx) (fun c acc w => Hderive tx c acc w Hin) (tx_target tx) (tx_selector tx) cache ∅)
    as (c1 & c2 & r & -> & -> & Hc1 & _); [by apply no_colon_ToLower, Htarget|done|apply empty_cache_ok|].
  rewrite !bind_ret. by exists c1.
Qed.

(** ** Counting *)
Lemma count_seq_change (f g : nat -> bool) i k : i < k -> f i = false -> (forall j, j <> i -> g j = f j) ->
  count g (seq 0 k) = count f (seq 0 k) + (if g i then 1 else 0).
Proof.
  intros Hi Hf Hg. assert (forall l, i ∉ l -> count g l = count f l) as Hout.
  { induction l as [|j l IH]; intros Hn; [done|]. apply not_elem_of_cons in Hn as [Hj Hn]. unfold count in *. rewrite !filter_cons, (Hg j) by done.
    case_decide; cbn; by rewrite IH. }
  assert (seq 0 k = seq 0 i ++ i :: seq (S i) (k - S i)) as ->.
  { replace k with (i + S (k - S i)) at 1 by lia. by rewrite seq_app. }
  assert (forall h, count h (seq 0 i ++ i :: seq (S i) (k - S i)) = count h (seq 0 i) + (if h i then 1 else 0) + count h (seq (S i) (k - S i))) as Hsplit.
  { intros h. unfold count. rewrite filter_app, filter_cons, length_app. destruct (h i); [rewrite decide_True by done|rewrite decide_False by done]; cbn; lia. }
  rewrite !Hsplit, Hf, !Hout by (rewrite elem_of_seq; lia). lia.
Qed.

Lemma count_ext (f g : nat -> bool) l : (forall j, j ∈ l -> g j = f j) -> count g l = count f l.
Proof.
  intros H. unfold count. induction l as [|j l IH]; [done|]. rewrite !filter_cons, (H j) by left.
  assert (length (filter (fun a => g a = true) l) = length (filter (fun a => f a = true) l)) as E by (apply IH; intros k Hk; apply H; by right).
  case_decide; cbn; by rewrite E.
Qed.

Lemma count_none (f : nat -> bool) l : (forall j, f j = false) -> count f l = 0.
Proof. intros H. unfold count. induction l as [|j l IH]; [done|]. rewrite filter_cons, decide_False by (by rewrite H). exact IH. Qed.

Lemma count_seq_S (f : nat -> bool) k : count f (seq 0 (S k)) = count f (seq 0 k) + (if f k then 1 else 0).
Proof.
  rewrite seq_S. unfold count. rewrite filter_app, length_app, filter_cons, filter_nil. cbn.
  destruct (f k); [rewrite decide_True by done|rewrite decide_False by done]; cbn; lia.
Qed.

Definition source_of (i : nat) : string := if is_miss i then "preexec" else "llm".
Definition miss_for (reason : string) (i : nat) : bool := is_miss i && String.eqb (oc_reason (static_at i)) reason.

(** The loop over the outcomes has counted the first [k] of them. *)
Record counted (k : nat) (out : list (option ReplayRWSet)) (st : LLMSpecStats * list (option ReplayRWSet)) : Prop := {
  cnt_total : Total st.1 = n;
  cnt_hit : LLMHit st.1 = count (fun i => negb (is_miss i)) (seq 0 k);
  cnt_miss : FallbackCount st.1 = count is_miss (seq 0 k);
  cnt_reasons : forall r, default 0 (FallbackReasons st.1 !! r) = count (miss_for r) (seq 0 k);
  cnt_sources : length (Sources st.1) = n /\ forall i, i < k -> Sources st.1 !! i = Some (source_of i);
  cnt_length : length st.2 = n;
  cnt_hits : forall i tx, i < k -> is_miss i = false -> txs !! i = Some tx -> st.2 !! i = Some (Some (llm_set i tx (static_at i)));
  cnt_misses : forall i, k <= i \/ is_miss i = true -> st.2 !! i = out !! i }.

Lemma process_outcome_counted ocs out k st :
  ocs !! k = Some (static_at k) -> k < n -> counted k out st -> counted (S k) out (process_outcome ocs st k).
Proof.
  intros Hoc Hk [H1 H2 H3 H4 [H5 H6] H7 H8 H9]. unfold process_outcome. rewrite Hoc. destruct (lookup_lt_is_Some_2 txs k Hk) as [tx Htx]. rewrite Htx.
  destruct (oc_hit (static_at k)) eqn:Eh; (assert (is_miss k = negb (oc_hit (static_at k))) as Em by done); rewrite Eh in Em; cbn in Em;
    split; cbn [fst snd count_hit count_miss Total LLMHit FallbackCount FallbackReasons Sources]; rewrite ?count_seq_S, ?Em; cbn [negb]; rewrite ?H1, ?H2, ?H3, ?length_insert; try lia; try done.
  - intros r. rewrite count_seq_S. assert (miss_for r k = is_miss k && String.eqb (oc_reason (static_at k)) r) as -> by done. rewrite Em. cbn [andb]. rewrite Nat.add_0_r. apply H4.
  - split; [done|]. intros i Hi. destruct (decide (i = k)) as [->|Hne]; [rewrite list_lookup_insert_eq by lia; unfold source_of; by rewrite Em|].
    rewrite list_lookup_insert_ne by done. apply H6. lia.
  - intros i tx' Hi Hm Hx. destruct (decide (i = k)) as [->|Hne]; [rewrite list_lookup_insert_eq by lia; rewrite Htx in Hx; by injection Hx as ->|].
    rewrite list_lookup_insert_ne by done. apply H8; [lia|done..].
  - intros i Hi. rewrite list_lookup_insert_ne; [apply H9; destruct Hi; [left; lia|by right]|]. intros ->. destruct Hi as [?|Hi]; [lia|congruence].
  - intros r. rewrite count_seq_S. assert (miss_for r k = is_miss k && String.eqb (oc_reason (static_at k)) r) as -> by done. rewrite Em. cbn [andb]. destruct (String.eqb_spec (oc_reason (static_at k)) r) as [<-|Hne].
    + rewrite lookup_insert_eq. cbn. rewrite H4. lia.
    + rewrite lookup_insert_ne by done. rewrite Nat.add_0_r. apply H4.
  - split; [done|]. intros i Hi. destruct (decide (i = k)) as [->|Hne]; [rewrite list_lookup_insert_eq by lia; unfold source_of; by rewrite Em|].
    rewrite list_lookup_insert_ne by done. apply H6. lia.
  - intros i tx' Hi Hm Hx. apply H8; [|done..]. assert (i <> k) by congruence. lia.
  - intros i Hi. apply H9. destruct Hi; [left; lia|by right].
Qed.

Lemma process_outcomes_counted ocs out :
  (forall i, i < n -> ocs !! i = Some (static_at i)) -> length out = n -> counted n out (process_outcomes ocs out).
Proof.
  intros Hocs Hl. unfold process_outcomes. assert (forall k, k <= n -> counted k out (foldl (process_outcome ocs) (start_stats, out) (seq 0 k))) as H; [|by apply H].
  induction k as [|k IH]; intros Hk.
  - split; cbn; try done; try lia. split; [apply length_replicate|lia].
  - rewrite seq_S, foldl_app. cbn. apply process_outcome_counted; [apply Hocs; lia|lia|apply IH; lia].
Qed.

(** ** Invariant of the block

    [done_ i]: the lookup of [i] has ended; [ids]: the misses on their way to
    an execution; [out] and [ok]: the results stored and the successes. *)
Context (T : spec_state).

Record block_inv (done_ : nat -> Prop) (ids : list nat) (out : list (option ReplayRWSet)) (ok : nat) : Prop := {
  b_nodup : NoDup ids;
  b_ids : forall i, i ∈ ids -> i < n /\ done_ i /\ is_miss i = true;
  b_length : length out = n;
  b_empty : forall i, i < n -> i ∈ ids \/ ~ done_ i -> out !! i = Some None;
  b_cover : forall i, i < n -> done_ i -> is_miss i = true -> i ∈ ids \/ exists rw, out !! i = Some (Some rw) /\ executed T i rw;
  b_ok : ok = count (ok_at out) (seq 0 n) }.

Lemma block_perm (D D' : nat -> Prop) ids ids' out ok : (forall i, D' i <-> D i) -> ids' ≡ₚ ids -> block_inv D ids out ok -> block_inv D' ids' out ok.
Proof.
  intros HD Hp [H1 H2 H3 H4 H5 H6]. split; try done.
  - by rewrite Hp.
  - intros i. rewrite Hp, HD. apply H2.
  - intros i. rewrite Hp, HD. apply H4.
  - intros i. rewrite Hp, HD. apply H5.
Qed.

Lemma block_opening : block_inv (fun _ => False) [] (replicate n None) 0.
Proof.
  split; try done.
  - constructor.
  - intros i H. by apply not_elem_of_nil in H.
  - apply length_replicate.
  - intros i Hi _. by apply lookup_replicate_2.
  - symmetry. apply count_none. intros i. unfold ok_at.
    destruct (replicate n None !! i) as [rw|] eqn:E; [apply lookup_replicate in E as [-> _]|]; by rewrite andb_false_r.
Qed.

(** A lookup ends. *)
Lemma block_looked (D D' : nat -> Prop) ids out ok i : i < n -> ~ D i -> (forall j, D' j <-> D j \/ j = i) ->
  block_inv D ids out ok -> block_inv D' (if is_miss i then i :: ids else ids) out ok.
Proof.
  intros Hi HD HD' [H1 H2 H3 H4 H5 H6]. assert (i ∉ ids) as Hni by (intros Hin; by apply H2 in Hin as (_ & ? & _)).
  split; try done.
  - destruct (is_miss i); [by constructor|done].
  - intros j Hj. rewrite HD'. destruct (is_miss i) eqn:Em; [apply elem_of_cons in Hj as [->|Hj]; [split; [done|]; split; [by right|done]|]|]; apply H2 in Hj; tauto.
  - intros j Hj Hor. apply H4; [done|]. rewrite HD' in Hor. destruct (decide (j = i)) as [->|Hne]; [by right|].
    destruct Hor as [Hin|Hnd]; [|tauto]. left. destruct (is_miss i); [apply elem_of_cons in Hin as [?|?]; done|done].
  - intros j Hj Hd Hm. apply HD' in Hd as [Hd| ->]; [|left; rewrite Hm; left].
    destruct (H5 j Hj Hd Hm) as [Hin|?]; [left|by right]. destruct (is_miss i); [by right|done].
Qed.

(** A result is stored. *)
Lemma block_recorded D ids out ok i rw : executed T i rw -> block_inv D (i :: ids) out ok ->
  block_inv D ids (<[i := Some rw]> out) (if Success rw then S ok else ok).
Proof.
  intros Hex [H1 H2 H3 H4 H5 H6]. apply NoDup_cons in H1 as [Hni Hnd]. destruct (H2 i) as (Hi & Hd & Hm); [by left|].
  assert (out !! i = Some None) as He by (apply H4; [done|left; by left]). split; try done.
  - intros j Hj. apply H2. by right.
  - by rewrite length_insert.
  - intros j Hj Hor. destruct (decide (j = i)) as [->|Hne]; [tauto|]. rewrite list_lookup_insert_ne by done. apply H4; [done|]. destruct Hor; [left; by right|by right].
  - intros j Hj Hdj Hmj. destruct (decide (j = i)) as [->|Hne]; [right; exists rw; split; [apply list_lookup_insert_eq; lia|done]|].
    rewrite list_lookup_insert_ne by done. destruct (H5 j Hj Hdj Hmj) as [[?|?]%elem_of_cons|?]; [done|by left|by right].
  - rewrite (count_seq_change (ok_at out) (ok_at (<[i := Some rw]> out)) i) by (try (unfold ok_at; rewrite He; apply andb_false_r); try done; intros j Hj; unfold ok_at; by rewrite list_lookup_insert_ne).
    assert (ok_at (<[i := Some rw]> out) i = Success rw) as -> by (unfold ok_at; rewrite Hm, list_lookup_insert_eq by lia; done).
    rewrite H6. destruct (Success rw); lia.
Qed.

(** The hits are stored. *)
Lemma block_processed D ids out ok st : (forall i, i < n -> D i) -> counted n out st -> block_inv D ids out ok -> block_inv D ids st.2 ok.
Proof.
  intros HD Hc [H1 H2 H3 H4 H5 H6]. split; try done.
  - apply (cnt_length _ _ _ Hc).
  - intros i Hi [Hin|Hnd]; [|by destruct Hnd; apply HD]. rewrite (cnt_misses _ _ _ Hc); [by apply H4; [|left]|right; by apply H2].
  - intros i Hi Hd Hm. rewrite (cnt_misses _ _ _ Hc) by (by right). by apply H5.
  - rewrite H6. apply count_ext. intros i _. unfold ok_at. destruct (is_miss i) eqn:Em; [|done]. by rewrite (cnt_misses _ _ _ Hc) by (by right).
Qed.

(** ** Invariant of the pipeline *)
Definition job_of (c : consumer) : option nat := match c with Got i | Holding i _ | Ran i _ _ => Some i | _ => None end.
Definition worker_of (c : consumer) : option nat := match c with Holding _ w | Ran _ w _ => Some w | _ => None end.
Definition ids (s : pipeline) : list nat := missCh s ++ omap job_of (consumers s).
Definition looked (s : pipeline) (i : nat) : Prop := i < launched s /\ i ∉ inflight s.

Definition pool_ok (p : LevmSpecFallbackPool) (held : list nat) : Prop :=
  accounted p held /\ 0 < pool_n p /\ forall f, f ∈ workers p -> ready keccak256 db f T /\ same_block (mkFallback None txs fromBlock) f.

Definition phase_ok (s : pipeline) : Prop :=
  match phase s with
  | Looking => closed s = false
  | Draining st => closed s = true /\ launched s = n /\ inflight s = [] /\ counted n (slots s) (st, slots s)
  | Returned r => exists st, r = (Some (slots s), set_ok st (okCount s), None) /\ counted n (slots s) (st, slots s) /\
      launched s = n /\ inflight s = [] /\ forallb is_stopped (consumers s) = true
  end.

Record pinv (s : pipeline) : Prop := {
  p_cache : cache_ok m (items s);
  p_launched : launched s <= n;
  p_inflight : NoDup (inflight s) /\ forall i, i ∈ inflight s -> i < launched s;
  p_outcomes : length (outcomes s) = n /\ forall i, looked s i -> outcomes s !! i = Some (static_at i);
  p_block : block_inv (looked s) (ids s) (slots s) (okCount s);
  p_pool : pool_ok (levmPool s) (omap worker_of (consumers s));
  p_ran : forall i w r, Ran i w r ∈ consumers s -> exists rw, r = (Some rw, None) /\ executed T i rw;
  p_err : evmErr s = None;
  p_stopped : Stopped ∈ consumers s -> closed s = true /\ missCh s = [];
  p_consumers : 0 < n -> consumers s <> [];
  p_phase : phase_ok s }.

Lemma omap_insert {A B} (f : A -> option B) l c x y : l !! c = Some x ->
  option_list (f x) ++ omap f (<[c := y]> l) ≡ₚ option_list (f y) ++ omap f l.
Proof.
  revert c. induction l as [|z l IH]; intros [|c] H; try done.
  - injection H as ->. cbn. destruct (f x), (f y); cbn; try done. constructor.
  - specialize (IH c H). change (<[S c := y]> (z :: l)) with (z :: <[c := y]> l). cbn [omap list_omap].
    destruct (f z) as [b|]; [|exact IH]. by rewrite <- !Permutation_middle, IH.
Qed.

Lemma consumer_elem (s : pipeline) c x y : x ∈ <[c := y]> (consumers s) -> x = y \/ x ∈ consumers s.
Proof.
  intros Hx. apply list_elem_of_lookup in Hx as [j Hj]. apply list_lookup_insert_Some in Hj as [(_ & <- & _)|(_ & Hj)]; [by left|].
  right. by eapply list_elem_of_lookup_2.
Qed.

Lemma consumers_some (l : list consumer) c y : l <> [] -> <[c := y]> l <> [].
Proof. intros H E. apply (f_equal length) in E. rewrite length_insert in E. destruct l; [done|]. cbn in E. lia. Qed.

(** The main goroutine has not returned while a consumer is at work. *)
Lemma consumer_phase s c x : pinv s -> consumers s !! c = Some x -> x <> Stopped ->
  phase s = Looking /\ closed s = false \/ exists st, phase s = Draining st /\ closed s = true /\ launched s = n /\ inflight s = [] /\ counted n (slots s) (st, slots s).
Proof.
  intros Hs Hc Hx. pose proof (p_phase _ Hs) as Hp. unfold phase_ok in Hp. destruct (phase s) as [|st|r]; [by left|right; by exists st|].
  destruct Hp as (st & _ & _ & _ & _ & Hall). rewrite forallb_forall in Hall. specialize (Hall x). destruct x; try done; discriminate Hall; apply list_elem_of_In; by eapply list_elem_of_lookup_2.
Qed.

(** A consumer goes from [x] to [y] and leaves the block as it is. *)
Lemma consumer_moves s c x y ch p :
  pinv s -> consumers s !! c = Some x -> x <> Stopped ->
  ch ++ omap job_of (<[c := y]> (consumers s)) ≡ₚ ids s -> pool_ok p (omap worker_of (<[c := y]> (consumers s))) ->
  (forall i w r, y = Ran i w r -> exists rw, r = (Some rw, None) /\ executed T i rw) ->
  (Stopped ∈ <[c := y]> (consumers s) -> closed s = true /\ ch = []) ->
  pinv (with_pool (with_missCh (with_consumer s c y) ch) p).
Proof.
  intros Hs Hc Hx Hids Hpool Hran Hstop. pose proof (consumer_phase s c x Hs Hc Hx) as Hph. destruct Hs as [H1 H2 H3 H4 H5 H6 H7 H8 H9 H10 H11].
  split; cbn; try done.
  - eapply block_perm; [|exact Hids|exact H5]. done.
  - intros i w r Hin. apply consumer_elem in Hin as [E|Hin]; [by eapply Hran|by eapply H7].
  - intros Hn. by apply consumers_some, H10.
  - unfold phase_ok. cbn. destruct Hph as [[-> ->]|(st & -> & ?)]; done.
Qed.

Context (Hrun : forall ctx c input, framed (run ctx c input)) `{!CodeDB keccak256 db}.
Context (Hret : forall i tx now, txs !! i = Some tx -> is_Ret (spec_PreExecute keccak256 run rng_hash undefined_big T fromBlock (Z.of_nat i) now tx)).

(** ** Steps keep the invariant *)
Lemma pool_ok_perm p held held' : held' ≡ₚ held -> pool_ok p held -> pool_ok p held'.
Proof. intros Hh [[Ha Hl] Hp]. split; [|done]. split; [|done]. by rewrite Hh. Qed.

Lemma spec_PreExecute_shape i now tx r : spec_PreExecute keccak256 run rng_hash undefined_big T fromBlock i now tx = Ret r -> exists rw, r = (Some rw, None).
Proof.
  unfold spec_PreExecute. destruct (buildEthTxFromRaw undefined_big tx) as [[from toPtr] ethTx].
  destruct (answer keccak256 T (replay keccak256 run fromBlock now from ethTx)) as [a| |]; cbn; [|done..]. intros [= <-]. by eexists.
Qed.

(** A worker gives the answer of the witness and stays ready. *)
Lemma worker_executes f i tx now : ready keccak256 db f T -> same_block (mkFallback None txs fromBlock) f -> txs !! i = Some tx ->
  exists f' rw, PreExecute keccak256 run rng_hash undefined_big db f fromBlock (Z.of_nat i) now = Ret (f', (Some rw, None)) /\ executed T i rw /\
    ready keccak256 db f' T /\ same_block (mkFallback None txs fromBlock) f'.
Proof.
  intros Hr Hb Hi. pose proof (on_lvm_restores keccak256 db f T (Z.of_nat i) (PreExecute_tx keccak256 run rng_hash undefined_big fromBlock (Z.of_nat i) now)
    (spec_PreExecute keccak256 run rng_hash undefined_big T fromBlock (Z.of_nat i) now) Hr) as H.
  unfold at_index, tx_at in H. rewrite bool_decide_false in H by lia. destruct Hb as [Hb1 Hb2]. rewrite Hb1, Nat2Z.id in H. cbn [SpecFallback.txs] in H. rewrite Hi in H.
  destruct (Hret i tx now Hi) as [r Er]. destruct (spec_PreExecute_shape _ _ _ _ Er) as [rw ->]. rewrite Er in H.
  destruct H as (f' & Hf & Hr' & Hs1 & Hs2); [intros; subst; by apply PreExecute_restores|]. exists f', rw. split; [exact Hf|].
  split; [by exists tx, now|]. split; [done|]. split; congruence.
Qed.

Lemma omap_job_same s c x y : consumers s !! c = Some x -> job_of y = job_of x -> omap job_of (<[c := y]> (consumers s)) ≡ₚ omap job_of (consumers s).
Proof. intros Hc E. pose proof (omap_insert job_of _ _ _ y Hc) as H. rewrite E in H. by apply Permutation_app_inv_l in H. Qed.

Lemma omap_worker_same s c x y : consumers s !! c = Some x -> worker_of y = worker_of x -> omap worker_of (<[c := y]> (consumers s)) ≡ₚ omap worker_of (consumers s).
Proof. intros Hc E. pose proof (omap_insert worker_of _ _ _ y Hc) as H. rewrite E in H. by apply Permutation_app_inv_l in H. Qed.

Lemma stopped_before s c y : pinv s -> y <> Stopped -> Stopped ∈ <[c := y]> (consumers s) -> closed s = true /\ missCh s = [].
Proof. intros Hs Hy Hin. apply consumer_elem in Hin as [?|Hin]; [done|]. by apply (p_stopped _ Hs). Qed.

Lemma job_looked s c x i : pinv s -> consumers s !! c = Some x -> job_of x = Some i -> i < n /\ looked s i /\ is_miss i = true.
Proof.
  intros Hs Hc Hx. apply (b_ids _ _ _ _ (p_block _ Hs)). unfold ids. apply elem_of_app. right. apply list_elem_of_omap. exists x. split; [by eapply list_elem_of_lookup_2|done].
Qed.

Lemma receive_ok s c i ch : pinv s -> consumers s !! c = Some Waiting -> missCh s = i :: ch -> pinv (with_missCh (with_consumer s c (Got i)) ch).
Proof.
  intros Hs Hc Hm. apply (consumer_moves s c Waiting (Got i) ch (levmPool s) Hs Hc); try done.
  - unfold ids. rewrite Hm. pose proof (omap_insert job_of _ _ _ (Got i) Hc) as H. cbn in H. rewrite H. symmetry. apply Permutation_middle.
  - eapply pool_ok_perm; [by eapply omap_worker_same|apply (p_pool _ Hs)].
  - intros Hin. apply (stopped_before s c (Got i) Hs) in Hin as [_ E]; [|done]. by rewrite Hm in E.
Qed.

Lemma acquire_ok s c i p w : pinv s -> consumers s !! c = Some (Got i) -> Acquire (levmPool s) = Some (inl (p, w)) -> pinv (with_pool (with_consumer s c (Holding i w)) p).
Proof.
  intros Hs Hc Ha. pose proof (p_pool _ Hs) as (Hacc & Hn & Hw). destruct (proj1 (workers_exclusive _ _ Hacc) _ _ Ha) as (_ & _ & Hacc').
  assert (pool_n p = pool_n (levmPool s) /\ workers p = workers (levmPool s)) as [En Ew].
  { unfold Acquire in Ha. destruct (workers (levmPool s)) eqn:E; [done|]. destruct (idle (levmPool s)); [done|]. by injection Ha as <- _. }
  apply (consumer_moves s c (Got i) (Holding i w) (missCh s) p Hs Hc); try done.
  - unfold ids. by erewrite omap_job_same.
  - apply (pool_ok_perm p (w :: omap worker_of (consumers s))); [apply (omap_insert worker_of _ _ _ (Holding i w) Hc)|]. split; [done|]. by rewrite En, Ew.
  - intros Hin. by apply (stopped_before s c (Holding i w) Hs) in Hin.
Qed.

Lemma preexecute_ok s c i w f now f' r : pinv s -> consumers s !! c = Some (Holding i w) -> workers (levmPool s) !! w = Some f ->
  PreExecute keccak256 run rng_hash undefined_big db f fromBlock (Z.of_nat i) now = Ret (f', r) ->
  pinv (with_pool (with_consumer s c (Ran i w r)) (set_worker (levmPool s) w f')).
Proof.
  intros Hs Hc Hf He. pose proof (p_pool _ Hs) as ([Hacc Hl] & Hn & Hw). destruct (job_looked s c _ i Hs Hc eq_refl) as (Hi & _).
  destruct (lookup_lt_is_Some_2 txs i Hi) as [tx Htx]. destruct (Hw f) as [Hr Hb]; [by eapply list_elem_of_lookup_2|].
  destruct (worker_executes f i tx now Hr Hb Htx) as (f1 & rw & He' & Hex & Hr' & Hb'). rewrite He in He'. injection He' as <- ->.
  apply (consumer_moves s c (Holding i w) (Ran i w (Some rw, None)) (missCh s) _ Hs Hc); try done.
  - unfold ids. by erewrite omap_job_same.
  - eapply pool_ok_perm; [by eapply omap_worker_same|]. split; [split; [done|cbn; by rewrite length_insert]|]. split; [done|].
    intros g Hg. cbn in Hg. apply list_elem_of_lookup in Hg as [k Hk]. apply list_lookup_insert_Some in Hk as [(_ & <- & _)|(_ & Hk)]; [done|]. apply Hw. by eapply list_elem_of_lookup_2.
  - intros i' w' r' [= <- <- <-]. by exists rw.
  - intros Hin. by apply (stopped_before s c (Ran i w (Some rw, None)) Hs) in Hin.
Qed.

Lemma counted_recorded st out i rw : is_miss i = true -> counted n out (st, out) -> counted n (<[i := rw]> out) (st, <[i := rw]> out).
Proof.
  intros Hm [H1 H2 H3 H4 H5 H6 H7 H8]. split; try done; cbn in *; [by rewrite length_insert|]. intros j tx Hj Hh Htx.
  rewrite list_lookup_insert_ne by congruence. by apply H7.
Qed.

Lemma record_ok s c i w r p : pinv s -> consumers s !! c = Some (Ran i w r) -> Release (levmPool s) (Some w) = Some p ->
  pinv (record_result (with_pool (with_consumer s c Waiting) p) i r).
Proof.
  intros Hs Hc Hr. destruct (p_ran _ Hs i w r) as (rw & -> & Hex); [by eapply list_elem_of_lookup_2|].
  destruct (job_looked s c _ i Hs Hc eq_refl) as (_ & _ & Hm). pose proof (consumer_phase s c _ Hs Hc) as Hph.
  pose proof (omap_insert job_of _ _ _ Waiting Hc) as Hj. pose proof (omap_insert worker_of _ _ _ Waiting Hc) as Hw. cbn in Hj, Hw.
  pose proof (p_pool _ Hs) as (Hacc & Hn & Hws). destruct (proj2 (workers_exclusive _ _ Hacc) w (omap worker_of (<[c := Waiting]> (consumers s)))) as (p' & Hp' & Hacc'); [by rewrite Hw|].
  rewrite Hr in Hp'. injection Hp' as <-. pose proof (stopped_before s c Waiting Hs) as Hst. destruct Hs as [H1 H2 H3 H4 H5 H6 H7 H8 H9 H10 H11].
  split; cbn; try done.
  - apply (block_recorded _ _ _ _ i rw Hex). eapply block_perm; [|  |exact H5]; [done|]. unfold ids. cbn. rewrite <- Hj. apply Permutation_middle.
  - split; [done|]. unfold Release in Hr. case_bool_decide; [|done]. injection Hr as <-. cbn. split; [done|]. exact Hws.
  - intros j v r Hin. apply consumer_elem in Hin as [?|Hin]; [done|]. by eapply H7.
  - intros Hin. by apply Hst.
  - intros Hnn. by apply consumers_some, H10.
  - unfold phase_ok. cbn. destruct Hph as [[-> ->]|(st & -> & Hcl & Hl & Hfl & Hct)]; [done|done|]. split_and!; try done. by apply counted_recorded.
Qed.

Lemma stop_ok s c : pinv s -> consumers s !! c = Some Waiting -> missCh s = [] -> closed s = true -> pinv (with_consumer s c Stopped).
Proof.
  intros Hs Hc Hm Hcl. apply (consumer_moves s c Waiting Stopped (missCh s) (levmPool s) Hs Hc); try done.
  - unfold ids. by erewrite omap_job_same.
  - eapply pool_ok_perm; [by eapply omap_worker_same|apply (p_pool _ Hs)].
Qed.

Lemma launch_ok s : pinv s -> phase s = Looking -> launched s < n -> pinv (launch s).
Proof.
  intros Hs Hp Hl. destruct Hs as [H1 H2 [H3 H3'] [H4 H4'] H5 H6 H7 H8 H9 H10 H11].
  assert (forall i, looked (launch s) i <-> looked s i) as Hlk.
  { intros i. unfold looked. cbn. rewrite elem_of_app, list_elem_of_singleton. split; [intros [? ?]; split; [|tauto]; assert (i <> launched s) by tauto; lia|].
    intros [? ?]. split; [lia|]. intros [?| ->]; [done|lia]. }
  split; cbn; try done.
  - split; [apply NoDup_app; split_and!; [done| |apply NoDup_singleton]|].
    + intros i Hi. rewrite list_elem_of_singleton. apply H3' in Hi. lia.
    + intros i. rewrite elem_of_app, list_elem_of_singleton. intros [Hi%H3'| ->]; lia.
  - split; [done|]. intros i Hi%Hlk. by apply H4'.
  - eapply block_perm; [exact Hlk| |exact H5]. done.
  - unfold phase_ok in *. cbn. by rewrite Hp in *.
Qed.

(** A lookup in flight: the main goroutine is still looking. *)
Lemma inflight_phase s i : pinv s -> i ∈ inflight s -> phase s = Looking /\ closed s = false /\ Stopped ∉ consumers s.
Proof.
  intros Hs Hi. pose proof (p_phase _ Hs) as Hp. unfold phase_ok in Hp. destruct (phase s) as [|st|r].
  - split; [done|]. split; [done|]. intros Hst. apply (p_stopped _ Hs) in Hst as [? _]. congruence.
  - destruct Hp as (_ & _ & E & _). rewrite E in Hi. by apply not_elem_of_nil in Hi.
  - destruct Hp as (st & _ & _ & _ & E & _). rewrite E in Hi. by apply not_elem_of_nil in Hi.
Qed.

Lemma looked_after s k i cache oc j : NoDup (inflight s) -> inflight s !! k = Some i -> i < launched s ->
  looked (looked_up s k i cache oc) j <-> looked s j \/ j = i.
Proof.
  intros Hnd Hk Hi. unfold looked. cbn. pose proof (delete_Permutation _ _ _ Hk) as Hp. set (rest := delete k (inflight s)) in *. clearbody rest. rewrite Hp in Hnd |- *. apply NoDup_cons in Hnd as [Hni _].
  rewrite not_elem_of_cons. split; [|intros [?| ->]; tauto]. intros [? ?]. destruct (decide (j = i)); tauto.
Qed.

Lemma lookup_ok s k i tx cache oc : pinv s -> inflight s !! k = Some i -> txs !! i = Some tx -> lookup_tx (items s) tx = Ret (cache, oc) ->
  pinv (looked_up s k i cache oc).
Proof.
  intros Hs Hk Htx Hl. destruct (lookup_static (items s) i tx Htx (p_cache _ Hs)) as (cache' & Hl' & Hc'). rewrite Hl in Hl'. injection Hl' as <- ->.
  destruct (inflight_phase s i Hs) as (Hph & Hcl & Hst); [by eapply list_elem_of_lookup_2|].
  destruct Hs as [H1 H2 [H3 H3'] [H4 H4'] H5 H6 H7 H8 H9 H10 H11].
  assert (i < launched s) as Hi by (apply H3'; by eapply list_elem_of_lookup_2). assert (i < n) as Hin by lia.
  pose proof (fun j => looked_after s k i cache (static_at i) j H3 Hk Hi) as Hlk. pose proof (delete_Permutation _ _ _ Hk) as Hp.
  split; cbn; try done.
  - set (rest := delete k (inflight s)) in *. clearbody rest. rewrite Hp in H3. apply NoDup_cons in H3 as [_ H3]. split; [done|]. intros j Hj. apply H3'. rewrite Hp. by right.
  - split; [by rewrite length_insert|]. intros j [Hj| ->]%Hlk; [|apply list_lookup_insert_eq; lia].
    destruct (decide (j = i)) as [->|Hne]; [apply list_lookup_insert_eq; lia|]. rewrite list_lookup_insert_ne by done. by apply H4'.
  - refine (block_perm _ _ _ _ _ _ (fun _ => iff_refl _) _ (block_looked _ _ _ _ _ i Hin _ Hlk H5)).
    2: { intros [_ Hn]. apply Hn. by eapply list_elem_of_lookup_2. }
    unfold ids, is_miss. cbn. destruct (oc_hit (static_at i)); cbn; [done|]. rewrite <- app_assoc. symmetry. apply Permutation_middle.
  - unfold phase_ok. cbn. by rewrite Hph.
Qed.

Lemma process_ok s : pinv s -> phase s = Looking -> launched s = n -> inflight s = [] -> pinv (process s).
Proof.
  intros Hs Hph Hl Hf. assert (forall i, i < n -> looked s i) as Hlk by (intros i Hi; split; [lia|rewrite Hf; apply not_elem_of_nil]).
  pose proof (process_outcomes_counted (outcomes s) (slots s) (fun i Hi => proj2 (p_outcomes _ Hs) i (Hlk i Hi)) (b_length _ _ _ _ (p_block _ Hs))) as Hct.
  pose proof (block_processed _ _ _ _ _ Hlk Hct (p_block _ Hs)) as Hb.
  unfold process. destruct (process_outcomes (outcomes s) (slots s)) as [stats out]. cbn [snd] in Hb.
  assert (Stopped ∉ consumers s) as Hst.
  { intros Hst. apply (p_stopped _ Hs) in Hst as [? _]. pose proof (p_phase _ Hs) as Hp. unfold phase_ok in Hp. rewrite Hph in Hp. congruence. }
  destruct Hs as [H1 H2 H3 H4 H5 H6 H7 H8 H9 H10 H11]. split; cbn; try done.
  unfold phase_ok. cbn. split_and!; try done. destruct Hct as [C1 C2 C3 C4 C5 C6 C7 C8]. by split.
Qed.

Lemma return_ok s stats : pinv s -> phase s = Draining stats -> forallb is_stopped (consumers s) = true -> pinv (with_phase s (Returned (result_of s stats))).
Proof.
  intros Hs Hph Hall. destruct Hs as [H1 H2 H3 H4 H5 H6 H7 H8 H9 H10 H11]. split; cbn; try done.
  unfold phase_ok in *. rewrite Hph in H11. cbn. destruct H11 as (_ & Hl & Hf & Hct). exists stats. unfold result_of. rewrite H8. done.
Qed.

Lemma pstep_ok s s' : pinv s -> pstep s s' -> pinv s'.
Proof.
  intros Hs Hst. destruct Hst as [s Hp Hl _|s k i tx cache oc Hk Htx Hl _|s c i ch Hc Hm|s c i p w Hc Ha|s c i msg Hc Ha|s c i w f now f' r Hc Hf He|s c i w r p Hc Hr|s c Hc Hm Hcl|s Hp Hl Hf|s stats Hp Hall].
  - by apply launch_ok.
  - by eapply lookup_ok.
  - by apply receive_ok.
  - by apply acquire_ok.
  - destruct (p_pool _ Hs) as ([_ Hlen] & Hn & _). unfold Acquire in Ha. destruct (workers (levmPool s)); [cbn in Hlen; lia|]. by destruct (idle (levmPool s)).
  - by eapply preexecute_ok.
  - by eapply record_ok.
  - by apply stop_ok.
  - by apply process_ok.
  - by apply return_ok.
Qed.

Lemma psteps_ok s s' : pinv s -> rtc pstep s s' -> pinv s'.
Proof. intros Hs Hst. induction Hst as [|x y z Hxy _ IH]; [done|]. apply IH. by eapply pstep_ok. Qed.

(** ** Progress *)
Lemma worker_steps s c x w : pinv s -> consumers s !! c = Some x -> worker_of x = Some w -> exists s', pstep s s'.
Proof.
  intros Hs Hc Hx. pose proof (p_pool _ Hs) as (Hacc & Hn & Hws). assert (w ∈ omap worker_of (consumers s)) as Hw.
  { apply list_elem_of_omap. exists x. split; [by eapply list_elem_of_lookup_2|done]. }
  destruct x as [|i|i v|i v r|]; try done; injection Hx as ->.
  - destruct Hacc as [Hp Hl]. assert (w < length (workers (levmPool s))) as Hlt.
    { assert (w ∈ seq 0 (pool_n (levmPool s))) as Hin by (rewrite <- Hp; apply elem_of_app; by right). apply elem_of_seq in Hin. lia. }
    apply lookup_lt_is_Some in Hlt as [f Hf]. destruct (job_looked s c _ i Hs Hc eq_refl) as (Hi & _). destruct (lookup_lt_is_Some_2 txs i Hi) as [tx Htx].
    destruct (Hws f) as [Hr Hb]; [by eapply list_elem_of_lookup_2|]. destruct (worker_executes f i tx 0%Z Hr Hb Htx) as (f' & rw & He & _).
    eexists. by eapply step_preexecute.
  - apply elem_of_Permutation in Hw as [held' Hh]. destruct (proj2 (workers_exclusive _ _ Hacc) w held' Hh) as (p & Hp & _).
    eexists. by eapply step_record.
Qed.

Lemma got_steps s c i : pinv s -> consumers s !! c = Some (Got i) -> exists s', pstep s s'.
Proof.
  intros Hs Hc. pose proof (p_pool _ Hs) as ([Hp Hl] & Hn & _). destruct (workers (levmPool s)) as [|f ws] eqn:Ew; [cbn in Hl; lia|].
  destruct (idle (levmPool s)) as [|w rest] eqn:Ei.
  - destruct (omap worker_of (consumers s)) as [|w l] eqn:Eo; [apply Permutation_length in Hp; rewrite length_seq in Hp; cbn in Hp; lia|].
    assert (w ∈ omap worker_of (consumers s)) as Hw by (rewrite Eo; left). apply list_elem_of_omap in Hw as (x & Hx & Hxw).
    apply list_elem_of_lookup in Hx as [c' Hc']. by eapply (worker_steps s c' x w).
  - eexists. eapply step_acquire; [exact Hc|]. unfold Acquire. by rewrite Ew, Ei.
Qed.

Lemma missCh_room s i : pinv s -> i ∈ inflight s -> length (missCh s) < n.
Proof.
  intros Hs Hi. pose proof (p_block _ Hs) as Hb. pose proof (b_nodup _ _ _ _ Hb) as Hnd. unfold ids in Hnd. apply NoDup_app in Hnd as (Hnd & _ & _).
  assert (NoDup (i :: missCh s)) as Hnd'.
  { constructor; [|done]. intros Hin. destruct (b_ids _ _ _ _ Hb i) as (_ & [_ Hl] & _); [apply elem_of_app; by left|done]. }
  assert (i :: missCh s ⊆+ seq 0 n) as Hsub.
  { apply NoDup_submseteq; [done|]. intros j Hj. apply elem_of_seq. cut (j < n); [lia|]. apply elem_of_cons in Hj as [->|Hj].
    - pose proof (p_launched _ Hs). pose proof (proj2 (p_inflight _ Hs) i Hi). lia.
    - apply (b_ids _ _ _ _ Hb). apply elem_of_app. by left. }
  apply submseteq_length in Hsub. rewrite length_seq in Hsub. cbn in Hsub. lia.
Qed.

Lemma lookup_steps s i : pinv s -> i ∈ inflight s -> exists s', pstep s s'.
Proof.
  intros Hs Hi. pose proof (missCh_room s i Hs Hi) as Hroom. assert (i < n) as Hn by (pose proof (p_launched _ Hs); pose proof (proj2 (p_inflight _ Hs) i Hi); lia).
  apply lookup_lt_is_Some in Hn as [tx Htx]. apply list_elem_of_lookup in Hi as [k Hk].
  destruct (lookup_static (items s) i tx Htx (p_cache _ Hs)) as (cache & Hl & _). eexists. eapply step_lookup; try done. by right.
Qed.

Context (Hcpu : 0 < numCPU).

Lemma looking_steps s : pinv s -> phase s = Looking -> exists s', pstep s s'.
Proof.
  intros Hs Hph. destruct (inflight s) as [|i l] eqn:Ef; [|apply (lookup_steps s i Hs); rewrite Ef; left].
  destruct (decide (launched s < n)) as [Hl|Hl].
  - eexists. apply step_launch; [done..|]. rewrite Ef. cbn. lia.
  - eexists. apply step_process; [done| |done]. pose proof (p_launched _ Hs). lia.
Qed.

Lemma draining_steps s stats : pinv s -> phase s = Draining stats -> exists s', pstep s s'.
Proof.
  intros Hs Hph. destruct (forallb is_stopped (consumers s)) eqn:Ea; [eexists; by eapply step_return|].
  assert (exists c x, consumers s !! c = Some x /\ x <> Stopped) as (c & x & Hc & Hx).
  { clear -Ea. induction (consumers s) as [|x l IH]; [done|]. destruct (decide (is_stopped x = true)) as [E|E].
    - cbn in Ea. rewrite E in Ea. destruct (IH Ea) as (c & y & ? & ?). by exists (S c), y.
    - exists 0, x. split; [done|]. by intros ->. }
  pose proof (p_phase _ Hs) as Hp. unfold phase_ok in Hp. rewrite Hph in Hp. destruct Hp as (Hcl & _).
  destruct x as [|i|i w|i w r|]; [| | | |done].
  - destruct (missCh s) as [|i ch] eqn:Em; [eexists; by eapply step_stop|eexists; by eapply step_receive].
  - by eapply got_steps.
  - by eapply worker_steps.
  - by eapply worker_steps.
Qed.

Lemma start_pinv p : 0 < pool_n p -> length (workers p) = pool_n p -> idle p = seq 0 (pool_n p) ->
  (forall f, f ∈ workers p -> ready keccak256 db f T /\ same_block (mkFallback None txs fromBlock) f) -> pinv (start_pipeline p).
Proof.
  intros Hn Hl Hi Hw. assert (forall k (f : consumer -> option nat), f Waiting = None -> omap f (replicate k Waiting) = []) as Ho.
  { intros k f Hf. induction k as [|k IH]; [done|]. cbn. by rewrite Hf. }
  split; cbn; try done.
  - lia.
  - split; [constructor|]. intros i H. by apply not_elem_of_nil in H.
  - split; [apply length_replicate|]. intros i [H _]. cbn in H. lia.
  - unfold ids. cbn. rewrite Ho by done. eapply block_perm; [|done|apply block_opening]. intros i. unfold looked. cbn. lia.
  - rewrite Ho by done. split; [|done]. split; [|done]. by rewrite app_nil_r, Hi.
  - intros i w r H. apply elem_of_replicate in H as [? _]. done.
  - intros H. apply elem_of_replicate in H as [? _]. done.
  - intros Hnn E. apply (f_equal length) in E. rewrite length_replicate in E. cbn in E. lia.
Qed.

(** ** The answer *)
Record block_answered (out : list (option ReplayRWSet)) (stats : LLMSpecStats) : Prop := {
  ans_length : length out = n;
  ans_hit : forall i tx, txs !! i = Some tx -> oc_hit (static_outcome tx) = true -> out !! i = Some (Some (llm_set i tx (static_outcome tx)));
  ans_miss : forall i tx, txs !! i = Some tx -> oc_hit (static_outcome tx) = false -> exists rw, out !! i = Some (Some rw) /\ executed T i rw;
  ans_total : Total stats = n /\ LLMHit stats + FallbackCount stats = n;
  ans_hits : LLMHit stats = count (fun i => negb (is_miss i)) (seq 0 n);
  ans_reasons : forall r, default 0 (FallbackReasons stats !! r) = count (miss_for r) (seq 0 n);
  ans_sources : forall i, i < n -> Sources stats !! i = Some (source_of i);
  ans_ok : FallbackOK stats = count (ok_at out) (seq 0 n) }.

Lemma count_negb (f : nat -> bool) l : count (fun i => negb (f i)) l + count f l = length l.
Proof. unfold count. induction l as [|i l IH]; [done|]. rewrite !filter_cons. destruct (f i); cbn [negb];
  [rewrite decide_False, decide_True by done|rewrite decide_True, decide_False by done]; cbn; lia. Qed.

Lemma returned_answered s r : pinv s -> phase s = Returned r -> exists out stats, r = (Some out, stats, None) /\ block_answered out stats.
Proof.
  intros Hs Hph. pose proof (p_phase _ Hs) as Hp. unfold phase_ok in Hp. rewrite Hph in Hp. destruct Hp as (st & -> & Hct & Hl & Hf & Hall).
  pose proof (p_block _ Hs) as Hb. eexists _, _. split; [done|]. assert (forall i, i < n -> looked s i) as Hlk by (intros i Hi; split; [lia|rewrite Hf; apply not_elem_of_nil]).
  assert (forall i, i < n -> i ∉ ids s) as Hids.
  { intros i Hi Hin. assert (consumers s <> []) as Hne by (apply (p_consumers _ Hs); lia). unfold ids in Hin. rewrite forallb_forall in Hall.
    apply elem_of_app in Hin as [Hin|Hin].
    - destruct (consumers s) as [|x l] eqn:Ec; [done|]. destruct x; try (by specialize (Hall _ (or_introl eq_refl))).
      destruct (p_stopped _ Hs) as [_ E]; [rewrite Ec; left|]. rewrite E in Hin. by apply not_elem_of_nil in Hin.
    - apply list_elem_of_omap in Hin as (x & Hx & Hj). apply list_elem_of_In, Hall in Hx. by destruct x. }
  destruct Hct as [C1 C2 C3 C4 [C5 C5'] C6 C7 C8]. cbn in *. split; cbn; try done.
  - intros i tx Htx Hh. assert (static_at i = static_outcome tx) as E by (unfold static_at; by rewrite Htx). rewrite <- E in Hh |- *.
    apply C7; [by eapply lookup_lt_Some|unfold is_miss; by rewrite Hh|done].
  - intros i tx Htx Hh. assert (static_at i = static_outcome tx) as E by (unfold static_at; by rewrite Htx). rewrite <- E in Hh. pose proof (lookup_lt_Some _ _ _ Htx) as Hi.
    destruct (b_cover _ _ _ _ Hb i Hi (Hlk i Hi)) as [Hin|?]; [unfold is_miss; by rewrite Hh|by apply Hids in Hin|done].
  - split; [done|]. rewrite C2, C3, count_negb. apply length_seq.
  - apply (b_ok _ _ _ _ Hb).
Qed.
End executor.

(** C19: the prediction of a block on a pool built from its witness, under every
    interleaving of lookups, consumers and main goroutine: each step brings it
    nearer to its end, it cannot get stuck before, no send on the channel of
    misses blocks, and it returns without error.  Every transaction the static
    analysis answers gets the completed key sets of the analysis, whatever the
    other lookups left in the shared cache; every other one gets the result of
    its execution on the witness state, whichever worker ran it.  The counters,
    the sources and the reasons describe exactly these answers. *)
Theorem LLMSpecExecuteAllWithStats_correct keccak256 recover disk m rng rng_hash undefined_big run db txs fromBlock numCPU size witness T u p s :
  CodeDB keccak256 db -> (forall ctx c input, framed (run ctx c input)) -> 0 < numCPU ->
  (forall id a, aliasToAddr m !! id = Some a -> no_colon a) -> (forall tx, tx ∈ txs -> no_colon (raw_To tx)) ->
  (forall tx c acc w, tx ∈ txs -> is_Ret (tryKeyDeriver keccak256 recover c acc (tx_args keccak256 m tx) w)) ->
  effect keccak256 (abs keccak256 db NewWithTrie) (injectWitnessIntoStateDB rng witness) = Ret (T, u) ->
  NewLevmSpecFallbackPool keccak256 rng db numCPU size txs witness fromBlock = Ret p ->
  (forall i tx now, txs !! i = Some tx -> is_Ret (spec_PreExecute keccak256 run rng_hash undefined_big T fromBlock (Z.of_nat i) now tx)) ->
  let step := pstep keccak256 recover disk m rng rng_hash undefined_big run db txs fromBlock numCPU in
  rtc step (start_pipeline txs p) s ->
  (forall s', step s s' -> pipeline_work txs s' < pipeline_work txs s) /\
  match phase s with
  | Returned r => exists out stats, r = (Some out, stats, None) /\
      block_answered keccak256 recover disk m rng rng_hash undefined_big run txs fromBlock T out stats
  | _ => exists s', step s s'
  end.
Proof.
  intros Hdb Hrun Hcpu Halias Htarget Hderive HT Hp Hret step Hs. split; [intros s'; apply pstep_decreases|]. unfold NewLevmSpecFallbackPool in Hp.
  set (k := if bool_decide (size <= 0)%Z then numCPU else Z.to_nat size) in *.
  assert (0 < k) as Hk by (unfold k; case_bool_decide; lia).
  destruct (new_workers keccak256 rng db k txs witness fromBlock) as [ws| |] eqn:Ew; [|done..]. cbn in Hp. injection Hp as <-.
  destruct (new_workers_ready keccak256 rng db txs witness fromBlock T u k ws HT Ew) as [Hl Hw].
  assert (pinv keccak256 recover disk m rng rng_hash undefined_big run db txs fromBlock T s) as Hok.
  { eapply psteps_ok; [exact Halias|exact Htarget|exact Hderive|exact Hrun|exact Hdb|exact Hret| |exact Hs]. by eapply (start_pinv _ _ _ _ _ _ _ _ _ _ _ numCPU). }
  destruct (phase s) as [|st|r] eqn:Ep.
  - by eapply looking_steps.
  - by eapply draining_steps.
  - by eapply returned_answered.
Qed.

(** ** An example: a call the analysis knows and one it does not *)
Definition known_manager : MainnetContractManager :=
  mkManager {[ contract1 := [mkItem "paused" 2 "simple" false "t_bool" false] ]} ∅ ∅
    {[ rwset_key contract1 "0x00000001" := mkResponse [mkAccess "global" "paused"] [mkAccess "global" "paused"] [] ]}.
Definition mixed_block : list RawTransaction := [demo_tx contract1 "0x00000001"; demo_tx contract1 "0x01"].
Definition mixed_built : outcome LevmSpecFallbackPool := NewLevmSpecFallbackPool toy_keccak elements empty_db 2 1 mixed_block (Some demo_witness) 1.
Definition mixed_pool : LevmSpecFallbackPool := match mixed_built with Ret p => p | _ => mkPool [] [] 0 end.
Definition mixed_step : pipeline -> pipeline -> Prop :=
  pstep toy_keccak (fun _ _ => None) (fun _ _ => None) known_manager elements elements (fun _ => 0%Z) demo_run empty_db mixed_block 1 2.

Lemma mixed_pool_ret : mixed_built = Ret mixed_pool.
Proof. vm_compute. reflexivity. Qed.

Lemma mixed_executes i tx now : mixed_block !! i = Some tx ->
  is_Ret (spec_PreExecute toy_keccak demo_run elements (fun _ => 0%Z) demo_state 1 (Z.of_nat i) now tx).
Proof.
  intros Hi. assert (match spec_PreExecute toy_keccak demo_run elements (fun _ => 0%Z) demo_state 1 (Z.of_nat i) now tx with Ret _ => true | _ => false end = true) as H.
  { destruct i as [|[|i]]; cbn in Hi; [injection Hi as <-; vm_compute; reflexivity..|done]. }
  destruct (spec_PreExecute toy_keccak demo_run elements (fun _ => 0%Z) demo_state 1 (Z.of_nat i) now tx) as [r| |]; [by exists r|done..].
Qed.

Lemma mixed_elem tx : tx ∈ mixed_block -> tx = demo_tx contract1 "0x00000001" \/ tx = demo_tx contract1 "0x01".
Proof. unfold mixed_block. rewrite elem_of_cons, list_elem_of_singleton. done. Qed.

Lemma mixed_targets tx : tx ∈ mixed_block -> no_colon (raw_To tx).
Proof. intros [-> | ->]%mixed_elem; unfold no_colon; vm_compute; set_solver. Qed.

Lemma mixed_derives tx c acc w : tx ∈ mixed_block -> is_Ret (tryKeyDeriver toy_keccak (fun _ _ => None) c acc (tx_args toy_keccak known_manager tx) w).
Proof. intros [-> | ->]%mixed_elem; apply short_calldata_ok; vm_compute; lia. Qed.

Lemma known_aliases id a : aliasToAddr known_manager !! id = Some a -> no_colon a.
Proof. cbn. by rewrite lookup_empty. Qed.

Lemma LLMSpecExecuteAllWithStats_correct_witness :
  exists s out stats, rtc mixed_step (start_pipeline mixed_block mixed_pool) s /\ phase s = Returned (Some out, stats, None) /\ length out = 2 /\
    LLMHit stats = 1 /\ Sources stats !! 1 = Some "preexec".
Proof.
  assert (forall k s, pipeline_work mixed_block s < k -> rtc mixed_step (start_pipeline mixed_block mixed_pool) s ->
    exists s' out stats, rtc mixed_step (start_pipeline mixed_block mixed_pool) s' /\ phase s' = Returned (Some out, stats, None) /\ length out = 2 /\
      LLMHit stats = 1 /\ Sources stats !! 1 = Some "preexec") as H.
  { induction k as [|k IH]; intros s Hk Hs; [exfalso; lia|].
    destruct (LLMSpecExecuteAllWithStats_correct toy_keccak (fun _ _ => None) (fun _ _ => None) known_manager elements elements (fun _ => 0%Z) demo_run empty_db mixed_block 1 2 1
      (Some demo_witness) demo_state tt mixed_pool s _ framed_demo_run ltac:(lia) known_aliases mixed_targets mixed_derives demo_effect_ret mixed_pool_ret mixed_executes Hs) as [Hdec Hend].
    destruct (phase s) as [|st|r] eqn:Ep.
    - destruct Hend as [s' Hs']. apply (IH s'); [pose proof (Hdec s' Hs'); lia|]. by eapply rtc_r.
    - destruct Hend as [s' Hs']. apply (IH s'); [pose proof (Hdec s' Hs'); lia|]. by eapply rtc_r.
    - destruct Hend as (out & stats & -> & Ha). exists s, out, stats. split; [exact Hs|]. split; [exact Ep|]. split; [exact (ans_length _ _ _ _ _ _ _ _ _ _ _ _ _ Ha)|].
      split; [rewrite (ans_hits _ _ _ _ _ _ _ _ _ _ _ _ _ Ha); vm_compute; reflexivity|].
      rewrite (ans_sources _ _ _ _ _ _ _ _ _ _ _ _ _ Ha) by (vm_compute; lia). vm_compute. reflexivity. }
  exact (H (S (pipeline_work mixed_block (start_pipeline mixed_block mixed_pool))) _ (Nat.lt_succ_diag_r _) (rtc_refl _ _)).
Defined.
