(* ===== verification/SpecSets.v ===== *)
(** * The predicted sets: [utils/mainnet_spec_executor.go]

    What the key sets of the static analysis cover, and [LLMSpecExecuteAll], the
    sequential prediction of a block, which completes the sets of executed
    transactions with account keys as well. *)
From stdpp Require Import base gmap sets list list_numbers strings.
From Stdlib Require Import ZArith Ascii Lia.
From S2P Require Import Prelude RWSet GoText KeyDerive ContractManager StateDB StateSpec HexKeys Execution ReplayAdapter Levm SpecFallback SpecArgs SpecExecutor.

Set Default Goal Selector "!".
Local Open Scope string_scope.
Local Open Scope list_scope.

Section serial.
Context (keccak256 : string -> Hash) (recover : string -> string -> option string).
Context (disk : string -> string -> option MainnetLLMResponse) (m : MainnetContractManager).
Context (rng : gset string -> list string) (rng_hash : gset Hash -> list Hash) (undefined_big : string -> Z).
Context (run : Context -> Contract -> string -> eprog frame_result) (db : Database).
Context (txs : list RawTransaction) (blockNum : Z).
(** The clock when transaction [i] is executed. *)
Context (now : nat -> Z).
Local Abbreviation n := (length txs).

(** An executed set with the account keys. *)
Definition completed (rw : ReplayRWSet) (tx : RawTransaction) (args : MainnetTxArgs) : ReplayRWSet :=
  let '(readKeys, writeKeys) := augmentAccountKeys rng (ReadKeys rw) (WriteKeys rw) tx args in
  mkReplayRWSet (Ref rw) (Success rw) (ReplayAdapter.GasUsed rw) readKeys writeKeys (Error rw).

Definition sender_args (tx : RawTransaction) : MainnetTxArgs := mkArgs EmptyString EmptyString (ToLower (raw_From tx)) EmptyString EmptyString.

Record predict_state := mkPredict { s_exec : LevmSpecFallback; s_items : item_cache; s_out : list (option ReplayRWSet) }.

(** [PreExecute] and the completion of its set; [inr] is the early return. *)
Definition fallback_tx (st : predict_state) (i : nat) (tx : RawTransaction) (args : MainnetTxArgs) : outcome (predict_state + exec_error) :=
  PreExecute keccak256 run rng_hash undefined_big db (s_exec st) blockNum (Z.of_nat i) (now i) ≫= fun '(f, (rw, ferr)) =>
  match ferr with
  | Some e => Ret (inr (EvmFallback i e))
  | None => or_panic rw ≫= fun rw => Ret (inl (mkPredict f (s_items st) (<[i := Some (completed rw tx args)]> (s_out st))))
  end.

Definition execute_tx (st : predict_state + exec_error) (i : nat) : outcome (predict_state + exec_error) :=
  match st with
  | inr e => Ret (inr e)
  | inl st =>
    or_panic (txs !! i) ≫= fun tx =>
    if no_analysis tx then fallback_tx st i tx (sender_args tx) else
    let args := tx_args keccak256 m tx in
    GetConservativeRWSet keccak256 recover disk m (s_items st) (tx_target tx) (tx_selector tx) args ≫= fun '(cache, r) =>
    match r with
    | inl _ => fallback_tx (mkPredict (s_exec st) cache (s_out st)) i tx args
    | inr (readKeys, writeKeys) =>
      let '(readKeys, writeKeys) := augmentAccountKeys rng readKeys writeKeys tx args in
      Ret (inl (mkPredict (s_exec st) cache (<[i := Some (llm_set blockNum i tx (mkOutcome true readKeys writeKeys EmptyString))]> (s_out st))))
    end
  end.

Definition LLMSpecExecuteAll (cache : item_cache) (evmExec : LevmSpecFallback) : outcome (predict_state + exec_error) :=
  foldM execute_tx (inl (mkPredict evmExec cache (replicate n None))) (seq 0 n).

(** ** What it returns *)
(** The analysis of a transaction, with an empty cache. *)
Definition analysis (tx : RawTransaction) : option (list string * list string) :=
  if no_analysis tx then None else
  match GetConservativeRWSet keccak256 recover disk m ∅ (tx_target tx) (tx_selector tx) (tx_args keccak256 m tx) with
  | Ret (_, inr keys) => Some keys
  | _ => None
  end.

Definition predicted (T : spec_state) (i : nat) (tx : RawTransaction) (rw : ReplayRWSet) : Prop :=
  match analysis tx with
  | Some (readKeys, writeKeys) =>
    let '(readKeys, writeKeys) := augmentAccountKeys rng readKeys writeKeys tx (tx_args keccak256 m tx) in
    rw = llm_set blockNum i tx (mkOutcome true readKeys writeKeys EmptyString)
  | None => exists rw0, executed keccak256 rng_hash undefined_big run txs blockNum T i rw0 /\
      rw = completed rw0 tx (if no_analysis tx then sender_args tx else tx_args keccak256 m tx)
  end.

Context (Halias : forall id a, aliasToAddr m !! id = Some a -> no_colon a).
Context (Htarget : forall tx, tx ∈ txs -> no_colon (raw_To tx)).
Context (Hderive : forall tx c acc w, tx ∈ txs -> is_Ret (tryKeyDeriver keccak256 recover c acc (tx_args keccak256 m tx) w)).
Context (T : spec_state) (Hrun : forall ctx c input, framed (run ctx c input)) `{!CodeDB keccak256 db}.
Context (Hret : forall i tx now, txs !! i = Some tx -> is_Ret (spec_PreExecute keccak256 run rng_hash undefined_big T blockNum (Z.of_nat i) now tx)).

Definition predict_inv (k : nat) (st : predict_state + exec_error) : Prop :=
  exists s, st = inl s /\ cache_ok m (s_items s) /\ ready keccak256 db (s_exec s) T /\ same_block (mkFallback None txs blockNum) (s_exec s) /\
    length (s_out s) = n /\ forall i tx, i < k -> txs !! i = Some tx -> exists rw, s_out s !! i = Some (Some rw) /\ predicted T i tx rw.

Lemma predict_extends s k tx f cache rw : txs !! k = Some tx -> predicted T k tx rw -> predict_inv k (inl s) ->
  cache_ok m cache -> ready keccak256 db f T -> same_block (mkFallback None txs blockNum) f ->
  predict_inv (S k) (inl (mkPredict f cache (<[k := Some rw]> (s_out s)))).
Proof.
  intros Htx Hp (s' & [= <-] & _ & _ & _ & Hl & Hout) Hc Hr Hb. eexists. split; [done|]. cbn. split_and!; try done; [by rewrite length_insert|].
  intros i tx' Hi Htx'. destruct (decide (i = k)) as [->|Hne].
  - rewrite Htx in Htx'. injection Htx' as <-. exists rw. split; [|done]. apply list_lookup_insert_eq. rewrite Hl. by eapply lookup_lt_Some.
  - rewrite list_lookup_insert_ne by done. apply Hout; [lia|done].
Qed.

Lemma fallback_extends s k tx cache : txs !! k = Some tx -> analysis tx = None -> predict_inv k (inl s) -> cache_ok m cache ->
  exists st, fallback_tx (mkPredict (s_exec s) cache (s_out s)) k tx (if no_analysis tx then sender_args tx else tx_args keccak256 m tx) = Ret st /\ predict_inv (S k) st.
Proof.
  intros Htx Ha Hs Hc. pose proof Hs as (s' & [= <-] & _ & Hr & Hb & _).
  destruct (worker_executes keccak256 rng_hash undefined_big run db txs blockNum T Hrun Hret (s_exec s) k tx (now k) Hr Hb Htx)
    as (f & rw & He & Hex & Hr' & Hb'). unfold fallback_tx. cbn [s_exec s_items s_out]. rewrite He. cbn. eexists. split; [done|].
  apply (predict_extends s k tx); try done. unfold predicted. rewrite Ha. by exists rw.
Qed.

Lemma execute_extends st k : k < n -> predict_inv k st -> exists st', execute_tx st k = Ret st' /\ predict_inv (S k) st'.
Proof.
  intros Hk Hs. pose proof Hs as (s & -> & Hc & Hr & Hb & _). destruct (lookup_lt_is_Some_2 txs k Hk) as [tx Htx]. pose proof (list_elem_of_lookup_2 _ _ _ Htx) as Hin.
  unfold execute_tx. rewrite Htx. cbn [or_panic]. rewrite bind_ret. pose proof (fallback_extends s k tx) as Hfb. unfold analysis in Hfb. destruct (no_analysis tx) eqn:En.
  { destruct s as [f c out]. by apply Hfb. }
  destruct (GetConservativeRWSet_same keccak256 recover disk m Halias (tx_args keccak256 m tx) (fun c acc w => Hderive tx c acc w Hin) (tx_target tx) (tx_selector tx) (s_items s) ∅)
    as (c1 & c2 & r & E1 & E2 & Hc1 & _); [by apply no_colon_ToLower, Htarget|done|intros addr label it _ E; by rewrite lookup_empty in E|].
  rewrite E1, bind_ret. rewrite E2 in Hfb. destruct r as [e|[rks wks]]; [by apply Hfb|].
  destruct (augmentAccountKeys rng rks wks tx (tx_args keccak256 m tx)) as [rks' wks'] eqn:Ea. eexists. split; [done|].
  apply (predict_extends s k tx); try done. unfold predicted, analysis. rewrite En, E2, Ea. done.
Qed.
End serial.

(** Sequential prediction on a worker loaded with the witness returns a set
    for every transaction: the completed key sets of the analysis where it has
    an answer, and otherwise the keys of the execution on the witness state
    completed with the account keys; no transaction's answer depends on the
    ones before it. *)
Theorem LLMSpecExecuteAll_correct keccak256 recover disk m rng rng_hash undefined_big run db txs blockNum now cache evmExec T :
  CodeDB keccak256 db -> (forall ctx c input, framed (run ctx c input)) ->
  (forall id a, aliasToAddr m !! id = Some a -> no_colon a) -> (forall tx, tx ∈ txs -> no_colon (raw_To tx)) ->
  (forall tx c acc w, tx ∈ txs -> is_Ret (tryKeyDeriver keccak256 recover c acc (tx_args keccak256 m tx) w)) ->
  (forall i tx now, txs !! i = Some tx -> is_Ret (spec_PreExecute keccak256 run rng_hash undefined_big T blockNum (Z.of_nat i) now tx)) ->
  cache_ok m cache -> ready keccak256 db evmExec T -> same_block (mkFallback None txs blockNum) evmExec ->
  exists s, LLMSpecExecuteAll keccak256 recover disk m rng rng_hash undefined_big run db txs blockNum now cache evmExec = Ret (inl s) /\
    length (s_out s) = length txs /\
    forall i tx, txs !! i = Some tx -> exists rw, s_out s !! i = Some (Some rw) /\
      predicted keccak256 recover disk m rng rng_hash undefined_big run txs blockNum T i tx rw.
Proof.
  intros Hdb Hrun Halias Htarget Hderive Hret Hc Hr Hb. unfold LLMSpecExecuteAll.
  destruct (foldM_seq_inv (execute_tx keccak256 recover disk m rng rng_hash undefined_big run db txs blockNum now)
    (predict_inv keccak256 recover disk m rng rng_hash undefined_big run db txs blockNum T) (length txs) (inl (mkPredict evmExec cache (replicate (length txs) None)))) as (st & Hf & s & -> & _ & _ & _ & Hl & Hout).
  - eexists. split; [done|]. cbn. split_and!; try done; [apply length_replicate|lia].
  - intros i st Hi Hs. by apply execute_extends.
  - exists s. split; [done|]. split; [done|]. intros i tx Htx. apply Hout; [by eapply lookup_lt_Some|done].
Qed.

Definition mixed_worker : outcome LevmSpecFallback := NewLevmSpecFallback toy_keccak elements empty_db mixed_block (Some demo_witness) 1.

Lemma LLMSpecExecuteAll_correct_witness :
  exists f s, mixed_worker = Ret f /\
    LLMSpecExecuteAll toy_keccak (fun _ _ => None) (fun _ _ => None) known_manager elements elements (fun _ => 0%Z) demo_run empty_db mixed_block 1 (fun _ => 0%Z) ∅ f = Ret (inl s) /\
    length (s_out s) = 2.
Proof.
  pose proof (NewLevmSpecFallback_ready toy_keccak elements empty_db mixed_block (Some demo_witness) 1) as Hf.
  fold demo_effect in Hf. rewrite demo_effect_ret in Hf. destruct Hf as (sdb & Hnew & Hrep).
  destruct (LLMSpecExecuteAll_correct toy_keccak (fun _ _ => None) (fun _ _ => None) known_manager elements elements (fun _ => 0%Z) demo_run empty_db mixed_block 1 (fun _ => 0%Z) ∅
    (mkFallback (Some sdb) mixed_block 1) demo_state _ framed_demo_run known_aliases mixed_targets mixed_derives mixed_executes) as (s & Hs & Hl & _).
  - intros addr label it _ E. by rewrite lookup_empty in E.
  - exists sdb. split; [reflexivity|exact Hrep].
  - split; reflexivity.
  - exists (mkFallback (Some sdb) mixed_block 1), s. split; [exact Hnew|]. split; [exact Hs|exact Hl].
Defined.

(** ** What the sets of the analysis cover *)
Lemma acct_key_no_slot a f : slotKeyContractAddr (acct_key a f) = None.
Proof.
  unfold slotKeyContractAddr. change (SplitN ":"%char 3 (acct_key a f)) with ("acct" :: SplitN ":"%char 2 (a +:+ ":" +:+ f)).
  by destruct (SplitN _ 2 _) as [|x [|y [|z l]]].
Qed.

Lemma account_reads_acct tx inv k : k ∈ account_reads tx inv -> exists a f, k = acct_key a f.
Proof.
  unfold account_reads, sender_reads, target_reads, other_reads. rewrite !elem_of_app, list_elem_of_bind.
  intros [Hk|[Hk|(a & Hk & _)]]; repeat (destruct (String.eqb _ _) in Hk; cbn in Hk); repeat (apply elem_of_cons in Hk as [->|Hk]; [by eexists _, _|]); by apply not_elem_of_nil in Hk.
Qed.

Lemma account_writes_acct tx k : k ∈ account_writes tx -> exists a f, k = acct_key a f.
Proof.
  unfold account_writes, sender_writes, target_writes. rewrite !elem_of_app.
  intros [Hk|Hk]; destruct (String.eqb _ _) in Hk; try destruct (existsb _ _) in Hk; repeat (apply elem_of_cons in Hk as [->|Hk]; [by eexists _, _|]); by apply not_elem_of_nil in Hk.
Qed.

(** The account of a contract involved is read, unless it is the sender. *)
Lemma involved_read rks wks tx args a f :
  a ∈ involved rks wks tx args -> a <> EmptyString -> a <> ToLower (raw_From tx) -> f ∈ ["balance"; "exist"; "code"] ->
  acct_key a f ∈ account_reads tx (involved rks wks tx args).
Proof.
  intros Ha Hne Hf Hin. unfold account_reads. rewrite !elem_of_app. destruct (decide (a = ToLower (raw_To tx))) as [->|Ht].
  - right. left. unfold target_reads. destruct (String.eqb_spec (ToLower (raw_To tx)) EmptyString) as [?|_]; [done|]. set_solver.
  - right. right. apply list_elem_of_bind. exists a. split; [|by apply elem_of_elements]. unfold other_reads.
    destruct (String.eqb_spec a (ToLower (raw_From tx))) as [?|_]; [done|]. destruct (String.eqb_spec a (ToLower (raw_To tx))) as [?|_]; [done|]. set_solver.
Qed.

Lemma slotKeyContractAddr_some k a : slotKeyContractAddr k = Some a -> a <> EmptyString.
Proof.
  unfold slotKeyContractAddr. destruct (SplitN ":" 3 k) as [|kind [|addr [|x [|y l]]]]; try done. destruct (String.eqb kind "slot"); [|done].
  destruct (Nat.eqb_spec (String.length addr) 42) as [Hl|_]; [|done]. cbn [andb]. destruct (HasPrefix addr "0x"); [|done]. intros [= <-] E. by destruct addr.
Qed.


