(* ===== verification/LocalContracts.v ===== *)
(** * Configured contracts and their storage keys: [utils/contract_manager.go],
      [utils/llm_rwnset.go], [test.go]

    The benchmark contracts are described by a configuration: functions, storage
    layout, dependencies.  From the layout the manager computes the storage key
    of a variable or of a mapping entry; [llmResponseToRWSet] predicts the keys
    of a transaction from the analysis of its function, and [TestDepurge]
    computes them again from the committed state ([recalculateConservativeKeys]),
    where the value of a string variable can be the key of a mapping.

    Keccak-256 is an argument; a [*ContractConfig] is the configuration itself;
    paths of files are left out of the records. *)
From stdpp Require Import base list gmap strings pretty.
From Stdlib Require Import ZArith Ascii Lia.
From S2P Require Import Prelude RWSet GoText KeyDerive ContractManager.

Set Default Goal Selector "!".
Local Open Scope string_scope.
Local Open Scope list_scope.
Local Notation len := String.length.

(** ** Data *)
Record StorageMapping := mkMapping { MappingName : string; sm_Slot : Z; sm_KeyType : string }.
Record ContractFunction := mkFunction { fn_Name : string; Args : nat; ArgMapping : gmap string string; FixedArgs : gmap string Z }.
Record ContractDependency := mkDependency { dep_Contract : string; InjectAs : string; ParamName : string }.
Record ContractConfig := mkConfig {
  cfg_Name : string; Weight : nat; StorageLayout : list StorageMapping; Functions : list ContractFunction; Dependencies : list ContractDependency }.

Definition contracts_config := list ContractConfig.

(** ** Numbers *)
(** [int64(u)] of a [uint64], and [LeftPadBytes(big.NewInt(int64(u)).Bytes(), 32)]:
    [Bytes] is the absolute value. *)
Definition int64_of (u : Z) : Z := if bool_decide (u < 2^63)%Z then u else (u - 2^64)%Z.
Definition word_of (u : Z) : string := FillBytes 32 (Z.abs (int64_of u)).

Definition LeftPadBytes32 (s : string) : string := if Nat.leb 32 (len s) then s else zeros (32 - len s) +:+ s.

Definition FormatUint (u : Z) : string := pretty (Z.to_N u).

(** ** The configuration *)
Definition parse_mapping (types : gmap string layout_type) (item : layout_entry) : option StorageMapping :=
  ParseUint (l_Slot item) ≫= fun slot =>
  let keyType :=
    match types !! l_Type item with
    | Some typeInfo => if String.eqb (Encoding typeInfo) "mapping" then (if Contains (t_Key typeInfo) "string" then "string" else "uint") else "simple"
    | None => "simple"
    end in
  Some (mkMapping (l_Label item) slot keyType).

Definition parseSolcStorageLayout (storage : list layout_entry) (types : gmap string layout_type) : option (list StorageMapping) :=
  mapM (parse_mapping types) storage.

Definition GetContractConfig (cm : contracts_config) (contractName : string) : option ContractConfig :=
  head (filter (fun c => cfg_Name c = contractName) cm).

Definition GetFunction (cm : contracts_config) (contractName functionName : string) : option ContractFunction :=
  GetContractConfig cm contractName ≫= fun c => head (filter (fun f => fn_Name f = functionName) (Functions c)).

Definition GetAllFunctionsForPreAnalysis (cm : contracts_config) : list (string * string) :=
  cm ≫= fun c => (fun f => (cfg_Name c, fn_Name f)) <$> Functions c.

Definition GetGlobalVarNames (cm : contracts_config) (contractName : string) : list string :=
  match GetContractConfig cm contractName with
  | None => []
  | Some c => MappingName <$> filter (fun s => sm_KeyType s = "simple") (StorageLayout c)
  end.

(** [r.Intn(totalWeight)] is [randVal]. *)
Fixpoint select_weighted (contracts : list ContractConfig) (cumulative randVal : nat) : option ContractConfig :=
  match contracts with
  | [] => None
  | c :: rest => if Nat.ltb randVal (cumulative + Weight c) then Some c else select_weighted rest (cumulative + Weight c) randVal
  end.

Definition RandomSelectContract (cm : contracts_config) (randVal : nat) : option ContractConfig :=
  match cm with [] => None | c0 :: _ => Some (default c0 (select_weighted cm 0 randVal)) end.

(** The arguments [SelectFunctions2] passes to a function: strings for
    addresses, numbers for fixed values; an argument without a mapping is
    skipped. *)
Definition call_arg (f : ContractFunction) (addr1 addr2 : Z) (i : nat) : option (string + Z) :=
  let argName := "arg" +:+ pretty (N.of_nat i) in
  match ArgMapping f !! argName with
  | Some addrMapping =>
    if String.eqb addrMapping "addr1" then Some (inl (FormatUint addr1))
    else if String.eqb addrMapping "addr2" then Some (inl (FormatUint addr2)) else None
  | None => match FixedArgs f !! argName with Some v => Some (inr (int64_of v)) | None => None end
  end.

Definition call_args (f : ContractFunction) (addr1 addr2 : Z) : list (string + Z) := omap (call_arg f addr1 addr2) (seq 0 (Args f)).

(** [decodeSolidityShortString]: the last byte is twice the length. *)
Definition decodeSolidityShortString (data : string) : string :=
  match String.get (len data - 1) data with
  | None => EmptyString
  | Some c =>
    let strLen := Z.to_nat (byte_val c / 2) in
    if Nat.eqb strLen 0 then EmptyString else take_bytes (Nat.min strLen (len data - 1)) data
  end.

(** ** Storage keys *)
Section keys.
Context (keccak256 : string -> string) (cm : contracts_config).

Definition mapping_def (contractName mappingName : string) : option StorageMapping :=
  GetContractConfig cm contractName ≫= fun c => head (filter (fun s => MappingName s = mappingName) (StorageLayout c)).

Definition GetStorageKey (contractName mappingName : string) (accountID : Z) : option string :=
  mapping_def contractName mappingName ≫= fun d =>
  let slotBytes := word_of (sm_Slot d) in
  if String.eqb (sm_KeyType d) "simple" then Some slotBytes else
  let keyBytes := if String.eqb (sm_KeyType d) "string" then FormatUint accountID else word_of accountID in
  Some (keccak256 (keyBytes +:+ slotBytes)).

Definition GetStorageKeyWithValue (contractName mappingName keyValue : string) : option string :=
  mapping_def contractName mappingName ≫= fun d =>
  let slotBytes := word_of (sm_Slot d) in
  if String.eqb (sm_KeyType d) "simple" then Some slotBytes else
  let keyBytes := if String.eqb (sm_KeyType d) "string" then keyValue else LeftPadBytes32 keyValue in
  Some (keccak256 (keyBytes +:+ slotBytes)).

Definition GetGlobalVarKey (contractName varName : string) : option string :=
  mapping_def contractName varName ≫= fun d =>
  if String.eqb (sm_KeyType d) "simple" then Some (word_of (sm_Slot d)) else None.

Definition GetGlobalVarKeccakSlotKey (contractName varName : string) : option string :=
  mapping_def contractName varName ≫= fun d => Some (keccak256 (word_of (sm_Slot d))).

(** [addKey] of the slice and its set. *)
Definition add_nonempty (keys : list string) (key : string) : list string :=
  if bool_decide (key <> EmptyString /\ key ∉ keys) then keys ++ [key] else keys.
Definition add_found (keys : list string) (key : option string) : list string :=
  match key with Some k => add_nonempty keys k | None => keys end.

Definition resolveAccessKeys (contractName : string) (access : LLMAccess) (addr1 addr2 : Z) (currentState : gmap string string) : list string :=
  if String.eqb (Account access) "global" then
    match GetGlobalVarKey contractName (Field access) with
    | None => []
    | Some key => add_found (add_nonempty [] key) (GetGlobalVarKeccakSlotKey contractName (Field access))
    end
  else if String.eqb (Account access) "addr1" || String.eqb (Account access) "addr2" then
    let accountID := if String.eqb (Account access) "addr1" then addr1 else addr2 in
    match GetStorageKey contractName (Field access) accountID with None => [] | Some key => add_nonempty [] key end
  else
    match GetGlobalVarKey contractName (Account access) with
    | None => []
    | Some globalVarKey =>
      let finish keys := add_found (add_nonempty keys globalVarKey) (GetGlobalVarKeccakSlotKey contractName (Account access)) in
      match currentState !! globalVarKey with
      | None | Some EmptyString =>
        match GetStorageKeyWithValue contractName (Field access) EmptyString with None => [] | Some key => finish (add_nonempty [] key) end
      | Some globalVarValue =>
        finish (add_found (add_found [] (GetStorageKeyWithValue contractName (Field access) (decodeSolidityShortString globalVarValue)))
                          (GetStorageKeyWithValue contractName (Field access) EmptyString))
      end
    end.

Definition recalculateConservativeKeys (ctx : TransactionContext) (currentState : gmap string string) : list string :=
  foldl (fun keys access => foldl add_nonempty keys (resolveAccessKeys (ctx_ContractName ctx) access (Addr1 ctx) (Addr2 ctx) currentState))
    [] (LLMReads ctx ++ LLMWrites ctx).

(** ** Prediction *)
Definition access_key (contractName : string) (addr1 addr2 : Z) (access : LLMFieldAccess) : option string :=
  if String.eqb (f_Account access) "addr1" then GetStorageKey contractName (f_Field access) addr1
  else if String.eqb (f_Account access) "addr2" then GetStorageKey contractName (f_Field access) addr2
  else GetStorageKey contractName (f_Field access) 0.

(** The read and write keys; their values are all [big.NewInt(0).Bytes()]. *)
Definition llmResponseToRWSet (contractName : string) (resp : MainnetLLMResponse) (addr1 addr2 : Z) : list string * list string :=
  (omap (access_key contractName addr1 addr2) (Reads resp), omap (access_key contractName addr1 addr2) (Writes resp)).

(** [load] is the file cache; a loaded response is kept in the map. *)
Fixpoint mergeCrossContractRWSet (load : string -> string -> option MainnetLLMResponse) (cache : gmap string MainnetLLMResponse)
    (calls : list MainnetCrossCall) (addr1 addr2 : Z) : gmap string MainnetLLMResponse * option (list string * list string) :=
  match calls with
  | [] => (cache, Some ([], []))
  | cc :: calls =>
    let cacheKey := cc_Contract cc +:+ ":" +:+ cc_Function cc in
    match match cache !! cacheKey with Some r => Some (cache, r) | None => (fun r => (<[cacheKey := r]> cache, r)) <$> load (cc_Contract cc) (cc_Function cc) end with
    | None => (cache, None)
    | Some (cache, subResp) =>
      let '(subR, subW) := llmResponseToRWSet (cc_Contract cc) subResp addr1 addr2 in
      let '(cache, rest) := mergeCrossContractRWSet load cache calls addr1 addr2 in
      (cache, (fun '(r, w) => (subR ++ r, subW ++ w)) <$> rest)
    end
  end.
End keys.

(** ** What a contract touches, for the specification *)
Fixpoint strip_zeros (s : string) : string := match s with String c s' => if Ascii.eqb c zero then strip_zeros s' else s | EmptyString => EmptyString end.

(** The word in which Solidity keeps a string of at most 31 bytes. *)
Definition encodeShortString (s : string) : string := s +:+ zeros (31 - len s) +:+ String (byte_of (2 * Z.of_nat (len s))) EmptyString.

(** The committed state shows the variable at [key] with the string [s]; a
    value is kept without its leading zeros. *)
Definition shows (currentState : gmap string string) (key s : string) : Prop :=
  len s <= 31 /\ (forall s', s <> String zero s') /\
  (currentState !! key = Some (strip_zeros (encodeShortString s)) \/ currentState !! key = None /\ s = EmptyString).

Section touched.
Context (keccak256 : string -> string) (cm : contracts_config) (contract : string) (addr1 addr2 : Z) (state : gmap string string).

Definition arg_id (account : string) (id : Z) : Prop := account = "addr1" /\ id = addr1 \/ account = "addr2" /\ id = addr2.

(** The storage keys behind an access of the analysis. *)
Inductive touches : LLMAccess -> string -> Prop :=
| touch_variable field d : mapping_def cm contract field = Some d -> sm_KeyType d = "simple" ->
    touches (mkLLMAccess "global" field) (FillBytes 32 (sm_Slot d))
| touch_contents field d : mapping_def cm contract field = Some d -> sm_KeyType d = "simple" ->
    touches (mkLLMAccess "global" field) (keccak256 (FillBytes 32 (sm_Slot d)))
| touch_string_entry account id field d : arg_id account id -> mapping_def cm contract field = Some d -> sm_KeyType d = "string" ->
    touches (mkLLMAccess account field) (keccak256 (FormatUint id +:+ FillBytes 32 (sm_Slot d)))
| touch_number_entry account id field d : arg_id account id -> mapping_def cm contract field = Some d -> sm_KeyType d = "uint" ->
    touches (mkLLMAccess account field) (keccak256 (FillBytes 32 id +:+ FillBytes 32 (sm_Slot d)))
| touch_named_entry var field v d s : var ∉ ["global"; "addr1"; "addr2"] -> mapping_def cm contract var = Some v -> sm_KeyType v = "simple" ->
    shows state (FillBytes 32 (sm_Slot v)) s -> mapping_def cm contract field = Some d -> sm_KeyType d = "string" ->
    touches (mkLLMAccess var field) (keccak256 (s +:+ FillBytes 32 (sm_Slot d)))
| touch_name var field v d : var ∉ ["global"; "addr1"; "addr2"] -> mapping_def cm contract var = Some v -> sm_KeyType v = "simple" ->
    mapping_def cm contract field = Some d -> touches (mkLLMAccess var field) (FillBytes 32 (sm_Slot v)).
End touched.

Definition small_slots (cm : contracts_config) : Prop := forall c d, c ∈ cm -> d ∈ StorageLayout c -> (0 <= sm_Slot d < 2^63)%Z.

(** ** Lemmas *)
Lemma word_of_small u : (0 <= u < 2^63)%Z -> word_of u = FillBytes 32 u.
Proof. intros H. unfold word_of, int64_of. rewrite bool_decide_true by lia. by rewrite Z.abs_eq by lia. Qed.

Lemma mapping_def_slot cm contract field d : small_slots cm -> mapping_def cm contract field = Some d -> word_of (sm_Slot d) = FillBytes 32 (sm_Slot d).
Proof.
  intros Hs. unfold mapping_def, GetContractConfig. destruct (filter (fun c => cfg_Name c = contract) cm) as [|c l] eqn:Ec; [done|]. cbn.
  destruct (filter (fun s => MappingName s = field) (StorageLayout c)) as [|d' l'] eqn:Ed; [done|]. intros [= <-]. apply word_of_small.
  assert (c ∈ c :: l) as Hc by left. rewrite <- Ec in Hc. apply list_elem_of_filter in Hc as [_ Hc].
  assert (d' ∈ d' :: l') as Hd by left. rewrite <- Ed in Hd. apply list_elem_of_filter in Hd as [_ Hd]. by apply (Hs c d').
Qed.

Lemma elem_of_add_nonempty keys key k : k ∈ add_nonempty keys key <-> k ∈ keys \/ k = key /\ key <> EmptyString.
Proof.
  unfold add_nonempty. case_bool_decide as H; [rewrite elem_of_app, list_elem_of_singleton; naive_solver|].
  split; [by left|]. intros [?|[-> Hne]]; [done|]. destruct (decide (key ∈ keys)); [done|]. by destruct H.
Qed.

Lemma NoDup_add_nonempty keys key : NoDup keys -> NoDup (add_nonempty keys key).
Proof.
  intros H. unfold add_nonempty. case_bool_decide as Hk; [|done]. apply NoDup_app. split; [done|]. split; [set_solver|apply NoDup_singleton].
Qed.

Lemma elem_of_add_found keys o k : k ∈ add_found keys o <-> k ∈ keys \/ exists key, o = Some key /\ k = key /\ key <> EmptyString.
Proof. destruct o as [key|]; cbn; [rewrite elem_of_add_nonempty|]; naive_solver. Qed.

Lemma elem_of_foldl_add l : forall keys k, k ∈ foldl add_nonempty keys l <-> k ∈ keys \/ k ∈ l /\ k <> EmptyString.
Proof.
  induction l as [|x l IH]; intros keys k; cbn [foldl]; [set_solver|]. rewrite IH, elem_of_add_nonempty, elem_of_cons. naive_solver.
Qed.

Lemma NoDup_foldl_add l : forall keys, NoDup keys -> NoDup (foldl add_nonempty keys l).
Proof. induction l as [|x l IH]; intros keys H; [done|]. by apply IH, NoDup_add_nonempty. Qed.

Lemma elem_of_recalculate keccak256 cm ctx state k :
  k ∈ recalculateConservativeKeys keccak256 cm ctx state <->
  k <> EmptyString /\ exists access, access ∈ LLMReads ctx ++ LLMWrites ctx /\
    k ∈ resolveAccessKeys keccak256 cm (ctx_ContractName ctx) access (Addr1 ctx) (Addr2 ctx) state.
Proof.
  unfold recalculateConservativeKeys. generalize (LLMReads ctx ++ LLMWrites ctx) as l.
  assert (forall l keys, k ∈ foldl (fun keys access => foldl add_nonempty keys (resolveAccessKeys keccak256 cm (ctx_ContractName ctx) access (Addr1 ctx) (Addr2 ctx) state)) keys l <->
    k ∈ keys \/ k <> EmptyString /\ exists access, access ∈ l /\ k ∈ resolveAccessKeys keccak256 cm (ctx_ContractName ctx) access (Addr1 ctx) (Addr2 ctx) state) as H.
  { induction l as [|a l IH]; intros keys; cbn [foldl]; [set_solver|]. rewrite IH, elem_of_foldl_add. setoid_rewrite elem_of_cons. naive_solver. }
  intros l. rewrite H. set_solver.
Qed.

Lemma NoDup_recalculate keccak256 cm ctx state : NoDup (recalculateConservativeKeys keccak256 cm ctx state).
Proof.
  unfold recalculateConservativeKeys. assert (NoDup (@nil string)) as H by constructor. revert H. generalize (@nil string) as keys.
  induction (LLMReads ctx ++ LLMWrites ctx) as [|a l IH]; intros keys H; [done|]. cbn [foldl]. by apply IH, NoDup_foldl_add.
Qed.

Lemma get_last (a : string) c : String.get (len (a +:+ String c EmptyString) - 1) (a +:+ String c EmptyString) = Some c.
Proof.
  rewrite length_append. cbn [String.length]. replace (len a + 1 - 1) with (len a) by lia. induction a as [|x a IH]; [done|]. rewrite append_cons. exact IH.
Qed.

Lemma decode_encodeShortString s : len s <= 31 -> decodeSolidityShortString (encodeShortString s) = s.
Proof.
  intros Hl. unfold decodeSolidityShortString, encodeShortString. rewrite <- append_assoc, get_last.
  rewrite byte_val_of, Z.mod_small, Z.mul_comm, Z.div_mul, Nat2Z.id by lia.
  destruct (Nat.eqb_spec (len s) 0) as [E|_]; [by destruct s|].
  rewrite !length_append, length_zeros. cbn [String.length]. replace (len s `min` (len s + (31 - len s) + 1 - 1)) with (len s) by lia.
  by rewrite append_assoc, take_append.
Qed.

Lemma strip_encodeShortString s : s <> EmptyString -> (forall s', s <> String zero s') -> strip_zeros (encodeShortString s) = encodeShortString s.
Proof.
  intros Hne Hz. destruct s as [|c s]; [done|]. unfold encodeShortString. rewrite append_cons. cbn [strip_zeros].
  destruct (Ascii.eqb_spec c zero) as [->|_]; [by destruct (Hz s)|done].
Qed.

Section covers.
Context (keccak256 : string -> string) (Hlen : forall x, len (keccak256 x) = 32) (cm : contracts_config) (Hslots : small_slots cm).
Context (contract : string) (addr1 addr2 : Z) (H1 : (0 <= addr1 < 2^63)%Z) (H2 : (0 <= addr2 < 2^63)%Z) (state : gmap string string).

Lemma keccak_nonempty x : keccak256 x <> EmptyString.
Proof. intros E. specialize (Hlen x). by rewrite E in Hlen. Qed.
Lemma FillBytes_nonempty z : FillBytes 32 z <> EmptyString.
Proof. intros E. pose proof (length_FillBytes 32 z) as H. by rewrite E in H. Qed.

Lemma storage_key_string field d id : mapping_def cm contract field = Some d -> sm_KeyType d = "string" ->
  GetStorageKey keccak256 cm contract field id = Some (keccak256 (FormatUint id +:+ FillBytes 32 (sm_Slot d))).
Proof. intros Hd Hk. unfold GetStorageKey. rewrite Hd. cbn [mbind option_bind]. by rewrite Hk, (mapping_def_slot cm contract field d Hslots Hd). Qed.

Lemma storage_key_number field d id : (0 <= id < 2^63)%Z -> mapping_def cm contract field = Some d -> sm_KeyType d = "uint" ->
  GetStorageKey keccak256 cm contract field id = Some (keccak256 (FillBytes 32 id +:+ FillBytes 32 (sm_Slot d))).
Proof. intros Hid Hd Hk. unfold GetStorageKey. rewrite Hd. cbn [mbind option_bind]. by rewrite Hk, (mapping_def_slot cm contract field d Hslots Hd), (word_of_small id). Qed.

Lemma storage_key_value field d s : mapping_def cm contract field = Some d -> sm_KeyType d = "string" ->
  GetStorageKeyWithValue keccak256 cm contract field s = Some (keccak256 (s +:+ FillBytes 32 (sm_Slot d))).
Proof. intros Hd Hk. unfold GetStorageKeyWithValue. rewrite Hd. cbn [mbind option_bind]. by rewrite Hk, (mapping_def_slot cm contract field d Hslots Hd). Qed.

Lemma global_key field d : mapping_def cm contract field = Some d -> sm_KeyType d = "simple" -> GetGlobalVarKey cm contract field = Some (FillBytes 32 (sm_Slot d)).
Proof. intros Hd Hk. unfold GetGlobalVarKey. rewrite Hd. cbn [mbind option_bind]. by rewrite Hk, (mapping_def_slot cm contract field d Hslots Hd). Qed.

Lemma arg_access_keys account id field : arg_id addr1 addr2 account id ->
  resolveAccessKeys keccak256 cm contract (mkLLMAccess account field) addr1 addr2 state =
    match GetStorageKey keccak256 cm contract field id with None => [] | Some key => add_nonempty [] key end.
Proof. intros [[-> ->]|[-> ->]]; done. Qed.

Lemma named_access var : var ∉ ["global"; "addr1"; "addr2"] -> String.eqb var "global" = false /\ String.eqb var "addr1" || String.eqb var "addr2" = false.
Proof.
  intros H. rewrite !not_elem_of_cons in H. destruct H as (A & B & C & _).
  destruct (String.eqb_spec var "global"), (String.eqb_spec var "addr1"), (String.eqb_spec var "addr2"); done.
Qed.

(** The string a variable shows is what the decoder reads. *)
Lemma shows_cases key s : shows state key s ->
  (state !! key = None \/ state !! key = Some EmptyString) /\ s = EmptyString \/
  exists v, state !! key = Some v /\ v <> EmptyString /\ decodeSolidityShortString v = s.
Proof.
  intros (Hl & Hz & [Hs|[Hs ->]]); [|left; split; [by left|done]]. destruct (decide (s = EmptyString)) as [->|Hne]; [left; split; [by right|done]|].
  right. exists (encodeShortString s). rewrite strip_encodeShortString in Hs by done. split; [done|]. split; [|by apply decode_encodeShortString].
  by destruct s.
Qed.

Lemma resolveAccessKeys_covers access key : touches keccak256 cm contract addr1 addr2 state access key ->
  key ∈ resolveAccessKeys keccak256 cm contract access addr1 addr2 state.
Proof.
  intros Ht. destruct Ht as [field d Hd Hk|field d Hd Hk|account id field d Hid Hd Hk|account id field d Hid Hd Hk|var field v d s Hvar Hv Hvk Hs Hd Hk|var field v d Hvar Hv Hvk Hd].
  - unfold resolveAccessKeys. cbn [Account Field]. rewrite String.eqb_refl, (global_key field d Hd Hk). rewrite elem_of_add_found, elem_of_add_nonempty. left. right. split; [done|apply FillBytes_nonempty].
  - unfold resolveAccessKeys. cbn [Account Field]. rewrite String.eqb_refl, (global_key field d Hd Hk). rewrite elem_of_add_found. right. unfold GetGlobalVarKeccakSlotKey. rewrite Hd. cbn [mbind option_bind].
    rewrite (mapping_def_slot cm contract field d Hslots Hd). eexists. split; [done|]. split; [done|apply keccak_nonempty].
  - rewrite (arg_access_keys account id field Hid), (storage_key_string field d id Hd Hk), elem_of_add_nonempty. right. split; [done|apply keccak_nonempty].
  - rewrite (arg_access_keys account id field Hid), (storage_key_number field d id), elem_of_add_nonempty; [right; split; [done|apply keccak_nonempty]| |done..].
    destruct Hid as [[_ ->]|[_ ->]]; done.
  - destruct (named_access var Hvar) as [E1 E2]. unfold resolveAccessKeys. cbn [Account Field]. rewrite E1, E2, (global_key var v Hv Hvk).
    destruct (shows_cases _ _ Hs) as [[Hst ->]|(w & Hst & Hw & Hdec)].
    + destruct Hst as [-> | ->]; rewrite (storage_key_value field d EmptyString Hd Hk), elem_of_add_found, !elem_of_add_nonempty; left; left; right; (split; [done|apply keccak_nonempty]).
    + rewrite Hst. destruct w as [|c w]; [done|]. rewrite Hdec, !(storage_key_value field d _ Hd Hk), !elem_of_add_found, elem_of_add_nonempty, !elem_of_add_found.
      left. left. left. right. eexists. split; [done|]. split; [done|apply keccak_nonempty].
  - destruct (named_access var Hvar) as [E1 E2]. unfold resolveAccessKeys. cbn [Account Field]. rewrite E1, E2, (global_key var v Hv Hvk).
    assert (forall s, is_Some (GetStorageKeyWithValue keccak256 cm contract field s)) as Hval by (intros s; unfold GetStorageKeyWithValue; rewrite Hd; cbn [mbind option_bind]; destruct (String.eqb (sm_KeyType d) "simple"); by eexists).
    destruct (Hval EmptyString) as [k0 Ek0]. rewrite Ek0.
    destruct (state !! FillBytes 32 (sm_Slot v)) as [[|c w]|]; rewrite elem_of_add_found, elem_of_add_nonempty; left; right; (split; [done|apply FillBytes_nonempty]).
Qed.
End covers.


(** A pool contract: [shares[pool1]] with [pool1] holding a name. *)
Definition pool_config : contracts_config :=
  [mkConfig "Pool" 1 [mkMapping "pool1" 0 "simple"; mkMapping "shares" 1 "string"] [] []].
Definition toy_hash (x : string) : string := FillBytes 32 (SetBytes x).
Definition pool_ctx : TransactionContext := mkTransactionContext "1" "Pool" "swap" 7 8 ∅ ∅ ∅ EmptyString EmptyString [mkLLMAccess "pool1" "shares"] [].
Definition pool_state : gmap string string := {[ FillBytes 32 0 := encodeShortString "gold" ]}.

Lemma pool_slots : small_slots pool_config.
Proof.
  intros c d Hc Hd. apply list_elem_of_singleton in Hc as ->. cbn in Hd.
  apply elem_of_cons in Hd as [->|Hd]; [cbn; lia|]. apply list_elem_of_singleton in Hd as ->. cbn. lia.
Qed.


(** Beyond [2^63] the conversion to [int64] gives different accounts one key. *)
Lemma account_ids_collide keccak256 cm contract field d : mapping_def cm contract field = Some d -> sm_KeyType d = "uint" ->
  GetStorageKey keccak256 cm contract field (2^64 - 1) = GetStorageKey keccak256 cm contract field 1.
Proof.
  intros Hd Hk. assert (word_of (2^64 - 1) = word_of 1) as E by (vm_compute; reflexivity).
  unfold GetStorageKey. rewrite Hd. cbn [mbind option_bind]. by rewrite Hk, E.
Qed.

(** A string of more than 31 bytes is kept elsewhere, and its slot, the number
    [2 * length + 1], is decoded to the empty string. *)
Lemma long_string_decoded_empty : decodeSolidityShortString (strip_zeros (FillBytes 32 (2 * 40 + 1))) = EmptyString.
Proof. vm_compute. reflexivity. Qed.
