(* ===== verification/DeployOrder.v ===== *)
(** * Deployment of the configured contracts: [utils/data.go]

    [topologicalSortContracts] orders the contracts by a depth-first search so
    that every contract comes after the contracts whose addresses its
    constructor takes; on a circular dependency it falls back to the order of
    the configuration.  [DeployAllContracts] deploys in that order.

    Loading of a contract's files, the ABI packing of constructor arguments and
    the EVM deployment are arguments. *)
From stdpp Require Import base list gmap sets strings relations pretty.
From Stdlib Require Import Lia.
From S2P Require Import Prelude GoText LocalContracts.

Set Default Goal Selector "!".
Local Open Scope list_scope.

(** ** The order *)
Record visit_state := mkVisit { visited : gset string; inStack : gset string; sorted : list ContractConfig }.

Definition start_visit : visit_state := mkVisit ∅ ∅ [].

Definition enter (name : string) (st : visit_state) : visit_state := mkVisit (visited st) ({[name]} ∪ inStack st) (sorted st).
Definition unwind (name : string) (st : visit_state) : visit_state := mkVisit (visited st) (inStack st ∖ {[name]}) (sorted st).
Definition leave (name : string) (added : list ContractConfig) (st : visit_state) : visit_state :=
  mkVisit ({[name]} ∪ visited st) (inStack st ∖ {[name]}) (sorted st ++ added).

Fixpoint visit_deps (visit : string -> visit_state -> outcome (visit_state * bool)) (deps : list ContractDependency) (st : visit_state) :
    outcome (visit_state * bool) :=
  match deps with
  | [] => Ret (st, true)
  | dep :: deps => visit (dep_Contract dep) st ≫= fun '(st, ok) => if ok : bool then visit_deps visit deps st else Ret (st, false)
  end.

Section order.
Context (contracts : list ContractConfig).

(** A later contract of the same name replaces an earlier one. *)
Definition nameToIdx : gmap string nat := foldl (fun m i => match contracts !! i with Some c => <[cfg_Name c := i]> m | None => m end) ∅ (seq 0 (length contracts)).

Fixpoint visit (fuel : nat) (name : string) (st : visit_state) : outcome (visit_state * bool) :=
  match fuel with
  | 0 => Diverges
  | S fuel =>
    if decide (name ∈ inStack st) then Ret (st, false)
    else if decide (name ∈ visited st) then Ret (st, true)
    else match nameToIdx !! name with
         | None => Ret (leave name [] (enter name st), true)
         | Some idx =>
           or_panic (contracts !! idx) ≫= fun c =>
           visit_deps (visit fuel) (Dependencies c) (enter name st) ≫= fun '(st, ok) =>
           Ret (if ok : bool then (leave name [c] st, true) else (unwind name st, false))
         end
  end.

Definition visit_fuel : nat := S (length contracts).

(** [None]: a circular dependency was found. *)
Fixpoint visit_all (cs : list ContractConfig) (st : visit_state) : outcome (option visit_state) :=
  match cs with
  | [] => Ret (Some st)
  | c :: cs =>
    if decide (cfg_Name c ∈ visited st) then visit_all cs st
    else visit visit_fuel (cfg_Name c) st ≫= fun '(st, ok) => if ok : bool then visit_all cs st else Ret None
  end.

Definition topologicalSortContracts : outcome (list ContractConfig) :=
  visit_all contracts start_visit ≫= fun r => Ret (match r with Some st => sorted st | None => contracts end).

(** ** The dependency graph *)
Definition config_of (name : string) : option ContractConfig := nameToIdx !! name ≫= fun i => contracts !! i.
Definition depends (a b : string) : Prop := exists c d, config_of a = Some c /\ d ∈ Dependencies c /\ dep_Contract d = b.
Definition circular : Prop := exists x, tc depends x x.

Lemma nameToIdx_spec k (m : gmap string nat) : k <= length contracts ->
  m = foldl (fun m i => match contracts !! i with Some c => <[cfg_Name c := i]> m | None => m end) ∅ (seq 0 k) ->
  (forall x i, m !! x = Some i -> exists c, contracts !! i = Some c /\ cfg_Name c = x) /\
  (forall i c, i < k -> contracts !! i = Some c -> is_Some (m !! cfg_Name c)).
Proof.
  intros Hk ->. induction k as [|k IH]; [split; [intros x i H; cbn [seq foldl] in H; by rewrite lookup_empty in H|lia]|].
  destruct (IH ltac:(lia)) as [I1 I2]. rewrite seq_S, foldl_app. cbn. destruct (lookup_lt_is_Some_2 contracts k ltac:(lia)) as [c Hc]. rewrite Hc. split.
  - intros x i. rewrite lookup_insert_Some. intros [[<- <-]|[_ H]]; [by exists c|by apply I1].
  - intros i c' Hi Hc'. destruct (decide (cfg_Name c = cfg_Name c')) as [->|Hne]; [rewrite lookup_insert_eq; by eexists|].
    rewrite lookup_insert_ne by done. apply (I2 i); [|done]. assert (i <> k) by congruence. lia.
Qed.

Lemma config_of_name x c : config_of x = Some c -> cfg_Name c = x /\ c ∈ contracts.
Proof.
  unfold config_of. intros (i & Hi & Hc)%bind_Some. destruct (proj1 (nameToIdx_spec _ _ (le_n _) eq_refl) x i Hi) as (c' & Hc' & <-).
  rewrite Hc in Hc'. injection Hc' as <-. split; [done|]. by eapply list_elem_of_lookup_2.
Qed.

Lemma config_of_total c : c ∈ contracts -> exists c', config_of (cfg_Name c) = Some c' /\ cfg_Name c' = cfg_Name c.
Proof.
  intros (i & Hi)%list_elem_of_lookup. destruct (proj2 (nameToIdx_spec _ _ (le_n _) eq_refl) i c (lookup_lt_Some _ _ _ Hi) Hi) as [j Hj].
  destruct (proj1 (nameToIdx_spec _ _ (le_n _) eq_refl) _ _ Hj) as (c' & Hc' & Hn). exists c'. split; [|done]. unfold config_of, nameToIdx. rewrite Hj. exact Hc'.
Qed.

(** Names with different contracts: a name finds its contract. *)
Lemma config_of_self c : NoDup (cfg_Name <$> contracts) -> c ∈ contracts -> config_of (cfg_Name c) = Some c.
Proof.
  intros Hnd Hc. destruct (config_of_total c Hc) as (c' & Hc' & Hn). rewrite Hc'. f_equal.
  destruct (config_of_name _ _ Hc') as [_ Hin]. apply list_elem_of_lookup in Hc as [i Hi], Hin as [j Hj].
  assert (i = j) as ->; [|congruence]. eapply (NoDup_lookup _ i j (cfg_Name c) Hnd); rewrite list_lookup_fmap; [by rewrite Hi|by rewrite Hj, <- Hn].
Qed.

(** ** Invariant of the search *)
Definition placed (st : visit_state) : list string := cfg_Name <$> sorted st.

Record vis_ok (st : visit_state) : Prop := {
  v_apart : forall x, x ∈ visited st -> x ∉ inStack st;
  v_placed : forall x, x ∈ placed st <-> x ∈ visited st /\ is_Some (config_of x);
  v_nodup : NoDup (placed st);
  v_config : forall c, c ∈ sorted st -> config_of (cfg_Name c) = Some c;
  v_before : forall l1 c l2 d, sorted st = l1 ++ c :: l2 -> d ∈ Dependencies c -> is_Some (config_of (dep_Contract d)) -> dep_Contract d ∈ cfg_Name <$> l1 }.

(** [st'] extends [st]. *)
Definition grows (st st' : visit_state) : Prop := inStack st' = inStack st /\ visited st ⊆ visited st' /\ vis_ok st'.

(** Why a search from [name] fails. *)
Definition failure (name : string) (st : visit_state) : Prop := circular \/ exists y, y ∈ inStack st /\ rtc depends name y.

Definition visits (name : string) (st : visit_state) (r : outcome (visit_state * bool)) : Prop :=
  exists st' ok, r = Ret (st', ok) /\ grows st st' /\ if ok : bool then name ∈ visited st' else failure name st.

Lemma vis_ok_entered st st' name : grows (enter name st) st' -> name ∉ inStack st -> inStack st' ∖ {[name]} = inStack st.
Proof. intros (E & _) Hn. rewrite E. cbn. set_solver. Qed.

Lemma grew_refl st : vis_ok st -> grows st st.
Proof. intros H. by split_and!. Qed.

Lemma enter_ok name st : name ∉ visited st -> vis_ok st -> vis_ok (enter name st).
Proof. intros Hn [H1 H2 H3 H4 H5]. split; try done. intros x Hx. cbn in *. specialize (H1 x Hx). clear -Hn Hx H1. set_solver. Qed.

Lemma leave_unknown name st : config_of name = None -> name ∉ inStack st -> vis_ok st -> grows st (leave name [] (enter name st)).
Proof.
  intros Hc Hn [H1 H2 H3 H4 H5]. split_and!; cbn; [clear -Hn; set_solver|clear; set_solver|]. split; unfold placed; cbn; rewrite ?app_nil_r; try done.
  - intros x Hx. specialize (H1 x). clear -Hx Hn H1. set_solver.
  - intros x. fold (placed st). rewrite H2, elem_of_union, elem_of_singleton. split; [tauto|]. intros [[-> |?] [c Ec]]; [congruence|]. split; [done|by eexists].
Qed.

Lemma leave_known name c st st' : config_of name = Some c -> name ∉ visited st' -> name ∉ inStack st -> grows (enter name st) st' ->
  (forall d, d ∈ Dependencies c -> dep_Contract d ∈ visited st') -> grows st (leave name [c] st').
Proof.
  intros Hc Hv Hn Hg Hdeps. pose proof (vis_ok_entered _ _ _ Hg Hn) as Est. destruct Hg as (E & Hsub & [H1 H2 H3 H4 H5]). destruct (config_of_name _ _ Hc) as [Ename _].
  split_and!; cbn; [done|clear -Hsub; set_solver|]. split; unfold placed; cbn; rewrite ?fmap_app; cbn [fmap list_fmap]; fold (placed st').
  - intros x Hx. specialize (H1 x). clear -Hx H1. set_solver.
  - intros x. rewrite elem_of_app, list_elem_of_singleton, H2, Ename, elem_of_union, elem_of_singleton. split.
    + intros [?| ->]; [tauto|]. split; [by left|]. by eexists.
    + intros [[-> |?] ?]; [by right|by left].
  - apply NoDup_app. split; [done|]. rewrite Ename. split; [|apply NoDup_singleton]. intros x Hx. rewrite list_elem_of_singleton. intros ->. apply H2 in Hx. tauto.
  - intros c' [?|Hc']%elem_of_app; [by apply H4|]. apply list_elem_of_singleton in Hc' as ->. by rewrite Ename.
  - intros l1 c' l2 d El Hd Hs. destruct l2 as [|z l2 _] using rev_ind.
    + apply app_inj_tail in El as [<- <-]. apply H2. split; [by apply Hdeps|done].
    + rewrite app_comm_cons, app_assoc in El. apply app_inj_tail in El as [El _]. by eapply H5.
Qed.

Lemma visit_deps_spec visit_ deps : forall st,
  (forall name st', inStack st' = inStack st -> vis_ok st' -> visits name st' (visit_ name st')) -> vis_ok st ->
  exists st' ok, visit_deps visit_ deps st = Ret (st', ok) /\ grows st st' /\
    if ok : bool then forall d, d ∈ deps -> dep_Contract d ∈ visited st' else exists d, d ∈ deps /\ failure (dep_Contract d) st.
Proof.
  induction deps as [|d deps IH]; intros st Hv Hst; cbn [visit_deps].
  { exists st, true. split; [done|]. split; [by apply grew_refl|]. intros c Hc. by apply elem_of_nil in Hc. }
  destruct (Hv (dep_Contract d) st eq_refl Hst) as (st1 & ok & -> & (E1 & S1 & Hok1) & Hr). rewrite bind_ret. destruct ok.
  2: { exists st1, false. split; [done|]. split; [by split_and!|]. exists d. split; [by left|done]. }
  destruct (IH st1) as (st2 & ok & -> & (E2 & S2 & Hok2) & Hr2); [intros name st' E; apply Hv; congruence|done|].
  exists st2, ok. split; [done|]. split; [split_and!; [congruence|set_solver|done]|]. destruct ok.
  - intros d' [->|Hd]%elem_of_cons; [set_solver|by apply Hr2].
  - destruct Hr2 as (d' & Hd' & [?|(y & Hy & Hp)]); exists d'; (split; [by right|]); [by left|right]. exists y. split; [congruence|done].
Qed.

Definition free_names (st : visit_state) : nat := size (dom nameToIdx ∖ inStack st).

Lemma visit_spec fuel : forall name st, free_names st < fuel -> vis_ok st -> visits name st (visit fuel name st).
Proof.
  induction fuel as [|fuel IH]; intros name st Hf Hst; [lia|]. cbn [visit]. unfold visits.
  case_decide as Hin; [exists st, false; split; [done|]; split; [by apply grew_refl|]; right; by exists name|].
  case_decide as Hvis; [exists st, true; split; [done|]; split; [by apply grew_refl|done]|].
  destruct (nameToIdx !! name) as [idx|] eqn:Ei.
  2: { exists (leave name [] (enter name st)), true. split; [done|]. split; [apply leave_unknown; [unfold config_of; by rewrite Ei|done..]|]. cbn. clear; set_solver. }
  destruct (proj1 (nameToIdx_spec _ _ (le_n _) eq_refl) name idx Ei) as (c & Hc & Ename). rewrite Hc. cbn [or_panic]. rewrite bind_ret.
  assert (config_of name = Some c) as Hcfg by (unfold config_of; by rewrite Ei).
  assert (free_names (enter name st) < fuel) as Hf'.
  { unfold free_names in *. assert (dom nameToIdx ∖ inStack (enter name st) ⊂ dom nameToIdx ∖ inStack st) as Hsub; [|apply subset_size in Hsub; lia].
    cbn. assert (name ∈ dom nameToIdx) as Hdom by (apply elem_of_dom; by eexists). clear -Hdom Hin. set_solver. }
  destruct (visit_deps_spec (visit fuel) (Dependencies c) (enter name st)) as (st1 & ok & -> & Hg & Hr).
  { intros x st' E Hst'. apply IH; [|done]. unfold free_names in *. by rewrite E. }
  { by apply enter_ok. }
  rewrite bind_ret. pose proof Hg as (E1 & S1 & Hok1). assert (name ∉ visited st1) as Hv1 by (intros Hx; apply (v_apart _ Hok1) in Hx; rewrite E1 in Hx; cbn in Hx; clear -Hx; set_solver).
  destruct ok.
  - exists (leave name [c] st1), true. split; [done|]. split; [by apply leave_known|]. cbn. clear; set_solver.
  - exists (unwind name st1), false. split; [done|]. split.
    + split_and!; [by eapply vis_ok_entered|exact S1|]. destruct Hok1 as [V1 V2 V3 V4 V5]. split; try done. intros x Hx. cbn in *. specialize (V1 x Hx). clear -Hx V1. set_solver.
    + destruct Hr as (d & Hd & [?|(y & Hy & Hp)]); [by left|]. assert (depends name (dep_Contract d)) as Hdep by (by exists c, d).
      cbn in Hy. apply elem_of_union in Hy as [->%elem_of_singleton|Hy]; [left; exists name; by eapply tc_rtc_r; [apply tc_once|]|].
      right. exists y. split; [done|]. by eapply rtc_l.
Qed.

Lemma names_size (l : list string) : size (list_to_set l : gset string) <= length l.
Proof.
  induction l as [|x l IH]; cbn; [by rewrite size_empty|]. rewrite size_union_alt, size_singleton.
  assert (size (list_to_set l ∖ {[x]} : gset string) <= size (list_to_set l : gset string)) by (apply subseteq_size; set_solver). lia.
Qed.

Lemma free_names_bound st : free_names st < visit_fuel.
Proof.
  unfold free_names, visit_fuel. assert (size (dom nameToIdx ∖ inStack st) <= size (dom nameToIdx)) as H by (apply subseteq_size; set_solver).
  assert (size (dom nameToIdx) <= length contracts) as H'; [|lia].
  assert (dom nameToIdx ⊆ list_to_set (cfg_Name <$> contracts)) as Hs.
  { intros x (i & Hi)%elem_of_dom. destruct (proj1 (nameToIdx_spec _ _ (le_n _) eq_refl) x i Hi) as (c & Hc & <-).
    apply elem_of_list_to_set, list_elem_of_fmap. exists c. split; [done|]. by eapply list_elem_of_lookup_2. }
  apply subseteq_size in Hs. rewrite <- (length_fmap cfg_Name contracts). etrans; [exact Hs|]. apply names_size.
Qed.

Lemma visit_all_spec cs : forall st, inStack st = ∅ -> vis_ok st ->
  exists r, visit_all cs st = Ret r /\
    match r with
    | Some st' => grows st st' /\ forall c, c ∈ cs -> cfg_Name c ∈ visited st'
    | None => circular
    end.
Proof.
  induction cs as [|c cs IH]; intros st Hs Hst; cbn [visit_all].
  { eexists. split; [done|]. split; [by apply grew_refl|]. intros c Hc. by apply elem_of_nil in Hc. }
  case_decide as Hv.
  { destruct (IH st Hs Hst) as (r & -> & Hr). eexists. split; [done|]. destruct r as [st'|]; [|done]. destruct Hr as [Hg Hr]. split; [done|].
    intros c' [-> |?]%elem_of_cons; [|by apply Hr]. destruct Hg as (_ & Hsub & _). by apply Hsub. }
  destruct (visit_spec visit_fuel (cfg_Name c) st (free_names_bound st) Hst) as (st1 & ok & -> & (E1 & S1 & Hok1) & Hr). rewrite bind_ret. destruct ok.
  2: { eexists. split; [done|]. destruct Hr as [?|(y & Hy & _)]; [done|]. rewrite Hs in Hy. by apply elem_of_empty in Hy. }
  destruct (IH st1) as (r & -> & Hr'); [congruence|done|]. eexists. split; [done|]. destruct r as [st'|]; [|done]. destruct Hr' as [(E2 & S2 & Hok2) Hr'].
  split; [split_and!; [congruence|by etrans|done]|]. intros c' [-> |?]%elem_of_cons; [by apply S2|by apply Hr'].
Qed.

(** A finished search leaves no cycle: the order places every dependency
    before. *)
Definition before (l : list string) (b a : string) : Prop := exists i j, l !! i = Some b /\ l !! j = Some a /\ i < j.

Lemma before_trans l a b c : NoDup l -> before l a b -> before l b c -> before l a c.
Proof.
  intros Hnd (i & j & Hi & Hj & Hij) (j' & k & Hj' & Hk & Hjk). exists i, k. split; [done|]. split; [done|].
  assert (j = j') by (by eapply NoDup_lookup). lia.
Qed.

Lemma tc_head_configured a b : tc depends a b -> is_Some (config_of a).
Proof. intros H. destruct H as [a b (c & d & Hc & _)|a y b (c & d & Hc & _) _]; by exists c. Qed.

Lemma sorted_before st a b : vis_ok st -> (forall x, is_Some (config_of x) -> x ∈ visited st) -> tc depends a b -> is_Some (config_of b) -> before (placed st) b a.
Proof.
  intros Hst Hall Htc Hb. assert (forall a b, depends a b -> is_Some (config_of b) -> before (placed st) b a) as Hone.
  { clear a b Htc Hb. intros a b (c & d & Hc & Hd & <-) Hb. assert (a ∈ placed st) as Hp by (apply (v_placed _ Hst); split; [apply Hall|]; by eexists).
    apply list_elem_of_fmap in Hp as (c' & -> & Hin). rewrite (v_config _ Hst c' Hin) in Hc. injection Hc as <-. apply list_elem_of_split in Hin as (l1 & l2 & El).
    pose proof (v_before _ Hst l1 c' l2 d El Hd Hb) as Hbef. apply list_elem_of_lookup in Hbef as [i Hi]. unfold placed. rewrite El, fmap_app.
    exists i, (length (cfg_Name <$> l1)). split; [by apply lookup_app_l_Some|]. split; [by apply list_lookup_middle|]. by eapply lookup_lt_Some. }
  revert Hb. induction Htc as [a b Hd|a y b Hd Htc IH]; intros Hb; [by apply Hone|].
  eapply before_trans; [apply (v_nodup _ Hst)|by apply IH|]. apply Hone; [done|]. by eapply tc_head_configured.
Qed.

Lemma finished_not_circular st : vis_ok st -> (forall c, c ∈ contracts -> cfg_Name c ∈ visited st) -> ~ circular.
Proof.
  intros Hst Hall [x Hx]. pose proof (tc_head_configured _ _ Hx) as Hc.
  destruct (sorted_before st x x Hst) as (i & j & Hi & Hj & Hij); [|done..|].
  - intros y [c Ec]. destruct (config_of_name _ _ Ec) as [<- Hin]. by apply Hall.
  - assert (i = j) by (eapply NoDup_lookup; [apply (v_nodup _ Hst)|done..]). lia.
Qed.

Lemma sorted_perm st : NoDup (cfg_Name <$> contracts) -> vis_ok st -> (forall c, c ∈ contracts -> cfg_Name c ∈ visited st) -> sorted st ≡ₚ contracts.
Proof.
  intros Hnd Hst Hall. apply NoDup_Permutation; [apply (NoDup_fmap_1 cfg_Name), (v_nodup _ Hst)|by apply NoDup_fmap_1 in Hnd|]. intros c. split.
  - intros Hc. apply (v_config _ Hst) in Hc. by apply config_of_name in Hc as [_ ?].
  - intros Hc. pose proof (config_of_self c Hnd Hc) as Hcfg. assert (cfg_Name c ∈ placed st) as Hp by (apply (v_placed _ Hst); split; [by apply Hall|by eexists]).
    apply list_elem_of_fmap in Hp as (c' & E & Hin). pose proof (v_config _ Hst c' Hin) as Hc'. congruence.
Qed.

Lemma start_vis_ok : vis_ok start_visit.
Proof.
  split; unfold placed; cbn; try set_solver; [apply NoDup_nil_2|]. intros l1 c l2 d E. by destruct l1.
Qed.

Lemma sort_spec : NoDup (cfg_Name <$> contracts) ->
  exists order, topologicalSortContracts = Ret order /\ order ≡ₚ contracts /\
    (~ circular -> forall l1 c l2 d, order = l1 ++ c :: l2 -> d ∈ Dependencies c -> dep_Contract d ∈ cfg_Name <$> contracts -> dep_Contract d ∈ cfg_Name <$> l1) /\
    (circular -> order = contracts).
Proof.
  intros Hnd. unfold topologicalSortContracts. destruct (visit_all_spec contracts start_visit eq_refl start_vis_ok) as (r & E & Hr). rewrite E, bind_ret. clear E. eexists. split; [done|].
  destruct r as [st|]; [|split; [done|]; split; [done|done]]. destruct Hr as [(_ & _ & Hst) Hall]. split; [by apply sorted_perm|]. split.
  - intros _ l1 c l2 d El Hd Hin. eapply (v_before _ Hst); [done..|]. apply list_elem_of_fmap in Hin as (c' & -> & Hc').
    destruct (config_of_total c' Hc') as (c'' & Hc'' & _). by eexists.
  - intros Hcyc. by apply finished_not_circular in Hst.
Qed.
End order.

(** ** Deployment *)
Section deploy.
Context {lvm_state ABI : Type} (LoadContract : ContractConfig -> option (ABI * string)) (constructor_inputs : ABI -> list string).
Context (Pack : ABI -> list string -> option string) (DeployContract : lvm_state -> string -> lvm_state * option string).

(** The address for a constructor parameter: of the first dependency that is
    injected as it. *)
Definition constructor_arg (depAddrs : gmap string string) (config : ContractConfig) (input : string) : option string :=
  List.find (fun d => String.eqb (ParamName d) input) (Dependencies config) ≫= fun d => depAddrs !! dep_Contract d.

Definition encodeConstructorArgs (abi : ABI) (depAddrs : gmap string string) (config : ContractConfig) : option string :=
  match constructor_inputs abi with
  | [] => Some EmptyString
  | inputs => mapM (constructor_arg depAddrs config) inputs ≫= Pack abi
  end.

Definition deployContractWithDeps (lvm : lvm_state) (config : ContractConfig) (depAddrs : gmap string string) : lvm_state * option (string * ABI) :=
  match LoadContract config with
  | None => (lvm, None)
  | Some (abi, binData) =>
    match (match Dependencies config with [] => Some EmptyString | _ => encodeConstructorArgs abi depAddrs config end) with
    | None => (lvm, None)
    | Some ctorArgs => let '(lvm, addr) := DeployContract lvm (binData +:+ ctorArgs) in (lvm, (fun a => (a, abi)) <$> addr)
    end
  end.

Record deployment := mkDeployment { d_lvm : lvm_state; contractAddrs : gmap string string; d_abis : gmap string ABI }.

(** A contract that cannot be deployed is skipped. *)
Definition deploy_next (st : deployment) (config : ContractConfig) : deployment :=
  let '(lvm, r) := deployContractWithDeps (d_lvm st) config (contractAddrs st) in
  match r with
  | None => mkDeployment lvm (contractAddrs st) (d_abis st)
  | Some (addr, abi) => mkDeployment lvm (<[cfg_Name config := addr]> (contractAddrs st)) (<[cfg_Name config := abi]> (d_abis st))
  end.

Definition DeployAllContracts (lvm : lvm_state) (contracts : list ContractConfig) : outcome deployment :=
  topologicalSortContracts contracts ≫= fun sortedContracts => Ret (foldl deploy_next (mkDeployment lvm ∅ ∅) sortedContracts).

(** What a deployable configuration is: every contract loads, its
    constructor's parameters are injected dependencies, the dependencies are
    configured, and the chain accepts the code. *)
Record deployable (contracts : list ContractConfig) : Prop := {
  dp_loads : forall c, c ∈ contracts -> exists abi bin, LoadContract c = Some (abi, bin) /\
    (forall i, i ∈ constructor_inputs abi -> exists d, d ∈ Dependencies c /\ ParamName d = i) /\
    (forall args, length args = length (constructor_inputs abi) -> is_Some (Pack abi args));
  dp_configured : forall c d, c ∈ contracts -> d ∈ Dependencies c -> dep_Contract d ∈ cfg_Name <$> contracts;
  dp_accepted : forall lvm code, is_Some (DeployContract lvm code).2 }.

Lemma constructor_args_total (addrs : gmap string string) c inputs : (forall i, i ∈ inputs -> exists d, d ∈ Dependencies c /\ ParamName d = i) ->
  (forall d, d ∈ Dependencies c -> is_Some (addrs !! dep_Contract d)) -> is_Some (mapM (constructor_arg addrs c) inputs).
Proof.
  intros Hin Hdep. apply mapM_is_Some_2, Forall_forall. intros i Hi. destruct (Hin i Hi) as (d & Hd & Hn). change (is_Some (constructor_arg addrs c i)). unfold constructor_arg.
  destruct (List.find (fun d => String.eqb (ParamName d) i) (Dependencies c)) as [d'|] eqn:Ef; cbn [mbind option_bind].
  - apply List.find_some in Ef as [Hd' _]. by apply Hdep, list_elem_of_In.
  - eapply (List.find_none _ _) in Ef; [|by apply list_elem_of_In]. by apply String.eqb_neq in Ef.
Qed.

Lemma deploy_next_deploys contracts c st : deployable contracts -> c ∈ contracts -> (forall d, d ∈ Dependencies c -> is_Some (contractAddrs st !! dep_Contract d)) ->
  exists addr, contractAddrs (deploy_next st c) = <[cfg_Name c := addr]> (contractAddrs st).
Proof.
  intros [Hl _ Hacc] Hc Hdeps. unfold deploy_next, deployContractWithDeps. destruct (Hl c Hc) as (abi & bin & -> & Hin & Hpack).
  set (args := match Dependencies c with [] => _ | _ => _ end). assert (is_Some args) as [a ->].
  { subst args. destruct (Dependencies c) eqn:Ed; [by eexists|]. rewrite <- Ed in *. unfold encodeConstructorArgs. destruct (constructor_inputs abi) eqn:Ei; [by eexists|]. rewrite <- Ei in *.
    destruct (constructor_args_total (contractAddrs st) c (constructor_inputs abi)) as [vs Hvs]; [done..|]. rewrite Hvs. apply Hpack. by apply length_mapM in Hvs. }
  specialize (Hacc (d_lvm st) (bin +:+ a)). destruct (DeployContract (d_lvm st) (bin +:+ a)) as [lvm [addr|]]; [|by destruct Hacc]. by exists addr.
Qed.

Lemma deploy_all_deploys contracts (order : list ContractConfig) lvm : deployable contracts -> (forall c, c ∈ order -> c ∈ contracts) ->
  (forall l1 c l2 d, order = l1 ++ c :: l2 -> d ∈ Dependencies c -> dep_Contract d ∈ cfg_Name <$> l1) ->
  dom (contractAddrs (foldl deploy_next (mkDeployment lvm ∅ ∅) order)) = list_to_set (cfg_Name <$> order).
Proof.
  intros Hd. induction order as [|c order IH] using rev_ind; intros Hin Hord; [apply dom_empty_L|].
  rewrite foldl_app. cbn [foldl]. set (st := foldl deploy_next _ order) in *.
  assert (dom (contractAddrs st) = list_to_set (cfg_Name <$> order)) as E.
  { apply IH; [intros c' Hc'; apply Hin, elem_of_app; by left|]. intros l1 c' l2 d -> Hc'. apply (Hord l1 c' (l2 ++ [c])); [|done]. by rewrite <- app_assoc. }
  destruct (deploy_next_deploys contracts c st Hd) as [addr ->].
  - apply Hin, elem_of_app. right. by left.
  - intros d Hdep. apply elem_of_dom. rewrite E. apply elem_of_list_to_set. by apply (Hord order c []).
  - rewrite dom_insert_L, E, fmap_app, list_to_set_app_L. cbn. set_solver.
Qed.

End deploy.

(** The deployment order is always found, is a rearrangement of the
    configured contracts, and without a circular dependency places every
    configured dependency of a contract before it; with one the configured
    order is kept. *)
Theorem topologicalSortContracts_correct (contracts : list ContractConfig) : NoDup (cfg_Name <$> contracts) ->
  exists order, topologicalSortContracts contracts = Ret order /\ order ≡ₚ contracts /\
    (~ circular contracts -> forall l1 c l2 d, order = l1 ++ c :: l2 -> d ∈ Dependencies c -> dep_Contract d ∈ cfg_Name <$> contracts -> dep_Contract d ∈ cfg_Name <$> l1) /\
    (circular contracts -> order = contracts).
Proof. apply sort_spec. Qed.

(** A configuration that lists a contract before what it depends on. *)
Definition dependent (name : string) (deps : list string) : ContractConfig :=
  mkConfig name 1 [] [] ((fun d => mkDependency d "address" d) <$> deps).
Definition market : list ContractConfig := [dependent "Market" ["Token"; "Oracle"]; dependent "Oracle" ["Token"]; dependent "Token" []]%string.

Lemma topologicalSortContracts_correct_witness : NoDup (cfg_Name <$> market) /\
    topologicalSortContracts market = Ret (rev market) /\
    exists order, topologicalSortContracts market = Ret order /\ order ≡ₚ market.
Proof.
  assert (NoDup (cfg_Name <$> market)) as Hnd by (apply (bool_decide_unpack _); vm_compute; reflexivity).
  split; [exact Hnd|]. split; [vm_compute; reflexivity|].
  destruct (topologicalSortContracts_correct market Hnd) as (order & E & Hp & _). exists order. split; [exact E|exact Hp].
Defined.

Lemma reordered_not_circular contracts order : NoDup (cfg_Name <$> contracts) -> topologicalSortContracts contracts = Ret order -> order <> contracts -> ~ circular contracts.
Proof. intros Hnd E Hne Hc. destruct (sort_spec contracts Hnd) as (order' & E' & _ & _ & H). rewrite E in E'. injection E' as <-. by apply Hne, H. Qed.

(** A chain whose contracts live at their creation counter. *)
Definition market_load (c : ContractConfig) : option (list string * string) := Some (ParamName <$> Dependencies c, cfg_Name c).
Definition market_pack (inputs args : list string) : option string := if Nat.eqb (length args) (length inputs) then Some (foldr String.append EmptyString args) else None.
Definition market_deploy (n : nat) (code : string) : nat * option string := (S n, Some (pretty n +:+ code)).

