(* ===== verification/LocalState.v ===== *)
(** * The committed state of the benchmark contracts: [test.go], [utils/data.go]

    [TestDepurge] validates a transaction on a pooled EVM instance: the values
    committed so far are written into the instance, the transaction runs, and
    the differences of the slots it wrote are added to the committed values,
    which are kept under [contract:slot] and start from nothing.  A transaction
    that leaves its conservative keys is put on a list that is replayed
    serially at the end.

    A contract of an instance stands for its address.  What the EVM does in a
    call is an argument: the storage instructions it executes, in order, or
    nothing when the call fails, which undoes it.  A validation is one step
    here; which instance the pool hands out is an argument. *)
From stdpp Require Import base list gmap strings pretty.
From Stdlib Require Import ZArith Ascii Lia.
From S2P Require Import Prelude RWSet GoText KeyDerive ContractManager Depurge DepurgeInv DepurgeRuns StateDB StateSpec HexKeys Levm Overlay LocalContracts.

Set Default Goal Selector "!".
Local Open Scope string_scope.
Local Open Scope list_scope.
Local Notation len := String.length.

(** ** The committed values *)
Definition makeCompositeKey (contractName storageKey : string) : string := contractName +:+ ":" +:+ storageKey.

Definition filterContractState (committedState : gmap string string) (contractName : string) : gmap string string :=
  let prefix := contractName +:+ ":" in
  map_fold (fun compositeKey value result => if HasPrefix compositeKey prefix then <[drop_bytes (len prefix) compositeKey := value]> result else result)
    ∅ committedState.

(** [big.Int.Bytes]: the absolute value, without leading zeros. *)
Definition Bytes (z : Z) : string := strip_zeros (FillBytes (Z.to_nat (Z.log2 (Z.abs z) / 8 + 1)) (Z.abs z)).

Definition newVal (current : option string) (delta : Z) : Z :=
  let v := (SetBytes (default EmptyString current) + delta)%Z in if bool_decide (v < 0)%Z then (v + two256)%Z else v.

Definition update_key (contractName : string) (committedState : gmap string string) (kd : string * Z) : gmap string string :=
  let compositeKey := makeCompositeKey contractName kd.1 in
  <[compositeKey := Bytes (newVal (committedState !! compositeKey) kd.2)]> committedState.

Definition updateCommittedState (rng : gset string -> list string) (committedState : gmap string string) (contractName : string) (writeDelta : gmap string Z) :
    gmap string string :=
  foldl (fun st key => match writeDelta !! key with Some delta => update_key contractName st (key, delta) | None => st end) committedState (rng (dom writeDelta)).

(** ** An EVM instance: the storage of each deployed contract *)
Abbreviation storages := (gmap string (gmap Hash Hash)) (only parsing).
Definition slot (s : storages) (c : string) (k : Hash) : Hash := default zero_hash (s !! c ≫= fun m => m !! k).
Definition set_slot (s : storages) (c : string) (k v : Hash) : storages := <[c := <[k := v]> (default ∅ (s !! c))]> s.

Definition applyLogicalStateToContract (rng : gset string -> list string) (s : storages) (c : string) (logicalState : gmap string string) : storages :=
  foldl (fun s key => match logicalState !! key with Some value => set_slot s c (BytesToHash key) (BytesToHash value) | None => s end) s (rng (dom logicalState)).

Section local_state.
(** The instructions a transaction executes, each with its contract. *)
Context (exec : TransactionContext -> storages -> option (list (string * opcode))).
Context (rng : gset string -> list string).

Definition exec_step (st : storages * StructLogger) (e : string * opcode) : storages * StructLogger :=
  match e.2 with
  | SLOAD loc => (st.1, CaptureState st.2 e.1 e.2 (slot st.1 e.1 (BigToHash loc)))
  | SSTORE loc val => (set_slot st.1 e.1 (BigToHash loc) (BigToHash val), CaptureState st.2 e.1 e.2 zero_hash)
  | OtherOp => (st.1, CaptureState st.2 e.1 e.2 zero_hash)
  end.

(** A missing function, a failed packing and a failed call return nil maps. *)
Definition SelectFunctions2 (ctx : TransactionContext) (s : storages) : storages * (gmap Hash Hash * gmap Hash Hash) :=
  match exec ctx s with
  | None => (s, (∅, ∅))
  | Some events =>
    let '(s, l) := foldl exec_step (s, NewRWSetLogger) events in
    let '(rMap, wMap) := RWSetCapture l (ctx_ContractName ctx) in (s, (default ∅ rMap, default ∅ wMap))
  end.

(** The value before the write: the one read, or the committed one. *)
Definition readBig (newRMap : gmap Hash Hash) (logicalState : gmap string string) (key : Hash) : Z :=
  match newRMap !! key with
  | Some readVal => SetBytes readVal
  | None => SetBytes (default EmptyString (logicalState !! ConvertByte2String key))
  end.

Definition newWriteDelta (newRMap newWMap : gmap Hash Hash) (logicalState : gmap string string) : gmap string Z :=
  foldl (fun m key => match newWMap !! key with
                      | Some v => <[ConvertByte2String key := write_delta (readBig newRMap logicalState key) (SetBytes v)]> m
                      | None => m
                      end) ∅ (rng (dom newWMap)).

Record real_sets := mkReal { realReadKeys : list string; realWriteKeys : list string; writeDelta : gmap string Z }.

(** [None] when the contract is not deployed in the instance. *)
Definition ReExecuteAndGetRealRWSet (ctx : TransactionContext) (inst : storages) (logicalState : gmap string string) : storages * option real_sets :=
  match inst !! ctx_ContractName ctx with
  | None => (inst, None)
  | Some _ =>
    let inst := applyLogicalStateToContract rng inst (ctx_ContractName ctx) logicalState in
    let '(inst, (newRMap, newWMap)) := SelectFunctions2 ctx inst in
    (inst, Some (mkReal (ConvertByte2String <$> rng (dom newRMap)) (ConvertByte2String <$> rng (dom newWMap)) (newWriteDelta newRMap newWMap logicalState)))
  end.

Definition WriteDeltaEqual (set1 set2 : gmap string Z) : bool :=
  bool_decide (size set1 = size set2) &&
  forallb (fun key => match set1 !! key, set2 !! key with Some d1, Some d2 => bool_decide (d1 = d2) | _, _ => false end) (rng (dom set1)).

Definition ReExecuteAndValidateTransactionWithState (ctx : TransactionContext) (inst : storages) (logicalState : gmap string string) :
    storages * option (bool * gmap string Z) :=
  let '(inst, r) := ReExecuteAndGetRealRWSet ctx inst logicalState in
  (inst, (fun r => (WriteDeltaEqual (PreWriteDelta ctx) (writeDelta r), writeDelta r)) <$> r).
End local_state.

(** ** Keys *)
Lemma composite_inj c c' k k' : no_colon c -> no_colon c' -> makeCompositeKey c k = makeCompositeKey c' k' -> c = c' /\ k = k'.
Proof.
  unfold makeCompositeKey. revert c'. induction c as [|x c IH]; intros [|y c'] Hc Hc' E; rewrite ?append_cons, ?append_nil_l in E.
  - injection E as E. by split.
  - injection E as E1 E2. subst y. apply no_colon_cons in Hc' as [? _]. done.
  - injection E as E1 E2. subst x. apply no_colon_cons in Hc as [? _]. done.
  - injection E as E1 E2. subst y. apply no_colon_cons in Hc as [_ Hc], Hc' as [_ Hc']. destruct (IH c' Hc Hc' E2) as [-> ->]. done.
Qed.

Lemma prefix_key c k : HasPrefix (makeCompositeKey c k) (c +:+ ":") = true /\ drop_bytes (len (c +:+ ":")) (makeCompositeKey c k) = k.
Proof.
  unfold makeCompositeKey, HasPrefix. induction c as [|x c [IH1 IH2]].
  - split; [by destruct k|]. by destruct k.
  - rewrite !append_cons. cbn [String.prefix]. destruct (ascii_dec x x); [|done]. split; [exact IH1|exact IH2].
Qed.

Lemma prefix_key_inv c x : HasPrefix x (c +:+ ":") = true -> x = makeCompositeKey c (drop_bytes (len (c +:+ ":")) x).
Proof. intros H%HasPrefix_spec. unfold makeCompositeKey. rewrite append_assoc in H. exact H. Qed.

Lemma filterContractState_lookup st c k : filterContractState st c !! k = st !! makeCompositeKey c k.
Proof.
  unfold filterContractState. revert k. apply (map_fold_weak_ind (fun r m => forall k, r !! k = m !! makeCompositeKey c k)).
  - intros k. by rewrite !lookup_empty.
  - intros x v m r _ IH k. destruct (HasPrefix x (c +:+ ":")) eqn:E.
    + apply prefix_key_inv in E. destruct (decide (drop_bytes (len (c +:+ ":")) x = k)) as [<-|Hne].
      * by rewrite <- E, !lookup_insert_eq.
      * rewrite lookup_insert_ne by done. rewrite IH, lookup_insert_ne; [done|]. intros ->. by rewrite (proj2 (prefix_key c k)) in Hne.
    + rewrite IH, lookup_insert_ne; [done|]. intros ->. by rewrite (proj1 (prefix_key c k)) in E.
Qed.

(** ** Numbers *)
Lemma SetBytes_strip s : SetBytes (strip_zeros s) = SetBytes s.
Proof.
  induction s as [|c s IH]; [done|]. cbn [strip_zeros]. destruct (Ascii.eqb c zero) eqn:E; [|done]. apply Ascii.eqb_eq in E as ->.
  rewrite IH. symmetry. apply (SetBytes_0s 1 s).
Qed.

Lemma SetBytes_Bytes z : (0 <= z)%Z -> SetBytes (Bytes z) = z.
Proof.
  intros Hz. unfold Bytes. rewrite SetBytes_strip, SetBytes_FillBytes, Z.abs_eq by done. apply Z.mod_small. split; [done|].
  pose proof (Z.log2_nonneg z). assert (0 <= Z.log2 z / 8)%Z by (apply Z.div_pos; lia). rewrite Z2Nat.id by lia.
  destruct (decide (z = 0)%Z) as [->|Hne]; [by apply Z.pow_pos_nonneg|]. eapply Z.lt_le_trans; [apply (Z.log2_spec z); lia|].
  change 256%Z with (2 ^ 8)%Z. rewrite <- Z.pow_mul_r by lia. apply Z.pow_le_mono_r; [lia|].
  pose proof (Z.div_mod (Z.log2 z) 8 ltac:(lia)). pose proof (Z.mod_pos_bound (Z.log2 z) 8 ltac:(lia)). lia.
Qed.

Lemma SetBytes_BytesToHash b : SetBytes (BytesToHash b) = (SetBytes b `mod` two256)%Z.
Proof.
  unfold BytesToHash. rewrite SetBytes_0s. pose proof (take_drop (len b - 32) b ltac:(lia)) as E. set (p := take_bytes (len b - 32) b) in E. rewrite <- E at 3.
  set (d := drop_bytes (len b - 32) b) in *. assert (len b = len p + len d) as Hl by (rewrite <- E at 1; apply length_append).
  assert (len d = len b - (len b - 32)) as Ld by apply length_drop. assert (0 <= SetBytes d < two256)%Z as Hd by (apply SetBytes_word; lia). rewrite SetBytes_append.
  destruct (decide (len b <= 32)) as [Hs|Hs].
  - assert (p = EmptyString) as -> by (destruct p; [done|cbn in *; lia]). change (SetBytes EmptyString) with 0%Z. rewrite Z.mul_0_l, Z.add_0_l. symmetry. by apply Z.mod_small.
  - assert (len d = 32) as -> by lia. change (256 ^ Z.of_nat 32)%Z with two256. rewrite Z.add_comm, Z_mod_plus_full. symmetry. by apply Z.mod_small.
Qed.

(** The new committed bytes of a slot stand for the written word, whatever
    multiples of [2^256] the old ones carry. *)
Lemma committed_value (cur : option string) (r : Z) (w : Hash) : len w = 32 ->
  let b := default EmptyString cur in
  r = SetBytes (BytesToHash b) \/ r = SetBytes b ->
  BytesToHash (Bytes (newVal cur (write_delta r (SetBytes w)))) = w.
Proof.
  cbv zeta. intros Hw Hr. apply SetBytes_inj; [by rewrite length_BytesToHash|]. rewrite SetBytes_BytesToHash. unfold newVal.
  set (b := SetBytes (default EmptyString cur)) in *. assert (0 <= b)%Z as Hb by apply SetBytes_nonneg.
  assert (0 <= SetBytes w < two256)%Z as Hww by (apply SetBytes_word; lia). generalize dependent (SetBytes w). intros z Hz.
  assert (two256 = 2 * two255)%Z as E by reflexivity. assert (0 < two255)%Z as Hp by reflexivity.
  assert (exists q, r = b - q * two256 /\ 0 <= q /\ (q = 0 \/ 0 <= r < two256))%Z as (q & -> & Hq & Hrq).
  { destruct Hr as [-> | ->]; [|exists 0%Z; lia]. rewrite SetBytes_BytesToHash. exists (b / two256)%Z. fold b.
    pose proof (Z.div_mod b two256 ltac:(lia)). pose proof (Z.mod_pos_bound b two256 ltac:(lia)). pose proof (Z.div_pos b two256 Hb ltac:(lia)). lia. }
  assert (exists p, b + write_delta (b - q * two256) z = z + p * two256 /\ - two256 <= b + write_delta (b - q * two256) z)%Z as (p & Ep & Hlow).
  { assert (0 <= q * two256)%Z by (apply Z.mul_nonneg_nonneg; lia). unfold write_delta. cbv zeta.
    destruct (decide (z - (b - q * two256) < 0)%Z); case_decide; [exists q|exists (q + 1)%Z|exists (q - 1)%Z|exists q]; rewrite ?Z.mul_add_distr_r, ?Z.mul_sub_distr_r; lia. }
  assert (forall n, (z + n * two256) `mod` two256 = z)%Z as Hmod by (intros n; rewrite Z_mod_plus_full; by apply Z.mod_small).
  case_bool_decide; rewrite SetBytes_Bytes, Ep by lia; [|apply Hmod]. rewrite <- (Hmod (p + 1)%Z) at 2. f_equal. lia.
Qed.

(** ** Ranges over maps *)
Section ranges.
Context (rng : gset string -> list string) (Hrng : range_ok rng).

Lemma updateCommittedState_lookup st c (d : gmap string Z) k : no_colon c ->
  updateCommittedState rng st c d !! makeCompositeKey c k =
  match d !! k with Some delta => Some (Bytes (newVal (st !! makeCompositeKey c k) delta)) | None => st !! makeCompositeKey c k end.
Proof.
  intros Hc. unfold updateCommittedState. assert (NoDup (rng (dom d))) as Hnd by (by apply range_ok_nodup).
  assert (k ∈ rng (dom d) <-> is_Some (d !! k)) as Hk by (rewrite range_ok_elem by done; apply elem_of_dom).
  assert (forall l st, NoDup l -> foldl (fun st key => match d !! key with Some delta => update_key c st (key, delta) | None => st end) st l !! makeCompositeKey c k =
    if decide (k ∈ l) then match d !! k with Some delta => Some (Bytes (newVal (st !! makeCompositeKey c k) delta)) | None => st !! makeCompositeKey c k end
    else st !! makeCompositeKey c k) as Hl.
  { clear st Hnd Hk. induction l as [|x l IH]; intros st Hnd; cbn [foldl]; [by rewrite decide_False by apply not_elem_of_nil|].
    apply NoDup_cons in Hnd as [Hx Hnd]. rewrite IH by done. destruct (decide (x = k)) as [->|Hne].
    - rewrite decide_False, decide_True by (done || left). destruct (d !! k) as [delta|]; [|done]. unfold update_key. cbn [fst snd]. by rewrite lookup_insert_eq.
    - assert ((match d !! x with Some delta => update_key c st (x, delta) | None => st end) !! makeCompositeKey c k = st !! makeCompositeKey c k) as ->.
      { destruct (d !! x); [|done]. unfold update_key. cbn [fst snd]. rewrite lookup_insert_ne; [done|]. intros E. by apply composite_inj in E as [_ ?]. }
      destruct (decide (k ∈ l)); [rewrite decide_True by (by right)|rewrite decide_False by (rewrite elem_of_cons; naive_solver)]; done. }
  rewrite Hl by done. destruct (decide (k ∈ rng (dom d))) as [Hin|Hin]; [done|]. destruct (d !! k); [|done]. exfalso. apply Hin, Hk. by eexists.
Qed.

Lemma updateCommittedState_other st c c' (d : gmap string Z) k : no_colon c -> no_colon c' -> c <> c' ->
  updateCommittedState rng st c d !! makeCompositeKey c' k = st !! makeCompositeKey c' k.
Proof.
  intros Hc Hc' Hne. unfold updateCommittedState. generalize (rng (dom d)). intros l. revert st. induction l as [|x l IH]; intros st; [done|]. cbn [foldl]. rewrite IH.
  destruct (d !! x); [|done]. unfold update_key. cbn [fst snd]. rewrite lookup_insert_ne; [done|]. intros E. by apply composite_inj in E as [? _].
Qed.

Lemma newWriteDelta_lookup (rm wm : gmap Hash Hash) L k :
  newWriteDelta rng rm wm L !! k = (fun v => write_delta (readBig rm L k) (SetBytes v)) <$> wm !! k.
Proof.
  unfold newWriteDelta, ConvertByte2String. assert (k ∈ rng (dom wm) <-> is_Some (wm !! k)) as Hk by (rewrite range_ok_elem by done; apply elem_of_dom).
  assert (forall l (m : gmap string Z), foldl (fun m key => match wm !! key with Some v => <[key := write_delta (readBig rm L key) (SetBytes v)]> m | None => m end) m l !! k =
    if decide (k ∈ l) then match wm !! k with Some v => Some (write_delta (readBig rm L k) (SetBytes v)) | None => m !! k end else m !! k) as Hl.
  { clear Hk. induction l as [|x l IH]; intros m; cbn [foldl]; [by rewrite decide_False by apply not_elem_of_nil|]. rewrite IH. destruct (decide (x = k)) as [->|Hne].
    - rewrite (decide_True (P := k ∈ k :: l)) by left. destruct (wm !! k); [|by destruct (decide (k ∈ l))]. rewrite lookup_insert_eq. by destruct (decide (k ∈ l)).
    - assert ((match wm !! x with Some v => <[x := write_delta (readBig rm L x) (SetBytes v)]> m | None => m end) !! k = m !! k) as -> by (destruct (wm !! x); [by rewrite lookup_insert_ne|done]).
      destruct (decide (k ∈ l)); [rewrite decide_True by (by right)|rewrite decide_False by (rewrite elem_of_cons; naive_solver)]; done. }
  rewrite Hl. destruct (decide (k ∈ rng (dom wm))) as [Hin|Hin]; [by destruct (wm !! k) eqn:E; [|apply Hk in Hin as [? ?]]|].
  rewrite lookup_empty. destruct (wm !! k); [|done]. exfalso. apply Hin, Hk. by eexists.
Qed.

Lemma slot_set_slot s c k v c' k' : slot (set_slot s c k v) c' k' = if decide (c' = c /\ k' = k) then v else slot s c' k'.
Proof.
  unfold slot, set_slot. destruct (decide (c' = c)) as [->|Hc].
  - rewrite lookup_insert_eq. cbn [mbind option_bind]. destruct (decide (k' = k)) as [->|Hk].
    + rewrite lookup_insert_eq, decide_True by done. done.
    + rewrite lookup_insert_ne, decide_False by naive_solver. destruct (s !! c); cbn [default from_option mbind option_bind id]; [done|]. by rewrite lookup_empty.
  - rewrite lookup_insert_ne, decide_False by naive_solver. done.
Qed.

Lemma apply_slot s c (L : gmap string string) c' k : (forall x, is_Some (L !! x) -> len x = 32) ->
  slot (applyLogicalStateToContract rng s c L) c' k =
  if decide (c' = c) then match L !! k with Some v => BytesToHash v | None => slot s c k end else slot s c' k.
Proof.
  intros HL. unfold applyLogicalStateToContract. assert (k ∈ rng (dom L) <-> is_Some (L !! k)) as Hk by (rewrite range_ok_elem by done; apply elem_of_dom).
  assert (forall l s, (forall x, x ∈ l -> is_Some (L !! x)) -> slot (foldl (fun s key => match L !! key with Some value => set_slot s c (BytesToHash key) (BytesToHash value) | None => s end) s l) c' k =
    if decide (c' = c /\ k ∈ l) then match L !! k with Some v => BytesToHash v | None => slot s c' k end else slot s c' k) as Hl.
  { clear s Hk. induction l as [|x l IH]; intros s Hin; cbn [foldl]; [by rewrite decide_False by (rewrite elem_of_nil; tauto)|].
    rewrite IH by (intros y Hy; apply Hin; by right). destruct (Hin x ltac:(left)) as [v Hv]. rewrite Hv, slot_set_slot, (BytesToHash_id x) by (apply HL; by eexists).
    destruct (decide (c' = c)) as [->|Hc]; [|rewrite !decide_False by tauto; done]. destruct (decide (k = x)) as [->|Hne].
    - rewrite (decide_True (P := c = c /\ x ∈ x :: l)) by (split; [done|left]). rewrite Hv. rewrite (decide_True (P := c = c /\ x = x)) by done. by destruct (decide (c = c /\ x ∈ l)).
    - rewrite (decide_False (P := c = c /\ k = x)) by tauto. destruct (decide (k ∈ l)); [rewrite !decide_True by (split; [done|first [done|by right]]); done|].
      rewrite !decide_False by (rewrite ?elem_of_cons; tauto). done. }
  rewrite Hl by (intros x Hx; apply range_ok_elem in Hx; [by apply elem_of_dom|done]). destruct (decide (c' = c)) as [->|Hc]; [|by rewrite decide_False by tauto].
  destruct (decide (c = c /\ k ∈ rng (dom L))) as [[_ Hin]|Hin]; [by destruct (L !! k)|]. destruct (L !! k); [|done]. exfalso. apply Hin. split; [done|]. apply Hk. by eexists.
Qed.
End ranges.

(** ** Executions of one contract *)

(** The slots a list of instructions writes. *)
Definition written (ops : list opcode) : gmap Hash Hash :=
  foldl (fun m e => match e with SSTORE loc val => <[BigToHash loc := BigToHash val]> m | _ => m end) ∅ ops.
Definition loaded (ops : list opcode) : gset Hash := list_to_set (omap (fun e => match e with SLOAD loc => Some (BigToHash loc) | _ => None end) ops).

(** No slot is loaded after it was written. *)
Definition reads_first (ops : list opcode) : Prop := forall l1 l2 loc, ops = l1 ++ SLOAD loc :: l2 -> written l1 !! BigToHash loc = None.

Lemma reads_first_app l1 l2 : reads_first (l1 ++ l2) -> reads_first l1.
Proof. intros H a b loc E. apply (H a (b ++ l2) loc). by rewrite E, <- app_assoc. Qed.

Lemma written_snoc ops e : written (ops ++ [e]) = match e with SSTORE loc val => <[BigToHash loc := BigToHash val]> (written ops) | _ => written ops end.
Proof. unfold written. by rewrite foldl_app. Qed.

Lemma loaded_snoc ops e : loaded (ops ++ [e]) = loaded ops ∪ match e with SLOAD loc => {[BigToHash loc]} | _ => ∅ end.
Proof.
  unfold loaded. rewrite omap_app, list_to_set_app_L. f_equal. destruct e; cbn; [|done..]. by rewrite union_empty_r_L.
Qed.

Lemma written_length ops k v : written ops !! k = Some v -> len k = 32 /\ len v = 32.
Proof.
  induction ops as [|e ops IH] using rev_ind; [done|]. rewrite written_snoc. destruct e as [|loc val|]; [done| |done].
  rewrite lookup_insert_Some. intros [[<- <-]|[_ H]]; [|by apply IH]. split; apply length_FillBytes.
Qed.

(** The storage, the values read and the values written after an execution. *)
Record traced (s : storages) (c : string) (ops : list opcode) (s' : storages) (l : StructLogger) : Prop := {
  tr_slot : forall k, slot s' c k = default (slot s c k) (written ops !! k);
  tr_other : forall c' k, c' <> c -> slot s' c' k = slot s c' k;
  tr_write : storage_of (changedValues l) c = written ops;
  tr_reads : dom (storage_of (readValues l) c) = loaded ops;
  tr_read : reads_first ops -> forall k v, storage_of (readValues l) c !! k = Some v -> v = slot s c k;
  tr_deployed : forall c', is_Some (s !! c') -> is_Some (s' !! c') }.

Lemma storage_of_insert m c x : storage_of (<[c := x]> m) c = x.
Proof. unfold storage_of. by rewrite lookup_insert_eq. Qed.

Lemma traced_exec s c ops : let '(s', l) := foldl exec_step (s, NewRWSetLogger) ((fun o => (c, o)) <$> ops) in traced s c ops s' l.
Proof.
  induction ops as [|e ops IH] using rev_ind; [by split; try (intros; unfold storage_of, NewRWSetLogger in *; cbn in *; rewrite ?lookup_empty in *; try done)|].
  rewrite fmap_app, foldl_app. destruct (foldl exec_step (s, NewRWSetLogger) ((fun o => (c, o)) <$> ops)) as [s1 l1]. destruct IH as [H1 H2 H3 H4 H5 H6].
  destruct e as [loc|loc val|]; cbn [foldl fmap list_fmap exec_step fst snd CaptureState].
  - split; intros; rewrite ?written_snoc, ?loaded_snoc; cbn [changedValues readValues]; rewrite ?storage_of_insert; auto.
    + by rewrite dom_insert_L, H4, union_comm_L.
    + cbn [changedValues readValues] in *. rewrite !storage_of_insert in *. match goal with H : <[_:=_]> _ !! _ = Some _ |- _ => rename H into Hk end.
      match goal with H : reads_first _ |- _ => rename H into Hrf end. rewrite lookup_insert_Some in Hk. destruct Hk as [[<- <-]|[_ Hk]].
      * rewrite H1, (Hrf ops [] loc eq_refl). done.
      * apply H5; [by eapply reads_first_app|done].
  - split; intros; rewrite ?written_snoc, ?loaded_snoc; cbn [changedValues readValues]; rewrite ?storage_of_insert, ?union_empty_r_L; auto.
    + rewrite slot_set_slot, H1. destruct (decide (c = c /\ k = BigToHash loc)) as [[_ ->]|Hne]; [by rewrite lookup_insert_eq|]. rewrite lookup_insert_ne by naive_solver. done.
    + rewrite slot_set_slot, decide_False by tauto. by apply H2.
    + by rewrite H3.
    + cbn [changedValues readValues] in *. rewrite storage_of_insert in *. apply H5; [by eapply reads_first_app|done].
    + unfold set_slot. destruct (decide (c' = c)) as [->|]; [rewrite lookup_insert_eq; by eexists|]. rewrite lookup_insert_ne by done. by apply H6.
  - split; intros; rewrite ?written_snoc, ?loaded_snoc; cbn [changedValues readValues]; rewrite ?storage_of_insert, ?union_empty_r_L; auto.
    cbn [changedValues readValues] in *. rewrite storage_of_insert in *. apply H5; [by eapply reads_first_app|done].
Qed.

(** ** Validation against the intended state *)
Section validation.
Context (exec : TransactionContext -> storages -> option (list (string * opcode))).
Context (rng : gset string -> list string) (Hrng : range_ok rng).

(** What is assumed of transactions: each works on its own contract, as that
    contract's storage determines, and loads a slot only before writing it. *)
Record single_contract : Prop := {
  sc_ops : forall ctx s events, exec ctx s = Some events -> exists ops, events = (fun o => (ctx_ContractName ctx, o)) <$> ops /\ reads_first ops;
  sc_local : forall ctx s s', (forall k, len k = 32 -> slot s (ctx_ContractName ctx) k = slot s' (ctx_ContractName ctx) k) -> exec ctx s = exec ctx s' }.

(** Running a transaction on the storages themselves. *)
Definition spec_tx (s : storages) (ctx : TransactionContext) : storages :=
  match exec ctx s with Some events => (foldl exec_step (s, NewRWSetLogger) events).1 | None => s end.

(** The slots it loads or writes. *)
Definition event_slot (e : string * opcode) : option Hash := match e.2 with SLOAD loc | SSTORE loc _ => Some (BigToHash loc) | OtherOp => None end.
Definition touched (s : storages) (ctx : TransactionContext) : gset Hash :=
  match exec ctx s with Some events => list_to_set (omap event_slot events) | None => ∅ end.

(** The committed bytes stand for the storages. *)
Definition stands_for (st : gmap string string) (s : storages) : Prop :=
  forall c k, no_colon c -> len k = 32 -> BytesToHash (default EmptyString (st !! makeCompositeKey c k)) = slot s c k.
Definition slot_keys (st : gmap string string) : Prop := forall c k, no_colon c -> is_Some (st !! makeCompositeKey c k) -> len k = 32.
(** An instance holds values in committed slots only. *)
Definition clean (st : gmap string string) (inst : storages) : Prop :=
  forall c k, no_colon c -> len k = 32 -> slot inst c k <> zero_hash -> is_Some (st !! makeCompositeKey c k).

Lemma touched_ops c ops : list_to_set (omap event_slot ((fun o => (c, o)) <$> ops)) = loaded ops ∪ dom (written ops) :> gset Hash.
Proof.
  induction ops as [|e ops IH] using rev_ind; [vm_compute; reflexivity|]. rewrite fmap_app, omap_app, list_to_set_app_L, IH, loaded_snoc, written_snoc.
  destruct e; cbn; rewrite ?dom_insert_L; set_solver.
Qed.

Lemma applied_agrees st s inst ctx : no_colon (ctx_ContractName ctx) -> stands_for st s -> slot_keys st -> clean st inst ->
  forall k, len k = 32 -> slot (applyLogicalStateToContract rng inst (ctx_ContractName ctx) (filterContractState st (ctx_ContractName ctx))) (ctx_ContractName ctx) k = slot s (ctx_ContractName ctx) k.
Proof.
  intros Hc Hst Hk Hcl k Hlen. rewrite apply_slot; [|done|intros x Hx; rewrite filterContractState_lookup in Hx; by eapply Hk].
  rewrite decide_True, filterContractState_lookup by done. rewrite <- (Hst _ k Hc Hlen). destruct (st !! makeCompositeKey _ k) as [v|] eqn:E; [done|].
  destruct (decide (slot inst (ctx_ContractName ctx) k = zero_hash)) as [->|Hne]; [done|]. apply Hcl in Hne as [? ?]; [congruence|done..].
Qed.

Lemma applied_deployed inst c L c' : is_Some (inst !! c') -> is_Some (applyLogicalStateToContract rng inst c L !! c').
Proof.
  unfold applyLogicalStateToContract. generalize (rng (dom L)). intros l. revert inst. induction l as [|x l IH]; intros inst H; [done|]. cbn [foldl]. apply IH.
  destruct (L !! x); [|done]. unfold set_slot. destruct (decide (c' = c)) as [->|]; [rewrite lookup_insert_eq; by eexists|by rewrite lookup_insert_ne].
Qed.

Record validated (st : gmap string string) (s : storages) (inst : storages) (ctx : TransactionContext) (inst' : storages) (r : real_sets) : Prop := {
  va_stands : stands_for (updateCommittedState rng st (ctx_ContractName ctx) (writeDelta r)) (spec_tx s ctx);
  va_keys : slot_keys (updateCommittedState rng st (ctx_ContractName ctx) (writeDelta r));
  va_clean : clean (updateCommittedState rng st (ctx_ContractName ctx) (writeDelta r)) inst';
  va_grows : forall i, clean st i -> clean (updateCommittedState rng st (ctx_ContractName ctx) (writeDelta r)) i;
  va_deployed : forall c, is_Some (inst !! c) -> is_Some (inst' !! c);
  va_real : forall k, k ∈ realReadKeys r ++ realWriteKeys r <-> k ∈ touched s ctx }.

Lemma update_dom st c (d : gmap string Z) c' k : no_colon c -> no_colon c' -> is_Some (st !! makeCompositeKey c' k) -> is_Some (updateCommittedState rng st c d !! makeCompositeKey c' k).
Proof.
  intros Hc Hc' H. destruct (decide (c = c')) as [->|Hne]; [|by rewrite updateCommittedState_other].
  rewrite updateCommittedState_lookup by done. by destruct (d !! k); [eexists|].
Qed.

Lemma selected ctx s inst : single_contract -> (forall k, len k = 32 -> slot inst (ctx_ContractName ctx) k = slot s (ctx_ContractName ctx) k) ->
  exists ops inst' l s' l', reads_first ops /\ traced inst (ctx_ContractName ctx) ops inst' l /\ traced s (ctx_ContractName ctx) ops s' l' /\
    SelectFunctions2 exec ctx inst = (inst', (storage_of (readValues l) (ctx_ContractName ctx), storage_of (changedValues l) (ctx_ContractName ctx))) /\
    spec_tx s ctx = s' /\ touched s ctx = loaded ops ∪ dom (written ops).
Proof.
  intros [Hops Hloc] Hag. unfold SelectFunctions2, spec_tx, touched. rewrite (Hloc ctx inst s Hag). destruct (exec ctx s) as [events|] eqn:E.
  - destruct (Hops _ _ _ E) as (ops & -> & Hrf). pose proof (traced_exec inst (ctx_ContractName ctx) ops) as H1. pose proof (traced_exec s (ctx_ContractName ctx) ops) as H2.
    destruct (foldl exec_step (inst, NewRWSetLogger) _) as [inst' l], (foldl exec_step (s, NewRWSetLogger) _) as [s' l']. exists ops, inst', l, s', l'.
    rewrite touched_ops. done.
  - exists [], inst, NewRWSetLogger, s, NewRWSetLogger. split; [intros l1 l2 loc; by destruct l1|]. split; [apply (traced_exec inst _ [])|]. split; [apply (traced_exec s _ [])|].
    split; [done|]. split; [done|]. vm_compute. reflexivity.
Qed.

Lemma zero_absent st s c k : stands_for st s -> no_colon c -> len k = 32 -> slot s c k <> zero_hash -> is_Some (st !! makeCompositeKey c k).
Proof. intros Hst Hc Hk Hne. rewrite <- (Hst c k Hc Hk) in Hne. by destruct (st !! makeCompositeKey c k); [eexists|]. Qed.

Lemma delta_lookup st s c ops (rm : gmap Hash Hash) : no_colon c -> stands_for st s -> (forall k v, rm !! k = Some v -> v = slot s c k) ->
  forall k, len k = 32 ->
  BytesToHash (default EmptyString (updateCommittedState rng st c (newWriteDelta rng rm (written ops) (filterContractState st c)) !! makeCompositeKey c k)) =
  default (slot s c k) (written ops !! k).
Proof.
  intros Hc Hst Hrm k Hk. rewrite updateCommittedState_lookup, newWriteDelta_lookup by done. destruct (written ops !! k) as [w|] eqn:E; cbn [fmap option_fmap option_map default from_option id]; [|by apply Hst].
  apply committed_value; [by apply written_length in E as [_ ?]|]. unfold readBig, ConvertByte2String. destruct (rm !! k) as [v|] eqn:Ev.
  - left. rewrite (Hrm _ _ Ev), <- (Hst c k Hc Hk). done.
  - right. by rewrite filterContractState_lookup.
Qed.

(** A validation commits exactly the transaction's effect. *)
Lemma validation_step st s inst ctx : single_contract -> no_colon (ctx_ContractName ctx) -> stands_for st s -> slot_keys st -> clean st inst -> is_Some (inst !! ctx_ContractName ctx) ->
  exists inst' r, ReExecuteAndGetRealRWSet exec rng ctx inst (filterContractState st (ctx_ContractName ctx)) = (inst', Some r) /\ validated st s inst ctx inst' r.
Proof.
  intros Hsc Hc Hst Hk Hcl [m Hm]. pose proof (applied_agrees st s inst ctx Hc Hst Hk Hcl) as Hag. unfold ReExecuteAndGetRealRWSet. rewrite Hm.
  set (c := ctx_ContractName ctx) in *. set (inst1 := applyLogicalStateToContract rng inst c (filterContractState st c)) in *.
  destruct (selected ctx s inst1 Hsc Hag) as (ops & inst' & l & s' & l' & Hrf & T & T' & -> & Espec & Etouch). fold c in T, T'. fold c. rewrite (tr_write _ _ _ _ _ T).
  eexists inst', _. split; [done|]. set (d := newWriteDelta rng _ _ _).
  assert (forall k, len k = 32 -> BytesToHash (default EmptyString (updateCommittedState rng st c d !! makeCompositeKey c k)) = slot s' c k) as Hval.
  { intros k Hlen. rewrite (tr_slot _ _ _ _ _ T'). apply (delta_lookup st s c ops); [done|done| |done]. intros x v Hx. rewrite (tr_read _ _ _ _ _ T Hrf x v Hx).
    apply Hag. apply elem_of_dom_2 in Hx. rewrite (tr_reads _ _ _ _ _ T) in Hx. unfold loaded in Hx. apply elem_of_list_to_set, list_elem_of_omap in Hx as (e & _ & He).
    destruct e; try done. injection He as <-. apply length_FillBytes. }
  split; cbn [writeDelta realReadKeys realWriteKeys]; fold c.
  - rewrite Espec. intros c' k Hc' Hlen. destruct (decide (c' = c)) as [->|Hne]; [by apply Hval|]. rewrite updateCommittedState_other by done. rewrite (tr_other _ _ _ _ _ T') by done. by apply Hst.
  - intros c' k Hc'. destruct (decide (c' = c)) as [->|Hne]; [|rewrite updateCommittedState_other by done; by apply Hk].
    rewrite updateCommittedState_lookup by done. unfold d. rewrite newWriteDelta_lookup by done. destruct (written ops !! k) eqn:E; [intros _; by apply written_length in E as [? _]|by apply Hk].
  - intros c' k Hc' Hlen Hne. destruct (decide (c' = c)) as [->|Hcc].
    + rewrite (tr_slot _ _ _ _ _ T), Hag, <- (tr_slot _ _ _ _ _ T'), <- Hval in Hne by done. by destruct (updateCommittedState rng st c d !! makeCompositeKey c k); [eexists|].
    + rewrite (tr_other _ _ _ _ _ T) in Hne by done. unfold inst1 in Hne. rewrite (apply_slot rng Hrng) in Hne by (intros x Hx; rewrite filterContractState_lookup in Hx; exact (Hk c x Hc Hx)). rewrite decide_False in Hne by done.
      apply update_dom; [done..|]. by apply Hcl.
  - intros i Hi c' k Hc' Hlen Hne. apply update_dom; [done..|]. by apply Hi.
  - intros c' Hc'. apply (tr_deployed _ _ _ _ _ T). by apply applied_deployed.
  - intros k. rewrite Etouch, elem_of_union, <- (tr_reads _ _ _ _ _ T), elem_of_app. unfold ConvertByte2String. rewrite !list_fmap_id, !range_ok_elem by done. done.
Qed.
End validation.
