(* ===== verification/LocalRun.v ===== *)
(** * [TestDepurge]: concurrent validation of the benchmark transactions

    Workers pop transactions that the scheduler released, validate them on
    pooled EVM instances ([LocalState]) and add their differences to the
    committed values; transactions that leave their conservative keys are
    replayed serially at the end, and the last phase stores the committed
    values.

    The handler of a popped transaction has two steps: the re-execution with
    the scheduler's bookkeeping, and the publication of the differences.  A run
    interleaves the steps of the workers with the main loop's pops. *)
From stdpp Require Import base list gmap strings relations.
From Stdlib Require Import ZArith Ascii Lia.
From S2P Require Import Prelude RWSet GoText KeyDerive ContractManager Depurge DepurgeInv DepurgeRuns DepurgeSchedule StateDB Levm LocalContracts LocalState.

Set Default Goal Selector "!".
Local Open Scope string_scope.
Local Open Scope list_scope.
Local Notation len := String.length.

Record test_state := mkTest {
  scheduler : DepurgeScheduler;
  committedState : gmap string string;
  serialReplayList : list string;
  validationAborted : nat;
  noContextCount : nat;
  reexecErrorCount : nat;
  totalPrunedKeys : nat;
  commitOrder : list (list RWNode);
  evmPool : list (gmap string (gmap Hash Hash));
  inProgress : list string }.

(** A popped transaction is with a worker until its handler returns. *)
Definition popped (st : test_state) (ds : DepurgeScheduler) (txID : string) : test_state :=
  mkTest ds (committedState st) (serialReplayList st) (validationAborted st) (noContextCount st) (reexecErrorCount st) (totalPrunedKeys st) (commitOrder st) (evmPool st)
    (txID :: inProgress st).
Definition returned (st : test_state) (txID : string) : test_state :=
  mkTest (scheduler st) (committedState st) (serialReplayList st) (validationAborted st) (noContextCount st) (reexecErrorCount st) (totalPrunedKeys st) (commitOrder st) (evmPool st)
    (filter (fun t => t <> txID) (inProgress st)).
Definition with_scheduler (st : test_state) (ds : DepurgeScheduler) : test_state :=
  mkTest ds (committedState st) (serialReplayList st) (validationAborted st) (noContextCount st) (reexecErrorCount st) (totalPrunedKeys st) (commitOrder st) (evmPool st) (inProgress st).
Definition with_pool (st : test_state) (pool : list (gmap string (gmap Hash Hash))) : test_state :=
  mkTest (scheduler st) (committedState st) (serialReplayList st) (validationAborted st) (noContextCount st) (reexecErrorCount st) (totalPrunedKeys st) (commitOrder st) pool (inProgress st).

Inductive abort_reason := NoContext | ReexecutionError | KeysExceed.
Definition aborted (st : test_state) (why : abort_reason) (txID : string) : test_state :=
  mkTest (scheduler st) (committedState st)
    (match why with KeysExceed => serialReplayList st ++ [txID] | _ => serialReplayList st end) (S (validationAborted st))
    (match why with NoContext => S (noContextCount st) | _ => noContextCount st end)
    (match why with ReexecutionError => S (reexecErrorCount st) | _ => reexecErrorCount st end)
    (totalPrunedKeys st) (commitOrder st) (evmPool st) (inProgress st).
Definition count_pruned (st : test_state) (n : nat) : test_state :=
  mkTest (scheduler st) (committedState st) (serialReplayList st) (validationAborted st) (noContextCount st) (reexecErrorCount st) (totalPrunedKeys st + n) (commitOrder st) (evmPool st) (inProgress st).

(** The write nodes of a transaction, from the first entry with its id. *)
Definition wNodes (txs : list (list RWNode)) (txID : string) : list (list RWNode) :=
  match List.find (fun v => match v with rw :: _ => String.eqb (ID (Trans rw)) txID | [] => false end) txs with
  | Some v => [filter (fun n => Label n = "w") v]
  | None => []
  end.

Definition published (rng : gset string -> list string) (txs : list (list RWNode)) (st : test_state) (txID contractName : string) (writeDelta : gmap string Z) : test_state :=
  mkTest (scheduler st) (updateCommittedState rng (committedState st) contractName writeDelta) (serialReplayList st) (validationAborted st) (noContextCount st) (reexecErrorCount st)
    (totalPrunedKeys st) (commitOrder st ++ wNodes txs txID) (evmPool st) (inProgress st).

Section test_depurge.
Context (exec : TransactionContext -> gmap string (gmap Hash Hash) -> option (list (string * opcode))).
Context (rng : gset string -> list string).
Context (keccak256 : string -> string) (cm : contracts_config).
Context (contexts : gmap string TransactionContext) (txs : list (list RWNode)).
(** A new EVM instance after [DeployAllContracts]. *)
Context (fresh : gmap string (gmap Hash Hash)).

(** [evmPool.Get]: some idle instance, or a new one. *)
Definition pool_get (pool : list (gmap string (gmap Hash Hash))) (pick : nat) : gmap string (gmap Hash Hash) := default fresh (pool !! pick).
Definition pool_put (pool : list (gmap string (gmap Hash Hash))) (pick : nat) (inst : gmap string (gmap Hash Hash)) : list (gmap string (gmap Hash Hash)) :=
  if decide (pick < length pool) then <[pick := inst]> pool else pool ++ [inst].

Definition conservative (ds : DepurgeScheduler) (txID : string) (ctx : TransactionContext) (contractState : gmap string string) : list string :=
  match recalculateConservativeKeys keccak256 cm ctx contractState with [] => GetConservativeKeys ds txID | dynamic => dynamic end.

Definition abort (st : test_state) (why : abort_reason) (txID : string) : outcome (test_state * option (string * gmap string Z)) :=
  Abort (scheduler st) txID ≫= fun ds => Ret (returned (with_scheduler (aborted st why txID) ds) txID, None).

(** The handler up to [scheduler.Execute]; the answer is what is left to
    publish. *)
Definition validate_execute (st : test_state) (txID : string) (pick : nat) : outcome (test_state * option (string * gmap string Z)) :=
  match contexts !! txID with
  | None => abort st NoContext txID
  | Some ctx =>
    let contractState := filterContractState (committedState st) (ctx_ContractName ctx) in
    let '(inst, r) := ReExecuteAndGetRealRWSet exec rng ctx (pool_get (evmPool st) pick) contractState in
    let st := with_pool st (pool_put (evmPool st) pick inst) in
    match r with
    | None => abort st ReexecutionError txID
    | Some r =>
      let conservativeKeys := conservative (scheduler st) txID ctx contractState in
      let realKeys := realReadKeys r ++ realWriteKeys r in
      if decide (Forall (fun k => k ∈ conservativeKeys) realKeys) then
        let prunedKeys := filter (fun k => k ∉ realKeys) conservativeKeys in
        (if decide (prunedKeys = []) then Ret (scheduler st) else Prune (scheduler st) txID realKeys) ≫= fun ds =>
        Execute ds txID ≫= fun ds =>
        Ret (count_pruned (with_scheduler st ds) (length prunedKeys), Some (ctx_ContractName ctx, writeDelta r))
      else abort st KeysExceed txID
    end
  end.

Definition validate_publish (st : test_state) (txID : string) (d : string * gmap string Z) : test_state :=
  returned (published rng txs st txID d.1 d.2) txID.

(** A handler that is not interleaved with others. *)
Definition handle (st : test_state) (txID : string) (pick : nat) : outcome test_state :=
  validate_execute st txID pick ≫= fun '(st, rest) => Ret (match rest with Some d => validate_publish st txID d | None => st end).

(** ** Serial replay and commit *)
Definition replay_one (st : gmap string string * list (gmap string (gmap Hash Hash))) (tp : string * nat) :
    gmap string string * list (gmap string (gmap Hash Hash)) :=
  match contexts !! tp.1 with
  | None => st
  | Some ctx =>
    let '(inst, r) := ReExecuteAndGetRealRWSet exec rng ctx (pool_get st.2 tp.2) (filterContractState st.1 (ctx_ContractName ctx)) in
    (match r with Some r => updateCommittedState rng st.1 (ctx_ContractName ctx) (writeDelta r) | None => st.1 end, pool_put st.2 tp.2 inst)
  end.

(** [picks] are the instances the pool hands out. *)
Definition replay_aborted (st : test_state) (picks : list nat) : gmap string string * list (gmap string (gmap Hash Hash)) :=
  foldl replay_one (committedState st, evmPool st) (zip (sort_strings (serialReplayList st)) picks).
End test_depurge.

(** The last phase stores an account for every write node whose key has a
    committed value; [Serialize] is the gob encoding of an account. *)
Record StateAccount := mkStateAccount { acc_Address : string; acc_Value : string }.

Section commit.
Context (Serialize : StateAccount -> string).

Definition StoreState (db : gmap string string) (acc : StateAccount) : gmap string string := <["a" +:+ acc_Address acc := Serialize acc]> db.

Definition commit_node (committedState : gmap string string) (db : gmap string string) (rw : RWNode) : gmap string string :=
  match committedState !! ConvertByte2String (Key (RWSet rw)) with
  | Some finalVal => StoreState db (mkStateAccount (Key (RWSet rw)) finalVal)
  | None => db
  end.

Definition commit_phase (committedState : gmap string string) (commitOrder : list (list RWNode)) (db : gmap string string) : gmap string string :=
  foldl (foldl (commit_node committedState)) db commitOrder.
End commit.

(** ** Runs *)
Section runs.
Context (exec : TransactionContext -> gmap string (gmap Hash Hash) -> option (list (string * opcode))).
Context (rng : gset string -> list string) (Hrng : range_ok rng).
Context (keccak256 : string -> string) (cm : contracts_config).
Context (contexts : gmap string TransactionContext) (txs : list (list RWNode)).
Context (fresh : gmap string (gmap Hash Hash)).

(** Pops of the main loop and handlers, each handler publishing before
    another re-executes. *)
Inductive test_step : test_state -> test_state -> Prop :=
| test_pop st ds t : PopReady (scheduler st) = (ds, t) -> t <> EmptyString -> test_step st (popped st ds t)
| test_pop_prune st ds t : PopPruneReady (scheduler st) = (ds, t) -> t <> EmptyString -> test_step st (popped st ds t)
| test_validate st st' t pick : t ∈ inProgress st -> handle exec rng keccak256 cm contexts txs fresh st t pick = Ret st' -> test_step st st'.

(** Handlers as they run: other workers may step between the re-execution,
    which ends with [scheduler.Execute], and the publication. *)
Abbreviation unpublished := (list (string * (string * gmap string Z))).
Inductive worker_step : test_state * unpublished -> test_state * unpublished -> Prop :=
| worker_pop st rest ds t : PopReady (scheduler st) = (ds, t) -> t <> EmptyString -> worker_step (st, rest) (popped st ds t, rest)
| worker_pop_prune st rest ds t : PopPruneReady (scheduler st) = (ds, t) -> t <> EmptyString -> worker_step (st, rest) (popped st ds t, rest)
| worker_execute st st' rest t pick d : t ∈ inProgress st -> t ∉ rest.*1 ->
    validate_execute exec rng keccak256 cm contexts fresh st t pick = Ret (st', d) ->
    worker_step (st, rest) (st', match d with Some d => (t, d) :: rest | None => rest end)
| worker_publish st l1 l2 t d : worker_step (st, l1 ++ (t, d) :: l2) (validate_publish rng txs st t d, l1 ++ l2).

Definition start (ds : DepurgeScheduler) (poolSize : nat) : test_state := mkTest ds ∅ [] 0 0 0 0 [] (replicate poolSize fresh) [].

(** The exit condition of the main loop. *)
Definition loop_done (st : test_state) : Prop := readyQueue (scheduler st) = [] /\ pruneReadyQueue (scheduler st) = [] /\ inProgress st = [].

Definition spec_run (vs : list string) : gmap string (gmap Hash Hash) := foldl (spec_tx exec) ∅ (omap (fun t => contexts !! t) vs).

(** What the theorems assume of the contracts and of a new instance. *)
Record benchmark : Prop := {
  bm_single : single_contract exec;
  bm_names : forall t ctx, contexts !! t = Some ctx -> no_colon (ctx_ContractName ctx);
  bm_zero : forall c k, slot fresh c k = zero_hash;
  bm_deployed : forall t ctx, contexts !! t = Some ctx -> is_Some (fresh !! ctx_ContractName ctx) }.
Context (Hbm : benchmark).

Definition deployed (inst : gmap string (gmap Hash Hash)) : Prop := forall t ctx, contexts !! t = Some ctx -> is_Some (inst !! ctx_ContractName ctx).

Record good (st : test_state) (vs : list string) : Prop := {
  gd_stands : stands_for (committedState st) (spec_run vs);
  gd_keys : slot_keys (committedState st);
  gd_pool : Forall (fun i => clean (committedState st) i /\ deployed i) (evmPool st) }.

(** [n] steps were made; [vs] are the transactions whose handlers returned. *)
Record test_inv (ds0 : DepurgeScheduler) (order : list string) (n : nat) (st : test_state) (vs : list string) : Prop := {
  ti_run : exists P, reachable (mkRun order (inProgress st) P (scheduler st));
  ti_keys : forall t, keys_of (scheduler st) t = keys_of ds0 t;
  ti_nodup : NoDup (vs ++ inProgress st);
  ti_sub : forall t, t ∈ vs ++ inProgress st -> t ∈ order;
  ti_done : forall t, t ∈ order -> executed (scheduler st) t = true <-> t ∈ vs;
  ti_steps : n = 2 * length vs + length (inProgress st);
  ti_good : validationAborted st = 0 -> good st vs }.

Lemma clean_zero st inst : (forall c k, slot inst c k = zero_hash) -> clean st inst.
Proof. intros H c k _ _ Hne. by rewrite H in Hne. Qed.

Lemma start_inv ds order poolSize : reachable (mkRun order [] [] ds) -> (forall t, t ∈ order -> executed ds t = false) -> test_inv ds order 0 (start ds poolSize) [].
Proof.
  intros Hr He. split; cbn; [by exists []|done|constructor|set_solver| |done|].
  - intros t Ht. rewrite He by done. set_solver.
  - intros _. split; cbn.
    + intros c k Hc Hk. rewrite lookup_empty. done.
    + intros c k Hc. rewrite lookup_empty. by intros [? ?].
    + apply Forall_replicate. split; [apply clean_zero, (bm_zero Hbm)|exact (bm_deployed Hbm)].
Qed.

Lemma pop_inv ds0 order n st vs ds t : test_inv ds0 order n st vs -> PopReady (scheduler st) = (ds, t) \/ PopPruneReady (scheduler st) = (ds, t) -> t <> EmptyString ->
  test_inv ds0 order (S n) (popped st ds t) vs.
Proof.
  intros [[P Hr] Hk Hnd Hsub Hd Hn Hg] Hpop Hne. pose proof (ri_sched _ (reachable_inv _ Hr)) as Hi. cbn in Hi.
  assert (sched_inv order (t :: inProgress st) ds /\ same_core (scheduler st) ds) as [Hi' Hcore].
  { destruct Hpop as [H|H]; [by eapply PopReady_inv|by eapply PopPruneReady_inv]. }
  assert (t ∈ order /\ executed ds t = false /\ NoDup (t :: inProgress st)) as (Ht & Hx & Hnd').
  { pose proof (si_lists _ _ _ Hi') as [Hl1 Hl2 _ _]. assert (t ∈ readyQueue ds ++ pruneReadyQueue ds ++ t :: inProgress st) as Hin by set_solver. apply Hl2 in Hin.
    split; [tauto|]. split; [tauto|]. rewrite app_assoc in Hl1. by apply NoDup_app in Hl1 as (_ & _ & ?). }
  pose proof (same_core_facts _ _ Hcore) as (F1 & F2 & F3 & F4 & F5).
  split; cbn [popped scheduler inProgress validationAborted].
  - exists P. eapply rtc_r; [exact Hr|]. destruct Hpop; [by apply step_pop|by apply step_pop_prune].
  - intros u. by rewrite F2.
  - assert (t ∉ vs) as Hv by (intros Hin; apply Hd in Hin; [|done]; rewrite <- F3 in Hin; congruence).
    apply NoDup_app in Hnd as (N1 & N2 & N3). apply NoDup_app. split; [done|]. split; [|done]. intros x Hx'. apply not_elem_of_cons. split; [by intros ->|by apply N2].
  - intros u. rewrite elem_of_app, elem_of_cons. intros [?|[-> |?]]; [apply Hsub; set_solver|done|apply Hsub; set_solver].
  - intros u Hu. rewrite F3. by apply Hd.
  - cbn. lia.
  - intros Ha. destruct (Hg Ha). by split.
Qed.

Lemma filter_one (t : string) R1 R2 : NoDup (R1 ++ t :: R2) -> filter (fun u => u <> t) (R1 ++ t :: R2) = R1 ++ R2.
Proof.
  intros Hnd. rewrite <- Permutation_middle in Hnd. apply NoDup_cons in Hnd as [Ht _]. rewrite filter_app, filter_cons, decide_False by naive_solver.
  f_equal; apply filter_all_True; intros x Hx ->; set_solver.
Qed.

Lemma worker_inv order R P ds t : reachable (mkRun order R P ds) -> t ∈ R -> exists R1 R2, R = R1 ++ t :: R2 /\ sched_inv order (t :: R1 ++ R2) ds.
Proof.
  intros Hr (R1 & R2 & ->)%list_elem_of_split. exists R1, R2. split; [done|]. pose proof (ri_sched _ (reachable_inv _ Hr)) as Hi. cbn in Hi.
  eapply inv_perm; [|exact Hi]. symmetry. apply Permutation_middle.
Qed.

Lemma worker_finish to_ready order R P ds t : reachable (mkRun order R P ds) -> t ∈ R -> NoDup R ->
  exists ds', finish to_ready ds t = Ret ds' /\ reachable (mkRun order (filter (fun u => u <> t) R) P ds') /\
    (forall u, keys_of ds' u = keys_of ds u) /\ (forall u, executed ds' u = bool_decide (u = t) || executed ds u).
Proof.
  intros Hr Ht Hnd. destruct (worker_inv _ _ _ _ _ Hr Ht) as (R1 & R2 & -> & Hi). destruct (finish_spec _ _ _ _ to_ready Hi) as (ds' & E & _ & _ & Hk & Hx).
  exists ds'. split; [done|]. split; [|done]. rewrite filter_one by done. eapply rtc_r; [exact Hr|]. destruct to_ready; [by apply step_execute|by apply step_abort].
Qed.

Lemma worker_prune order R P ds t real : reachable (mkRun order R P ds) -> t ∈ R ->
  exists ds' P', Prune ds t real = Ret ds' /\ reachable (mkRun order R P' ds') /\ (forall u, keys_of ds' u = keys_of ds u) /\ (forall u, executed ds' u = executed ds u).
Proof.
  intros Hr Ht. destruct (worker_inv _ _ _ _ _ Hr Ht) as (R1 & R2 & -> & Hi). destruct (Prune_spec _ _ _ real _ Hi) as (ds' & E & _ & _ & Hk & Hx).
  eexists ds', _. split; [done|]. split; [|done]. eapply rtc_r; [exact Hr|]. by apply step_prune.
Qed.

(** A handler returns: the transaction is done. *)
Lemma handler_returns ds0 order n st vs t st' : test_inv ds0 order n st vs -> t ∈ inProgress st ->
  (exists P, reachable (mkRun order (filter (fun u => u <> t) (inProgress st)) P (scheduler st'))) ->
  (forall u, keys_of (scheduler st') u = keys_of (scheduler st) u) ->
  (forall u, executed (scheduler st') u = bool_decide (u = t) || executed (scheduler st) u) ->
  inProgress st' = filter (fun u => u <> t) (inProgress st) ->
  (validationAborted st' = 0 -> good st' (vs ++ [t])) -> test_inv ds0 order (S n) st' (vs ++ [t]).
Proof.
  intros [_ Hk Hnd Hsub Hd Hn _] Ht Hr Hk' Hx' Ein Hg. apply list_elem_of_split in Ht as (R1 & R2 & E). rewrite E in *.
  pose proof Hnd as Hnd2. apply NoDup_app in Hnd2 as (_ & _ & Hndr). rewrite filter_one in * by done.
  assert ((vs ++ [t]) ++ inProgress st' ≡ₚ vs ++ R1 ++ t :: R2) as Hp by (rewrite Ein; by solve_Permutation).
  split; [by rewrite Ein|intros u; by rewrite Hk'|by rewrite Hp|intros u; rewrite Hp; apply Hsub| | |exact Hg].
  - intros u Hu. rewrite Hx', orb_true_iff, bool_decide_eq_true, Hd, elem_of_app, list_elem_of_singleton by done. tauto.
  - rewrite Ein, Hn, !length_app. cbn. lia.
Qed.

Lemma in_progress_nodup ds0 order n st vs : test_inv ds0 order n st vs -> NoDup (inProgress st).
Proof. intros Hi. by pose proof (ti_nodup _ _ _ _ _ Hi) as (_ & _ & ?)%NoDup_app. Qed.

Lemma abort_inv ds0 order n st vs t st1 why : test_inv ds0 order n st vs -> t ∈ inProgress st -> scheduler st1 = scheduler st -> inProgress st1 = inProgress st ->
  exists st', abort st1 why t = Ret (st', None) /\ test_inv ds0 order (S n) st' (vs ++ [t]).
Proof.
  intros Hi Ht Es Ei. destruct (ti_run _ _ _ _ _ Hi) as [P Hr]. unfold abort, Abort. rewrite Es.
  destruct (worker_finish false _ _ _ _ _ Hr Ht (in_progress_nodup _ _ _ _ _ Hi)) as (ds' & -> & Hr' & Hk & Hx). rewrite bind_ret.
  eexists. split; [done|]. apply (handler_returns ds0 order n st); try done; cbn; [by exists P|by rewrite Ei].
Qed.

Lemma pool_get_good (pool : list (gmap string (gmap Hash Hash))) (Q : gmap string (gmap Hash Hash) -> Prop) pick : Forall Q pool -> Q fresh -> Q (pool_get fresh pool pick).
Proof. intros Hp Hf. unfold pool_get. destruct (pool !! pick) eqn:E; [by eapply Forall_lookup_1|done]. Qed.

Lemma pool_put_good (pool : list (gmap string (gmap Hash Hash))) (Q : gmap string (gmap Hash Hash) -> Prop) pick inst : Forall Q pool -> Q inst -> Forall Q (pool_put pool pick inst).
Proof. intros Hp Hi. unfold pool_put. destruct (decide _); [by apply Forall_insert|]. apply Forall_app. split; [done|]. by apply Forall_singleton. Qed.

Lemma fresh_good st : clean st fresh /\ deployed fresh.
Proof. split; [apply clean_zero, (bm_zero Hbm)|exact (bm_deployed Hbm)]. Qed.

(** While nothing was aborted a re-execution is a validation. *)
Lemma good_validation st vs t ctx pick : good st vs -> contexts !! t = Some ctx ->
  exists inst' r, ReExecuteAndGetRealRWSet exec rng ctx (pool_get fresh (evmPool st) pick) (filterContractState (committedState st) (ctx_ContractName ctx)) = (inst', Some r) /\
    validated exec rng (committedState st) (spec_run vs) (pool_get fresh (evmPool st) pick) ctx inst' r /\ deployed inst'.
Proof.
  intros [Hs Hk Hp] Hc. destruct (pool_get_good _ _ pick Hp (fresh_good _)) as [Hcl Hdep].
  destruct (validation_step exec rng Hrng (committedState st) (spec_run vs) (pool_get fresh (evmPool st) pick) ctx) as (inst' & r & E & Hv);
    [exact (bm_single Hbm)|by eapply (bm_names Hbm)|done..|by eapply Hdep|].
  exists inst', r. split; [done|]. split; [done|]. intros u c Hu. apply (va_deployed _ _ _ _ _ _ _ _ Hv). by eapply Hdep.
Qed.

Lemma spec_run_snoc vs t ctx : contexts !! t = Some ctx -> spec_run (vs ++ [t]) = spec_tx exec (spec_run vs) ctx.
Proof. intros H. unfold spec_run. rewrite omap_app, foldl_app. cbn. rewrite H. done. Qed.

Lemma published_good st vs t ctx pick inst' r st' : good st vs -> contexts !! t = Some ctx ->
  validated exec rng (committedState st) (spec_run vs) (pool_get fresh (evmPool st) pick) ctx inst' r -> deployed inst' ->
  committedState st' = updateCommittedState rng (committedState st) (ctx_ContractName ctx) (writeDelta r) -> evmPool st' = pool_put (evmPool st) pick inst' -> good st' (vs ++ [t]).
Proof.
  intros [Hs Hk Hp] Hc [V1 V2 V3 V4 V5 V6] Hdep Ec Ep. split.
  - rewrite (spec_run_snoc _ _ _ Hc), Ec. done.
  - by rewrite Ec.
  - rewrite Ec, Ep. apply pool_put_good; [|done]. eapply Forall_impl; [exact Hp|]. intros i [? ?]. split; [by apply V4|done].
Qed.

(** The conservative keys cover what the transactions touch. *)
Definition covers (ds0 : DepurgeScheduler) (order : list string) : Prop :=
  forall t, t ∈ order -> exists ctx, contexts !! t = Some ctx /\ forall st s, stands_for st s ->
    forall k, k ∈ touched exec s ctx -> k ∈ conservative keccak256 cm ds0 t ctx (filterContractState st (ctx_ContractName ctx)).

(** [Prune] when keys are left over, then [Execute]. *)
Lemma prune_execute order R P ds t (real left_over : list string) : reachable (mkRun order R P ds) -> t ∈ R -> NoDup R ->
  exists ds1 ds' P', (if decide (left_over = []) then Ret ds else Prune ds t real) = Ret ds1 /\ Execute ds1 t = Ret ds' /\
    reachable (mkRun order (filter (fun u => u <> t) R) P' ds') /\ (forall u, keys_of ds' u = keys_of ds u) /\ (forall u, executed ds' u = bool_decide (u = t) || executed ds u).
Proof.
  intros Hr Ht Hnd. assert (exists ds1 P', (if decide (left_over = []) then Ret ds else Prune ds t real) = Ret ds1 /\ reachable (mkRun order R P' ds1) /\
    (forall u, keys_of ds1 u = keys_of ds u) /\ (forall u, executed ds1 u = executed ds u)) as (ds1 & P' & E1 & Hr1 & Hk1 & Hx1).
  { destruct (decide (left_over = [])); [by exists ds, P|]. destruct (worker_prune _ _ _ _ _ real Hr Ht) as (ds1 & P' & H). by exists ds1, P'. }
  destruct (worker_finish true _ _ _ _ _ Hr1 Ht Hnd) as (ds' & E & Hr' & Hk & Hx). exists ds1, ds', P'. split; [done|]. split; [done|]. split; [done|].
  split; intros u; [by rewrite Hk|by rewrite Hx, Hx1].
Qed.

Lemma conservative_keys ds0 order n st vs t ctx L : test_inv ds0 order n st vs -> conservative keccak256 cm (scheduler st) t ctx L = conservative keccak256 cm ds0 t ctx L.
Proof. intros Hi. unfold conservative, GetConservativeKeys. by rewrite (ti_keys _ _ _ _ _ Hi). Qed.

Lemma validate_inv ds0 order n st vs t pick : test_inv ds0 order n st vs -> t ∈ inProgress st ->
  exists st', handle exec rng keccak256 cm contexts txs fresh st t pick = Ret st' /\ test_inv ds0 order (S n) st' (vs ++ [t]) /\
    (covers ds0 order -> validationAborted st = 0 -> validationAborted st' = 0).
Proof.
  intros Hi Ht. assert (t ∈ order) as Ho by (apply (ti_sub _ _ _ _ _ Hi); set_solver). unfold handle, validate_execute. destruct (contexts !! t) as [ctx|] eqn:Ec.
  2: { destruct (abort_inv _ _ _ _ _ t st NoContext Hi Ht eq_refl eq_refl) as (st' & -> & Hi'). rewrite bind_ret. exists st'. split; [done|]. split; [done|].
       intros Hcov _. destruct (Hcov t Ho) as (ctx & ? & _). congruence. }
  destruct (ReExecuteAndGetRealRWSet _ _ _ _ _) as [inst r] eqn:Er.
  assert (forall (G : good st vs), exists r', r = Some r' /\ validated exec rng (committedState st) (spec_run vs) (pool_get fresh (evmPool st) pick) ctx inst r' /\ deployed inst) as Hgood.
  { intros G. destruct (good_validation st vs t ctx pick G Ec) as (inst' & r' & E & Hv & Hdep). rewrite Er in E. injection E as <- ->. by exists r'. }
  destruct r as [r|].
  2: { destruct (abort_inv _ _ _ _ _ t (with_pool st (pool_put (evmPool st) pick inst)) ReexecutionError Hi Ht eq_refl eq_refl) as (st' & -> & Hi'). rewrite bind_ret.
       exists st'. split; [done|]. split; [done|]. intros _ Ha. by destruct (Hgood (ti_good _ _ _ _ _ Hi Ha)) as (? & ? & _). }
  cbv zeta. case_decide as Hf.
  - destruct (ti_run _ _ _ _ _ Hi) as [P Hr]. cbn [with_pool scheduler].
    destruct (prune_execute _ _ _ _ t (realReadKeys r ++ realWriteKeys r)
      (filter (fun k => k ∉ realReadKeys r ++ realWriteKeys r) (conservative keccak256 cm (scheduler st) t ctx (filterContractState (committedState st) (ctx_ContractName ctx)))) Hr Ht (in_progress_nodup _ _ _ _ _ Hi))
      as (ds1 & ds' & P' & E1 & E2 & Hr' & Hk & Hx).
    rewrite E1, bind_ret, E2, !bind_ret. eexists. split; [done|]. split; [|done].
    apply (handler_returns ds0 order n st); try done; cbn [validate_publish returned published count_pruned with_scheduler with_pool scheduler validationAborted]; [by exists P'|].
    intros Ha. pose proof (ti_good _ _ _ _ _ Hi Ha) as G. destruct (Hgood G) as (r' & [= <-] & Hv & Hdep). by eapply (published_good st vs t ctx pick inst r).
  - destruct (abort_inv _ _ _ _ _ t (with_pool st (pool_put (evmPool st) pick inst)) KeysExceed Hi Ht eq_refl eq_refl) as (st' & -> & Hi'). rewrite bind_ret.
    exists st'. split; [done|]. split; [done|]. intros Hcov Ha. pose proof (ti_good _ _ _ _ _ Hi Ha) as G. destruct (Hgood G) as (r' & [= <-] & Hv & _). exfalso. apply Hf, Forall_forall.
    intros k Hk. apply (va_real _ _ _ _ _ _ _ _ Hv) in Hk. destruct (Hcov t Ho) as (ctx' & Ec' & Hc). rewrite Ec in Ec'. injection Ec' as <-.
    cbn [with_pool scheduler]. rewrite (conservative_keys _ _ _ _ _ _ _ _ Hi). eapply Hc; [apply (gd_stands _ _ G)|done].
Qed.

Lemma nsteps_inv ds order poolSize n st : reachable (mkRun order [] [] ds) -> (forall t, t ∈ order -> executed ds t = false) ->
  nsteps test_step n (start ds poolSize) st -> exists vs, test_inv ds order n st vs /\ (covers ds order -> validationAborted st = 0).
Proof.
  intros Hr He. revert st. induction n as [|n IH]; intros st Hn.
  - inversion Hn; subst. exists []. split; [by apply start_inv|done].
  - apply nsteps_inv_r in Hn as (st1 & Hn & Hstep). destruct (IH st1 Hn) as (vs & Hi & Hcov). inversion Hstep as [? ds' t Hp Hne|? ds' t Hp Hne|? ? t pick Ht Hv]; subst.
    + exists vs. split; [apply pop_inv; [done|by left|done]|done].
    + exists vs. split; [apply pop_inv; [done|by right|done]|done].
    + destruct (validate_inv ds order n st1 vs t pick Hi Ht) as (st' & E & Hi' & Hc'). rewrite Hv in E. injection E as <-. exists (vs ++ [t]). split; [done|]. intros Hc. by apply Hc', Hcov.
Qed.

Lemma pending_runnable order R P ds t : reachable (mkRun order R P ds) -> t ∈ order -> executed ds t = false -> exists u, u ∈ readyQueue ds ++ pruneReadyQueue ds ++ R.
Proof.
  intros Hr%reachable_inv Ht Hx. destruct (filter_first (fun t => IsExecuted ds t = false) order t Ht Hx) as (u & l & Hf). exists u. by apply (first_pending_runnable _ u l Hr).
Qed.

Lemma test_progress ds0 order n st vs : test_inv ds0 order n st vs -> loop_done st \/ exists st', test_step st st'.
Proof.
  intros Hi. destruct (inProgress st) as [|t R] eqn:Ei.
  2: { right. destruct (validate_inv ds0 order n st vs t 0 Hi) as (st' & E & _); [rewrite Ei; left|]. exists st'. eapply test_validate; [rewrite Ei; left|exact E]. }
  destruct (ti_run _ _ _ _ _ Hi) as [P Hr]. pose proof (ri_sched _ (reachable_inv _ Hr)) as Hs. cbn in Hs.
  assert (forall t, t ∈ readyQueue (scheduler st) ++ pruneReadyQueue (scheduler st) -> t <> EmptyString) as Hne.
  { intros t Ht ->. apply (ss_nonempty _ _ (si_static _ _ _ Hs)). apply (sl_elem _ _ _ _ (si_lists _ _ _ Hs) EmptyString). rewrite app_assoc. set_solver. }
  destruct (readyQueue (scheduler st)) as [|t l] eqn:E1.
  - destruct (pruneReadyQueue (scheduler st)) as [|t l] eqn:E2; [by left|]. right. eexists. eapply test_pop_prune; [unfold PopPruneReady; by rewrite E2|]. apply Hne. set_solver.
  - right. eexists. eapply test_pop; [unfold PopReady; by rewrite E1|]. apply Hne. set_solver.
Qed.

Lemma finished_all ds0 order n st vs : test_inv ds0 order n st vs -> loop_done st -> vs ≡ₚ order.
Proof.
  intros Hi (E1 & E2 & E3). destruct (ti_run _ _ _ _ _ Hi) as [P Hr]. pose proof (si_static _ _ _ (ri_sched _ (reachable_inv _ Hr))) as Hs. cbn in Hs.
  pose proof (ti_nodup _ _ _ _ _ Hi) as Hnd. rewrite E3, app_nil_r in Hnd. apply NoDup_Permutation; [done|apply (ss_nodup _ _ Hs)|]. intros t. split.
  - intros Ht. apply (ti_sub _ _ _ _ _ Hi). set_solver.
  - intros Ht. apply (ti_done _ _ _ _ _ Hi t Ht). destruct (executed (scheduler st) t) eqn:Ex; [done|].
    destruct (pending_runnable _ _ _ _ _ Hr Ht Ex) as [u Hu]. rewrite E1, E2, E3 in Hu. by apply elem_of_nil in Hu.
Qed.

Lemma run_summary ds order poolSize n st :
  reachable (mkRun order [] [] ds) -> (forall t, t ∈ order -> executed ds t = false) -> nsteps test_step n (start ds poolSize) st ->
  n <= 2 * length order /\ (loop_done st \/ exists st', test_step st st') /\
  (loop_done st -> validationAborted st = 0 -> exists vs, vs ≡ₚ order /\ stands_for (committedState st) (spec_run vs)) /\
  (covers ds order -> validationAborted st = 0).
Proof.
  intros Hr He Hn. destruct (nsteps_inv ds order poolSize n st Hr He Hn) as (vs & Hi & Hcov). split; [|split; [by eapply test_progress|split; [|done]]].
  - rewrite (ti_steps _ _ _ _ _ Hi). assert (length (vs ++ inProgress st) <= length order) as H.
    { apply submseteq_length, NoDup_submseteq; [apply (ti_nodup _ _ _ _ _ Hi)|exact (ti_sub _ _ _ _ _ Hi)]. }
    rewrite length_app in H. lia.
  - intros Hf Ha. exists vs. split; [by eapply finished_all|]. apply (gd_stands _ _ (ti_good _ _ _ _ _ Hi Ha)).
Qed.

End runs.

(** ** Examples *)

(** Transactions of one contract, by function: [incr] adds one to the slot
    [Addr1], [twice] does so two times, [copy] writes one more than the slot
    [Addr2] to the slot [Addr1]; any other function fails. *)
Definition word_at (s : gmap string (gmap Hash Hash)) (c : string) (loc : Z) : Z := SetBytes (slot s c (BigToHash loc)).
Definition demo_exec (ctx : TransactionContext) (s : gmap string (gmap Hash Hash)) : option (list (string * opcode)) :=
  let c := ctx_ContractName ctx in
  if String.eqb (ctx_Function ctx) "incr" then Some [(c, SLOAD (Addr1 ctx)); (c, SSTORE (Addr1 ctx) (word_at s c (Addr1 ctx) + 1))]
  else if String.eqb (ctx_Function ctx) "copy" then Some [(c, SLOAD (Addr2 ctx)); (c, SSTORE (Addr1 ctx) (word_at s c (Addr2 ctx) + 1))]
  else None.
Definition twice_exec (ctx : TransactionContext) (s : gmap string (gmap Hash Hash)) : option (list (string * opcode)) :=
  let c := ctx_ContractName ctx in
  Some [(c, SLOAD (Addr1 ctx)); (c, SSTORE (Addr1 ctx) (word_at s c (Addr1 ctx) + 1)); (c, SLOAD (Addr1 ctx)); (c, SSTORE (Addr1 ctx) (word_at s c (Addr1 ctx) + 2))].

Definition demo_tx (id fn : string) (addr1 addr2 : Z) : TransactionContext :=
  mkTransactionContext id "Bank" fn addr1 addr2 {[BigToHash addr2 := EmptyString]} {[BigToHash addr1 := EmptyString]} ∅ EmptyString EmptyString [] [].
Definition bank : gmap string (gmap Hash Hash) := {["Bank" := ∅]}.
Definition counters : gmap string TransactionContext := <["1" := demo_tx "1" "incr" 7 7]> {["2" := demo_tx "2" "incr" 7 7]}.

Lemma demo_single : single_contract demo_exec.
Proof.
  split.
  - intros ctx s events. unfold demo_exec. destruct (String.eqb _ _); [|destruct (String.eqb _ _); [|done]]; intros [= <-];
      [exists [SLOAD (Addr1 ctx); SSTORE (Addr1 ctx) (word_at s (ctx_ContractName ctx) (Addr1 ctx) + 1)]|exists [SLOAD (Addr2 ctx); SSTORE (Addr1 ctx) (word_at s (ctx_ContractName ctx) (Addr2 ctx) + 1)]];
      (split; [done|]); intros l1 l2 loc E; destruct l1 as [|e [|e' [|]]]; cbn in E; simplify_eq; done.
  - intros ctx s s' H. unfold demo_exec, word_at. rewrite !H by apply length_FillBytes. done.
Qed.

Lemma demo_benchmark : benchmark demo_exec counters bank.
Proof.
  assert (forall t ctx, counters !! t = Some ctx -> ctx_ContractName ctx = "Bank") as Hn.
  { intros t ctx. unfold counters. rewrite lookup_insert_Some, lookup_singleton_Some. by intros [[_ <-]|[_ [_ <-]]]. }
  split.
  - exact demo_single.
  - intros t ctx ->%Hn. unfold no_colon. cbn. set_solver.
  - intros c k. unfold slot, bank. destruct (decide (c = "Bank")) as [->|Hne]; [by rewrite lookup_singleton_eq; cbn; rewrite lookup_empty|by rewrite lookup_singleton_ne].
  - intros t ctx ->%Hn. unfold bank. rewrite lookup_singleton_eq. by eexists.
Qed.

Definition no_hash (x : string) : string := x.
Abbreviation demo_validate := (handle demo_exec elements no_hash [] counters [] bank).
Abbreviation demo_step := (test_step demo_exec elements no_hash [] counters [] bank).
Definition pop_next (st : test_state) : test_state := let '(ds, t) := PopReady (scheduler st) in popped st ds t.
Definition pop_prune_next (st : test_state) : test_state := let '(ds, t) := PopPruneReady (scheduler st) in popped st ds t.
Definition after (r : outcome test_state) (st : test_state) : test_state := match r with Ret st => st | _ => st end.

Definition counters_1 : test_state := pop_next (start bank (load_contexts counters) 1).
Definition counters_2 : test_state := after (demo_validate counters_1 "1" 0) counters_1.
Definition counters_3 : test_state := pop_next counters_2.
Definition counters_4 : test_state := after (demo_validate counters_3 "2" 0) counters_3.

Lemma pop_next_step exec contexts st : (PopReady (scheduler st)).2 <> EmptyString -> test_step exec elements no_hash [] contexts [] bank st (pop_next st).
Proof. unfold pop_next. destruct (PopReady (scheduler st)) as [ds t] eqn:E. intros H. by apply test_pop. Qed.
Lemma pop_prune_next_step exec contexts st : (PopPruneReady (scheduler st)).2 <> EmptyString -> test_step exec elements no_hash [] contexts [] bank st (pop_prune_next st).
Proof. unfold pop_prune_next. destruct (PopPruneReady (scheduler st)) as [ds t] eqn:E. intros H. by apply test_pop_prune. Qed.

Lemma counters_run : nsteps demo_step 4 (start bank (load_contexts counters) 1) counters_4.
Proof.
  eapply nsteps_l; [apply pop_next_step; vm_compute; discriminate|]. fold counters_1.
  eapply nsteps_l; [eapply (test_validate _ _ _ _ _ _ _ _ counters_2 "1" 0); [vm_compute; left|vm_compute; reflexivity]|].
  eapply nsteps_l; [apply pop_next_step; vm_compute; discriminate|]. fold counters_3.
  eapply nsteps_l; [eapply (test_validate _ _ _ _ _ _ _ _ counters_4 "2" 0); [vm_compute; left|vm_compute; reflexivity]|]. constructor.
Qed.

Lemma scheduled contexts ds levels : Depurge_schedule contexts = Ret (ds, levels) -> ds = load_contexts contexts.
Proof. unfold Depurge_schedule. destruct (buildLevels (load_contexts contexts)); cbn; congruence. Qed.


(** *** Publication after [Execute] *)
Definition skewed : gmap string TransactionContext := <["1" := demo_tx "1" "copy" 1 2]> {["2" := demo_tx "2" "copy" 2 1]}.
Abbreviation skew_execute := (validate_execute demo_exec elements no_hash [] skewed bank).
Abbreviation skew_publish := (validate_publish elements []).
Definition executed_of (r : outcome (test_state * option (string * gmap string Z))) (st : test_state) : test_state := match r with Ret (st, _) => st | _ => st end.
Definition delta_of (r : outcome (test_state * option (string * gmap string Z))) : string * gmap string Z := match r with Ret (_, Some d) => d | _ => (EmptyString, ∅) end.

Definition skew_1 : test_state := pop_next (start bank (load_contexts skewed) 2).
Definition skew_2 : test_state := executed_of (skew_execute skew_1 "1" 0) skew_1.
Definition skew_3 : test_state := pop_next skew_2.
Definition skew_4 : test_state := executed_of (skew_execute skew_3 "2" 1) skew_3.
Definition skew_5 : test_state := skew_publish skew_4 "1" (delta_of (skew_execute skew_1 "1" 0)).
Definition skew_6 : test_state := skew_publish skew_5 "2" (delta_of (skew_execute skew_3 "2" 1)).

Lemma orders_of_two (vs : list string) : vs ≡ₚ ["1"; "2"] -> vs = ["1"; "2"] \/ vs = ["2"; "1"].
Proof. intros H. symmetry in H. by apply Permutation_length_2_inv in H. Qed.

Lemma differs_at st s loc : BytesToHash (default EmptyString (st !! makeCompositeKey "Bank" (BigToHash loc))) <> slot s "Bank" (BigToHash loc) -> ~ stands_for st s.
Proof. intros H Hs. apply H, Hs; [unfold no_colon; cbn; set_solver|apply length_FillBytes]. Qed.

(** C39: The handler calls [scheduler.Execute] before it publishes the written
    values, so the next transaction on the same slots can run on the old ones:
    two transactions that each copy the other's slot end in a state that no
    serial order produces, and none of them is aborted. *)
Theorem publish_after_execute_not_serializable :
  exists st, rtc (worker_step demo_exec elements no_hash [] skewed [] bank) (start bank (load_contexts skewed) 2, []) (st, []) /\ loop_done st /\ validationAborted st = 0 /\
    forall vs, vs ≡ₚ elements (dom skewed) -> ~ stands_for (committedState st) (spec_run demo_exec skewed vs).
Proof.
  assert (forall st rest, (PopReady (scheduler st)).2 <> EmptyString -> worker_step demo_exec elements no_hash [] skewed [] bank (st, rest) (pop_next st, rest)) as Hpop.
  { intros st rest. unfold pop_next. destruct (PopReady (scheduler st)) as [ds t] eqn:E. intros H. by apply worker_pop. }
  exists skew_6. split; [|split; [by vm_compute|split; [by vm_compute|]]].
  - eapply rtc_l; [apply Hpop; vm_compute; discriminate|]. fold skew_1.
    eapply rtc_l; [apply (worker_execute _ _ _ _ _ _ _ _ skew_2 [] "1" 0 (Some (delta_of (skew_execute skew_1 "1" 0)))); [vm_compute; left|apply not_elem_of_nil|vm_compute; reflexivity]|].
    eapply rtc_l; [apply Hpop; vm_compute; discriminate|]. fold skew_3.
    eapply rtc_l; [apply (worker_execute _ _ _ _ _ _ _ _ skew_4 _ "2" 1 (Some (delta_of (skew_execute skew_3 "2" 1)))); [vm_compute; left|apply (bool_decide_unpack _); vm_compute; exact I|vm_compute; reflexivity]|].
    eapply rtc_l; [apply (worker_publish _ _ _ _ _ _ _ skew_4 [("2", delta_of (skew_execute skew_3 "2" 1))] [] "1")|].
    eapply rtc_l; [apply (worker_publish _ _ _ _ _ _ _ skew_5 [] [] "2")|]. apply rtc_refl.
  - assert (elements (dom skewed) ≡ₚ ["1"; "2"]) as Hd by (vm_compute; done || apply Permutation_swap).
    intros vs Hv. rewrite Hd in Hv. destruct (orders_of_two _ Hv) as [-> | ->]; [apply (differs_at _ _ 2)|apply (differs_at _ _ 1)]; vm_compute; discriminate.
Qed.

(** *** A slot loaded after it was written *)
Definition once : gmap string TransactionContext := {["1" := demo_tx "1" "twice" 7 7]}.
Definition once_1 : test_state := pop_next (start bank (load_contexts once) 1).
Definition once_2 : test_state := after (handle twice_exec elements no_hash [] once [] bank once_1 "1" 0) once_1.

(** The difference is taken to the last value a transaction loaded, not to
    the one it started from: a transaction that increments a slot twice is
    committed as one increment. *)
Theorem second_update_lost :
  nsteps (test_step twice_exec elements no_hash [] once [] bank) 2 (start bank (load_contexts once) 1) once_2 /\ loop_done once_2 /\ validationAborted once_2 = 0 /\
  SetBytes (slot (spec_run twice_exec once ["1"]) "Bank" (BigToHash 7)) = 2%Z /\
  SetBytes (default EmptyString (committedState once_2 !! makeCompositeKey "Bank" (BigToHash 7))) = 1%Z.
Proof.
  split; [|by vm_compute].
  eapply nsteps_l; [apply pop_next_step; vm_compute; discriminate|]. fold once_1.
  eapply nsteps_l; [eapply (test_validate _ _ _ _ _ _ _ once_1 once_2 "1" 0); [vm_compute; left|vm_compute; reflexivity]|]. constructor.
Qed.

(** *** Slots a constructor wrote *)
Definition funded : gmap string (gmap Hash Hash) := {["Bank" := {[BigToHash 7 := BigToHash 100]}]}.
Definition funded_1 : test_state := pop_next (start funded (load_contexts counters) 1).
Definition funded_2 : test_state := after (handle demo_exec elements no_hash [] counters [] funded funded_1 "1" 0) funded_1.

(** The differences are added to zero although the instance started from the
    constructor's value: 100 and an increment are committed as 1. *)
Example constructor_value_lost :
  word_at funded "Bank" 7 = 100%Z /\ SetBytes (default EmptyString (committedState funded_2 !! makeCompositeKey "Bank" (BigToHash 7))) = 1%Z.
Proof. by vm_compute. Qed.

(** *** Instances are not reset *)

(** [1] copies slot 9 to slot 7 and its prediction misses slot 9; [2] copies
    slot 7 to slot 9. *)
Definition missing_key : TransactionContext :=
  mkTransactionContext "1" "Bank" "copy" 7 9 ∅ {[BigToHash 7 := EmptyString]} ∅ EmptyString EmptyString [] [].
Definition leaking : gmap string TransactionContext := <["1" := missing_key]> {["2" := demo_tx "2" "copy" 9 7]}.
Abbreviation leak_validate := (handle demo_exec elements no_hash [] leaking [] bank).
Definition leak_1 : test_state := pop_next (start bank (load_contexts leaking) 1).
Definition leak_2 : test_state := after (leak_validate leak_1 "1" 0) leak_1.
Definition leak_3 : test_state := pop_prune_next leak_2.
Definition leak_4 : test_state := after (leak_validate leak_3 "2" 0) leak_3.

(** An aborted transaction leaves its writes in the pooled instance, where
    the next transaction reads them: with the serial replay of the aborted one
    the committed values are those of no serial order. *)
Theorem aborted_write_leaks :
  nsteps (test_step demo_exec elements no_hash [] leaking [] bank) 4 (start bank (load_contexts leaking) 1) leak_4 /\ loop_done leak_4 /\ serialReplayList leak_4 = ["1"] /\
  forall vs, vs ≡ₚ elements (dom leaking) -> ~ stands_for (replay_aborted demo_exec elements leaking bank leak_4 [0]).1 (spec_run demo_exec leaking vs).
Proof.
  split; [|split; [by vm_compute|split; [by vm_compute|]]].
  - eapply nsteps_l; [apply pop_next_step; vm_compute; discriminate|]. fold leak_1.
    eapply nsteps_l; [eapply (test_validate _ _ _ _ _ _ _ leak_1 leak_2 "1" 0); [vm_compute; left|vm_compute; reflexivity]|].
    eapply nsteps_l; [apply pop_prune_next_step; vm_compute; discriminate|]. fold leak_3.
    eapply nsteps_l; [eapply (test_validate _ _ _ _ _ _ _ leak_3 leak_4 "2" 0); [vm_compute; left|vm_compute; reflexivity]|]. constructor.
  - assert (elements (dom leaking) ≡ₚ ["1"; "2"]) as Hd by (vm_compute; done || apply Permutation_swap).
    intros vs Hv. rewrite Hd in Hv. destruct (orders_of_two _ Hv) as [-> | ->]; apply (differs_at _ _ 7); vm_compute; discriminate.
Qed.

(** *** The last phase *)
Lemma committed_keys_long rng c (d : gmap string Z) st : (forall k, is_Some (d !! k) -> len k = 32) -> (forall x, is_Some (st !! x) -> 32 < len x) ->
  forall x, is_Some (updateCommittedState rng st c d !! x) -> 32 < len x.
Proof.
  intros Hd. unfold updateCommittedState. generalize (rng (dom d)). intros l. revert st. induction l as [|k l IH]; intros st Hst; [done|]. cbn [foldl]. apply IH.
  destruct (d !! k) eqn:E; [|done]. intros x. unfold update_key. cbn [fst snd]. rewrite lookup_insert_is_Some. intros [<-|[_ Hx]]; [|by apply Hst].
  unfold makeCompositeKey. rewrite !length_append, (Hd k) by (by eexists). cbn. lia.
Qed.

(** The commit phase looks bare slot keys up in the map that is kept under
    [contract:slot] keys: whatever was committed, it stores nothing. *)
Theorem commit_phase_stores_nothing (Serialize : StateAccount -> string) rng (updates : list (string * gmap string Z)) (order : list (list RWNode)) (db : gmap string string) :
  Forall (fun u => forall k, is_Some (u.2 !! k) -> len k = 32) updates -> Forall (Forall (fun rw => len (Key (RWSet rw)) = 32)) order ->
  commit_phase Serialize (foldl (fun st u => updateCommittedState rng st u.1 u.2) ∅ updates) order db = db.
Proof.
  intros Hu Ho. set (st := foldl _ ∅ updates). assert (forall x, is_Some (st !! x) -> 32 < len x) as Hst.
  { subst st. induction updates as [|u updates IH] using rev_ind; [intros x; cbn; rewrite lookup_empty; by intros [? ?]|].
    apply Forall_app in Hu as [Hu H1]. rewrite foldl_app. cbn [foldl]. apply committed_keys_long; [exact (proj1 (Forall_singleton _ _) H1)|by apply IH]. }
  unfold commit_phase. revert db. induction Ho as [|v order Hv Ho IH]; intros db; [done|]. cbn [foldl]. rewrite <- (IH db) at 2. f_equal. clear IH Ho.
  revert db. induction Hv as [|rw v Hrw Hv IH]; intros db; [done|]. cbn [foldl]. rewrite IH. unfold commit_node. destruct (st !! _) eqn:E; [|done].
  assert (32 < len (Key (RWSet rw))) by (apply Hst; by eexists). lia.
Qed.

Lemma commit_phase_stores_nothing_witness :
  let updates := [("Bank", {[BigToHash 7 := 1%Z]})] in
  let order := [[mkRWNode (mkRWPair (BigToHash 7) EmptyString) (mkTransInfo "1" 0) "w" 0 false "Bank"]] in
  is_Some (foldl (fun st u => updateCommittedState elements st u.1 u.2) ∅ updates !! makeCompositeKey "Bank" (BigToHash 7)) /\
  commit_phase acc_Value (foldl (fun st u => updateCommittedState elements st u.1 u.2) ∅ updates) order ∅ = ∅.
Proof.
  split; [vm_compute; eexists; reflexivity|]. apply (commit_phase_stores_nothing acc_Value elements).
  - apply Forall_singleton. intros k [d Hd]. cbn [snd] in Hd. apply lookup_singleton_Some in Hd as [<- _]. vm_compute. reflexivity.
  - apply Forall_singleton, Forall_singleton. vm_compute. reflexivity.
Defined.
