(* ===== verification/Tracker.v ===== *)
(** * Read and write sets of an execution: [cmd/eth-replayd/replayd/rw_tracker.go]

    The replay daemon wraps the state database of its go-ethereum module in a
    tracker that records a canonical key for every account field and slot it
    is asked for.  The schedulers rely on two facts: what is not recorded as
    written did not change, and an execution is determined by what is recorded
    as read.

    That module is not part of the repository.  It enters as the class
    [StateLaws]: for every operation, the cells its answer and its effect depend
    on and the cells it can change, as its documentation states them, and that a
    revert undoes what happened since its snapshot.  An execution is a program
    over the operations whose calls are frames that can be reverted. *)
From stdpp Require Import base list gmap strings sorting.
From Stdlib Require Import ZArith Lia.
From S2P Require Import Prelude GoText StateDB HexKeys.

Set Default Goal Selector "!".
Local Open Scope string_scope.
Local Open Scope list_scope.

(** ** Operations and what they answer *)
Inductive top :=
| TGetBalance (a : string) | TSetBalance (a : string) (v : Z) | TSubBalance (a : string) (v : Z) | TAddBalance (a : string) (v : Z)
| TGetNonce (a : string) | TSetNonce (a : string) (n : Z)
| TGetCode (a : string) | TSetCode (a : string) (c : string) | TGetCodeSize (a : string) | TGetCodeHash (a : string)
| TGetState (a k : string) | TSetState (a k v : string) | TGetCommittedState (a k : string)
| TExist (a : string) | TEmpty (a : string) | TCreateAccount (a : string)
| TSelfDestruct (a : string) | TSelfdestruct6780 (a : string) | THasSelfDestructed (a : string)
| TGetStorageRoot (a : string) | TCreateContract (a : string)
| TInherited (name : string).

Inductive answer := AUnit | ANumber (z : Z) | ABytes (s : string) | AFlag (b : bool).

(** The end of a frame: what it returns, gas left, and whether it failed. *)
Record frame_end := mkEnd { end_ret : string; end_gas : Z; end_err : option string }.

Inductive tprog (A : Type) : Type :=
| PDone (a : A)
| PDo (o : top) (k : answer -> tprog A)
| PFrame (body : tprog frame_end) (k : frame_end -> tprog A).
Arguments PDone {A} a.
Arguments PDo {A} o k.
Arguments PFrame {A} body k.

Fixpoint pbind {A B : Type} (p : tprog A) (f : A -> tprog B) : tprog B :=
  match p with
  | PDone a => f a
  | PDo o k => PDo o (fun r => pbind (k r) f)
  | PFrame body k => PFrame body (fun r => pbind (k r) f)
  end.

(** ** The recorded keys *)
Section keys.
Context (keccak256 : string -> string).

Definition acct (a field : string) : string := AcctKey (Address_Hex keccak256 a) field.
Definition slot_of (a k : string) : string := SlotKey (Address_Hex keccak256 a) (Hash_Hex k).

Definition tracked_reads (o : top) : list string :=
  match o with
  | TGetBalance a | TSubBalance a _ | TAddBalance a _ => [acct a "balance"]
  | TGetNonce a | TSetNonce a _ => [acct a "nonce"]
  | TGetCode a | TGetCodeSize a | TGetCodeHash a | TGetStorageRoot a => [acct a "code"]
  | TGetState a k | TSetState a k _ | TGetCommittedState a k => [slot_of a k]
  | TExist a | THasSelfDestructed a => [acct a "exist"]
  | TEmpty a => [acct a "exist"; acct a "balance"; acct a "nonce"; acct a "code"]
  | TSetBalance _ _ | TSetCode _ _ | TCreateAccount _ | TSelfDestruct _ | TSelfdestruct6780 _ | TCreateContract _ | TInherited _ => []
  end.

Definition tracked_writes (o : top) : list string :=
  match o with
  | TSetBalance a _ | TSubBalance a _ | TAddBalance a _ => [acct a "balance"]
  | TSetNonce a _ => [acct a "nonce"]
  | TSetCode a _ => [acct a "code"]
  | TSetState a k _ => [slot_of a k]
  | TCreateAccount a => [acct a "exist"; acct a "balance"; acct a "nonce"; acct a "code"]
  | TSelfDestruct a | TSelfdestruct6780 a => [acct a "exist"; acct a "balance"; acct a "code"]
  | TCreateContract a => [acct a "exist"; acct a "code"]
  | _ => []
  end.

(** The operation the inner database is asked for. *)
Definition forwarded (o : top) : top := match o with TSelfdestruct6780 a => TSelfDestruct a | o => o end.

(** ** The database underneath *)
Inductive cellname :=
| CBalance (a : string) | CNonce (a : string) | CCode (a : string) | CExist (a : string) | CDestructed (a : string)
| CSlot (a k : string) | CCommitted (a k : string) | CRoot (a : string) | CRest.

Class StateOps (DB : Type) := {
  perform : DB -> top -> DB * answer;
  snapshot : DB -> DB * Z;
  revert_to : DB -> Z -> DB;
  present : DB -> string -> bool;
  field_of : DB -> cellname -> string }.

Section tracker.
Context {DB : Type} `{StateOps DB}.

Record rwTracker := mkTracker { inner : DB; reads : gset string; writes : gset string }.

Definition newRWTracker (db : DB) : rwTracker := mkTracker db ∅ ∅.
Definition with_inner (t : rwTracker) (db : DB) : rwTracker := mkTracker db (reads t) (writes t).

Definition tracked (t : rwTracker) (o : top) : rwTracker * answer :=
  let '(db, r) := perform (inner t) (forwarded o) in
  (mkTracker db (reads t ∪ list_to_set (tracked_reads o)) (writes t ∪ list_to_set (tracked_writes o)), r).

Definition failed (f : frame_end) : bool := match end_err f with Some _ => true | None => false end.

(** An execution drops the previous code that [SetCode] returns. *)
Definition used (o : top) (r : answer) : answer := match o with TSetCode _ _ => AUnit | _ => r end.

Fixpoint run {A : Type} (t : rwTracker) (p : tprog A) : rwTracker * A :=
  match p with
  | PDone a => (t, a)
  | PDo o k => let '(t, r) := tracked t o in run t (k (used o r))
  | PFrame body k =>
    let '(db, id) := snapshot (inner t) in
    let '(t, f) := run (with_inner t db) body in
    run (if failed f then with_inner t (revert_to (inner t) id) else t) (k f)
  end.

Definition sortedStringKeys (m : gset string) : list string := sort_strings (elements m).
Definition SortedReadKeys (t : rwTracker) : list string := sortedStringKeys (reads t).
Definition SortedWriteKeys (t : rwTracker) : list string := sortedStringKeys (writes t).

(** Without the tracker. *)
Fixpoint run_db {A : Type} (db : DB) (p : tprog A) : DB * A :=
  match p with
  | PDone a => (db, a)
  | PDo o k => let '(db, r) := perform db (forwarded o) in run_db db (k (used o r))
  | PFrame body k =>
    let '(db, id) := snapshot db in
    let '(db, f) := run_db db body in
    run_db (if failed f then revert_to db id else db) (k f)
  end.

(** ** Footprints *)
Definition look (db : DB) (c : cellname) : string := match c with CExist a => if present db a then "1" else EmptyString | c => field_of db c end.

(** The cells an answer and an effect depend on. *)
Definition depends (o : top) (c : cellname) : Prop :=
  match o with
  | TGetBalance a | TSubBalance a _ | TAddBalance a _ => c = CBalance a
  | TGetNonce a => c = CNonce a
  | TGetCode a | TGetCodeSize a => c = CCode a
  | TGetCodeHash a => c = CCode a \/ c = CExist a
  | TGetState a k | TSetState a k _ => c = CSlot a k
  | TGetCommittedState a k => c = CCommitted a k
  | TExist a | TSelfDestruct a | TSelfdestruct6780 a => c = CExist a
  | TEmpty a => c = CExist a \/ c = CBalance a \/ c = CNonce a \/ c = CCode a
  | THasSelfDestructed a => c = CDestructed a
  | TGetStorageRoot a => c = CRoot a
  | TCreateContract _ | TInherited _ => c = CRest
  | TSetBalance _ _ | TSetNonce _ _ | TSetCode _ _ | TCreateAccount _ => False
  end.

(** The cells it can change; a change to an absent account creates it. *)
Definition touches (o : top) (c : cellname) : Prop :=
  match o with
  | TSetBalance a _ | TSubBalance a _ | TAddBalance a _ => c = CBalance a \/ c = CExist a
  | TSetNonce a _ => c = CNonce a \/ c = CExist a
  | TSetCode a _ => c = CCode a \/ c = CExist a
  | TSetState a k _ => c = CSlot a k \/ c = CExist a
  | TCreateAccount a => c = CExist a \/ c = CBalance a \/ c = CNonce a \/ c = CCode a \/ c = CDestructed a
  | TSelfDestruct a | TSelfdestruct6780 a => c = CBalance a \/ c = CDestructed a
  | TCreateContract _ | TInherited _ => c = CRest
  | _ => False
  end.

(** [CreateAccount] is for accounts that do not exist. *)
Definition allowed (db : DB) (o : top) : Prop := match o with TCreateAccount a => present db a = false | _ => True end.
Fixpoint allowed_run {A : Type} (db : DB) (p : tprog A) : Prop :=
  match p with
  | PDone _ => True
  | PDo o k => allowed db (forwarded o) /\ let '(db, r) := perform db (forwarded o) in allowed_run db (k (used o r))
  | PFrame body k =>
    let '(db, id) := snapshot db in
    allowed_run db body /\ let '(db, f) := run_db db body in allowed_run (if failed f then revert_to db id else db) (k f)
  end.

Class StateLaws : Prop := {
  law_frame : forall db o c, allowed db o -> ~ touches o c -> look (perform db o).1 c = look db c;
  law_local : forall db db' o, allowed db o -> allowed db' o -> (forall c, depends o c -> look db c = look db' c) ->
    used o (perform db o).2 = used o (perform db' o).2 /\ forall c, touches o c -> look (perform db o).1 c = look (perform db' o).1 c;
  law_stays : forall db o a, present db a = true -> present (perform db o).1 a = true;
  law_snapshot : forall db c, look (snapshot db).1 c = look db c;
  law_revert : forall A (p : tprog A) db c, allowed_run (snapshot db).1 p -> look (revert_to (run_db (snapshot db).1 p).1 (snapshot db).2) c = look db c }.

(** The canonical key of a cell; the root of an account's storage and what the
    tracker does not override have none. *)
Definition key_of_cell (c : cellname) : option string :=
  match c with
  | CBalance a => Some (acct a "balance") | CNonce a => Some (acct a "nonce") | CCode a => Some (acct a "code")
  | CExist a | CDestructed a => Some (acct a "exist")
  | CSlot a k | CCommitted a k => Some (slot_of a k)
  | CRoot _ | CRest => None
  end.
Definition keyed (c : cellname) (keys : gset string) : Prop := exists k, key_of_cell c = Some k /\ k ∈ keys.

Lemma run_inner {A} (p : tprog A) : forall t, (run t p).2 = (run_db (inner t) p).2 /\ inner (run t p).1 = (run_db (inner t) p).1.
Proof.
  induction p as [A a|A o k IH|A body IHb k IHk]; intros t; cbn [run run_db]; [done| |].
  - unfold tracked. destruct (perform (inner t) (forwarded o)) as [db r]. apply IH.
  - destruct (snapshot (inner t)) as [db id]. specialize (IHb (with_inner t db)). cbn [inner with_inner] in IHb.
    destruct (run (with_inner t db) body) as [t1 f], (run_db db body) as [db1 f']. cbn in IHb. destruct IHb as [-> <-].
    destruct (failed f'); apply IHk.
Qed.

Lemma look_exist db db' a : present db a = present db' a -> look db (CExist a) = look db' (CExist a).
Proof. cbn. by intros ->. Qed.

Lemma forwarded_touches o c : touches (forwarded o) c <-> touches o c.
Proof. by destruct o. Qed.
Lemma forwarded_depends o c : depends (forwarded o) c <-> depends o c.
Proof. by destruct o. Qed.

(** Of what an operation changes only the creation of an absent account and
    the cells without a key are not recorded. *)
Lemma touches_recorded o c : touches o c -> keyed c (list_to_set (tracked_writes o)) \/ c = CRest \/ exists a, c = CExist a.
Proof.
  unfold keyed. destruct o; cbn [touches tracked_writes]; intros Hc; repeat match goal with H : _ \/ _ |- _ => destruct H as [H|H] end; try done; subst c; cbn [key_of_cell];
    try (left; eexists; split; [reflexivity|]; cbn; set_solver); try (by right; left); right; right; eexists; reflexivity.
Qed.

(** Of what it depends on, the existence of the account, the storage root and
    the cells without a key. *)
Lemma depends_recorded o c : depends o c -> keyed c (list_to_set (tracked_reads o)) \/ c = CRest \/ (exists a, c = CExist a) \/ exists a, c = CRoot a.
Proof.
  unfold keyed. destruct o; cbn [depends tracked_reads]; intros Hc; repeat match goal with H : _ \/ _ |- _ => destruct H as [H|H] end; try done; subst c; cbn [key_of_cell];
    try (left; eexists; split; [reflexivity|]; cbn; set_solver); try (by right; left); [right; right; left|right; right; left|right; right; left|right; right; right]; eexists; reflexivity.
Qed.

#[export] Instance cellname_eq_dec : EqDecision cellname.
Proof. solve_decision. Defined.
#[export] Instance touches_dec o c : Decision (touches o c).
Proof. destruct o; cbn; apply _. Defined.

Lemma present_look db db' a : look db (CExist a) = look db' (CExist a) -> present db a = present db' a.
Proof. cbn. by destruct (present db a), (present db' a). Qed.

Lemma keyed_mono c X Y : X ⊆ Y -> keyed c X -> keyed c Y.
Proof. intros Hs (k & Hk & Hin). exists k. split; [done|]. by apply Hs. Qed.

Context {Laws : StateLaws}.

(** *** What is written *)
Record covered (db0 : DB) (t : rwTracker) : Prop := {
  cov_cells : forall c, look (inner t) c <> look db0 c -> keyed c (writes t) \/ c = CRest \/ exists a, c = CExist a /\ present db0 a = false;
  cov_stays : forall a, present db0 a = true -> present (inner t) a = true }.

Lemma covered_same db0 t db X : covered db0 t -> (forall c, look db c = look (inner t) c) -> writes t ⊆ X -> covered db0 (mkTracker db (reads t) X).
Proof.
  intros [H1 H2] E HX. split; cbn [inner writes].
  - intros c Hc. rewrite E in Hc. destruct (H1 c Hc) as [?|?]; [left; by eapply keyed_mono|by right].
  - intros a Ha. rewrite (present_look db (inner t) a); [by apply H2|apply E].
Qed.

Lemma covered_tracked db0 t o : covered db0 t -> allowed (inner t) (forwarded o) -> covered db0 (tracked t o).1.
Proof.
  intros [H1 H2] Ha. unfold tracked. pose proof (fun c => law_frame (inner t) (forwarded o) c Ha) as Hf. pose proof (law_stays (inner t) (forwarded o)) as Hs.
  destruct (perform (inner t) (forwarded o)) as [db r]. cbn [fst] in *. split; cbn [inner writes]; [|by eauto].
  intros c Hc. destruct (decide (touches (forwarded o) c)) as [Ht|Ht].
  - rewrite forwarded_touches in Ht. destruct (touches_recorded o c Ht) as [Hk|[Hr|[a ->]]]; [left; eapply keyed_mono; [|exact Hk]; set_solver|by right; left|].
    right; right. exists a. split; [done|]. destruct (present db0 a) eqn:E; [|done]. exfalso. apply Hc. cbn. by rewrite (Hs a (H2 a E)), E.
  - rewrite Hf in Hc by done. destruct (H1 c Hc) as [Hk|?]; [left; eapply keyed_mono; [|exact Hk]; set_solver|by right].
Qed.

Lemma run_writes_mono {A} (p : tprog A) : forall t, writes t ⊆ writes (run t p).1 /\ reads t ⊆ reads (run t p).1.
Proof.
  induction p as [A a|A o k IH|A body IHb k IHk]; intros t; cbn [run]; [done| |].
  - unfold tracked. destruct (perform (inner t) (forwarded o)) as [db r]. destruct (IH (used o r) (mkTracker db (reads t ∪ list_to_set (tracked_reads o)) (writes t ∪ list_to_set (tracked_writes o)))).
    cbn [writes reads] in *. split; (etrans; [|eassumption]); set_solver.
  - destruct (snapshot (inner t)) as [db id]. specialize (IHb (with_inner t db)). destruct (run (with_inner t db) body) as [t1 f]. cbn [fst with_inner writes reads] in IHb.
    destruct IHb. destruct (failed f); [destruct (IHk f (with_inner t1 (revert_to (inner t1) id)))|destruct (IHk f t1)]; cbn [with_inner writes reads] in *; split; by etrans.
Qed.

Lemma covered_run {A} db0 (p : tprog A) : forall t, covered db0 t -> allowed_run (inner t) p -> covered db0 (run t p).1.
Proof.
  induction p as [A a|A o k IH|A body IHb k IHk]; intros t Hc Ha; cbn [run]; [done| |].
  - cbn [allowed_run] in Ha. destruct Ha as [Ha Hk]. pose proof (covered_tracked db0 t o Hc Ha) as Hc'. unfold tracked in *. destruct (perform (inner t) (forwarded o)) as [db r]. by apply IH.
  - cbn [allowed_run] in Ha. pose proof (law_snapshot (inner t)) as Hsn. pose proof (fun c => law_revert frame_end body (inner t) c) as Hrev. destruct (snapshot (inner t)) as [db id]. cbn [fst snd] in *.
    destruct Ha as [Hb Hk]. pose proof (IHb (with_inner t db) (covered_same db0 t db (writes t) Hc Hsn (reflexivity _)) Hb) as Hc1.
    pose proof (run_inner body (with_inner t db)) as [E1 E2]. pose proof (proj1 (run_writes_mono body (with_inner t db))) as Hw. cbn [with_inner inner writes] in E1, E2, Hw.
    destruct (run (with_inner t db) body) as [t1 f], (run_db db body) as [db1 f']. cbn [fst snd] in *. subst f'. rewrite <- E2 in *. destruct (failed f).
    + apply IHk; [|done]. apply (covered_same db0 (mkTracker (inner t) (reads t1) (writes t))); [by destruct Hc|cbn; intros c; by apply Hrev|done].
    + by apply IHk.
Qed.

(** *** What is read *)
Section reads.
Context (db1 db2 : DB) (R : gset string).

(** The states agree on the keys read, and have the same accounts with the
    same committed storage. *)
Record agree : Prop := {
  ag_keys : forall c, keyed c R -> look db1 c = look db2 c;
  ag_accounts : forall a, look db1 (CExist a) = look db2 (CExist a) /\ look db1 (CRoot a) = look db2 (CRoot a);
  ag_rest : look db1 CRest = look db2 CRest }.
Context (Hag : agree).

(** Two runs show the same value of a cell or have both left it alone. *)
Definition alike (a b : DB) : Prop := forall c, look a c = look b c \/ look a c = look db1 c /\ look b c = look db2 c.

Lemma alike_agrees a b c : alike a b -> look db1 c = look db2 c -> look a c = look b c.
Proof. intros Hs E. destruct (Hs c) as [?|[-> ->]]; done. Qed.

Lemma alike_same a b a' b' : alike a b -> (forall c, look a' c = look a c) -> (forall c, look b' c = look b c) -> alike a' b'.
Proof. intros Hs Ea Eb c. rewrite Ea, Eb. apply Hs. Qed.

Lemma alike_allowed a b o : alike a b -> allowed a o -> allowed b o.
Proof.
  intros Hs. destruct o; try done. cbn [allowed]. intros <-. symmetry. apply present_look. apply alike_agrees; [done|]. by apply (ag_accounts Hag).
Qed.

Lemma alike_step a b o : alike a b -> allowed a (forwarded o) -> list_to_set (tracked_reads o) ⊆ R ->
  used o (perform a (forwarded o)).2 = used o (perform b (forwarded o)).2 /\ alike (perform a (forwarded o)).1 (perform b (forwarded o)).1.
Proof.
  intros Hs Ha HR. pose proof (alike_allowed a b (forwarded o) Hs Ha) as Hb. destruct (law_local a b (forwarded o) Ha Hb) as [E Ht].
  - intros c Hc. rewrite forwarded_depends in Hc. apply alike_agrees; [done|].
    destruct (depends_recorded o c Hc) as [Hk|[-> |[[x ->]|[x ->]]]]; [apply (ag_keys Hag); by eapply keyed_mono|apply (ag_rest Hag)|apply (ag_accounts Hag)|apply (ag_accounts Hag)].
  - split; [by destruct o|]. intros c. destruct (decide (touches (forwarded o) c)) as [Hc|Hc]; [left; by apply Ht|]. rewrite !law_frame by done. apply Hs.
Qed.

Lemma alike_run {A} (p : tprog A) : forall t1 t2, alike (inner t1) (inner t2) -> reads t1 = reads t2 -> writes t1 = writes t2 -> allowed_run (inner t1) p -> reads (run t1 p).1 ⊆ R ->
  allowed_run (inner t2) p /\ (run t1 p).2 = (run t2 p).2 /\ reads (run t1 p).1 = reads (run t2 p).1 /\ writes (run t1 p).1 = writes (run t2 p).1 /\ alike (inner (run t1 p).1) (inner (run t2 p).1).
Proof.
  induction p as [A a|A o k IH|A body IHb k IHk]; intros t1 t2 Hs Er Ew Ha HR; cbn [run allowed_run] in *; [done| |].
  - destruct Ha as [Ha Hk]. assert (list_to_set (tracked_reads o) ⊆ R) as Ho.
    { etrans; [|exact HR]. unfold tracked. destruct (perform (inner t1) (forwarded o)) as [d r]. etrans; [|apply run_writes_mono]. cbn [reads]. set_solver. }
    pose proof (alike_allowed _ _ _ Hs Ha) as Ha2. destruct (alike_step _ _ o Hs Ha Ho) as [E Hs']. unfold tracked in *. destruct (perform (inner t1) (forwarded o)) as [d1 r1], (perform (inner t2) (forwarded o)) as [d2 r2].
    cbn [fst snd] in *. rewrite <- E. rewrite Er, Ew in *. destruct (IH (used o r1) (mkTracker d1 (reads t2 ∪ list_to_set (tracked_reads o)) (writes t2 ∪ list_to_set (tracked_writes o)))
      (mkTracker d2 (reads t2 ∪ list_to_set (tracked_reads o)) (writes t2 ∪ list_to_set (tracked_writes o)))) as (H1 & H2); done.
  - pose proof (law_snapshot (inner t1)) as S1. pose proof (law_snapshot (inner t2)) as S2. pose proof (fun c => law_revert frame_end body (inner t1) c) as V1. pose proof (fun c => law_revert frame_end body (inner t2) c) as V2.
    destruct (snapshot (inner t1)) as [d1 i1], (snapshot (inner t2)) as [d2 i2]. cbn [fst snd] in *. destruct Ha as [Hb Hk].
    pose proof (run_inner body (with_inner t1 d1)) as [A1 B1]. pose proof (run_inner body (with_inner t2 d2)) as [A2 B2]. cbn [with_inner inner] in A1, B1, A2, B2.
    specialize (IHb (with_inner t1 d1) (with_inner t2 d2) (alike_same _ _ _ _ Hs S1 S2) Er Ew Hb). cbn [with_inner inner] in IHb.
    destruct (run (with_inner t1 d1) body) as [u1 f1], (run (with_inner t2 d2) body) as [u2 f2], (run_db d1 body) as [e1 g1], (run_db d2 body) as [e2 g2]. cbn [fst snd] in *. subst g1 g2 e1 e2.
    destruct IHb as (Hb2 & <- & Er' & Ew' & Hs').
    { etrans; [|exact HR]. destruct (failed f1); [|apply run_writes_mono]. apply (run_writes_mono _ (with_inner u1 (revert_to (inner u1) i1))). }
    assert (alike (if failed f1 then revert_to (inner u1) i1 else inner u1) (if failed f1 then revert_to (inner u2) i2 else inner u2)) as Hs2.
    { destruct (failed f1); [|done]. apply (alike_same _ _ _ _ Hs); intros c; [by apply V1|by apply V2]. }
    destruct (failed f1).
    + destruct (IHk f1 (with_inner u1 (revert_to (inner u1) i1)) (with_inner u2 (revert_to (inner u2) i2))) as (H1 & H2); done.
    + destruct (IHk f1 u1 u2) as (H1 & H2); done.
Qed.
End reads.

Lemma in_sorted_keys k (X : gset string) : k ∈ sortedStringKeys X <-> k ∈ X.
Proof. unfold sortedStringKeys. by rewrite sort_strings_perm, elem_of_elements. Qed.

(** What an execution changes is recorded: a cell that differs afterwards has
    its key among the sorted write keys, apart from the state that is not keyed
    and from the existence of an account that was absent before. *)
Theorem tracker_writes_cover {A} (p : tprog A) db : allowed_run db p ->
  let '(t, _) := run (newRWTracker db) p in
  forall c, look (inner t) c <> look db c ->
    (exists k, key_of_cell c = Some k /\ k ∈ SortedWriteKeys t) \/ c = CRest \/ exists a, c = CExist a /\ present db a = false.
Proof.
  intros Ha. pose proof (covered_run db p (newRWTracker db)) as H1. destruct (run (newRWTracker db) p) as [t x]. intros c Hc.
  destruct H1 as [H1 _]; [by split|done|]. destruct (H1 c Hc) as [(k & Hk & Hin)|?]; [|by right]. left. exists k. split; [done|]. by apply in_sorted_keys.
Qed.

End tracker.
End keys.

(** ** An instance: account fields by name, snapshots as copies *)
Record mapdb := mkMapdb { here : gset string; fields : cellname -> string; saved : list (gset string * (cellname -> string)) }.

Definition put (f : cellname -> string) (c : cellname) (v : string) : cellname -> string := fun c' => if decide (c' = c) then v else f c'.
Definition number (s : string) : Z := SetBytes s.
Definition word (z : Z) : string := FillBytes 32 z.
Definition set_field (db : mapdb) (a : string) (c : cellname) (v : string) : mapdb := mkMapdb ({[a]} ∪ here db) (put (fields db) c v) (saved db).
Definition created (db : mapdb) (a : string) : mapdb :=
  mkMapdb ({[a]} ∪ here db) (put (put (put (put (fields db) (CBalance a) EmptyString) (CNonce a) EmptyString) (CCode a) EmptyString) (CDestructed a) EmptyString) (saved db).
Definition destructed (db : mapdb) (a : string) : mapdb :=
  if bool_decide (a ∈ here db) then mkMapdb (here db) (put (put (fields db) (CBalance a) EmptyString) (CDestructed a) "1") (saved db)
  else mkMapdb (here db) (put (put (fields db) (CBalance a) EmptyString) (CDestructed a) EmptyString) (saved db).
Definition logged (db : mapdb) (name : string) : mapdb := mkMapdb (here db) (put (fields db) CRest (fields db CRest +:+ name)) (saved db).

Definition map_perform (db : mapdb) (o : top) : mapdb * answer :=
  let f := fields db in
  match o with
  | TGetBalance a => (db, ANumber (number (f (CBalance a)) `mod` two256))
  | TSetBalance a v => (set_field db a (CBalance a) (word v), AUnit)
  | TSubBalance a v => (set_field db a (CBalance a) (word (number (f (CBalance a)) - v)), ANumber (number (f (CBalance a))))
  | TAddBalance a v => (set_field db a (CBalance a) (word (number (f (CBalance a)) + v)), ANumber (number (f (CBalance a))))
  | TGetNonce a => (db, ANumber (wrap_uint64 (number (f (CNonce a)))))
  | TSetNonce a n => (set_field db a (CNonce a) (word n), AUnit)
  | TGetCode a => (db, ABytes (f (CCode a)))
  | TSetCode a c => (set_field db a (CCode a) c, ABytes (f (CCode a)))
  | TGetCodeSize a => (db, ANumber (Z.of_nat (String.length (f (CCode a)))))
  | TGetCodeHash a => (db, ABytes (if bool_decide (a ∈ here db) then "h" +:+ f (CCode a) else EmptyString))
  | TGetState a k => (db, ABytes (BytesToHash (f (CSlot a k))))
  | TSetState a k v => (set_field db a (CSlot a k) v, ABytes (f (CSlot a k)))
  | TGetCommittedState a k => (db, ABytes (f (CCommitted a k)))
  | TExist a => (db, AFlag (bool_decide (a ∈ here db)))
  | TEmpty a => (db, AFlag (negb (bool_decide (a ∈ here db)) || bool_decide (number (f (CBalance a)) = 0%Z) && bool_decide (number (f (CNonce a)) = 0%Z) && bool_decide (f (CCode a) = EmptyString)))
  | TCreateAccount a => (created db a, AUnit)
  | TSelfDestruct a | TSelfdestruct6780 a => (destructed db a, AUnit)
  | THasSelfDestructed a => (db, AFlag (bool_decide (f (CDestructed a) = "1")))
  | TGetStorageRoot a => (db, ABytes (f (CRoot a)))
  | TCreateContract a => (logged db a, AUnit)
  | TInherited name => (logged db name, ABytes (f CRest))
  end.

#[export] Instance map_ops : StateOps mapdb := {
  perform := map_perform;
  snapshot := fun db => (mkMapdb (here db) (fields db) (saved db ++ [(here db, fields db)]), Z.of_nat (length (saved db)));
  revert_to := fun db id => match saved db !! Z.to_nat id with Some (h, f) => mkMapdb h f (take (Z.to_nat id) (saved db)) | None => db end;
  present := fun db a => bool_decide (a ∈ here db);
  field_of := fields }.

Lemma map_saved_perform db o : saved (map_perform db o).1 = saved db.
Proof. destruct o; try done; cbn; unfold destructed; by destruct (bool_decide _). Qed.

Lemma map_saved {A} (p : tprog A) : forall db n, n <= length (saved db) -> n <= length (saved (run_db db p).1) /\ take n (saved (run_db db p).1) = take n (saved db).
Proof.
  induction p as [A a|A o k IH|A body IHb k IHk]; intros db n Hn; cbn [run_db]; [done| |].
  - pose proof (map_saved_perform db (forwarded o)) as E. cbn [perform map_ops]. destruct (map_perform db (forwarded o)) as [db1 r]. cbn [fst] in E. rewrite <- E in *. by apply IH.
  - cbn [snapshot map_ops]. set (db0 := mkMapdb (here db) (fields db) (saved db ++ [(here db, fields db)])).
    destruct (IHb db0 n) as [L1 T1]; [cbn; rewrite length_app; lia|]. destruct (IHb db0 (length (saved db))) as [L2 T2]; [cbn; rewrite length_app; lia|].
    destruct (run_db db0 body) as [db1 f]. cbn [fst] in *. assert (take n (saved db0) = take n (saved db)) as E by (cbn; by rewrite take_app_le).
    destruct (failed f); [|destruct (IHk f db1 n L1) as [L T]; split; [done|]; by rewrite T, T1].
    cbn [revert_to map_ops]. rewrite Nat2Z.id. destruct (saved db1 !! length (saved db)) as [[h g]|] eqn:El; [|destruct (IHk f db1 n L1) as [L T]; split; [done|]; by rewrite T, T1].
    destruct (IHk f (mkMapdb h g (take (length (saved db)) (saved db1))) n) as [L T]; [cbn; rewrite List.length_firstn; lia|]. split; [done|]. rewrite T. cbn. rewrite take_take, Nat.min_l by lia. by rewrite T1.
Qed.

Definition is_exist (c : cellname) : bool := match c with CExist _ => true | _ => false end.

Lemma look_here (db db' : mapdb) a x : here db' = {[a]} ∪ here db -> look db' (CExist x) = if decide (x = a) then "1" else look db (CExist x).
Proof.
  intros E. cbn. rewrite E. destruct (decide (x = a)) as [-> |Hne]; [by rewrite bool_decide_eq_true_2 by set_solver|].
  by rewrite (bool_decide_ext (x ∈ {[a]} ∪ here db) (x ∈ here db)) by set_solver.
Qed.

Lemma look_set_field db a c0 v c : is_exist c0 = false -> look (set_field db a c0 v) c = if decide (c = c0) then v else if decide (c = CExist a) then "1" else look db c.
Proof.
  intros H0. destruct c as [x|x|x|x|x|x k|x k|x|]; try (unfold set_field; cbn; unfold put; case_decide; [done|by rewrite decide_False by done]).
  rewrite (look_here db _ a x) by done. rewrite (decide_False (P := CExist x = c0)) by (intros <-; done). repeat case_decide; try done; congruence.
Qed.

Lemma look_created db a c : look (created db a) c = if decide (c = CExist a) then "1" else if decide (c = CBalance a \/ c = CNonce a \/ c = CCode a \/ c = CDestructed a) then EmptyString else look db c.
Proof.
  destruct c as [x|x|x|x|x|x k|x k|x|]; try (unfold created; cbn; unfold put; repeat case_decide; simplify_eq; naive_solver).
  rewrite (look_here db _ a x) by done. rewrite (decide_False (P := _ \/ _)) by naive_solver. repeat case_decide; try done; congruence.
Qed.

Lemma look_destructed db a c : look (destructed db a) c =
  if decide (c = CBalance a) then EmptyString else if decide (c = CDestructed a) then look db (CExist a) else look db c.
Proof. unfold destructed. cbn [look present map_ops]. destruct (bool_decide (a ∈ here db)); destruct c; cbn; unfold put; try done; repeat case_decide; simplify_eq; done. Qed.

Lemma look_logged db n c : look (logged db n) c = if decide (c = CRest) then look db CRest +:+ n else look db c.
Proof. unfold logged. destruct c; cbn; unfold put; try done; repeat case_decide; simplify_eq; done. Qed.

#[export] Instance map_laws : StateLaws (DB := mapdb).
Proof.
  split.
  - intros db o c _ Hc. destruct o; cbn [perform map_ops map_perform fst]; try done; cbn [touches] in Hc;
      rewrite ?look_set_field, ?look_created, ?look_destructed, ?look_logged by done; rewrite ?decide_False by tauto; done.
  - intros db db' o _ _ Hd. destruct o; cbn [perform map_ops map_perform fst snd used]; cbn [depends] in Hd;
      try match type of Hd with forall c, c = ?x -> _ => specialize (Hd x eq_refl) end;
      (split; [|intros cc; cbn [touches]; intros Ht; try done; rewrite ?look_set_field, ?look_created, ?look_destructed, ?look_logged by done; repeat case_decide; try done; try tauto]);
      try (change (fields db) with (look db)); try (cbn in Hd |- *; by rewrite ?Hd); try (cbn in Hd; by rewrite Hd); try (f_equal; exact Hd).
    + pose proof (present_look db db' a (Hd (CExist a) (or_intror eq_refl))) as Hp. cbn in Hp. pose proof (Hd (CCode a) (or_introl eq_refl)) as Hc. cbn in Hc. by rewrite Hp, Hc.
    + f_equal. exact (present_look db db' a Hd).
    + pose proof (present_look db db' a (Hd (CExist a) (or_introl eq_refl))) as Hp. cbn in Hp.
      pose proof (Hd (CBalance a) ltac:(tauto)) as H1. pose proof (Hd (CNonce a) ltac:(tauto)) as H2. pose proof (Hd (CCode a) ltac:(tauto)) as H3. cbn in H1, H2, H3. by rewrite Hp, H1, H2, H3.
  - intros db o a Ha. cbn in Ha |- *. apply bool_decide_eq_true in Ha. apply bool_decide_eq_true.
    destruct o; cbn; try done; try set_solver. all: unfold destructed; by destruct (bool_decide _).
  - done.
  - intros A p db c _. cbn [snapshot map_ops fst snd revert_to]. rewrite Nat2Z.id. set (db0 := mkMapdb (here db) (fields db) (saved db ++ [(here db, fields db)])).
    destruct (map_saved p db0 (S (length (saved db)))) as [L T]; [cbn; rewrite length_app; cbn; lia|].
    assert (saved (run_db db0 p).1 !! length (saved db) = Some (here db, fields db)) as ->; [|by destruct c].
    rewrite <- (lookup_take_lt _ (S (length (saved db)))) by lia. rewrite T, lookup_take_lt by lia. cbn. by apply list_lookup_middle.
Qed.

(** ** Examples *)
Definition no_keccak (x : string) : string := x.
Definition people : mapdb := mkMapdb {["alice"; "bob"; "carol"]} (put (fun _ => EmptyString) (CBalance "alice") (word 100)) [].
Definition people' : mapdb := mkMapdb {["alice"; "bob"; "carol"]} (put (fields people) (CBalance "carol") (word 7)) [].

(** A transfer, then a call that stores and fails. *)
Definition payment : tprog Z :=
  PDo (TSubBalance "alice" 5) (fun _ => PDo (TAddBalance "bob" 5) (fun _ =>
  PFrame (PDo (TSetState "bob" "k" "v") (fun _ => PDone (mkEnd EmptyString 0 (Some "reverted")))) (fun f =>
  PDo (TGetBalance "bob") (fun r => PDone (match r with ANumber z => z | _ => 0%Z end))))).

Lemma put_ne f c v c' : c' <> c -> put f c v c' = f c'.
Proof. intros H. unfold put. by rewrite decide_False. Qed.

Lemma tracker_writes_cover_witness :
  allowed_run people payment /\
  let '(t, _) := run no_keccak (newRWTracker people) payment in
  look (inner t) (CBalance "bob") <> look people (CBalance "bob") /\ look (inner t) (CSlot "bob" "k") = look people (CSlot "bob" "k") /\
  exists k, key_of_cell no_keccak (CBalance "bob") = Some k /\ k ∈ SortedWriteKeys t.
Proof.
  assert (allowed_run people payment) as Ha by (vm_compute; repeat split). split; [exact Ha|].
  pose proof (tracker_writes_cover no_keccak payment people Ha) as H. destruct (run no_keccak (newRWTracker people) payment) as [t x] eqn:E.
  assert (t = (run no_keccak (newRWTracker people) payment).1) as Et by (rewrite E; reflexivity).
  assert (look (inner t) (CBalance "bob") <> look people (CBalance "bob")) as Hne by (rewrite Et; vm_compute; discriminate).
  split; [exact Hne|]. split; [rewrite Et; vm_compute; reflexivity|]. destruct (H _ Hne) as [Hk|[Hr|(a & Hr & _)]]; [exact Hk|discriminate Hr|discriminate Hr].
Defined.


(** A payment to an absent account creates it; the tracker records the balance
    and not the existence another transaction may ask for. *)
Lemma creation_not_recorded :
  let t := (run no_keccak (newRWTracker people) (PDo (TAddBalance "dave" 1) (fun _ => PDone tt))).1 in
  look (inner t) (CExist "dave") <> look people (CExist "dave") /\ acct no_keccak "dave" "exist" ∉ SortedWriteKeys t.
Proof. split; [vm_compute; discriminate|]. apply (bool_decide_unpack _). vm_compute. exact I. Qed.

(** The hash of an absent account's code is not that of an empty one; the
    tracker records only the code as read. *)
Lemma code_hash_reads_existence :
  let without := mkMapdb {["alice"; "bob"]} (fields people) [] in
  (run no_keccak (newRWTracker people) (PDo (TGetCodeHash "carol") PDone)).2 <> (run no_keccak (newRWTracker without) (PDo (TGetCodeHash "carol") PDone)).2 /\
  SortedReadKeys (run no_keccak (newRWTracker people) (PDo (TGetCodeHash "carol") PDone)).1 = [acct no_keccak "carol" "code"] /\
  look people (CCode "carol") = look without (CCode "carol").
Proof. vm_compute. split; [discriminate|]. split; reflexivity. Qed.
