(* ===== verification/Replayd.v ===== *)
(** * Execution of transactions in the replay daemon: [cmd/eth-replayd/replayd]

    [PreExecuteTx] ([preexec.go]) runs one transaction on a tracked state, with
    its own intrinsic gas, nonce check and purchase of gas, and reports the keys
    it read and wrote.  [ExecuteBlock] ([tx_executor.go]) fills a fresh state from
    a block witness and runs the calls of a block on it, without a tracker.

    The state database is an instance of [StateLaws] ([Tracker]).  The EVM of the
    daemon's go-ethereum module is a program over its operations, and so is
    [core.CanTransfer]; the [uint256] parser, the fork rules and the state roots
    of that module are arguments.  A decoded JSON object is a record of its
    fields, [None] for one that is missing or of another type. *)
From stdpp Require Import base list gmap strings sorting pretty.
From Stdlib Require Import ZArith Lia.
From S2P Require Import Prelude GoText KeyDerive WitnessExport StateDB HexKeys Levm Tracker.

Set Default Goal Selector "!".
Local Open Scope string_scope.
Local Open Scope list_scope.
Local Notation len := String.length.

(** ** Intrinsic gas *)
Definition mulUint64 (a b : Z) : Z * bool :=
  if bool_decide (a = 0%Z) || bool_decide (b = 0%Z) then (0%Z, false)
  else let r := wrap_uint64 (a * b) in (r, negb (bool_decide (a = r / b)%Z)).
Definition addUint64 (a b : Z) : Z * bool := let r := wrap_uint64 (a + b) in (r, bool_decide (r < a)%Z).

Definition simpleIntrinsicGas (data : string) (contractCreation homestead isEIP2028 : bool) : option Z :=
  let gas := (if contractCreation && homestead then 53000 else 21000)%Z in
  if bool_decide (0 < len data) then
    let nz := nonzero_bytes data in
    let nonZeroGas := (if isEIP2028 then 16 else 68)%Z in
    let z := wrap_uint64 (Z.of_nat (len data) - nz) in
    let '(gasNonZero, overflow) := mulUint64 nonZeroGas nz in
    if overflow : bool then None else
    let '(gasZero, overflow) := mulUint64 4 z in
    if overflow : bool then None else
    let '(next, overflow) := addUint64 gas gasNonZero in
    if overflow : bool then None else
    let '(gas, overflow) := addUint64 next gasZero in
    if overflow : bool then None else Some gas
  else Some gas.

(** ** The block environment *)
Record BlockEnv := mkBlockEnv {
  env_BlockNumber : Z; env_BlockHash : Hash; env_ParentHash : Hash; env_Timestamp : Z; env_GasLimit : Z;
  env_BaseFee : option Z; env_PrevRandao : Hash; env_Coinbase : Address; env_BlockHashWindow : gmap Z Hash }.

(** The header; its numbers are already truncated to [uint64]. *)
Record raw_header := mkRawHeader {
  h_number : option Z; h_hash : option string; h_parentHash : option string; h_timestamp : option Z; h_gasLimit : option Z;
  h_baseFeePerGas : option string; h_prevRandao : option string; h_beneficiary : option string }.

Definition zero_address : Address := zeros 20.

(** [leftover] is what a failing [SetString] leaves in its receiver. *)
Definition BuildBlockEnv (leftover : string -> Z) (header : raw_header) (blockHashWindow : gmap Z Hash) : BlockEnv :=
  let hash (v : option string) := match v with Some v => HexToHash v | None => zero_hash end in
  mkBlockEnv (default 0%Z (h_number header)) (hash (h_hash header)) (hash (h_parentHash header)) (default 0%Z (h_timestamp header)) (default 0%Z (h_gasLimit header))
    (match h_baseFeePerGas header with Some v => Some (match SetString0 v with Some z => z | None => leftover v end) | None => None end)
    (hash (h_prevRandao header)) (match h_beneficiary header with Some v => HexToAddress v | None => zero_address end) blockHashWindow.

(** ** Transactions *)
Record raw_tx := mkRawTx {
  j_hash : option string; j_from : option string; j_to : option string; j_value : option string; j_gas : option Z;
  j_gasPrice : option string; j_maxFeePerGas : option string; j_input : option string; j_nonce : option Z }.

Definition tx_sender (tx : raw_tx) : Address := match j_from tx with Some v => HexToAddress v | None => zero_address end.
Definition tx_to (tx : raw_tx) : option Address :=
  match j_to tx with Some to => if bool_decide (to = EmptyString) || bool_decide (to = "0x") then None else Some (HexToAddress to) | None => None end.
Definition tx_data (tx : raw_tx) : string :=
  match j_input tx with Some d => if bool_decide (d = EmptyString) || bool_decide (d = "0x") then EmptyString else FromHex d | None => EmptyString end.
Definition tx_gas (tx : raw_tx) : Z := default 0%Z (j_gas tx).
Definition tx_hash (tx : raw_tx) : string := default EmptyString (j_hash tx).

(** What the EVM is called with; [msg_to] is [None] for a creation. *)
Record message := mkMessage { msg_sender : Address; msg_to : option Address; msg_data : string; msg_value : Z; msg_gasPrice : option Z; msg_gas : Z }.

(** [uint256.Mul]. *)
Definition mul256 (a b : Z) : Z := ((a * b) `mod` two256)%Z.

Definition as_number (r : answer) : Z := match r with ANumber z => z | _ => 0%Z end.

Section replayd.
Context (keccak256 : string -> string).
Context (SetFromHex : string -> option Z).
Context (IsHomestead IsIstanbul : Z -> bool).
Context (CanTransfer : Address -> Z -> tprog bool).
Context (evm : BlockEnv -> message -> tprog frame_end).

Definition tx_value (tx : raw_tx) : Z := default 0%Z (j_value tx ≫= SetFromHex).

Definition tx_price (env : BlockEnv) (tx : raw_tx) : option Z :=
  match j_gasPrice tx ≫= SetFromHex with
  | Some gp => Some gp
  | None =>
    match j_maxFeePerGas tx ≫= SetFromHex with
    | None => None
    | Some maxFee =>
      Some (match env_BaseFee env with
            | Some fee => let baseFee := (fee `mod` two256)%Z in if bool_decide (maxFee < baseFee)%Z then maxFee else baseFee
            | None => maxFee
            end)
    end
  end.

(** ** [PreExecuteTx] *)

(** A failing end; the snapshot is reverted to. *)
Definition fails (tx : raw_tx) (e : string) : tprog frame_end := PDone (mkEnd EmptyString (tx_gas tx) (Some e)).

(** After a call that left [remaining] gas. *)
Definition settle_gas (env : BlockEnv) (sender : Address) (gasLimit intrinsicGas gasPrice remaining : Z) : tprog frame_end :=
  let refundCap := (wrap_uint64 (gasLimit - intrinsicGas - remaining) / 2)%Z in
  let remaining := wrap_uint64 (remaining + refundCap) in
  let refundWei := mul256 (wrap_uint64 (gasLimit - remaining)) gasPrice in
  let remaining := if bool_decide (gasLimit < remaining)%Z then gasLimit else remaining in
  PDo (TAddBalance sender refundWei) (fun _ =>
  let coinbaseFee := mul256 (wrap_uint64 (gasLimit - remaining)) gasPrice in
  PDo (TAddBalance (env_Coinbase env) coinbaseFee) (fun _ =>
  PDone (mkEnd EmptyString (wrap_uint64 (gasLimit - remaining)) None))).

(** From the snapshot on; the gas of the end is the gas used. *)
Definition pre_execute (env : BlockEnv) (tx : raw_tx) : tprog frame_end :=
  let sender := tx_sender tx in let gasLimit := tx_gas tx in let data := tx_data tx in let gasPrice := default 0%Z (tx_price env tx) in
  match simpleIntrinsicGas data (bool_decide (tx_to tx = None)) (IsHomestead (env_BlockNumber env)) (IsIstanbul (env_BlockNumber env)) with
  | None => fails tx "intrinsic gas: intrinsic gas overflow"
  | Some intrinsicGas =>
    if bool_decide (gasLimit < intrinsicGas)%Z then fails tx "out of gas (intrinsic)" else
    PDo (TGetNonce sender) (fun r =>
    let storedNonce := as_number r in let txNonce := default 0%Z (j_nonce tx) in
    if negb (bool_decide (storedNonce = txNonce)) then fails tx ("nonce mismatch: want " +:+ pretty storedNonce +:+ " got " +:+ pretty txNonce) else
    PDo (TSetNonce sender (wrap_uint64 (storedNonce + 1))) (fun _ =>
    let upfront := mul256 gasLimit gasPrice in
    PDo (TGetBalance sender) (fun r =>
    if bool_decide (as_number r < upfront)%Z then fails tx "insufficient balance for gas" else
    PDo (TSubBalance sender upfront) (fun _ =>
    pbind (CanTransfer sender (tx_value tx)) (fun can =>
    if negb can then fails tx "insufficient balance for transfer" else
    pbind (evm env (mkMessage sender (tx_to tx) data (tx_value tx) (Some gasPrice) (wrap_uint64 (gasLimit - intrinsicGas)))) (fun f =>
    match end_err f with
    | Some vmerr => fails tx vmerr
    | None => settle_gas env sender gasLimit intrinsicGas gasPrice (end_gas f)
    end))))))
  end.

Record PreExecResult := mkPreExec {
  pre_TxIndex : Z; pre_TxHash : string; pre_Success : bool; pre_GasUsed : Z; pre_ReadKeys : list string; pre_WriteKeys : list string; pre_Error : string }.

Section state.
Context {DB : Type} `{StateOps DB}.

(** On a state that is not [nil]: the state afterwards, and the result or an error. *)
Definition pre_execute_tx (db : DB) (env : BlockEnv) (txRaw : option raw_tx) (txIdx : Z) : DB * (PreExecResult + string) :=
  match txRaw with
  | None => (db, inr ("invalid tx format at index " +:+ pretty txIdx))
  | Some tx =>
    let '(t, f) := run keccak256 (newRWTracker db) (PFrame (pre_execute env tx) PDone) in
    (inner t, inl (mkPreExec txIdx (tx_hash tx) (negb (failed f)) (end_gas f) (SortedReadKeys t) (SortedWriteKeys t) (default EmptyString (end_err f))))
  end.

Definition PreExecuteTx (baseState : option DB) (env : BlockEnv) (txRaw : option raw_tx) (txIdx : Z) : option DB * (PreExecResult + string) :=
  match baseState with
  | None => (None, inr "baseState is nil")
  | Some db => let '(db, r) := pre_execute_tx db env txRaw txIdx in (Some db, r)
  end.

(** ** [ExecuteBlock] *)
Section block.
Context (IsEIP158 : Z -> bool) (state_New : string + DB) (IntermediateRoot : DB -> bool -> DB * Hash).
Context (rng : gset string -> list string).

(** Well-formed transactions. *)
Definition is_Some_b (x : option raw_tx) : bool := match x with Some _ => true | None => false end.

Definition effect (db : DB) (o : top) : DB := (perform db o).1.

(** One account of a witness; a [nil] account is a nil dereference. *)
Definition inject_witness_account (accts : gmap string (option WitnessAccount)) (db : DB) (addr : string) : outcome DB :=
  if negb (IsHexAddress addr) then Ret db else
  let address := HexToAddress addr in
  let db := effect db (TCreateAccount address) in
  match mjoin (accts !! addr) with
  | None => Panics
  | Some a =>
    let db := if bool_decide (w_Balance a = EmptyString) then db else match SetFromHex (w_Balance a) with Some bal => effect db (TSetBalance address bal) | None => db end in
    let db := if bool_decide (w_Nonce a = EmptyString) then db else match SetString0 (w_Nonce a) with Some nonce => effect db (TSetNonce address (wrap_uint64 (Z.abs nonce))) | None => db end in
    let db := if bool_decide (w_Code a = EmptyString) then db else effect db (TSetCode address (FromHex (w_Code a))) in
    Ret (foldl (fun db slot => effect db (TSetState address (HexToHash slot) (HexToHash (default EmptyString (w_Storage a !! slot))))) db (rng (dom (w_Storage a))))
  end.

Definition inject_witness (witness : option (gmap string (option WitnessAccount))) (db : DB) : outcome DB :=
  match witness with None => Ret db | Some accts => foldM (inject_witness_account accts) db (rng (dom accts)) end.

Definition BuildBaseStateDB (witness : option (gmap string (option WitnessAccount))) (blockNum : Z) : outcome (string + DB * Hash) :=
  match state_New with
  | inl e => Ret (inl ("create state db: " +:+ e))
  | inr sdb => sdb ← inject_witness witness sdb; Ret (inr (IntermediateRoot sdb (IsEIP158 blockNum)))
  end.

Record TxExecResult := mkTxExec { res_TxHash : string; res_TxIndex : Z; res_Success : bool; res_GasUsed : Z; res_Output : string; res_Error : string }.

Definition executeTx (sdb : DB) (env : BlockEnv) (txRaw : option raw_tx) (txIdx : Z) : DB * TxExecResult * option string :=
  match txRaw with
  | None => (sdb, mkTxExec EmptyString txIdx false 0 EmptyString "invalid tx format", Some ("invalid tx format at index " +:+ pretty txIdx))
  | Some tx =>
    let gasLimit := tx_gas tx in
    let '(sdb, f) := run_db sdb (PFrame (evm env (mkMessage (tx_sender tx) (tx_to tx) (tx_data tx) (tx_value tx) (tx_price env tx) gasLimit)) PDone) in
    (sdb, mkTxExec (tx_hash tx) txIdx (negb (failed f)) (wrap_uint64 (gasLimit - end_gas f)) (end_ret f) (default EmptyString (end_err f)), None)
  end.

Record BlockExecResult := mkBlockExec {
  blk_BlockNumber : Z; blk_StateRoot : Hash; blk_PreStateRoot : Hash; blk_PostStateRoot : Hash; blk_TxResults : list TxExecResult; blk_AllSuccess : bool; blk_MissesFound : Z }.

Record BlockDataset := mkDataset { ds_Header : raw_header; ds_Transactions : list (option raw_tx); ds_Witness : option (gmap string (option WitnessAccount)) }.

(** The loop over the transactions, at index [txIdx]. *)
Fixpoint execute_txs (env : BlockEnv) (sdb : DB) (txIdx : Z) (txs : list (option raw_tx)) : DB * list TxExecResult * bool * Z :=
  match txs with
  | [] => (sdb, [], true, 0%Z)
  | txRaw :: txs =>
    let '(sdb, r, err) := executeTx sdb env txRaw txIdx in
    let '(sdb, rs, all_ok, misses) := execute_txs env sdb (txIdx + 1) txs in
    match err with
    | Some e => (sdb, mkTxExec (res_TxHash r) (res_TxIndex r) false (res_GasUsed r) (res_Output r) e :: rs, false, (misses + 1)%Z)
    | None => (sdb, r :: rs, all_ok, misses)
    end
  end.

Definition ExecuteBlock (leftover : string -> Z) (blockData : BlockDataset) (blockHashWindow : gmap Z Hash) : outcome (string + DB * BlockExecResult) :=
  match state_New with
  | inl e => Ret (inl ("create state db: " +:+ e))
  | inr sdb =>
    let blockNum := default 0%Z (h_number (ds_Header blockData)) in
    sdb ← inject_witness (ds_Witness blockData) sdb;
    let isEIP158 := IsEIP158 blockNum in
    let '(sdb, preStateRoot) := IntermediateRoot sdb isEIP158 in
    let blockEnv := BuildBlockEnv leftover (ds_Header blockData) blockHashWindow in
    let '(sdb, rs, all_ok, misses) := execute_txs blockEnv sdb 0 (ds_Transactions blockData) in
    let '(sdb, postStateRoot) := IntermediateRoot sdb isEIP158 in
    Ret (inr (sdb, mkBlockExec blockNum postStateRoot preStateRoot postStateRoot rs all_ok misses))
  end.
End block.

(** ** Properties *)
Lemma mulUint64_exact a b : (0 <= a)%Z -> (0 <= b)%Z ->
  mulUint64 a b = (wrap_uint64 (a * b), bool_decide (2^64 <= a * b)%Z).
Proof.
  intros Ha Hb. unfold mulUint64. destruct (decide (a = 0 \/ b = 0)%Z) as [H0|H0].
  - assert (a * b = 0)%Z as -> by lia. destruct H0 as [-> | ->]; rewrite ?orb_true_r; done.
  - rewrite !bool_decide_false by lia. cbn [orb]. f_equal. case_bool_decide as E; case_bool_decide as E2; try done.
    + exfalso. pose proof (wrap_uint64_range (a * b)). assert (wrap_uint64 (a * b) / b < a)%Z; [|lia]. apply Z.div_lt_upper_bound; lia.
    + exfalso. apply E. rewrite wrap_uint64_id by nia. by rewrite Z.div_mul by lia.
Qed.

Lemma addUint64_exact a b : (0 <= a < 2^64)%Z -> (0 <= b < 2^64)%Z ->
  addUint64 a b = (wrap_uint64 (a + b), bool_decide (2^64 <= a + b)%Z).
Proof.
  intros Ha Hb. unfold addUint64. f_equal. apply bool_decide_ext. destruct (decide (2^64 <= a + b)%Z) as [E|E].
  - assert (wrap_uint64 (a + b) = a + b - 2^64)%Z as ->; [|lia]. unfold wrap_uint64. symmetry. apply (Z.mod_unique_pos _ _ 1); lia.
  - rewrite wrap_uint64_id by lia. lia.
Qed.

(** The daemon's intrinsic gas is the sum of the prices, or an overflow when that
    does not fit in 64 bits. *)
Lemma simpleIntrinsicGas_exact data c h e : (Z.of_nat (len data) < 2^63)%Z ->
  simpleIntrinsicGas data c h e = if bool_decide (intrinsic_total data c h e <= MaxUint64)%Z then Some (intrinsic_total data c h e) else None.
Proof.
  intros Hl. pose proof (nonzero_bytes_bound data) as Hn. unfold simpleIntrinsicGas, intrinsic_total.
  set (base := (if c && h then 53000 else 21000)%Z). assert (21000 <= base <= 53000)%Z as Hb by (unfold base; destruct (c && h); lia).
  set (price := (if e then 16 else 68)%Z). assert (16 <= price <= 68)%Z as Hp by (unfold price; destruct e; lia). change MaxUint64 with (2^64 - 1)%Z.
  case_bool_decide as Hlen.
  2: { assert (nonzero_bytes data = 0 /\ Z.of_nat (len data) = 0)%Z as [-> ->] by lia. rewrite bool_decide_true by lia. f_equal. lia. }
  set (nz := nonzero_bytes data) in *. set (n := Z.of_nat (len data)) in *. rewrite (wrap_uint64_id (n - nz)) by lia. rewrite !mulUint64_exact by lia.
  case_bool_decide as H1; [by rewrite bool_decide_false by nia|]. rewrite (wrap_uint64_id (price * nz)) by nia.
  case_bool_decide as H2; [by rewrite bool_decide_false by nia|]. rewrite (wrap_uint64_id (4 * _)) by nia. rewrite addUint64_exact by nia.
  case_bool_decide as H3; [by rewrite bool_decide_false by nia|]. rewrite (wrap_uint64_id (base + _)) by nia. rewrite addUint64_exact by nia.
  case_bool_decide as H4; [by rewrite bool_decide_false by nia|]. rewrite bool_decide_true, wrap_uint64_id by nia. f_equal. lia.
Qed.

Lemma run_pbind {A B} (p : tprog A) (f : A -> tprog B) : forall t : rwTracker, run keccak256 t (pbind p f) = let '(t, a) := run keccak256 t p in run keccak256 t (f a).
Proof.
  induction p as [A a|A o k IH|A body IHb k IHk]; intros t; cbn [pbind run]; [done| |].
  - destruct (tracked keccak256 t o) as [t1 r]. apply IH.
  - destruct (snapshot (inner t)) as [db id]. destruct (run keccak256 (with_inner t db) body) as [t1 g]. apply IHk.
Qed.

Lemma run_PDo {A} (t : rwTracker) o (k : answer -> tprog A) : run keccak256 t (PDo o k) = run keccak256 (tracked keccak256 t o).1 (k (used o (tracked keccak256 t o).2)).
Proof. cbn [run]. by destruct (tracked keccak256 t o). Qed.

(** The keys an end state has recorded as written. *)
Definition charged (env : BlockEnv) (tx : raw_tx) (ws : gset string) : Prop :=
  acct keccak256 (tx_sender tx) "nonce" ∈ ws /\ acct keccak256 (tx_sender tx) "balance" ∈ ws /\ acct keccak256 (env_Coinbase env) "balance" ∈ ws.

(** The intrinsic gas of a transaction. *)
Definition intrinsic_of (env : BlockEnv) (tx : raw_tx) : Z :=
  intrinsic_total (tx_data tx) (bool_decide (tx_to tx = None)) (IsHomestead (env_BlockNumber env)) (IsIstanbul (env_BlockNumber env)).

Record PreEnd (env : BlockEnv) (tx : raw_tx) (t t' : rwTracker (DB := DB)) (f : frame_end) : Prop := {
  pe_fail : failed f = true -> end_gas f = tx_gas tx;
  pe_gas : failed f = false -> (intrinsic_of env tx <= end_gas f <= tx_gas tx)%Z;
  pe_nonce : failed f = false -> as_number (perform (inner t) (TGetNonce (tx_sender tx))).2 = default 0%Z (j_nonce tx);
  pe_keys : failed f = false -> charged env tx (writes t') }.

Lemma PreEnd_fails env tx t t' e : PreEnd env tx t t' (mkEnd EmptyString (tx_gas tx) (Some e)).
Proof. by split. Qed.

(** Half of the gas a call used is given back. *)
Lemma settle_run env tx t g : (0 <= tx_gas tx < 2^64)%Z -> (0 <= intrinsic_of env tx)%Z -> (intrinsic_of env tx <= tx_gas tx)%Z -> (0 <= g <= tx_gas tx - intrinsic_of env tx)%Z ->
  forall price, let '(t', f) := run keccak256 t (settle_gas env (tx_sender tx) (tx_gas tx) (intrinsic_of env tx) price g) in
  failed f = false /\ (intrinsic_of env tx <= end_gas f <= tx_gas tx)%Z /\
  writes t ∪ {[acct keccak256 (tx_sender tx) "balance"; acct keccak256 (env_Coinbase env) "balance"]} ⊆ writes t'.
Proof.
  intros Hl Hi Hil Hg price. unfold settle_gas. cbv zeta. rewrite !run_PDo. cbn [run]. split; [done|]. cbn [end_gas].
  set (i := intrinsic_of env tx) in *. set (l := tx_gas tx) in *. rewrite (wrap_uint64_id (l - i - g)) by lia.
  assert (0 <= (l - i - g) / 2 <= l - i - g)%Z as Hh by (split; [apply Z.div_pos; lia|apply Z.div_le_upper_bound; lia]).
  rewrite (wrap_uint64_id (g + _)) by lia. rewrite bool_decide_false by lia. rewrite wrap_uint64_id by lia. split; [lia|].
  unfold tracked. destruct (perform (inner t) _) as [d r]. cbn [fst snd inner forwarded]. destruct (perform d _) as [d' r']. cbn [fst writes tracked_writes]. set_solver.
Qed.

Lemma tracked_keys t o : writes (tracked keccak256 t o).1 = writes t ∪ list_to_set (tracked_writes keccak256 o).
Proof. unfold tracked. by destruct (perform (inner t) (forwarded o)). Qed.

Lemma tracked_answer t o : (tracked keccak256 t o).2 = (perform (inner t) (forwarded o)).2.
Proof. unfold tracked. by destruct (perform (inner t) (forwarded o)). Qed.

Context {Laws : StateLaws (DB := DB)}.

(** A call returns at most the gas it was given. *)
Context (Hevm : forall env m db, (0 <= msg_gas m)%Z -> (0 <= end_gas (run_db db (evm env m)).2 <= msg_gas m)%Z).

Lemma pre_execute_ends env tx t : (0 <= tx_gas tx < 2^64)%Z -> (Z.of_nat (len (tx_data tx)) < 2^63)%Z ->
  PreEnd env tx t (run keccak256 t (pre_execute env tx)).1 (run keccak256 t (pre_execute env tx)).2.
Proof.
  intros Hg Hd. unfold pre_execute. cbv zeta. rewrite simpleIntrinsicGas_exact by done. fold (intrinsic_of env tx).
  case_bool_decide as Hi; [|apply PreEnd_fails]. case_bool_decide as Ho; [apply PreEnd_fails|].
  rewrite run_PDo, tracked_answer. cbn [used forwarded]. case_bool_decide as Hn; [|apply PreEnd_fails]. cbn [negb].
  set (t1 := (tracked keccak256 t _).1). rewrite run_PDo. set (t2 := (tracked keccak256 t1 _).1). rewrite run_PDo. set (t3 := (tracked keccak256 t2 _).1).
  case_bool_decide; [apply PreEnd_fails|]. rewrite run_PDo. set (t4 := (tracked keccak256 t3 _).1).
  assert (acct keccak256 (tx_sender tx) "nonce" ∈ writes t4) as Hw.
  { unfold t4, t3, t2. rewrite !tracked_keys. cbn [tracked_writes]. set_solver. }
  rewrite run_pbind. pose proof (proj1 (run_writes_mono keccak256 (CanTransfer (tx_sender tx) (tx_value tx)) t4)) as Hw5.
  destruct (run keccak256 t4 (CanTransfer _ _)) as [t5 can]. destruct can; [|apply PreEnd_fails]. cbn [negb fst] in *.
  set (m := mkMessage _ _ _ _ _ _). rewrite run_pbind. pose proof (proj1 (run_writes_mono keccak256 (evm env m) t5)) as Hw6.
  pose proof (run_inner keccak256 (evm env m) t5) as [Er _]. assert (0 <= intrinsic_of env tx)%Z as Hi0.
  { unfold intrinsic_of, intrinsic_total. pose proof (nonzero_bytes_bound (tx_data tx)). repeat case_match; lia. }
  pose proof (Hevm env m (inner t5)) as He. cbn [msg_gas m] in He. rewrite wrap_uint64_id in He by lia.
  destruct (run keccak256 t5 (evm env m)) as [t6 f]. cbn [fst snd] in *. rewrite <- Er in He. destruct (end_err f) as [e|]; [apply PreEnd_fails|].
  pose proof (settle_run env tx t6 (end_gas f) Hg Hi0 ltac:(lia) ltac:(lia) (default 0%Z (tx_price env tx))) as Hs.
  destruct (run keccak256 t6 (settle_gas _ _ _ _ _ _)) as [t7 f']. destruct Hs as (Hf & Hgas & Hws). cbn [fst snd].
  split; [by rewrite Hf|done|done|]. intros _. split; [|split]; apply Hws; set_solver.
Qed.

(** C21: a transaction that fails uses its whole gas limit and leaves every cell of
    the state as it was; one that succeeds had the stored nonce, uses at least
    its intrinsic gas and at most its limit, and reports the nonce and the
    balance of its sender and the balance of the coinbase as written.  In both
    cases whatever changed has its key among the reported write keys, apart from
    unkeyed state and the existence of accounts that were absent. *)
Theorem PreExecuteTx_correct db env tx txIdx : (0 <= tx_gas tx < 2^64)%Z -> (Z.of_nat (len (tx_data tx)) < 2^63)%Z ->
  allowed_run db (PFrame (pre_execute env tx) PDone) ->
  exists db' r, PreExecuteTx (Some db) env (Some tx) txIdx = (Some db', inl r) /\
    (pre_Success r = false -> pre_GasUsed r = tx_gas tx /\ forall c, look db' c = look db c) /\
    (pre_Success r = true -> (intrinsic_of env tx <= pre_GasUsed r <= tx_gas tx)%Z /\
      as_number (perform db (TGetNonce (tx_sender tx))).2 = default 0%Z (j_nonce tx) /\ charged env tx (list_to_set (pre_WriteKeys r))) /\
    forall c, look db' c <> look db c -> (exists k, key_of_cell keccak256 c = Some k /\ k ∈ pre_WriteKeys r) \/ c = CRest \/ exists a, c = CExist a /\ present db a = false.
Proof.
  intros Hg Hd Ha. unfold PreExecuteTx, pre_execute_tx. pose proof (covered_run keccak256 db (PFrame (pre_execute env tx) PDone) (newRWTracker db)) as Hcov.
  cbn [run allowed_run newRWTracker inner] in *. pose proof (law_snapshot db) as Hs. pose proof (fun c => law_revert frame_end (pre_execute env tx) db c) as Hrev.
  destruct (snapshot db) as [d id]. cbn [fst snd] in *. destruct Ha as [Ha _]. set (t0 := with_inner _ d) in *.
  pose proof (pre_execute_ends env tx t0 Hg Hd) as [H1 H2 H3 H4]. pose proof (run_inner keccak256 (pre_execute env tx) t0) as [_ Ei].
  destruct (run keccak256 t0 (pre_execute env tx)) as [t f]. cbn [fst snd inner t0 with_inner] in *. destruct (Hcov) as [Hc _]; [by split|by destruct (run_db d _); repeat case_match|].
  eexists _, _. split; [reflexivity|]. cbn [pre_Success pre_GasUsed pre_WriteKeys]. unfold SortedWriteKeys. destruct (failed f) eqn:Ef; cbn [with_inner inner writes negb] in *; (split; [|split]); try done.
  - intros _. split; [by apply H1|]. intros c. rewrite Ei. by apply Hrev.
  - intros c Hx. destruct (Hc c Hx) as [(k & Hk & Hin)|?]; [|by right]. left. exists k. split; [done|]. by apply in_sorted_keys.
  - intros _. split; [by apply H2|]. split.
    + rewrite <- (H3 eq_refl). destruct (law_local db d (TGetNonce (tx_sender tx))) as [E _]; [done|done|intros c _; symmetry; apply Hs|]. cbn [used] in E. by rewrite E.
    + destruct (H4 eq_refl) as (K1 & K2 & K3). repeat split; apply elem_of_list_to_set, in_sorted_keys; done.
  - intros c Hx. destruct (Hc c Hx) as [(k & Hk & Hin)|?]; [|by right]. left. exists k. split; [done|]. by apply in_sorted_keys.
Qed.

(** A call of a block that fails leaves every cell as it was. *)
Lemma executeTx_failure sdb env tx txIdx : allowed_run sdb (PFrame (evm env (mkMessage (tx_sender tx) (tx_to tx) (tx_data tx) (tx_value tx) (tx_price env tx) (tx_gas tx))) PDone) ->
  let '(sdb', r, err) := executeTx sdb env (Some tx) txIdx in
  err = None /\ (res_Success r = false -> forall c, look sdb' c = look sdb c) /\ ((0 <= tx_gas tx < 2^64)%Z -> (0 <= res_GasUsed r <= tx_gas tx)%Z).
Proof.
  unfold executeTx. cbv zeta. set (m := mkMessage _ _ _ _ _ _). cbn [run_db allowed_run]. pose proof (fun c => law_revert frame_end (evm env m) sdb c) as Hrev.
  destruct (snapshot sdb) as [d id]. cbn [fst snd] in *. intros [Ha _]. pose proof (Hevm env m d) as He. destruct (run_db d (evm env m)) as [d1 f]. cbn [fst snd msg_gas m] in *.
  destruct (failed f) eqn:Ef; cbn [negb res_Success res_GasUsed]; (split; [done|]); (split; [|intros Hg; rewrite wrap_uint64_id; lia]); [|done]. intros _ c. by apply Hrev.
Qed.

(** A block has one result for each transaction, at its index, and [AllSuccess] and
    [MissesFound] only tell how many were malformed. *)
Lemma execute_txs_results env txs : forall sdb i,
  let '(_, rs, all_ok, misses) := execute_txs env sdb i txs in
  res_TxIndex <$> rs = (fun n => i + Z.of_nat n)%Z <$> seq 0 (length txs) /\ all_ok = forallb is_Some_b txs /\ misses = Z.of_nat (length (filter (fun x => x = None) txs)).
Proof.
  induction txs as [|x txs IH]; intros sdb i; cbn [execute_txs]; [done|].
  assert (forall r e sdb', executeTx sdb env x i = (sdb', r, e) -> res_TxIndex r = i /\ (e = None <-> x <> None)) as Hx.
  { intros r e sdb'. unfold executeTx. destruct x as [tx|]; [|by intros [= <- <- <-]]. cbv zeta. destruct (run_db _ _) as [? ?]. by intros [= <- <- <-]. }
  destruct (executeTx sdb env x i) as [[sdb' r] e]. destruct (Hx _ _ _ eq_refl) as [Ei Ee]. specialize (IH sdb' (i + 1)%Z).
  destruct (execute_txs env sdb' (i + 1) txs) as [[[sdb'' rs] ok] ms]. destruct IH as (I1 & -> & ->).
  assert ((fun n => i + Z.of_nat n)%Z <$> seq 0 (length (x :: txs)) = i :: (res_TxIndex <$> rs)) as ->.
  { rewrite I1. cbn [length seq fmap list_fmap]. f_equal; [lia|]. rewrite <- fmap_S_seq, <- list_fmap_compose. apply list_fmap_ext. intros. cbn. lia. }
  rewrite filter_cons. destruct x as [tx|].
  - assert (e = None) as -> by by apply Ee. rewrite decide_False by done. cbn. by rewrite Ei.
  - destruct e as [e|]; [|by destruct (proj1 Ee eq_refl)]. rewrite decide_True by done. cbn. rewrite Ei. split; [done|]. split; [done|lia].
Qed.

(** Bought gas that a call uses up to the last unit is paid back in full, while the
    coinbase is paid the same amount. *)
Lemma settle_exact_gas env sender gasLimit gasPrice : (0 <= gasLimit < 2^64)%Z ->
  settle_gas env sender gasLimit gasLimit gasPrice 0 =
  PDo (TAddBalance sender (mul256 gasLimit gasPrice)) (fun _ => PDo (TAddBalance (env_Coinbase env) (mul256 gasLimit gasPrice)) (fun _ => PDone (mkEnd EmptyString gasLimit None))).
Proof.
  intros Hl. unfold settle_gas. assert (wrap_uint64 (0 + wrap_uint64 (gasLimit - gasLimit - 0) / 2) = 0)%Z as -> by by rewrite Z.sub_diag.
  cbv zeta. rewrite bool_decide_false by lia. by rewrite Z.sub_0_r, wrap_uint64_id.
Qed.
End state.
End replayd.

(** ** Examples *)
Definition demo_env : BlockEnv := mkBlockEnv 1 zero_hash zero_hash 0 30000 (Some 1%Z) zero_hash (HexToAddress "0xcc") ∅.
Definition demo_tx : raw_tx := mkRawTx (Some "0x01") (Some "0xaa") (Some "0xbb") (Some "0x5") (Some 30000%Z) None (Some "0x2") (Some "0x") (Some 0%Z).
Definition demo_state : mapdb := mkMapdb {[HexToAddress "0xaa"; HexToAddress "0xcc"]} (put (fun _ => EmptyString) (CBalance (HexToAddress "0xaa")) (word 100000)) [].

(** The documented check of a balance, and calls that use all their gas. *)
Definition demo_CanTransfer (a : Address) (v : Z) : tprog bool := PDo (TGetBalance a) (fun r => PDone (bool_decide (v <= as_number r)%Z)).
Definition demo_evm (vmerr : option string) (_ : BlockEnv) (m : message) : tprog frame_end :=
  PDo (TSubBalance (msg_sender m) (msg_value m)) (fun _ => PDone (mkEnd EmptyString 0 vmerr)).
Definition always (_ : Z) : bool := true.

Lemma PreExecuteTx_correct_witness :
  exists db' r, PreExecuteTx no_keccak SetString0 always always demo_CanTransfer (demo_evm None) (Some demo_state) demo_env (Some demo_tx) 0 = (Some db', inl r) /\
    pre_Success r = true /\ (21000 <= pre_GasUsed r <= 30000)%Z /\ acct no_keccak (HexToAddress "0xcc") "balance" ∈ pre_WriteKeys r.
Proof.
  destruct (PreExecuteTx_correct no_keccak SetString0 always always demo_CanTransfer (demo_evm None)) with (db := demo_state) (env := demo_env) (tx := demo_tx) (txIdx := 0%Z) as (db' & r & E & _ & Hs & _).
  - intros env m db Hm. unfold demo_evm. cbn [run_db]. destruct (perform db _). cbn. lia.
  - done.
  - done.
  - vm_compute. repeat split.
  - exists db', r. split; [exact E|]. assert (pre_Success r = true) as Ht.
    { assert (match (PreExecuteTx no_keccak SetString0 always always demo_CanTransfer (demo_evm None) (Some demo_state) demo_env (Some demo_tx) 0).2 with inl r => pre_Success r | inr _ => false end = true) as Hc by (vm_compute; reflexivity).
      rewrite E in Hc. exact Hc. }
    split; [exact Ht|]. destruct (Hs Ht) as (Hg & _ & _ & _ & Hk). split; [exact Hg|]. by apply elem_of_list_to_set in Hk.
Defined.

(** A transfer with exactly its intrinsic gas costs its sender only the value,
    and the coinbase is paid nevertheless. *)
Lemma exact_gas_creates_money :
  let tx := mkRawTx None (Some "0xaa") (Some "0xbb") (Some "0x5") (Some 21000%Z) None (Some "0x2") None (Some 0%Z) in
  let db := (pre_execute_tx no_keccak SetString0 always always demo_CanTransfer (demo_evm None) demo_state demo_env (Some tx) 0).1 in
  number (fields db (CBalance (HexToAddress "0xaa"))) = (100000 - 5)%Z /\ number (fields db (CBalance (HexToAddress "0xcc"))) = 21000%Z.
Proof. vm_compute. split; reflexivity. Qed.

(** A block whose only transaction fails in the EVM is reported as a success. *)
Lemma failing_block_all_success :
  let '(_, rs, all_ok, misses) := execute_txs SetString0 (demo_evm (Some "execution reverted")) demo_env demo_state 0 [Some demo_tx] in
  res_Success <$> rs = [false] /\ all_ok = true /\ misses = 0%Z.
Proof. vm_compute. repeat split. Qed.
