(* ===== verification/ReplayInject.v ===== *)
(** * Execution on injected state: [execute_with_state.go] and [sparse_statedb.go]

    The client of the replay daemon keeps the committed state as a map from
    canonical keys to hex values.  [injectStateIntoStateDB] writes such a map into
    a state, [collectWriteValues] reads the written keys back into one, and
    [ExecuteTxWithState] and [ExecuteTxWithDelta] put [PreExecuteTx] between the
    two.  The main theorem is that the two directions agree: what is collected
    from one state and injected into another, in whatever order the map is
    ranged over, is what is collected there.

    [SparseStateDB] answers reads from a block witness and notes the keys that
    the witness does not have. *)
From stdpp Require Import base list gmap strings sorting.
From Stdlib Require Import Ascii ZArith Lia.
From S2P Require Import Prelude RWSet GoText WitnessExport StateDB HexKeys Levm Tracker Replayd.

Set Default Goal Selector "!".
Local Open Scope string_scope.
Local Open Scope list_scope.
Local Notation len := String.length.

(** ** Differences *)
Definition hexToBigInt (hex : string) : Z :=
  if bool_decide (hex = EmptyString) || bool_decide (hex = "0x0") || bool_decide (hex = "0") then 0%Z else default 0%Z (SetString0 hex).
Definition computeWriteDelta (oldValHex newValHex : string) : Z := write_delta (hexToBigInt oldValHex) (hexToBigInt newValHex).

Definition as_text (r : answer) : string := match r with ABytes s => s | _ => EmptyString end.
Definition as_flag (r : answer) : bool := match r with AFlag b => b | _ => false end.

(** The daemon's parser has the text of the other module's. *)
Definition parseCanonicalKey (key : string) : option (string * Address * Hash * string) := parseLevmCanonicalKey key.

Inductive inject_error := BadBalance (val key : string) | BadNonce (val key : string).
Inductive exec_error := NilBaseState | InjectFailed (e : inject_error) | PreExecuteFailed (e : string) | BaseStateNotSet | BlockEnvNotSet.

Section inject.
Context (keccak256 : string -> string).
(** [uint256.Int.SetFromHex] and [uint256.Int.Hex]. *)
Context (SetFromHex : string -> option Z) (Hex256 : Z -> string).
Context {DB : Type} `{StateOps DB}.
Context (rng : gset string -> list string).

(** ** Injecting and collecting *)
Definition inject_entry (sdb : DB) (key valHex : string) : DB + inject_error :=
  match parseCanonicalKey key with
  | None => inl sdb
  | Some (prefix, addr, slot, field) =>
    if decide (prefix = "acct") then
      if decide (field = "balance") then
        match SetFromHex valHex with Some bal => inl (effect sdb (TSetBalance addr bal)) | None => inr (BadBalance valHex key) end
      else if decide (field = "nonce") then
        match SetString0 valHex with Some n => inl (effect sdb (TSetNonce addr (wrap_uint64 (Z.abs n)))) | None => inr (BadNonce valHex key) end
      else if decide (field = "code") then inl (effect sdb (TSetCode addr (FromHex valHex)))
      else if decide (field = "exist") then
        if bool_decide (valHex = EmptyString) || bool_decide (valHex = "0x0") || bool_decide (valHex = "0") then inl sdb
        else let '(sdb, r) := perform sdb (TExist addr) in inl (if as_flag r then sdb else effect sdb (TCreateAccount addr))
      else inl sdb
    else if decide (prefix = "slot") then inl (effect sdb (TSetState addr slot (HexToHash valHex)))
    else inl sdb
  end.

Fixpoint inject_entries (stateMap : gmap string string) (sdb : DB) (keys : list string) : DB + inject_error :=
  match keys with
  | [] => inl sdb
  | key :: keys => match inject_entry sdb key (default EmptyString (stateMap !! key)) with inl sdb => inject_entries stateMap sdb keys | inr e => inr e end
  end.
Definition injectStateIntoStateDB (sdb : DB) (stateMap : gmap string string) : DB + inject_error := inject_entries stateMap sdb (rng (dom stateMap)).

(** The value of one key, if it is one. *)
Definition collect_value (sdb : DB) (key : string) : DB * option string :=
  match parseCanonicalKey key with
  | None => (sdb, None)
  | Some (prefix, addr, slot, field) =>
    if decide (prefix = "acct") then
      if decide (field = "balance") then let '(sdb, r) := perform sdb (TGetBalance addr) in (sdb, Some (Hex256 (as_number r)))
      else if decide (field = "nonce") then let '(sdb, r) := perform sdb (TGetNonce addr) in (sdb, Some (Sprintf_0x (as_number r)))
      else if decide (field = "code") then let '(sdb, r) := perform sdb (TGetCode addr) in (sdb, Some ("0x" +:+ EncodeToString (as_text r)))
      else if decide (field = "exist") then let '(sdb, r) := perform sdb (TExist addr) in (sdb, Some (if as_flag r then "0x1" else "0x0"))
      else (sdb, None)
    else if decide (prefix = "slot") then let '(sdb, r) := perform sdb (TGetState addr slot) in (sdb, Some (Hash_Hex (as_text r)))
    else (sdb, None)
  end.

Fixpoint collect_values (sdb : DB) (out : gmap string string) (writeKeys : list string) : DB * gmap string string :=
  match writeKeys with
  | [] => (sdb, out)
  | key :: writeKeys =>
    let '(sdb, v) := collect_value sdb key in
    collect_values sdb (match v with Some v => <[key := v]> out | None => out end) writeKeys
  end.
Definition collectWriteValues (sdb : DB) (writeKeys : list string) : DB * gmap string string := collect_values sdb ∅ writeKeys.

(** ** The executor *)
Context (IsHomestead IsIstanbul : Z -> bool) (CanTransfer : Address -> Z -> tprog bool) (evm : BlockEnv -> message -> tprog frame_end).
Context (Copy : DB -> DB).

(** The fields of the tracked execution, and those of the written values. *)
Record ExecWithStateResult := mkExecWithState { ews_pre : PreExecResult; ews_WriteValues : gmap string string }.
Record TxWithDeltaResult := mkTxWithDelta { twd_pre : PreExecResult; twd_WriteDelta : gmap string Z; twd_WriteValues : gmap string string }.

Definition ExecuteTxWithState (baseState : option DB) (env : BlockEnv) (txRaw : option raw_tx) (txIdx : Z) (injectedState : gmap string string) : ExecWithStateResult + exec_error :=
  match baseState with
  | None => inr NilBaseState
  | Some base =>
    match injectStateIntoStateDB (Copy base) injectedState with
    | inr e => inr (InjectFailed e)
    | inl cloneState =>
      match pre_execute_tx keccak256 SetFromHex IsHomestead IsIstanbul CanTransfer evm cloneState env txRaw txIdx with
      | (_, inr e) => inr (PreExecuteFailed e)
      | (cloneState, inl preResult) =>
        inl (mkExecWithState preResult (if pre_Success preResult then (collectWriteValues cloneState (pre_WriteKeys preResult)).2 else ∅))
      end
    end
  end.

Definition ExecuteTxWithDelta (baseState : option DB) (env : BlockEnv) (txRaw : option raw_tx) (txIdx : Z) (injectedState : gmap string string) : TxWithDeltaResult + exec_error :=
  match baseState with
  | None => inr NilBaseState
  | Some base =>
    match injectStateIntoStateDB (Copy base) injectedState with
    | inr e => inr (InjectFailed e)
    | inl cloneState =>
      let refState := Copy cloneState in
      match pre_execute_tx keccak256 SetFromHex IsHomestead IsIstanbul CanTransfer evm cloneState env txRaw txIdx with
      | (_, inr e) => inr (PreExecuteFailed e)
      | (cloneState, inl preResult) =>
        inl (if pre_Success preResult then
               let newValues := (collectWriteValues cloneState (pre_WriteKeys preResult)).2 in
               let oldValues := (collectWriteValues refState (pre_WriteKeys preResult)).2 in
               mkTxWithDelta preResult (map_imap (fun key newVal => Some (computeWriteDelta (default EmptyString (oldValues !! key)) newVal)) newValues) newValues
             else mkTxWithDelta preResult ∅ ∅)
      end
    end
  end.

Record TxExecutor := mkTxExecutor { te_baseState : option DB; te_blockEnv : option BlockEnv }.
Definition SetBaseState (te : TxExecutor) (sdb : option DB) : TxExecutor := mkTxExecutor sdb (te_blockEnv te).
Definition SetBlockEnv (te : TxExecutor) (env : option BlockEnv) : TxExecutor := mkTxExecutor (te_baseState te) env.

Definition ExecuteTxWithDeltaDirect (te : TxExecutor) (txRaw : option raw_tx) (txIdx : Z) (injectedState : gmap string string) : TxWithDeltaResult + exec_error :=
  match te_baseState te, te_blockEnv te with
  | None, _ => inr BaseStateNotSet
  | Some _, None => inr BlockEnvNotSet
  | Some base, Some env => ExecuteTxWithDelta (Some base) env txRaw txIdx injectedState
  end.
Definition ExecuteTxWithStateDirect (te : TxExecutor) (txRaw : option raw_tx) (txIdx : Z) (injectedState : gmap string string) : ExecWithStateResult + exec_error :=
  match te_baseState te, te_blockEnv te with
  | None, _ => inr BaseStateNotSet
  | Some _, None => inr BlockEnvNotSet
  | Some base, Some env => ExecuteTxWithState (Some base) env txRaw txIdx injectedState
  end.
End inject.

(** ** [SparseStateDB] *)
Section sparse.
Context (keccak256 : string -> string).

Record SparseStateDB := mkSparse { sp_witness : gmap string (option WitnessAccount); sp_codeStore : gmap string string; sp_missedKeys : gset string }.

Definition NewSparseStateDB : SparseStateDB := mkSparse ∅ ∅ ∅.
Definition LoadWitness (s : SparseStateDB) (witness : option (gmap string (option WitnessAccount))) : SparseStateDB := mkSparse (default ∅ witness) (sp_codeStore s) ∅.
Definition missed (s : SparseStateDB) (key : string) : SparseStateDB := mkSparse (sp_witness s) (sp_codeStore s) ({[key]} ∪ sp_missedKeys s).

(** Every read is on the account under the checksummed address; a [nil] account
    is a nil dereference. *)
Definition on_account {A} (s : SparseStateDB) (addr : Address) (key : string) (absent : A) (f : WitnessAccount -> outcome (SparseStateDB * A)) : outcome (SparseStateDB * A) :=
  match sp_witness s !! Address_Hex keccak256 addr with
  | None => Ret (missed s key, absent)
  | Some None => Panics
  | Some (Some a) => f a
  end.

Definition sparse_GetBalance (s : SparseStateDB) (addr : Address) : outcome (SparseStateDB * option Z) :=
  on_account s addr (acct keccak256 addr "balance") None (fun a => Ret (s, SetString0 (w_Balance a))).
Definition sparse_GetNonce (s : SparseStateDB) (addr : Address) : outcome (SparseStateDB * Z) :=
  on_account s addr (acct keccak256 addr "nonce") 0%Z (fun a => match SetString0 (w_Nonce a) with Some n => Ret (s, wrap_uint64 (Z.abs n)) | None => Panics end).
Definition sparse_GetCode (s : SparseStateDB) (addr : Address) : outcome (SparseStateDB * option string) :=
  match sp_witness s !! Address_Hex keccak256 addr with
  | None => Ret (missed s (acct keccak256 addr "code"), None)
  | Some a =>
    match sp_codeStore s !! Address_Hex keccak256 addr with
    | Some code => Ret (s, Some code)
    | None =>
      match a with
      | None => Panics
      | Some a =>
        if bool_decide (w_Code a = EmptyString) then Ret (s, None)
        else let code := FromHex (w_Code a) in Ret (mkSparse (sp_witness s) (<[Address_Hex keccak256 addr := code]> (sp_codeStore s)) (sp_missedKeys s), Some code)
      end
    end
  end.
Definition sparse_GetState (s : SparseStateDB) (addr : Address) (slot : Hash) : outcome (SparseStateDB * Hash) :=
  on_account s addr (slot_of keccak256 addr slot) zero_hash (fun a =>
    match w_Storage a !! Hash_Hex slot with Some val => Ret (s, HexToHash val) | None => Ret (missed s (slot_of keccak256 addr slot), zero_hash) end).
Definition sparse_Exist (s : SparseStateDB) (addr : Address) : SparseStateDB * bool :=
  match sp_witness s !! Address_Hex keccak256 addr with Some _ => (s, true) | None => (missed s (acct keccak256 addr "exist"), false) end.
Definition GetMissedKeys (rng : gset string -> list string) (s : SparseStateDB) : list string := rng (sp_missedKeys s).
Definition ResetMissed (s : SparseStateDB) : SparseStateDB := mkSparse (sp_witness s) (sp_codeStore s) ∅.
End sparse.

(** ** What is collected is what was injected *)

(** Values a state gives back: typed, as last set, and an account is there once
    something of it is set. *)
Class ValueLaws (DB : Type) `{StateOps DB} : Prop := {
  get_balance : forall db a, exists z, (perform db (TGetBalance a)).2 = ANumber z /\ (0 <= z < two256)%Z;
  get_nonce : forall db a, exists z, (perform db (TGetNonce a)).2 = ANumber z /\ (0 <= z < 2^64)%Z;
  get_code : forall db a, exists c, (perform db (TGetCode a)).2 = ABytes c;
  get_state : forall db a k, exists v, (perform db (TGetState a k)).2 = ABytes v /\ len v = 32;
  get_exist : forall db a, (perform db (TExist a)).2 = AFlag (present db a);
  set_balance : forall db a v, (0 <= v < two256)%Z -> (perform (perform db (TSetBalance a v)).1 (TGetBalance a)).2 = ANumber v;
  set_nonce : forall db a n, (0 <= n < 2^64)%Z -> (perform (perform db (TSetNonce a n)).1 (TGetNonce a)).2 = ANumber n;
  set_code : forall db a c, (perform (perform db (TSetCode a c)).1 (TGetCode a)).2 = ABytes c;
  set_state : forall db a k v, len v = 32 -> (perform (perform db (TSetState a k v)).1 (TGetState a k)).2 = ABytes v;
  set_present : forall db a o, o = TCreateAccount a \/ (exists v, o = TSetBalance a v) \/ (exists n, o = TSetNonce a n) \/ (exists c, o = TSetCode a c) \/ (exists k v, o = TSetState a k v) ->
    present (perform db o).1 a = true }.

Lemma scan_hex0 s : forall a n p w, hex_value a s = Some w ->
  scan_digits true 16 a n p false s = mkScan w (n + len s) (match s with EmptyString => p | _ => Digit end) false EmptyString.
Proof.
  induction s as [|c s IH]; intros a n p w Hw; cbn [scan_digits String.length]; cbn [hex_value] in Hw.
  - injection Hw as ->. by rewrite Nat.add_0_r.
  - destruct (hex_val c) as [d|] eqn:Ec; [|done]. destruct (digit_value_hex _ _ Ec) as [-> Hd].
    destruct (Ascii.eqb_spec c "_"%char) as [->|_]; [done|]. cbn [andb]. rewrite bool_decide_false by lia. rewrite (IH _ _ _ w Hw). f_equal; [lia|]. by destruct s.
Qed.

Lemma SetString0_text z : (0 <= z)%Z -> SetString0 (Sprintf_0x z) = Some z.
Proof.
  intros Hz. pose proof (hex_text_value z Hz) as Hv. pose proof (hex_text_pos z) as Hl. unfold SetString0, Sprintf_0x.
  change ("0x" +:+ hex_text z) with (String "0"%char (String "x"%char (hex_text z))). cbn [scan_sign scan_prefix].
  change (Ascii.eqb (lower_char "x"%char) "b"%char) with false. change (Ascii.eqb (lower_char "x"%char) "o"%char) with false. change (Ascii.eqb (lower_char "x"%char) "x"%char) with true. cbv iota beta.
  rewrite (scan_hex0 _ _ _ _ z Hv). cbn [scan_rest scan_count scan_prev invalSep scan_value]. destruct (hex_text z); [cbn in Hl; lia|]. done.
Qed.

Section keys.
Context (keccak256 : string -> string).

(** Cells that canonical keys name: of 20-byte addresses and 32-byte slots. *)
Definition named (c : cellname) : bool :=
  match c with
  | CBalance a | CNonce a | CCode a | CExist a => bool_decide (len a = 20)
  | CSlot a k => bool_decide (len a = 20) && bool_decide (len k = 32)
  | _ => false
  end.

(** What the parser makes of the key of a cell. *)
Definition parts (c : cellname) : string * Address * Hash * string :=
  match c with
  | CBalance a => ("acct", a, zero_hash, "balance") | CNonce a => ("acct", a, zero_hash, "nonce") | CCode a => ("acct", a, zero_hash, "code")
  | CExist a => ("acct", a, zero_hash, "exist") | CSlot a k => ("slot", a, k, EmptyString)
  | _ => (EmptyString, EmptyString, EmptyString, EmptyString)
  end.

Lemma with_0x_0x s : with_0x ("0x" +:+ s) = "0x" +:+ s.
Proof. unfold with_0x. by destruct s. Qed.

Lemma parse_acct a f : len a = 20 -> parseCanonicalKey (acct keccak256 a f) = Some ("acct", a, zero_hash, f).
Proof.
  intros Ha. unfold parseCanonicalKey, parseLevmCanonicalKey, acct, AcctKey. assert (with_0x (ToLower (Address_Hex keccak256 a)) = "0x" +:+ EncodeToString a) as ->.
  { unfold Address_Hex. cbv zeta. rewrite ToLower_append, ToLower_checksum. apply with_0x_0x. }
  assert (SplitN ":" 3 ("acct:" +:+ ("0x" +:+ EncodeToString a) +:+ ":" +:+ f) = ["acct"; "0x" +:+ EncodeToString a; f]) as ->.
  { change ("acct:" +:+ ?x) with ("acct" +:+ String ":"%char x). cbn [SplitN]. change (":" +:+ ?x) with (String ":"%char x).
    rewrite cut_append by (intros Hc; repeat (apply elem_of_cons in Hc as [Hc|Hc]; [discriminate Hc|]); by apply elem_of_nil in Hc).
    rewrite cut_append; [done|]. fold (no_colon ("0x" +:+ EncodeToString a)). apply no_colon_append. split; [|apply Encode_no_colon]. unfold no_colon. cbn. set_solver. }
  rewrite decide_True by done. unfold HexToAddress. by rewrite FromHex_Encode, BytesToAddress_id.
Qed.

Lemma slot_levmKey a k : slot_of keccak256 a k = levmKey keccak256 a k.
Proof.
  rewrite levmKey_text. unfold slot_of, SlotKey, Hash_Hex. assert (ToLower ("0x" +:+ EncodeToString k) = "0x" +:+ EncodeToString k) as ->.
  { rewrite ToLower_append. f_equal. by rewrite <- (ToLower_checksum (keccak256 EmptyString) k 0), ToLower_idem. }
  unfold Address_Hex. cbv zeta. rewrite ToLower_append, ToLower_checksum. by rewrite !with_0x_0x.
Qed.

Lemma parse_key c k : named c = true -> key_of_cell keccak256 c = Some k -> parseCanonicalKey k = Some (parts c).
Proof.
  destruct c as [a|a|a|a|a|a s|a s|a|]; cbn [named key_of_cell parts]; try done; intros Hn [= <-]; rewrite ?andb_true_iff, ?bool_decide_eq_true in Hn; try by apply parse_acct.
  destruct Hn. rewrite slot_levmKey. by apply parse_levmKey.
Qed.

Lemma parts_inj c c' : named c = true -> named c' = true -> parts c = parts c' -> c = c'.
Proof. destruct c, c'; cbn; try done; intros _ _ [=]; by subst. Qed.
End keys.

Section roundtrip.
Context (keccak256 : string -> string) (SetFromHex : string -> option Z) (Hex256 : Z -> string).
Context {DB : Type} `{StateOps DB} {Laws : StateLaws (DB := DB)} {Values : ValueLaws DB}.
Context (rng : gset string -> list string) (Hrng : range_ok rng).
Context (Hhex : forall z, (0 <= z < two256)%Z -> SetFromHex (Hex256 z) = Some z).

(** The text of a cell. *)
Definition value_at (db : DB) (c : cellname) : string :=
  match c with
  | CBalance a => Hex256 (as_number (perform db (TGetBalance a)).2)
  | CNonce a => Sprintf_0x (as_number (perform db (TGetNonce a)).2)
  | CCode a => "0x" +:+ EncodeToString (as_text (perform db (TGetCode a)).2)
  | CExist a => if as_flag (perform db (TExist a)).2 then "0x1" else "0x0"
  | CSlot a k => Hash_Hex (as_text (perform db (TGetState a k)).2)
  | _ => EmptyString
  end.

(** Keys whose values a client can overwrite with: canonical, and of an account
    that exists where it is the existence that was written. *)
Definition writable (db : DB) (k : string) : Prop :=
  exists c, named c = true /\ key_of_cell keccak256 c = Some k /\ forall a, c = CExist a -> present db a = true.

(** Cells of accounts that are there. *)
Definition kept (db : DB) (c : cellname) : Prop :=
  match c with
  | CBalance a | CNonce a | CCode a | CExist a | CDestructed a | CSlot a _ | CCommitted a _ | CRoot a => present db a = true
  | CRest => True
  end.

Lemma value_at_look db db' c : named c = true -> look db c = look db' c -> value_at db c = value_at db' c.
Proof.
  intros Hn E. assert (forall o, depends o = (fun x => x = c) -> allowed db o -> allowed db' o -> used o = id -> (perform db o).2 = (perform db' o).2) as Ho.
  { intros o Hd Ha Ha' Hu. destruct (law_local db db' o Ha Ha') as [Er _]; [rewrite Hd; by intros x ->|]. by rewrite Hu in Er. }
  destruct c as [a|a|a|a|a|a k|a k|a|]; cbn [named] in Hn; try done; cbn [value_at].
  - by rewrite (Ho (TGetBalance a)).
  - by rewrite (Ho (TGetNonce a)).
  - by rewrite (Ho (TGetCode a)).
  - by rewrite (Ho (TExist a)).
  - by rewrite (Ho (TGetState a k)).
Qed.

Lemma collect_value_named db c k : named c = true -> key_of_cell keccak256 c = Some k ->
  (collect_value Hex256 db k).2 = Some (value_at db c) /\ forall c', look (collect_value Hex256 db k).1 c' = look db c'.
Proof.
  intros Hn Hk. unfold collect_value. rewrite (parse_key keccak256 c k Hn Hk). destruct c as [a|a|a|a|a|a s|a s|a|]; cbn [named] in Hn; try done; cbn [parts value_at]; repeat (case_decide; try done).
  all: match goal with |- context [perform ?db ?o] => pose proof (fun c' => law_frame db o c' I (fun x => x)) as Hf; destruct (perform db o) as [d r] end; done.
Qed.

Lemma collect_values_named keys : Forall (fun k => exists c, named c = true /\ key_of_cell keccak256 c = Some k) keys -> forall db0 db out, (forall c, look db c = look db0 c) ->
  forall k, (k ∉ keys -> (collect_values Hex256 db out keys).2 !! k = out !! k) /\
    forall c, k ∈ keys -> named c = true -> key_of_cell keccak256 c = Some k -> (collect_values Hex256 db out keys).2 !! k = Some (value_at db0 c).
Proof.
  induction 1 as [|key keys (c0 & Hn0 & Hk0) _ IH]; intros db0 db out Hl k; cbn [collect_values]; [split; [done|by intros c ?%elem_of_nil]|].
  destruct (collect_value_named db c0 key Hn0 Hk0) as [Ev El]. destruct (collect_value Hex256 db key) as [d v]. cbn [fst snd] in *. subst v.
  destruct (IH db0 d (<[key := value_at db c0]> out) ltac:(intros c; by rewrite El) k) as [H1 H2]. split.
  - intros [Hne Hnk]%not_elem_of_cons. rewrite H1 by done. by rewrite lookup_insert_ne.
  - intros c Hin Hn Hk. destruct (decide (k ∈ keys)) as [Hi|Hi]; [by apply H2|]. rewrite H1 by done. apply elem_of_cons in Hin as [-> |?]; [|done].
    rewrite lookup_insert_eq. f_equal. assert (c0 = c) as ->; [|by apply value_at_look].
    apply parts_inj; [done..|]. pose proof (parse_key keccak256 c0 key Hn0 Hk0) as P0. rewrite (parse_key keccak256 c key Hn Hk) in P0. by injection P0.
Qed.

(** An operation that sets one cell of an account. *)
Lemma set_kept db o c c' : allowed db o -> (touches o c' -> c' = c \/ exists a, c' = CExist a) -> c' <> c -> kept db c' -> look (perform db o).1 c' = look db c'.
Proof.
  intros Ha Ht Hne Hk. destruct (decide (touches o c')) as [Hx|Hx]; [|by apply law_frame]. destruct (Ht Hx) as [?|[a ->]]; [done|].
  cbn in Hk. cbn. by rewrite Hk, (law_stays db o a Hk).
Qed.

Record injected (db db' src : DB) (c : cellname) : Prop := {
  inj_value : value_at db' c = value_at src c;
  inj_kept : kept db' c;
  inj_stays : forall a, present db a = true -> present db' a = true;
  inj_frame : forall c', c' <> c -> kept db c' -> look db' c' = look db c' }.

Lemma set_injected db src o c a : allowed db o -> (forall c', touches o c' -> c' = c \/ c' = CExist a) -> present (perform db o).1 a = true ->
  (forall d, present d a = true -> kept d c) -> value_at (perform db o).1 c = value_at src c -> injected db (perform db o).1 src c.
Proof.
  intros Ha Ht Hp Hk Hv. split; [done|by apply Hk|by apply law_stays|]. intros c' Hne Hc. apply (set_kept db o c c'); [done| |done|done].
  intros Hx. destruct (Ht c' Hx) as [?| ->]; [by left|right; by eexists].
Qed.

Lemma inject_balance db src a : injected db (perform db (TSetBalance a (as_number (perform src (TGetBalance a)).2))).1 src (CBalance a).
Proof.
  destruct (get_balance src a) as (z & E & Hz). apply (set_injected _ _ _ _ a); [done|done| |done|]; [apply set_present; eauto|].
  cbn [value_at]. rewrite E. cbn [as_number]. by rewrite set_balance.
Qed.
Lemma inject_nonce db src a : injected db (perform db (TSetNonce a (as_number (perform src (TGetNonce a)).2))).1 src (CNonce a).
Proof.
  destruct (get_nonce src a) as (z & E & Hz). apply (set_injected _ _ _ _ a); [done|done| |done|]; [apply set_present; eauto|].
  cbn [value_at]. rewrite E. cbn [as_number]. by rewrite set_nonce.
Qed.
Lemma inject_code db src a : injected db (perform db (TSetCode a (as_text (perform src (TGetCode a)).2))).1 src (CCode a).
Proof.
  destruct (get_code src a) as (z & E). apply (set_injected _ _ _ _ a); [done|done| |done|]; [apply set_present; eauto 6|].
  cbn [value_at]. rewrite E. cbn [as_text]. by rewrite set_code.
Qed.
Lemma inject_slot db src a k : injected db (perform db (TSetState a k (as_text (perform src (TGetState a k)).2))).1 src (CSlot a k).
Proof.
  destruct (get_state src a k) as (z & E & Hz). apply (set_injected _ _ _ _ a); [done|done| |done|]; [apply set_present; eauto 8|].
  cbn [value_at]. rewrite E. cbn [as_text]. by rewrite set_state.
Qed.

Lemma value_exist db a : value_at db (CExist a) = if present db a then "0x1" else "0x0".
Proof. cbn [value_at]. by rewrite get_exist. Qed.

(** An account that is absent is created, which resets nothing that is there. *)
Lemma inject_exist db src a : present src a = true ->
  injected db (let '(d, r) := perform db (TExist a) in if as_flag r then d else effect d (TCreateAccount a)) src (CExist a).
Proof.
  intros Hs. pose proof (fun c' => law_frame db (TExist a) c' I (fun x => x)) as Hf. pose proof (get_exist db a) as He. destruct (perform db (TExist a)) as [d r]. cbn [fst snd] in *. subst r. cbn [as_flag].
  assert (forall x, present d x = present db x) as Hp by (intros x; apply present_look, Hf). destruct (present db a) eqn:Ea.
  - split; [by rewrite !value_exist, Hs, Hp, Ea|cbn; by rewrite Hp|intros x; by rewrite Hp|by intros c' _ _].
  - unfold effect. assert (allowed d (TCreateAccount a)) as Hal by (cbn; by rewrite Hp).
    assert (present (perform d (TCreateAccount a)).1 a = true) as Hc by (apply set_present; by left).
    split; [by rewrite !value_exist, Hs, Hc|done|intros x Hx; apply law_stays; by rewrite Hp|]. intros c' _ Hk. rewrite <- Hf. apply law_frame; [done|].
    cbn [touches]. intros Ht. destruct c'; cbn [kept] in Hk; destruct_or!; simplify_eq; congruence.
Qed.

Lemma inject_entry_named db src c k : named c = true -> key_of_cell keccak256 c = Some k -> (forall a, c = CExist a -> present src a = true) ->
  exists db', inject_entry SetFromHex db k (value_at src c) = inl db' /\ injected db db' src c.
Proof.
  intros Hn Hk Hx. unfold inject_entry. rewrite (parse_key keccak256 c k Hn Hk). destruct c as [a|a|a|a|a|a s|a s|a|]; cbn [named] in Hn; try done; cbn [parts]; [..|assert (value_at src (CExist a) = "0x1") as -> by by rewrite value_exist, (Hx a eq_refl)|]; repeat (case_decide; try done).
  - destruct (get_balance src a) as (z & E & Hz). cbn [value_at]. rewrite E. cbn [as_number]. rewrite Hhex by done. eexists. split; [reflexivity|]. pose proof (inject_balance db src a) as Hi. by rewrite E in Hi.
  - destruct (get_nonce src a) as (z & E & Hz). cbn [value_at]. rewrite E. cbn [as_number]. rewrite SetString0_text by lia. rewrite Z.abs_eq, wrap_uint64_id by lia.
    eexists. split; [reflexivity|]. pose proof (inject_nonce db src a) as Hi. by rewrite E in Hi.
  - cbn [value_at]. rewrite FromHex_Encode. eexists. split; [reflexivity|]. apply inject_code.
  - pose proof (inject_exist db src a (Hx a eq_refl)) as Hi. cbn [orb]. destruct (perform db (TExist a)) as [d r]. by eexists.
  - destruct (get_state src a s) as (z & E & Hz). cbn [value_at]. eexists. split; [reflexivity|]. unfold HexToHash, Hash_Hex. rewrite FromHex_Encode, E. cbn [as_text]. rewrite BytesToHash_id by done.
    pose proof (inject_slot db src a s) as Hi. by rewrite E in Hi.
Qed.

Lemma inject_entries_ok src m l : NoDup l ->
  (forall k, k ∈ l -> exists c, named c = true /\ key_of_cell keccak256 c = Some k /\ (forall a, c = CExist a -> present src a = true) /\ m !! k = Some (value_at src c)) ->
  forall db, exists db', inject_entries SetFromHex m db l = inl db' /\ (forall a, present db a = true -> present db' a = true) /\
    (forall c k, k ∈ l -> named c = true -> key_of_cell keccak256 c = Some k -> value_at db' c = value_at src c) /\
    (forall c, kept db c -> (forall k, key_of_cell keccak256 c = Some k -> k ∉ l) -> look db' c = look db c).
Proof.
  induction 1 as [|key l Hnin Hnd IH]; intros Hm db; cbn [inject_entries]; [exists db; repeat split; try done; by intros c k ?%elem_of_nil|].
  destruct (Hm key ltac:(by left)) as (c0 & Hn0 & Hk0 & Hx0 & ->). change (default EmptyString (Some ?x)) with x.
  destruct (inject_entry_named db src c0 key Hn0 Hk0 Hx0) as (d & -> & [Hv Hkd Hs Hf]).
  destruct (IH ltac:(intros k Hk; apply Hm; by right) d) as (db' & -> & Hs' & Hv' & Hf'). exists db'. split; [done|]. split; [by auto|]. split.
  - intros c k Hin Hn Hk. apply elem_of_cons in Hin as [-> |Hin]; [|by eapply Hv'].
    assert (c = c0) as ->. { apply parts_inj; [done..|]. pose proof (parse_key keccak256 c0 key Hn0 Hk0) as P0. rewrite (parse_key keccak256 c key Hn Hk) in P0. by injection P0. }
    rewrite <- Hv. apply value_at_look; [done|]. apply Hf'; [done|]. intros k Hk'. rewrite Hk0 in Hk'. by injection Hk' as <-.
  - intros c Hc Hno. assert (c <> c0) as Hne. { intros ->. by destruct (Hno key Hk0); left. }
    rewrite Hf'; [by apply Hf| |intros k Hk Hin; apply (Hno k Hk); by right]. destruct c; cbn [kept] in *; by auto.
Qed.

(** C23: values collected from one state and injected into another, in whatever order
    the map is ranged over, are accepted and are what is collected there
    afterwards; a cell of an account that was there and whose key is not in the
    map keeps its value. *)
Theorem inject_collect_roundtrip base src keys : Forall (writable src) keys ->
  let vals := (collectWriteValues Hex256 src keys).2 in
  exists base', injectStateIntoStateDB SetFromHex rng base vals = inl base' /\ (collectWriteValues Hex256 base' keys).2 = vals /\
    forall c, kept base c -> (forall k, key_of_cell keccak256 c = Some k -> k ∉ keys) -> look base' c = look base c.
Proof.
  intros Hw vals. assert (Forall (fun k => exists c, named c = true /\ key_of_cell keccak256 c = Some k) keys) as Hn.
  { eapply Forall_impl; [exact Hw|]. intros k (c & ? & ? & _). by exists c. }
  pose proof (collect_values_named keys Hn src src ∅ (fun _ => eq_refl)) as Hvals. fold (collectWriteValues Hex256 src keys) in Hvals. fold vals in Hvals.
  assert (forall k, k ∈ dom vals <-> k ∈ keys) as Hdom.
  { intros k. rewrite elem_of_dom. destruct (Hvals k) as [H1 H2]. split; [intros [v Hv]; destruct (decide (k ∈ keys)); [done|]; by rewrite H1 in Hv|].
    intros Hk. rewrite Forall_forall in Hn. destruct (Hn k Hk) as (c & Hc & Hkc). by rewrite (H2 c Hk Hc Hkc). }
  destruct (inject_entries_ok src vals (rng (dom vals)) (range_ok_nodup _ _ Hrng)) with (db := base) as (base' & Hi & _ & Hv & Hf).
  { intros k Hk. rewrite (range_ok_elem _ _ _ Hrng), Hdom in Hk. rewrite Forall_forall in Hw. destruct (Hw k Hk) as (c & Hc & Hkc & Hx). exists c. repeat split; try done. by apply Hvals. }
  exists base'. split; [done|]. split.
  - apply map_eq. intros k. destruct (collect_values_named keys Hn base' base' ∅ (fun _ => eq_refl) k) as [H1 H2], (Hvals k) as [H3 H4]. unfold collectWriteValues.
    destruct (decide (k ∈ keys)) as [Hk|Hk]; [|by rewrite H1, H3]. rewrite Forall_forall in Hn. destruct (Hn k Hk) as (c & Hc & Hkc).
    rewrite (H2 c Hk Hc Hkc), (H4 c Hk Hc Hkc). f_equal. apply (Hv c k); [|done|done]. by rewrite (range_ok_elem _ _ _ Hrng), Hdom.
  - intros c Hc Hno. apply Hf; [done|]. intros k Hk. rewrite (range_ok_elem _ _ _ Hrng), Hdom. by apply Hno.
Qed.
End roundtrip.

(** ** An instance, and examples *)
Lemma put_same f c v : put f c v c = v.
Proof. unfold put. by rewrite decide_True. Qed.

Lemma hash_length b : len (BytesToHash b) = 32.
Proof.
  unfold BytesToHash. cbv zeta. rewrite length_append, length_zeros, length_drop. lia.
Qed.

#[export] Instance map_values : ValueLaws mapdb.
Proof.
  split; intros; cbn [perform map_ops map_perform fst snd fields set_field].
  - eexists. split; [reflexivity|]. by apply Z.mod_pos_bound.
  - eexists. split; [reflexivity|]. apply wrap_uint64_range.
  - by eexists.
  - eexists. split; [reflexivity|]. apply hash_length.
  - done.
  - rewrite put_same. unfold number, word. rewrite SetBytes_FillBytes. change (256 ^ Z.of_nat 32)%Z with two256. by rewrite !Z.mod_small by (rewrite ?Z.mod_small; done).
  - rewrite put_same. unfold number, word. rewrite SetBytes_FillBytes. change (256 ^ Z.of_nat 32)%Z with two256. rewrite Z.mod_small by (unfold two256; lia). by rewrite wrap_uint64_id.
  - by rewrite put_same.
  - by rewrite put_same, BytesToHash_id.
  - destruct_or!; destruct_and?; repeat match goal with H : exists _, _ |- _ => destruct H as [? H] end; subst; cbn; apply bool_decide_eq_true; set_solver.
Qed.

Lemma hexToBigInt_text z : (0 <= z)%Z -> hexToBigInt (Sprintf_0x z) = z.
Proof.
  intros Hz. unfold hexToBigInt. destruct (bool_decide _ || bool_decide _ || bool_decide _) eqn:E; [|by rewrite SetString0_text].
  rewrite !orb_true_iff, !bool_decide_eq_true in E. destruct E as [[E|E]|E]; [done| |done]. pose proof (SetString0_text z Hz) as Ht. rewrite E in Ht. by injection Ht.
Qed.

(** The reported difference is the signed 256-bit one. *)
Lemma computeWriteDelta_exact old new : (0 <= old < two256)%Z -> (0 <= new < two256)%Z ->
  (- two255 <= computeWriteDelta (Sprintf_0x old) (Sprintf_0x new) < two255)%Z /\ ((old + computeWriteDelta (Sprintf_0x old) (Sprintf_0x new)) `mod` two256 = new)%Z.
Proof. intros Ho Hn. unfold computeWriteDelta. rewrite !hexToBigInt_text by lia. by apply write_delta_spec. Qed.

(** A parser of [uint256] texts. *)
Definition demo_SetFromHex (s : string) : option Z := match SetString0 s with Some z => if bool_decide (0 <= z < two256)%Z then Some z else None | None => None end.
Lemma demo_hex z : (0 <= z < two256)%Z -> demo_SetFromHex (Sprintf_0x z) = Some z.
Proof. intros Hz. unfold demo_SetFromHex. rewrite SetString0_text by lia. by rewrite bool_decide_true. Qed.

Definition empty_state : mapdb := mkMapdb ∅ (fun _ => EmptyString) [].
Definition demo_keys : list string := [acct no_keccak (HexToAddress "0xaa") "balance"; acct no_keccak (HexToAddress "0xaa") "exist"; slot_of no_keccak (HexToAddress "0xbb") (HexToHash "0x1")].

Lemma inject_collect_roundtrip_witness :
  let vals := (collectWriteValues Sprintf_0x demo_state demo_keys).2 in
  vals !! acct no_keccak (HexToAddress "0xaa") "balance" = Some "0x186a0" /\
  exists base', injectStateIntoStateDB demo_SetFromHex elements empty_state vals = inl base' /\ (collectWriteValues Sprintf_0x base' demo_keys).2 = vals.
Proof.
  split; [vm_compute; reflexivity|].
  destruct (inject_collect_roundtrip no_keccak demo_SetFromHex Sprintf_0x (DB := mapdb) elements range_ok_elements demo_hex empty_state demo_state demo_keys) as (base' & E & Ev & _).
  - repeat constructor; [exists (CBalance (HexToAddress "0xaa"))|exists (CExist (HexToAddress "0xaa"))|exists (CSlot (HexToAddress "0xbb") (HexToHash "0x1"))];
      (split; [vm_compute; reflexivity|]); (split; [reflexivity|]); intros a Ha; try discriminate Ha. injection Ha as <-. vm_compute. reflexivity.
  - exists base'. split; [exact E|exact Ev].
Defined.

(** A sparse state keeps the code of the witness before: the store of decoded codes
    is not cleared with the witness. *)
Definition coded (code : string) : option (gmap string (option WitnessAccount)) := Some {[Address_Hex no_keccak (HexToAddress "0xaa") := Some (WitnessExport.mkWitnessAccount "0x0" "0x0" EmptyString code ∅)]}.
Lemma stale_code :
  (s ← sparse_GetCode no_keccak (LoadWitness NewSparseStateDB (coded "0x6001")) (HexToAddress "0xaa");
   r ← sparse_GetCode no_keccak (LoadWitness s.1 (coded "0x6002")) (HexToAddress "0xaa"); Ret r.2) = Ret (Some (FromHex "0x6001")).
Proof. vm_compute. reflexivity. Qed.

(** The balance of an absent account is noted as missed, under its canonical key. *)
Lemma sparse_balance_missed keccak256 s a : sp_witness s !! Address_Hex keccak256 a = None ->
  exists s', sparse_GetBalance keccak256 s a = Ret (s', None) /\ sp_missedKeys s' = {[acct keccak256 a "balance"]} ∪ sp_missedKeys s.
Proof. intros E. unfold sparse_GetBalance, on_account. rewrite E. by eexists. Qed.

(** A nonce that does not parse stops the process. *)
Lemma sparse_nonce_panics keccak256 s a acc : sp_witness s !! Address_Hex keccak256 a = Some (Some acc) -> SetString0 (w_Nonce acc) = None -> sparse_GetNonce keccak256 s a = Panics.
Proof. intros E En. unfold sparse_GetNonce, on_account. by rewrite E, En. Qed.
